(** * The multipass daemon: instance lifecycle manager

    A shallow embedding of [src/daemon/daemon.cpp]: the persistence codec
    ([load_db], [vm_spec_to_json]), the MAC allocator, the selection
    engine, the start state machine, reboot, umount, the creation pipeline
    and the start-up reconciliation, with the properties the daemon's
    specification states about them.

    Conventions.  C++ exceptions are the [Throw] results of the [Exc]
    monad; collaborators that live outside the daemon (hypervisor back-end,
    image vault, mount handlers, random generators) are oracles: either a
    scripted stream or a record of outcomes handed to the function.
    [std::unordered_map] and [std::unordered_set] keyed by strings are
    stdpp's [gmap string] and [gset string]. *)

From Stdlib Require Import ZArith String Ascii List Bool Lia.
From Stdlib Require Import DecimalString DecimalPos DecimalN OrderedTypeEx.
From stdpp Require Import base option list gmap sets strings fin_maps fin_sets.

#[local] Set Warnings "-clear-no-such-hyp".

(** ** Status codes, statuses and exceptions *)

(** [grpc::StatusCode]; [OK] is the only code that converts to [false]. *)
Inductive StatusCode :=
| OK | CANCELLED | UNKNOWN | INVALID_ARGUMENT | DEADLINE_EXCEEDED | NOT_FOUND
| ALREADY_EXISTS | PERMISSION_DENIED | RESOURCE_EXHAUSTED | FAILED_PRECONDITION
| ABORTED | OUT_OF_RANGE | UNIMPLEMENTED | INTERNAL | UNAVAILABLE | DATA_LOSS
| UNAUTHENTICATED.

#[global] Instance StatusCode_eq_dec : EqDecision StatusCode.
Proof. solve_decision. Defined.

(** [grpc::Status]: code, message, details. *)
Record Status := mkStatus {
  error_code : StatusCode;
  error_message : string;
  error_details : string
}.

Definition Status_OK : Status := mkStatus OK "" "".

Definition ok (st : Status) : bool := bool_decide (error_code st = OK).

(** The exception classes the daemon throws or catches by name.
    [CreateImageException] and [StartException] derive from
    [std::runtime_error]; [other_exception] stands for a [std::exception]
    that is not a [std::runtime_error]. *)
Inductive exception :=
| runtime_error (what : string)
| CreateImageException (what : string)
| StartException (name what : string)
| InvalidMemorySizeException (what : string)
| other_exception (what : string).

Definition what (e : exception) : string :=
  match e with
  | runtime_error w | CreateImageException w | StartException _ w
  | InvalidMemorySizeException w | other_exception w => w
  end.

(** [catch (const std::runtime_error&)] matches the class and its
    subclasses. *)
Definition is_runtime_error (e : exception) : bool :=
  match e with
  | runtime_error _ | CreateImageException _ | StartException _ _
  | InvalidMemorySizeException _ => true
  | other_exception _ => false
  end.

(** Result of a computation that may throw. *)
Inductive Exc (A : Type) :=
| Return (a : A)
| Throw (e : exception).
Arguments Return {A} a.
Arguments Throw {A} e.

(** Sequencing: an exception skips the rest.  With these instances the
    notation [x ← c; k] reads as the statement sequence of the source. *)
#[global] Instance Exc_ret : MRet Exc := fun A a => Return a.
#[global] Instance Exc_bind : MBind Exc := fun A B f x =>
  match x with
  | Return a => f a
  | Throw e => Throw e
  end.

(** ** Name generation: [name_from] *)

(** [mp::NameGenerator]: a deterministic generator is the stream of the
    names it emits and the position reached. *)
Record NameGenerator := mkNameGen {
  names : nat -> string;
  emitted : nat
}.

Definition make_name (g : NameGenerator) : string * NameGenerator :=
  (names g (emitted g), mkNameGen (names g) (S (emitted g))).

Definition num_retries : nat := 100.

(** The [for] loop of [name_from], [n] iterations left: the candidate
    [name] is the loop-invariant local of the enclosing block. *)
Fixpoint name_retry {V} (n : nat) (name : string)
    (currently_used_names : gmap string V) : Exc string :=
  match n with
  | O => Throw (runtime_error "unable to generate a unique name")
  | S n' =>
      match currently_used_names !! name with
      | Some _ => name_retry n' name currently_used_names   (* continue *)
      | None => Return name
      end
  end.

Definition name_from {V} (requested_name blueprint_name : string)
    (name_gen : NameGenerator) (currently_used_names : gmap string V)
  : Exc string * NameGenerator :=
  if negb (String.eqb requested_name "") then (Return requested_name, name_gen)
  else if negb (String.eqb blueprint_name "") then (Return blueprint_name, name_gen)
  else
    let '(name, name_gen') := make_name name_gen in
    (name_retry num_retries name currently_used_names, name_gen').

(** The generator of the scenario: it emits a, b, c, d and then keeps
    emitting d. *)
Definition gen_abcd : NameGenerator :=
  mkNameGen (fun i => nth i ["a"; "b"; "c"] "d") 0.

Definition operative_abc : gmap string unit :=
  <["a" := tt]> (<["b" := tt]> (<["c" := tt]> ∅)).

(** ** Decimal rendering of integers ([QString::number], [fmt] of an int) *)

Definition string_of_N (n : N) : string :=
  NilZero.string_of_uint (N.to_uint n).

Definition N_of_string (s : string) : option N :=
  option_map N.of_uint (NilZero.uint_of_string s).

Definition string_of_Z (z : Z) : string :=
  match z with
  | Zneg p => "-" +:+ string_of_N (Npos p)
  | _ => string_of_N (Z.to_N z)
  end.

(** ** JSON values ([QJsonValue], [QJsonObject], [QJsonArray])

    A [QJsonObject] keeps its members sorted by key, one member per key.
    Numbers are the whole numbers; [toInt] answers its default, 0, outside
    the range of [int]. *)

#[warnings="-register-all"] Inductive QJsonValue :=
| JNull
| JBool (b : bool)
| JNumber (z : Z)
| JString (s : string)
| JArray (a : list QJsonValue)
| JObject (o : list (string * QJsonValue)).

Abbreviation QJsonObject := (list (string * QJsonValue)).
Abbreviation QJsonArray := (list QJsonValue).

Definition INT_MIN : Z := - 2 ^ 31.
Definition INT_MAX : Z := 2 ^ 31 - 1.

Definition toInt (v : QJsonValue) : Z :=
  match v with
  | JNumber z => if (INT_MIN <=? z)%Z && (z <=? INT_MAX)%Z then z else 0%Z
  | _ => 0%Z
  end.

Definition toBool (v : QJsonValue) : bool :=
  match v with JBool b => b | _ => false end.

Definition toString (v : QJsonValue) : string :=
  match v with JString s => s | _ => "" end.

Definition toArray (v : QJsonValue) : QJsonArray :=
  match v with JArray a => a | _ => [] end.

Definition toObject (v : QJsonValue) : QJsonObject :=
  match v with JObject o => o | _ => [] end.

(** [QJsonObject::find]: the member with this key, if any. *)
Fixpoint obj_find {V} (o : list (string * V)) (key : string) : option V :=
  match o with
  | [] => None
  | (k, v) :: o' => if String.eqb k key then Some v else obj_find o' key
  end.

(** [object[key]]: a missing member reads as null, and null converts like
    a value of the wrong type. *)
Definition obj_value (o : QJsonObject) (key : string) : QJsonValue :=
  match obj_find o key with Some v => v | None => JNull end.

Definition obj_contains (o : QJsonObject) (key : string) : bool :=
  match obj_find o key with Some _ => true | None => false end.

Definition obj_isEmpty (o : QJsonObject) : bool :=
  match o with [] => true | _ => false end.

(** [QJsonObject::insert]: replaces the member with the same key, else
    puts the new member at its place in key order. *)
Fixpoint obj_insert {V} (key : string) (v : V) (o : list (string * V))
  : list (string * V) :=
  match o with
  | [] => [(key, v)]
  | (k', v') :: o' =>
      match String.compare key k' with
      | Eq => (key, v) :: o'
      | Lt => (key, v) :: o
      | Gt => (k', v') :: obj_insert key v o'
      end
  end.

(** ** The data model: interfaces, mounts, instance specifications *)

(** [mp::NetworkInterface]. *)
Record NetworkInterface := mkNetworkInterface {
  id : string;
  mac_address : string;
  auto_mode : bool
}.

(** [mp::id_mappings]: a vector of (host id, instance id) pairs. *)
Abbreviation id_mappings := (list (Z * Z)).

(** [mp::VMMount].  [mount_type] is the integer under the enumeration
    [MountType] (Classic = 0, Native = 1), which is what [load_db] casts
    into it and [vm_spec_to_json] casts out of it. *)
Record VMMount := mkVMMount {
  source_path : string;
  gid_mappings : id_mappings;
  uid_mappings : id_mappings;
  mount_type : Z
}.

(** [mp::VirtualMachine::State], in the order of its declaration. *)
Inductive State :=
| off | stopped | starting | restarting | running | delayed_shutdown
| suspending | suspended | unknown.

#[global] Instance State_eq_dec : EqDecision State.
Proof. solve_decision. Defined.

(** [static_cast<int>(state)]. *)
Definition state_code (s : State) : Z :=
  match s with
  | off => 0 | stopped => 1 | starting => 2 | restarting => 3 | running => 4
  | delayed_shutdown => 5 | suspending => 6 | suspended => 7 | unknown => 8
  end%Z.

(** [mp::utils::is_running]. *)
Definition is_running (s : State) : bool :=
  match s with
  | starting | restarting | running | delayed_shutdown => true
  | _ => false
  end.

(** [mp::VMSpecs].  [state] holds the integer under the enumeration: the
    codec casts whatever integer the document carries. *)
Record VMSpecs := mkVMSpecs {
  num_cores : Z;
  mem_size : Z;
  disk_space : Z;
  default_mac_address : string;
  extra_interfaces : list NetworkInterface;
  ssh_username : string;
  state : Z;
  mounts : gmap string VMMount;
  deleted : bool;
  metadata : QJsonObject
}.

(** ** The MAC allocator *)

Definition mac_set_from (spec : VMSpecs) : gset string :=
  {[ default_mac_address spec ]} ∪ list_to_set (mac_address <$> extra_interfaces spec).

(** [merge_if_disjoint s t]: the new [s] and whether the merge happened. *)
Definition merge_if_disjoint (s t : gset string) : gset string * bool :=
  if decide (s ## t) then (s ∪ t, true) else (s, false).

(** [mp::utils::generate_mac_address] draws at random; a run of the
    daemon sees some stream of candidates. *)
Record MacGenerator := mkMacGen {
  candidates : nat -> string;
  drawn : nat
}.

Definition generate_mac_address (g : MacGenerator) : string * MacGenerator :=
  (candidates g (drawn g), mkMacGen (candidates g) (S (drawn g))).

Definition max_tries : nat := 5.

(** The loop of [generate_unused_mac_address], [n] tries left.  The set
    is passed by reference: the result carries the new set. *)
Fixpoint generate_unused_tries (n : nat) (s : gset string) (g : MacGenerator)
  : Exc string * gset string * MacGenerator :=
  match n with
  | O =>
      (Throw (runtime_error
         ("Failed to generate an unique mac address after "
            +:+ string_of_N (N.of_nat max_tries)
            +:+ " attempts. Number of mac addresses in use: "
            +:+ string_of_N (N.of_nat (size s)))), s, g)
  | S n' =>
      let '(mac, g') := generate_mac_address g in
      if decide (mac ∈ s) then generate_unused_tries n' s g'
      else (Return mac, {[ mac ]} ∪ s, g')
  end.

Definition generate_unused_mac_address (s : gset string) (g : MacGenerator)
  : Exc string * gset string * MacGenerator :=
  generate_unused_tries max_tries s g.

(** Every RPC entry point of the daemon ends in
    [catch (const std::exception& e)], which answers failed-precondition
    with the exception's message. *)
Definition status_of_exception (e : exception) : Status :=
  mkStatus FAILED_PRECONDITION (what e) "".

(** A generator stuck on one address, and a set that holds it. *)
Definition stuck_generator : MacGenerator :=
  mkMacGen (fun _ => "52:54:00:00:00:01") 0.

(** ** Instance handles and the instance tables *)

(** [mp::VirtualMachine], as far as the daemon looks into it: the name,
    the public [state] member, what [current_state()] answers, and what a
    call of [start()] does (the handle belongs to the hypervisor back-end:
    [None] is a normal return, [Some e] an exception). *)
Record VirtualMachine := mkVM {
  vm_name : string;
  vm_state : State;
  current_state : State;
  start_throws : option exception
}.

Abbreviation InstanceTable := (gmap string VirtualMachine).

Inductive InstanceGroup := GroupNone | GroupOperative | GroupDeleted | GroupAll.

#[global] Instance InstanceGroup_eq_dec : EqDecision InstanceGroup.
Proof. solve_decision. Defined.

(** [InstanceTrail]: an iterator into the operative table, an iterator
    into the deleted table, or the name that was not found.  An iterator
    is the entry it points to. *)
Inductive InstanceTrail :=
| trail_operative (it : string * VirtualMachine)
| trail_deleted (it : string * VirtualMachine)
| trail_missing (name : string).

Definition find_instance (operative_instances deleted_instances : InstanceTable)
    (name : string) : InstanceTrail :=
  match operative_instances !! name with
  | Some vm => trail_operative (name, vm)
  | None =>
      match deleted_instances !! name with
      | Some vm => trail_deleted (name, vm)
      | None => trail_missing name
      end
  end.

Abbreviation LinearInstanceSelection := (list (string * VirtualMachine)).
Abbreviation MissingInstanceList := (list string).

Record InstanceSelectionReport := mkReport {
  operative_selection : LinearInstanceSelection;
  deleted_selection : LinearInstanceSelection;
  missing_instances : MissingInstanceList
}.

(** [select_all]: every entry of the table, in the table's iteration
    order. *)
Definition select_all (instances : InstanceTable) : LinearInstanceSelection :=
  map_to_list instances.

Definition rank_instance (trail : InstanceTrail) (selection : InstanceSelectionReport)
  : InstanceSelectionReport :=
  match trail with
  | trail_operative it =>
      mkReport (operative_selection selection ++ [it])
               (deleted_selection selection) (missing_instances selection)
  | trail_deleted it =>
      mkReport (operative_selection selection)
               (deleted_selection selection ++ [it]) (missing_instances selection)
  | trail_missing name =>
      mkReport (operative_selection selection)
               (deleted_selection selection) (missing_instances selection ++ [name])
  end.

(** The [for] loop of [select_instances] over the requested names, with
    its [seen_instances] set. *)
Fixpoint select_named (operative_instances deleted_instances : InstanceTable)
    (names : list string) (seen_instances : gset string)
    (ret : InstanceSelectionReport) : InstanceSelectionReport :=
  match names with
  | [] => ret
  | vm_name :: rest =>
      if decide (vm_name ∈ seen_instances)
      then select_named operative_instances deleted_instances rest seen_instances ret
      else select_named operative_instances deleted_instances rest
             ({[ vm_name ]} ∪ seen_instances)
             (rank_instance (find_instance operative_instances deleted_instances vm_name) ret)
  end.

Definition select_instances (operative_instances deleted_instances : InstanceTable)
    (names : list string) (no_name_means : InstanceGroup) : InstanceSelectionReport :=
  if bool_decide (names = []) && negb (bool_decide (no_name_means = GroupNone)) then
    mkReport
      (if bool_decide (no_name_means = GroupOperative)
          || bool_decide (no_name_means = GroupAll)
       then select_all operative_instances else [])
      (if bool_decide (no_name_means = GroupDeleted)
          || bool_decide (no_name_means = GroupAll)
       then select_all deleted_instances else [])
      []
  else
    select_named operative_instances deleted_instances names ∅ (mkReport [] [] []).

(** ** Selection, said with filters *)

(** The requested names with every repetition after the first removed. *)
Fixpoint first_occurrences (names : list string) : list string :=
  match names with
  | [] => []
  | n :: rest => n :: filter (fun m => m <> n) (first_occurrences rest)
  end.

(** Where a list of distinct names goes, name by name. *)
Definition partition_of (operative_instances deleted_instances : InstanceTable)
    (l : list string) : InstanceSelectionReport :=
  mkReport
    (omap (fun n => pair n <$> operative_instances !! n) l)
    (omap (fun n => match operative_instances !! n with
                    | Some _ => None
                    | None => pair n <$> deleted_instances !! n
                    end) l)
    (filter (fun n => operative_instances !! n = None /\ deleted_instances !! n = None) l).

Definition report_app (r1 r2 : InstanceSelectionReport) : InstanceSelectionReport :=
  mkReport (operative_selection r1 ++ operative_selection r2)
           (deleted_selection r1 ++ deleted_selection r2)
           (missing_instances r1 ++ missing_instances r2).

(** ** The persistence codec, writing side *)

Definition to_json_array (extra_interfaces : list NetworkInterface) : QJsonArray :=
  (fun interface =>
     JObject (obj_insert "auto_mode" (JBool (auto_mode interface))
             (obj_insert "mac_address" (JString (mac_address interface))
             (obj_insert "id" (JString (id interface)) []))))
  <$> extra_interfaces.

Definition id_map_to_json (host_key instance_key : string) (map : Z * Z) : QJsonValue :=
  JObject (obj_insert instance_key (JNumber (snd map))
          (obj_insert host_key (JNumber (fst map)) [])).

Definition mount_to_json (mount : string * VMMount) : QJsonValue :=
  JObject
    (obj_insert "mount_type" (JNumber (mount_type (snd mount)))
    (obj_insert "gid_mappings"
       (JArray (id_map_to_json "host_gid" "instance_gid" <$> gid_mappings (snd mount)))
    (obj_insert "uid_mappings"
       (JArray (id_map_to_json "host_uid" "instance_uid" <$> uid_mappings (snd mount)))
    (obj_insert "target_path" (JString (fst mount))
    (obj_insert "source_path" (JString (source_path (snd mount))) []))))).

(** [vm_spec_to_json]: the members are inserted in the order of the
    source; the object keeps them in key order. *)
Definition vm_spec_to_json (specs : VMSpecs) : QJsonObject :=
  obj_insert "mounts" (JArray (mount_to_json <$> map_to_list (mounts specs)))
  (obj_insert "extra_interfaces" (JArray (to_json_array (extra_interfaces specs)))
  (obj_insert "mac_addr" (JString (default_mac_address specs))
  (obj_insert "metadata" (JObject (metadata specs))
  (obj_insert "deleted" (JBool (deleted specs))
  (obj_insert "state" (JNumber (state specs))
  (obj_insert "ssh_username" (JString (ssh_username specs))
  (obj_insert "disk_space" (JString (string_of_Z (disk_space specs)))
  (obj_insert "mem_size" (JString (string_of_Z (mem_size specs)))
  (obj_insert "num_cores" (JNumber (num_cores specs)) []))))))))).

(** The document [persist_instances] writes: one member per registered
    specification. *)
Definition instance_records_json (vm_instance_specs : gmap string VMSpecs) : QJsonObject :=
  foldl (fun json record => obj_insert (fst record) (JObject (vm_spec_to_json (snd record))) json)
        [] (map_to_list vm_instance_specs).

(** ** The daemon *)

(** [mp::MountHandler], as far as the daemon looks into it: the mount it
    serves, whether the back-end manages it, and what a call of
    [deactivate()] does ([None]: it returns). *)
Record MountHandler := mkMountHandler {
  handled_mount : VMMount;
  is_mount_managed_by_backend : bool;
  deactivate_throws : option exception
}.

(** What the daemon did to its collaborators and what it logged. *)
Inductive Event :=
| ev_start (name : string)
| ev_deactivate (name target : string)
| ev_warning (message : string)
| ev_error (message : string).

(** The members of [mp::Daemon] that the lifecycle manager reads and
    writes.  [daemon_mounts] is the member [mounts]; [instance_db] is the
    content of the file [persist_instances] writes. *)
Record Daemon := mkDaemon {
  vm_instance_specs : gmap string VMSpecs;
  operative_instances : InstanceTable;
  deleted_instances : InstanceTable;
  preparing_instances : gset string;
  allocated_mac_addrs : gset string;
  delayed_shutdown_instances : gset string;
  daemon_mounts : gmap string (gmap string MountHandler);
  instance_db : QJsonObject;
  trace : list Event
}.

Definition with_specs (v : gmap string VMSpecs) (d : Daemon) : Daemon :=
  mkDaemon v (operative_instances d) (deleted_instances d) (preparing_instances d)
    (allocated_mac_addrs d) (delayed_shutdown_instances d) (daemon_mounts d)
    (instance_db d) (trace d).

Definition with_operative (v : InstanceTable) (d : Daemon) : Daemon :=
  mkDaemon (vm_instance_specs d) v (deleted_instances d) (preparing_instances d)
    (allocated_mac_addrs d) (delayed_shutdown_instances d) (daemon_mounts d)
    (instance_db d) (trace d).

Definition with_deleted (v : InstanceTable) (d : Daemon) : Daemon :=
  mkDaemon (vm_instance_specs d) (operative_instances d) v (preparing_instances d)
    (allocated_mac_addrs d) (delayed_shutdown_instances d) (daemon_mounts d)
    (instance_db d) (trace d).

Definition with_preparing (v : gset string) (d : Daemon) : Daemon :=
  mkDaemon (vm_instance_specs d) (operative_instances d) (deleted_instances d) v
    (allocated_mac_addrs d) (delayed_shutdown_instances d) (daemon_mounts d)
    (instance_db d) (trace d).

Definition with_allocated (v : gset string) (d : Daemon) : Daemon :=
  mkDaemon (vm_instance_specs d) (operative_instances d) (deleted_instances d)
    (preparing_instances d) v (delayed_shutdown_instances d) (daemon_mounts d)
    (instance_db d) (trace d).

Definition with_delayed (v : gset string) (d : Daemon) : Daemon :=
  mkDaemon (vm_instance_specs d) (operative_instances d) (deleted_instances d)
    (preparing_instances d) (allocated_mac_addrs d) v (daemon_mounts d)
    (instance_db d) (trace d).

Definition with_mounts (v : gmap string (gmap string MountHandler)) (d : Daemon) : Daemon :=
  mkDaemon (vm_instance_specs d) (operative_instances d) (deleted_instances d)
    (preparing_instances d) (allocated_mac_addrs d) (delayed_shutdown_instances d) v
    (instance_db d) (trace d).

Definition with_db (v : QJsonObject) (d : Daemon) : Daemon :=
  mkDaemon (vm_instance_specs d) (operative_instances d) (deleted_instances d)
    (preparing_instances d) (allocated_mac_addrs d) (delayed_shutdown_instances d)
    (daemon_mounts d) v (trace d).

Definition emit (e : Event) (d : Daemon) : Daemon :=
  mkDaemon (vm_instance_specs d) (operative_instances d) (deleted_instances d)
    (preparing_instances d) (allocated_mac_addrs d) (delayed_shutdown_instances d)
    (daemon_mounts d) (instance_db d) (trace d ++ [e]).

(** A freshly constructed daemon, before the registry is read. *)
Definition empty_daemon : Daemon := mkDaemon ∅ ∅ ∅ ∅ ∅ ∅ ∅ [] [].

Definition persist_instances (d : Daemon) : Daemon :=
  with_db (instance_records_json (vm_instance_specs d)) d.

(** A default-constructed [VMSpecs], which is what [vm_instance_specs[name]]
    inserts when the name has no entry. *)
Definition default_VMSpecs : VMSpecs := mkVMSpecs 0 0 0 "" [] "" 0 ∅ false [].

(** [vm_instance_specs[name]]: the entry, created if absent. *)
Definition specs_subscript (name : string) (d : Daemon) : VMSpecs * Daemon :=
  match vm_instance_specs d !! name with
  | Some spec => (spec, d)
  | None => (default_VMSpecs, with_specs (<[name := default_VMSpecs]> (vm_instance_specs d)) d)
  end.

(** [mounts[name]]: the handler table of the instance, created if absent. *)
Definition mounts_subscript (name : string) (d : Daemon)
  : gmap string MountHandler * Daemon :=
  match daemon_mounts d !! name with
  | Some t => (t, d)
  | None => (∅, with_mounts (<[name := ∅]> (daemon_mounts d)) d)
  end.

(** [release_resources]; the calls into the factory and the vault leave
    the daemon's own members alone. *)
Definition release_resources (instance : string) (d : Daemon) : Daemon :=
  match vm_instance_specs d !! instance with
  | Some spec =>
      with_specs (delete instance (vm_instance_specs d))
        (with_allocated (allocated_mac_addrs d ∖ mac_set_from spec) d)
  | None => d
  end.

(** [Daemon::purge]: the reply lists the purged names. *)
Definition purge (d : Daemon) : Daemon * list string * Status :=
  let purged := (map_to_list (deleted_instances d)).*1 in
  let d1 := foldl (fun d del => release_resources del d) d purged in
  (persist_instances (with_deleted ∅ d1), purged, Status_OK).

(** ** Reboot *)

Definition dquote : string := String (ascii_of_nat 34) EmptyString.

(** What the guest answers to [ssh_reboot]: the session cannot be opened
    (an exception), the reboot command exits with a code, or the session
    ends without an exit code (the expected path). *)
Inductive RebootOutcome :=
| session_throws (e : exception)
| reboot_exits (ecode : Z) (std_error : string)
| reboot_exitless.

Definition ssh_reboot (guest : RebootOutcome) : Exc Status :=
  match guest with
  | session_throws e => Throw e
  | reboot_exits ecode std_error =>
      if (ecode =? 0)%Z then Return Status_OK
      else Return (mkStatus FAILED_PRECONDITION
                     ("Reboot command exited with code " +:+ string_of_Z ecode) std_error)
  | reboot_exitless => Return Status_OK
  end.

Definition reboot_vm (vm : VirtualMachine) (guest : RebootOutcome) (d : Daemon)
  : Exc Status * Daemon :=
  let d1 := if decide (vm_state vm = delayed_shutdown)
            then with_delayed (delayed_shutdown_instances d ∖ {[ vm_name vm ]}) d
            else d in
  if negb (is_running (current_state vm)) then
    (Return (mkStatus INVALID_ARGUMENT
               ("instance " +:+ dquote +:+ vm_name vm +:+ dquote +:+ " is not running") ""),
     d1)
  else (ssh_reboot guest, d1).

(** [cmd_vms]: run the command on each target, stop at the first status
    that is not OK. *)
Fixpoint cmd_vms (tgts : LinearInstanceSelection)
    (cmd : VirtualMachine -> Daemon -> Exc Status * Daemon) (d : Daemon)
  : Exc Status * Daemon :=
  match tgts with
  | [] => (Return Status_OK, d)
  | tgt :: rest =>
      match cmd (snd tgt) d with
      | (Return st, d') => if ok st then cmd_vms rest cmd d' else (Return st, d')
      | (Throw e, d') => (Throw e, d')
      end
  end.

(** ** The start state machine: the loop of [Daemon::start] *)

(** The locals of [Daemon::start] that the loop over the operative
    selection updates. *)
Record StartLocals := mkStartLocals {
  start_errors : string;
  starting_vms : list string;
  complain_disabled_mounts : bool
}.

(** One iteration of the loop: the [switch] on the current state of the
    target, then, unless a [continue] was taken, the push onto
    [starting_vms]. *)
Definition start_target (vm_it : string * VirtualMachine) (l : StartLocals) (d : Daemon)
  : Exc StartLocals * Daemon :=
  let name := fst vm_it in
  let vm := snd vm_it in
  match current_state vm with
  | unknown =>
      let error_string :=
        "Instance '" +:+ name +:+ "' is already running, but in an unknown state" in
      (Return (mkStartLocals (start_errors l +:+ error_string) (starting_vms l)
                 (complain_disabled_mounts l)),
       emit (ev_warning error_string) d)
  | suspending =>
      (Return (mkStartLocals
                 (start_errors l +:+ "Cannot start the instance '" +:+ name
                    +:+ "' while suspending")
                 (starting_vms l) (complain_disabled_mounts l)), d)
  | delayed_shutdown =>
      (Return l, with_delayed (delayed_shutdown_instances d ∖ {[ name ]}) d)
  | running => (Return l, d)
  | starting | restarting =>
      (Return (mkStartLocals (start_errors l) (starting_vms l ++ [name])
                 (complain_disabled_mounts l)), d)
  | _ =>
      let '(complain, d1) :=
        if complain_disabled_mounts l then
          let '(spec, d1) := specs_subscript name d in
          if negb (bool_decide (mounts spec = ∅)) then
            (false, emit (ev_error "Mounts have been disabled on this instance of Multipass") d1)
          else (true, d1)
        else (false, d) in
      let d2 := emit (ev_start name) d1 in
      match start_throws vm with
      | Some e => (Throw e, d2)
      | None =>
          (Return (mkStartLocals (start_errors l) (starting_vms l ++ [name]) complain), d2)
      end
  end.

Fixpoint start_targets (operative_selection : LinearInstanceSelection)
    (l : StartLocals) (d : Daemon) : Exc StartLocals * Daemon :=
  match operative_selection with
  | [] => (Return l, d)
  | vm_it :: rest =>
      match start_target vm_it l d with
      | (Return l', d') => start_targets rest l' d'
      | (Throw e, d') => (Throw e, d')
      end
  end.

(** ** The rows of the start table *)







(** ** Umount *)

Definition newline : string := String (ascii_of_nat 10) EmptyString.

(** [add_fmt_to]: a line feed first, unless the buffer is empty. *)
Definition add_fmt_to (buffer : string) (line : string) : string :=
  match buffer with
  | EmptyString => line
  | _ => buffer +:+ newline +:+ line
  end.

(** [grpc_status_for(errors)], with the default status code. *)
Definition grpc_status_for (errors : string) : Status :=
  match errors with
  | EmptyString => Status_OK
  | _ => mkStatus INVALID_ARGUMENT ("The following errors occurred:" +:+ newline +:+ errors) ""
  end.

Definition with_spec_mounts (v : gmap string VMMount) (spec : VMSpecs) : VMSpecs :=
  mkVMSpecs (num_cores spec) (mem_size spec) (disk_space spec) (default_mac_address spec)
    (extra_interfaces spec) (ssh_username spec) (state spec) v (deleted spec)
    (metadata spec).

(** The lambda [do_unmount] of [Daemon::umount], for the instance [name]:
    [vm_spec_mounts] and [vm_mounts] are references into the daemon's
    tables. *)
Definition do_unmount (name : string) (expiring_it : string * MountHandler)
    (errors : string) (d : Daemon) : Exc string * Daemon :=
  let target := fst expiring_it in
  let d1 := emit (ev_deactivate name target) d in
  match deactivate_throws (snd expiring_it) with
  | None =>
      let d2 := with_specs
                  (alter (fun spec => with_spec_mounts (delete target (mounts spec)) spec)
                     name (vm_instance_specs d1)) d1 in
      (Return errors, with_mounts (alter (delete target) name (daemon_mounts d2)) d2)
  | Some e =>
      if is_runtime_error e then
        (Return (add_fmt_to errors
                   ("failed to unmount " +:+ dquote +:+ target +:+ dquote +:+ " from '"
                      +:+ name +:+ "': " +:+ what e)), d1)
      else (Throw e, d1)
  end.

(** The loop over [vm_mounts] taken for an empty target path; the
    iterator is advanced before the entry is erased, so the loop visits
    the entries the table had when it began. *)
Fixpoint unmount_all (name : string) (entries : list (string * MountHandler))
    (errors : string) (d : Daemon) : Exc string * Daemon :=
  match entries with
  | [] => (Return errors, d)
  | expiring_it :: rest =>
      match do_unmount name expiring_it errors d with
      | (Return errors', d') => unmount_all name rest errors' d'
      | (Throw e, d') => (Throw e, d')
      end
  end.

(** The body of the loop of [Daemon::umount] over the request's entries
    (instance name, target path).  [cleanPath] is [QDir::cleanPath]. *)
Definition umount_entry (cleanPath : string -> string) (path_entry : string * string)
    (errors : string) (d : Daemon) : Exc string * Daemon :=
  let name := fst path_entry in
  let target_path := cleanPath (snd path_entry) in
  match operative_instances d !! name with
  | None => (Return (add_fmt_to errors ("instance '" +:+ name +:+ "' does not exist")), d)
  | Some _ =>
      let d1 := snd (specs_subscript name d) in
      let '(vm_mounts, d2) := mounts_subscript name d1 in
      if bool_decide (target_path = "") then
        unmount_all name (map_to_list vm_mounts) errors d2
      else
        match vm_mounts !! target_path with
        | Some handler => do_unmount name (target_path, handler) errors d2
        | None =>
            (Return (add_fmt_to errors
                       ("path " +:+ dquote +:+ target_path +:+ dquote
                          +:+ " is not mounted in '" +:+ name +:+ "'")), d2)
        end
  end.

Fixpoint umount_entries (cleanPath : string -> string) (target_paths : list (string * string))
    (errors : string) (d : Daemon) : Exc string * Daemon :=
  match target_paths with
  | [] => (Return errors, d)
  | path_entry :: rest =>
      match umount_entry cleanPath path_entry errors d with
      | (Return errors', d') => umount_entries cleanPath rest errors' d'
      | (Throw e, d') => (Throw e, d')
      end
  end.

(** [Daemon::umount]: the status handed to the client and the daemon
    afterwards. *)
Definition umount (cleanPath : string -> string) (target_paths : list (string * string))
    (d : Daemon) : Status * Daemon :=
  match umount_entries cleanPath target_paths "" d with
  | (Return errors, d') => (grpc_status_for errors, persist_instances d')
  | (Throw e, d') => (status_of_exception e, d')
  end.

(** ** What an umount leaves of an instance's mounts *)

(** The handler table and the specification's mounts of an instance. *)
Definition handlers_of (name : string) (d : Daemon) : gmap string MountHandler :=
  default ∅ (daemon_mounts d !! name).

Definition spec_mounts_of (name : string) (d : Daemon) : gmap string VMMount :=
  default ∅ (mounts <$> vm_instance_specs d !! name).

(** A handler whose [deactivate()] returns, or throws a
    [std::runtime_error]. *)
Definition deactivates (h : MountHandler) : bool :=
  match deactivate_throws h with None => true | Some _ => false end.


(** The targets of [entries] whose handler deactivates. *)
Definition unmounted (entries : list (string * MountHandler)) : list string :=
  (filter (fun it => deactivates (snd it) = true) entries).*1.

(** An instance x with two mounts: the handler of /data deactivates,
    the handler of /busy throws a [std::runtime_error]. *)
Definition a_mount : VMMount := mkVMMount "/home/user" [] [] 0.

Definition daemon_two_mounts : Daemon :=
  mkDaemon
    {[ "x" := mkVMSpecs 1 1024 1024 "52:54:00:00:00:01" [] "ubuntu" 4
                {[ "/data" := a_mount; "/busy" := a_mount ]} false [] ]}
    {[ "x" := mkVM "x" running running None ]}
    ∅ ∅ {[ "52:54:00:00:00:01" ]} ∅
    {[ "x" := {[ "/data" := mkMountHandler a_mount false None;
                 "/busy" := mkMountHandler a_mount false
                              (Some (runtime_error "target is busy")) ]} ]}
    [] [].

(** ** The persistence codec, reading side *)

(** What [load_db] takes from the multipass library, whose source is not
    part of the daemon: the MAC syntax check, the parser behind
    [mp::MemorySize{string}] ([None]: [InvalidMemorySizeException]),
    [mp::unique_id_mappings] and the two default sizes. *)
Record Library := mkLibrary {
  valid_mac_address : string -> bool;
  MemorySize_in_bytes : string -> option Z;
  unique_id_mappings : id_mappings -> id_mappings;
  default_memory_size : string;
  default_disk_size : string
}.

(** [mp::MemorySize{val}.in_bytes()]. *)
Definition MemorySize (lib : Library) (val : string) : Exc Z :=
  match MemorySize_in_bytes lib val with
  | Some bytes => Return bytes
  | None => Throw (InvalidMemorySizeException val)
  end.

Definition read_extra_interface (lib : Library) (entry : QJsonValue) : Exc NetworkInterface :=
  let id := toString (obj_value (toObject entry) "id") in
  let mac_address := toString (obj_value (toObject entry) "mac_address") in
  if negb (valid_mac_address lib mac_address) then
    Throw (runtime_error ("Invalid MAC address " +:+ mac_address))
  else
    Return (mkNetworkInterface id mac_address
              (toBool (obj_value (toObject entry) "auto_mode"))).

Fixpoint read_interface_entries (lib : Library) (entries : QJsonArray)
  : Exc (list NetworkInterface) :=
  match entries with
  | [] => Return []
  | entry :: rest =>
      iface ← read_extra_interface lib entry;
      extra_interfaces ← read_interface_entries lib rest;
      Return (iface :: extra_interfaces)
  end.

Definition read_extra_interfaces (lib : Library) (record : QJsonObject)
  : Exc (list NetworkInterface) :=
  if obj_contains record "extra_interfaces" then
    read_interface_entries lib (toArray (obj_value record "extra_interfaces"))
  else Return [].

Definition read_id_mappings (host_key instance_key : string) (entries : QJsonArray)
  : id_mappings :=
  (fun entry => (toInt (obj_value (toObject entry) host_key),
                 toInt (obj_value (toObject entry) instance_key))) <$> entries.

(** One pass of the loop over [record["mounts"]]: the target path and
    the mount built for it. *)
Definition read_mount (lib : Library) (entry : QJsonValue) : string * VMMount :=
  let target_path := toString (obj_value (toObject entry) "target_path") in
  let source_path := toString (obj_value (toObject entry) "source_path") in
  let uid_mappings :=
    unique_id_mappings lib
      (read_id_mappings "host_uid" "instance_uid"
         (toArray (obj_value (toObject entry) "uid_mappings"))) in
  let gid_mappings :=
    unique_id_mappings lib
      (read_id_mappings "host_gid" "instance_gid"
         (toArray (obj_value (toObject entry) "gid_mappings"))) in
  let mount_type := toInt (obj_value (toObject entry) "mount_type") in
  (target_path, mkVMMount source_path gid_mappings uid_mappings mount_type).

Definition read_mounts (lib : Library) (entries : QJsonArray) : gmap string VMMount :=
  foldl (fun mounts entry => <[fst (read_mount lib entry) := snd (read_mount lib entry)]> mounts)
        ∅ entries.

(** The condition of the ghost test, with the short circuit of [&&]:
    the two sizes are parsed only when the tests before them hold. *)
Definition is_ghost (lib : Library) (num_cores : Z) (deleted : bool)
    (ssh_username : string) (metadata : QJsonObject) (mem_size disk_space : string)
  : Exc bool :=
  if (num_cores =? 0)%Z && negb deleted && bool_decide (ssh_username = "")
     && obj_isEmpty metadata
  then
    mem ← MemorySize lib mem_size;
    if (mem =? 0)%Z then
      disk ← MemorySize lib disk_space;
      Return (disk =? 0)%Z
    else Return false
  else Return false.

(** What the body of the loop over the records does with one record:
    leave [load_db] with an empty result, skip the record as a ghost, or
    store a specification. *)
Inductive RecordOutcome :=
| abandon_load
| ghost_instance
| reconstructed (spec : VMSpecs).

Definition load_record (lib : Library) (value : QJsonValue) : Exc RecordOutcome :=
  let record := toObject value in
  if obj_isEmpty record then Return abandon_load
  else
    let num_cores := toInt (obj_value record "num_cores") in
    let mem_size := toString (obj_value record "mem_size") in
    let disk_space := toString (obj_value record "disk_space") in
    let ssh_username := toString (obj_value record "ssh_username") in
    let state := toInt (obj_value record "state") in
    let deleted := toBool (obj_value record "deleted") in
    let metadata := toObject (obj_value record "metadata") in
    ghost ← is_ghost lib num_cores deleted ssh_username metadata mem_size disk_space;
    if ghost : bool then Return ghost_instance
    else
      let ssh_username := if bool_decide (ssh_username = "") then "ubuntu" else ssh_username in
      let default_mac_address := toString (obj_value record "mac_addr") in
      if negb (valid_mac_address lib default_mac_address) then
        Throw (runtime_error ("Invalid MAC address " +:+ default_mac_address))
      else
        let mounts := read_mounts lib (toArray (obj_value record "mounts")) in
        mem ← MemorySize lib (if bool_decide (mem_size = "")
                              then default_memory_size lib else mem_size);
        disk ← MemorySize lib (if bool_decide (disk_space = "")
                               then default_disk_size lib else disk_space);
        extra_interfaces ← read_extra_interfaces lib record;
        Return (reconstructed
                  (mkVMSpecs num_cores mem disk default_mac_address extra_interfaces
                     ssh_username state mounts deleted metadata)).

(** The loop of [load_db] over the records of the document, in key
    order, with the warnings it logs. *)
Fixpoint load_records (lib : Library) (records : QJsonObject)
    (reconstructed_records : gmap string VMSpecs) (log : list Event)
  : Exc (gmap string VMSpecs * list Event) :=
  match records with
  | [] => Return (reconstructed_records, log)
  | (key, value) :: rest =>
      outcome ← load_record lib value;
      match outcome with
      | abandon_load => Return (∅, log)
      | ghost_instance =>
          load_records lib rest reconstructed_records
            (log ++ [ev_warning ("Ignoring ghost instance in database: " +:+ key)])
      | reconstructed spec =>
          load_records lib rest (<[key := spec]> reconstructed_records) log
      end
  end.

(** The instance database as [load_db] finds it: no file in either
    directory, or a file whose content does not parse ([doc.isNull()]),
    parses to an array, or parses to an object. *)
Inductive QJsonDocument :=
| doc_null
| doc_array (a : QJsonArray)
| doc_object (o : QJsonObject).

Definition load_db (lib : Library) (db_file : option QJsonDocument)
  : Exc (gmap string VMSpecs * list Event) :=
  match db_file with
  | None => Return (∅, [])
  | Some doc_null => Return (∅, [])
  | Some (doc_array _) => Return (∅, [])
  | Some (doc_object records) =>
      if obj_isEmpty records then Return (∅, []) else load_records lib records ∅ []
  end.

(** ** An instance of the library, for the examples *)

Definition is_hex_digit (c : ascii) : bool :=
  let n := nat_of_ascii c in
  ((48 <=? n) && (n <=? 57)) || ((97 <=? n) && (n <=? 102)).

(** [groups] pairs of lower-case hexadecimal digits, separated by colons. *)
Fixpoint hex_groups (groups : nat) (s : string) : bool :=
  match groups, s with
  | 1, String a (String b EmptyString) => is_hex_digit a && is_hex_digit b
  | S (S _ as groups'), String a (String b (String c rest)) =>
      is_hex_digit a && is_hex_digit b && Ascii.eqb c ":" && hex_groups groups' rest
  | _, _ => false
  end.

(** Keeps the first occurrence of each (host id, instance id) pair. *)
Fixpoint unique_pairs (seen : list (Z * Z)) (l : id_mappings) : id_mappings :=
  match l with
  | [] => []
  | m :: rest =>
      if bool_decide (m ∈ seen) then unique_pairs seen rest
      else m :: unique_pairs (m :: seen) rest
  end.

(** IEEE 48-bit MAC addresses in lower case; sizes as plain decimal byte
    counts, which is the form [vm_spec_to_json] writes; 1 GiB and 5 GiB
    as the default sizes. *)
Definition example_library : Library :=
  mkLibrary (hex_groups 6)
            (fun s => Z.of_N <$> N_of_string s)
            (unique_pairs [])
            "1073741824" "5368709120".

(** ** Ghost records, sorted objects and canonical specifications *)

#[global] Instance Exc_fmap : FMap Exc := fun A B f x =>
  match x with
  | Return a => Return (f a)
  | Throw e => Throw e
  end.

(** A record as the ghost test wants it: zero cores, not deleted, no
    user name, no metadata, zero memory and zero disk. *)
Definition ghost_record (lib : Library) (record : QJsonObject) : Prop :=
  record <> [] /\
  toInt (obj_value record "num_cores") = 0%Z /\
  toBool (obj_value record "deleted") = false /\
  toString (obj_value record "ssh_username") = "" /\
  toObject (obj_value record "metadata") = [] /\
  MemorySize_in_bytes lib (toString (obj_value record "mem_size")) = Some 0%Z /\
  MemorySize_in_bytes lib (toString (obj_value record "disk_space")) = Some 0%Z.

(** A ghost record, a well-formed record and an empty record. *)
Definition ghost_json : QJsonObject :=
  [ ("deleted", JBool false); ("disk_space", JString "0"); ("mac_addr", JString "");
    ("mem_size", JString "0"); ("metadata", JObject []); ("mounts", JArray []);
    ("num_cores", JNumber 0); ("ssh_username", JString ""); ("state", JNumber 0) ].

Definition primary_spec : VMSpecs :=
  mkVMSpecs 2 1073741824 5368709120 "52:54:00:00:00:01"
    [ mkNetworkInterface "eth1" "52:54:00:00:00:02" true ]
    "ubuntu" 4 {[ "/data" := mkVMMount "/home/user" [(1000, 1000)%Z] [(1000, 1000)%Z] 0 ]}
    false [].

(** Keys in strictly increasing order, which is how a [QJsonObject]
    holds its members. *)
Fixpoint obj_sorted {V} (o : list (string * V)) : Prop :=
  match o with
  | [] => True
  | (k, _) :: o' => Forall (fun kv => String_as_OT.lt k (fst kv)) o' /\ obj_sorted o'
  end.

(** The members of an object built by inserting a list of bindings. *)
Definition inserted {V} (l : list (string * V)) (o : list (string * V)) : list (string * V) :=
  foldl (fun o r => obj_insert (fst r) (snd r) o) o l.

Definition in_int (z : Z) : Prop := (INT_MIN <= z <= INT_MAX)%Z.

(** Id mappings as [load_db] leaves them: integers, already unique. *)
Definition canonical_mappings (lib : Library) (l : id_mappings) : Prop :=
  Forall (fun p => in_int (fst p) /\ in_int (snd p)) l /\ unique_id_mappings lib l = l.

Definition canonical_mount (lib : Library) (mount : VMMount) : Prop :=
  canonical_mappings lib (gid_mappings mount) /\
  canonical_mappings lib (uid_mappings mount) /\
  in_int (mount_type mount).

(** A specification that [load_db] reads back as it is: the integers
    are [int]s, the sizes are byte counts, the user name is not empty
    and the MAC addresses pass the syntax check. *)
Definition canonical_spec (lib : Library) (spec : VMSpecs) : Prop :=
  in_int (num_cores spec) /\ in_int (state spec) /\
  (0 <= mem_size spec)%Z /\ (0 <= disk_space spec)%Z /\
  ssh_username spec <> "" /\
  valid_mac_address lib (default_mac_address spec) = true /\
  Forall (fun iface => valid_mac_address lib (mac_address iface) = true)
         (extra_interfaces spec) /\
  map_Forall (fun _ mount => canonical_mount lib mount) (mounts spec).

(** The library reads a decimal byte count as that many bytes. *)
Definition reads_decimal (lib : Library) : Prop :=
  forall n : N, MemorySize_in_bytes lib (string_of_N n) = Some (Z.of_N n).

(** A document with one record that is no ghost and whose MAC address is
    valid, but whose user name is empty: it is the document
    [persist_instances] writes for this registry. *)
Definition nameless_user_spec : VMSpecs :=
  mkVMSpecs 1 1073741824 5368709120 "52:54:00:00:00:01" [] "" 0 ∅ false [].

Definition nameless_user_doc : QJsonObject :=
  instance_records_json {[ "primary" := nameless_user_spec ]}.

(** ** Reactions to where a name was found *)

(** [SelectionReaction::ReactionComponent]; the message template is the
    function that fills the instance name in. *)
Record ReactionComponent := mkReaction {
  status_code : StatusCode;
  message_template : option (string -> string)
}.

Record SelectionReaction := mkSelectionReaction {
  operative_reaction : ReactionComponent;
  deleted_reaction : ReactionComponent;
  missing_reaction : ReactionComponent
}.

Definition require_missing_instances_reaction : SelectionReaction :=
  mkSelectionReaction
    (mkReaction INVALID_ARGUMENT
       (Some (fun name => "instance " +:+ dquote +:+ name +:+ dquote +:+ " already exists")))
    (mkReaction INVALID_ARGUMENT
       (Some (fun name => "instance " +:+ dquote +:+ name +:+ dquote +:+ " already exists")))
    (mkReaction OK None).

(** [grpc_status_for_instance_trail]; a message under an OK reaction goes
    to the debug log only. *)
Definition grpc_status_for_instance_trail (trail : InstanceTrail)
    (reaction : SelectionReaction) : Status :=
  let '(instance_name, relevant_reaction_component) :=
    match trail with
    | trail_operative it => (fst it, operative_reaction reaction)
    | trail_deleted it => (fst it, deleted_reaction reaction)
    | trail_missing name => (name, missing_reaction reaction)
    end in
  match message_template relevant_reaction_component with
  | Some msg =>
      if bool_decide (status_code relevant_reaction_component = OK)
      then mkStatus (status_code relevant_reaction_component) "" ""
      else mkStatus (status_code relevant_reaction_component) (msg instance_name) ""
  | None => mkStatus (status_code relevant_reaction_component) "" ""
  end.

Definition find_instance_and_react (operative_instances deleted_instances : InstanceTable)
    (name : string) (reaction : SelectionReaction) : InstanceTrail * Status :=
  let trail := find_instance operative_instances deleted_instances name in
  (trail, grpc_status_for_instance_trail trail reaction).

(** [instances_running]. *)
Definition instances_running (instances : InstanceTable) : bool :=
  bool_decide (Exists (fun it => is_running (current_state (snd it)) = true)
                      (map_to_list instances)).

(** ** The creation pipeline *)

(** What [validate_create_arguments] hands to [create_vm]. *)
Record CheckedArguments := mkCheckedArguments {
  instance_name : string;
  args_extra_interfaces : list NetworkInterface;
  nets_need_bridging : list string;
  option_errors : list nat
}.

(** The fields of [VirtualMachineDescription] that the daemon copies
    into the instance's specification. *)
Record VirtualMachineDescription := mkVMDescription {
  desc_num_cores : Z;
  desc_mem_size : Z;
  desc_disk_space : Z;
  desc_default_mac_address : string;
  desc_extra_interfaces : list NetworkInterface
}.

(** What the request and the collaborators contribute to one run of
    [create_vm]: the permission to bridge; the name the blueprint
    provider derives from the image; the name generator; whether the
    hypervisor health check throws; whether something throws while the
    image is resolved, fetched and sized and the networks prepared, which
    all comes before the MAC addresses; the candidates of the MAC
    generator; the cores and sizes the description ends up with; whether
    something throws after the MAC addresses (user data, configuration
    and preparation of the instance image); the handle the factory
    builds, or the exception it throws; the configured user name; and the
    status the readiness watcher reports for a launch. *)
Record CreateRun := mkCreateRun {
  permission_to_bridge : bool;
  blueprint_name : string;
  name_generator : NameGenerator;
  health_check_throws : option exception;
  prepare_throws : option exception;
  mac_generator : MacGenerator;
  final_num_cores : Z;
  final_mem_size : Z;
  final_disk_space : Z;
  configure_throws : option exception;
  create_virtual_machine : Exc VirtualMachine;
  config_ssh_username : string;
  readiness : Status
}.

(** First pass over the requested interfaces: every MAC address the user
    gave must be new to the tentative set. *)
Fixpoint check_requested_macs (ifaces : list NetworkInterface) (new_macs : gset string)
  : Exc (gset string) :=
  match ifaces with
  | [] => Return new_macs
  | iface :: rest =>
      if negb (bool_decide (mac_address iface = "")) then
        if decide (mac_address iface ∈ new_macs) then
          Throw (runtime_error ("Repeated MAC address " +:+ mac_address iface))
        else check_requested_macs rest ({[ mac_address iface ]} ∪ new_macs)
      else check_requested_macs rest new_macs
  end.

(** Second pass: an address is generated for every interface that has
    none. *)
Fixpoint generate_missing_macs (ifaces : list NetworkInterface) (new_macs : gset string)
    (g : MacGenerator) : Exc (list NetworkInterface) * gset string * MacGenerator :=
  match ifaces with
  | [] => (Return [], new_macs, g)
  | iface :: rest =>
      if bool_decide (mac_address iface = "") then
        match generate_unused_mac_address new_macs g with
        | (Return mac, new_macs', g') =>
            match generate_missing_macs rest new_macs' g' with
            | (Return rest', new_macs'', g'') =>
                (Return (mkNetworkInterface (id iface) mac (auto_mode iface) :: rest'),
                 new_macs'', g'')
            | (Throw e, new_macs'', g'') => (Throw e, new_macs'', g'')
            end
        | (Throw e, new_macs', g') => (Throw e, new_macs', g')
        end
      else
        match generate_missing_macs rest new_macs g with
        | (Return rest', new_macs', g') => (Return (iface :: rest'), new_macs', g')
        | (Throw e, new_macs', g') => (Throw e, new_macs', g')
        end
  end.

(** The lambda [make_vm_description]: every exception leaves it as a
    [CreateImageException] with the same message; the daemon's set of
    allocated addresses is replaced by the tentative set at the very
    end. *)
Definition make_vm_description (checked_args : CheckedArguments) (run : CreateRun)
    (d : Daemon) : Exc VirtualMachineDescription * Daemon :=
  let rethrow (e : exception) := (Throw (CreateImageException (what e)), d) in
  match prepare_throws run with
  | Some e => rethrow e
  | None =>
      let new_macs := allocated_mac_addrs d in
      match check_requested_macs (args_extra_interfaces checked_args) new_macs with
      | Throw e => rethrow e
      | Return new_macs =>
          match generate_missing_macs (args_extra_interfaces checked_args) new_macs
                  (mac_generator run) with
          | (Throw e, _, _) => rethrow e
          | (Return extra_interfaces, new_macs, g) =>
              match generate_unused_mac_address new_macs g with
              | (Throw e, _, _) => rethrow e
              | (Return default_mac_address, new_macs, _) =>
                  match configure_throws run with
                  | Some e => rethrow e
                  | None =>
                      (Return (mkVMDescription (final_num_cores run) (final_mem_size run)
                                 (final_disk_space run) default_mac_address extra_interfaces),
                       with_allocated new_macs d)
                  end
              end
          end
      end
  end.

(** The [catch] clause of the handler that runs when the preparation has
    finished. *)
Definition create_failed (name : string) (e : exception) (d : Daemon) : Status * Daemon :=
  let d1 := with_preparing (preparing_instances d ∖ {[ name ]}) d in
  let d2 := release_resources name d1 in
  let d3 := with_operative (delete name (operative_instances d2)) d2 in
  (mkStatus FAILED_PRECONDITION (what e) "", persist_instances d3).

(** The handler connected to the end of the preparation. *)
Definition on_prepared (name : string) (start : bool) (run : CreateRun)
    (result : Exc VirtualMachineDescription) (d : Daemon) : Status * Daemon :=
  match result with
  | Throw e => create_failed name e d
  | Return vm_desc =>
      let d1 := with_specs
                  (<[name := mkVMSpecs (desc_num_cores vm_desc) (desc_mem_size vm_desc)
                               (desc_disk_space vm_desc) (desc_default_mac_address vm_desc)
                               (desc_extra_interfaces vm_desc) (config_ssh_username run)
                               (state_code off) ∅ false []]>
                     (vm_instance_specs d)) d in
      match create_virtual_machine run with
      | Throw e => create_failed name e d1
      | Return vm =>
          let d2 := with_operative (<[name := vm]> (operative_instances d1)) d1 in
          let d3 := with_preparing (preparing_instances d2 ∖ {[ name ]}) d2 in
          let d4 := persist_instances d3 in
          if start then
            let d5 := emit (ev_start name) d4 in
            match start_throws vm with
            | Some e => create_failed name e d5
            | None => (readiness run, d5)
            end
          else (Status_OK, d4)
      end
  end.

(** [Daemon::create_vm] from the point where the arguments have been
    checked, with the preparation run to its end before anything else
    happens; the status is the one the client's promise receives.  The
    serialized error details are left empty. *)
Definition create_vm (checked_args : CheckedArguments) (run : CreateRun) (start : bool)
    (d : Daemon) : Status * Daemon :=
  if negb (bool_decide (option_errors checked_args = [])) then
    (mkStatus INVALID_ARGUMENT "Invalid arguments supplied" "", d)
  else if negb (bool_decide (nets_need_bridging checked_args = []))
          && negb (permission_to_bridge run) then
    (mkStatus FAILED_PRECONDITION "Missing bridges" "", d)
  else
    match name_from (instance_name checked_args) (blueprint_name run) (name_generator run)
            (operative_instances d) with
    | (Throw e, _) => (status_of_exception e, d)
    | (Return name, _) =>
        let '(instance_trail, status) :=
          find_instance_and_react (operative_instances d) (deleted_instances d) name
            require_missing_instances_reaction in
        if negb (ok status) then (status, d)
        else if decide (name ∈ preparing_instances d) then
          (mkStatus INVALID_ARGUMENT
             ("instance " +:+ dquote +:+ name +:+ dquote +:+ " is being prepared") "", d)
        else
          match (if instances_running (operative_instances d) then None
                 else health_check_throws run) with
          | Some e => (status_of_exception e, d)
          | None =>
              let d1 := with_preparing ({[ name ]} ∪ preparing_instances d) d in
              let '(result, d2) := make_vm_description checked_args run d1 in
              on_prepared name start run result d2
          end
    end.

(** ** Start-up reconciliation: the constructor of the daemon *)

(** What the collaborators answer during the constructor: whether the
    vault has a record for the name; the path of the image the vault
    names and whether that path is not empty but has no file; the handle the factory builds for the name, or the
    exception it throws; the handler [make_mount] builds for a target of
    an instance, or the exception it throws. *)
Record StartupRun := mkStartupRun {
  has_record_for : string -> bool;
  image_path : string -> string;
  image_file_lost : string -> bool;
  factory_create : string -> Exc VirtualMachine;
  make_mount : string -> string -> VMMount -> Exc MountHandler
}.

Definition with_spec_state (v : Z) (spec : VMSpecs) : VMSpecs :=
  mkVMSpecs (num_cores spec) (mem_size spec) (disk_space spec) (default_mac_address spec)
    (extra_interfaces spec) (ssh_username spec) v (mounts spec) (deleted spec)
    (metadata spec).

(** One pass of the first loop of [init_mounts], over a mount of the
    specification: the handler table of the instance and the targets to
    remove. *)
Definition init_mount (run : StartupRun) (name : string) (entry : string * VMMount)
    (acc : gmap string MountHandler * list string * list Event)
  : gmap string MountHandler * list string * list Event :=
  let '(vm_mounts, mounts_to_remove, log) := acc in
  let '(target, vm_mount) := entry in
  match vm_mounts !! target with
  | Some _ => acc
  | None =>
      match make_mount run name target vm_mount with
      | Return handler => (<[target := handler]> vm_mounts, mounts_to_remove, log)
      | Throw e =>
          (vm_mounts, mounts_to_remove ++ [target],
           log ++ [ev_warning ("Removing mount " +:+ dquote +:+ source_path vm_mount
                                 +:+ dquote +:+ " => " +:+ dquote +:+ target +:+ dquote
                                 +:+ " from '" +:+ name +:+ "': " +:+ what e)])
      end
  end.

Definition init_mounts (run : StartupRun) (name : string) (d : Daemon) : Daemon :=
  let '(vm_mounts, d1) := mounts_subscript name d in
  let '(spec, d2) := specs_subscript name d1 in
  let '(vm_mounts', mounts_to_remove, log) :=
    foldl (fun acc entry => init_mount run name entry acc) (vm_mounts, [], [])
          (map_to_list (mounts spec)) in
  let d3 := with_mounts (<[name := vm_mounts']> (daemon_mounts d2)) d2 in
  let d4 := foldl (fun d e => emit e d) d3 log in
  let d5 := with_specs
              (alter (fun spec =>
                        with_spec_mounts
                          (foldl (fun m target => delete target m) (mounts spec) mounts_to_remove)
                          spec)
                 name (vm_instance_specs d4)) d4 in
  if bool_decide (mounts_to_remove = []) then d5 else persist_instances d5.

(** The body of the constructor's loop over the loaded specifications,
    for the entry [name], [spec]: the daemon and the list of invalid
    specifications. *)
Definition reconcile_spec (run : StartupRun) (entry : string * VMSpecs)
    (acc : Daemon * list string) : Exc (Daemon * list string) :=
  let '(d, invalid_specs) := acc in
  let '(name, spec) := entry in
  if negb (has_record_for run name) then Return (d, invalid_specs ++ [name])
  else
    let new_macs := mac_set_from spec in
    if (size new_macs <=? length (extra_interfaces spec))
       || negb (snd (merge_if_disjoint new_macs (allocated_mac_addrs d))) then
      Return (emit (ev_warning (name +:+ " has repeated MAC addresses")) d,
              invalid_specs ++ [name])
    else
      let new_macs := fst (merge_if_disjoint new_macs (allocated_mac_addrs d)) in
      if image_file_lost run name then
        Return (emit (ev_warning ("Could not find image for '" +:+ name
                                    +:+ "'. Expected location: " +:+ image_path run name)) d,
                invalid_specs ++ [name])
      else
        instance ← factory_create run name;
        let d1 := if deleted spec
                  then with_deleted (<[name := instance]> (deleted_instances d)) d
                  else with_operative (<[name := instance]> (operative_instances d)) d in
        let d2 := with_allocated new_macs d1 in
        let incompatible := deleted spec && negb (state spec =? state_code stopped)%Z in
        let d3 := if incompatible
                  then with_specs (<[name := with_spec_state (state_code stopped) spec]>
                                     (vm_instance_specs d2))
                         (emit (ev_warning
                                  (name +:+ " is deleted but has incompatible state "
                                     +:+ string_of_Z (state spec)
                                     +:+ ", resetting state to 0 (stopped)")) d2)
                  else d2 in
        let spec := if incompatible then with_spec_state (state_code stopped) spec else spec in
        let d4 := if negb (deleted spec) then init_mounts run name d3 else d3 in
        let needs_starting :=
          (state spec =? state_code running)%Z
          && match operative_instances d4 !! name with
             | Some vm => negb (bool_decide (current_state vm = running))
                          && negb (bool_decide (current_state vm = starting))
             | None => false
             end in
        Return (if needs_starting then emit (ev_start name) d4 else d4, invalid_specs).

Fixpoint reconcile_specs (run : StartupRun) (entries : list (string * VMSpecs))
    (acc : Daemon * list string) : Exc (Daemon * list string) :=
  match entries with
  | [] => Return acc
  | entry :: rest =>
      acc' ← reconcile_spec run entry acc;
      reconcile_specs run rest acc'
  end.

(** The second loop of the constructor: the invalid specifications
    leave the registry. *)
Definition remove_invalid (bad_spec : string) (d : Daemon) : Daemon :=
  with_specs (delete bad_spec (vm_instance_specs d))
    (emit (ev_warning ("Removing invalid instance: " +:+ bad_spec)) d).

(** [Daemon::Daemon]: the registry is loaded, reconciled with the
    collaborators and, if a specification was dropped, persisted.  The
    hypervisor health check, whose failure is only logged, the loading of
    the snapshots and the maintenance of the source images are left
    out. *)
Definition Daemon_constructor (lib : Library) (db_file : option QJsonDocument)
    (run : StartupRun) : Exc Daemon :=
  loaded ← load_db lib db_file;
  let d0 := mkDaemon (fst loaded) ∅ ∅ ∅ ∅ ∅ ∅ [] (snd loaded) in
  reconciled ← reconcile_specs run (map_to_list (fst loaded)) (d0, []);
  let d1 := foldl (fun d bad_spec => remove_invalid bad_spec d) (fst reconciled)
                  (snd reconciled) in
  Return (if bool_decide (snd reconciled = []) then d1 else persist_instances d1).

(** ** Consistency of the allocated MAC addresses *)

(** The union of the MAC addresses, default and extra, over the
    specifications of the registry. *)
Definition macs_of_specs (specs : gmap string VMSpecs) : gset string :=
  ⋃ (mac_set_from <$> (map_to_list specs).*2).

(** No MAC address is shared by two specifications. *)
Definition macs_disjoint (specs : gmap string VMSpecs) : Prop :=
  forall n1 n2 s1 s2,
    n1 <> n2 -> specs !! n1 = Some s1 -> specs !! n2 = Some s2 ->
    mac_set_from s1 ## mac_set_from s2.

(** Every specification belongs to an instance of one of the tables. *)
Definition registered (d : Daemon) : Prop :=
  forall n, is_Some (vm_instance_specs d !! n) ->
            is_Some (operative_instances d !! n) \/ is_Some (deleted_instances d !! n).

Definition consistent (d : Daemon) : Prop :=
  allocated_mac_addrs d = macs_of_specs (vm_instance_specs d) /\
  macs_disjoint (vm_instance_specs d) /\
  registered d.

(** The MAC addresses the user asked for. *)
Definition requested_macs (ifaces : list NetworkInterface) : gset string :=
  list_to_set (filter (fun m => m <> "") (mac_address <$> ifaces)).

(** The MAC addresses of a description: those of the specification built
    from it. *)
Definition macs_of_description (vm_desc : VirtualMachineDescription) : gset string :=
  {[ desc_default_mac_address vm_desc ]}
  ∪ list_to_set (mac_address <$> desc_extra_interfaces vm_desc).

(** [consistent], except that the specification of [name] need not
    belong to an instance yet. *)
Definition consistent_but (name : string) (d : Daemon) : Prop :=
  allocated_mac_addrs d = macs_of_specs (vm_instance_specs d) /\
  macs_disjoint (vm_instance_specs d) /\
  forall n, n <> name -> is_Some (vm_instance_specs d !! n) ->
            is_Some (operative_instances d !! n) \/ is_Some (deleted_instances d !! n).

(** The registry without the listed names. *)
Definition delete_all (names : list string) (specs : gmap string VMSpecs)
  : gmap string VMSpecs :=
  foldr delete specs names.

(** The invariant of the constructor's first loop: the specifications
    that are neither waiting ([todo]) nor invalid are the admitted ones,
    and the allocated set holds exactly their addresses. *)
Definition reconciling (d : Daemon) (invalid : list string) (todo : list (string * VMSpecs))
  : Prop :=
  let admitted := delete_all (invalid ++ todo.*1) (vm_instance_specs d) in
  allocated_mac_addrs d = macs_of_specs admitted /\
  macs_disjoint admitted /\
  (forall n, is_Some (admitted !! n) ->
             is_Some (operative_instances d !! n) \/ is_Some (deleted_instances d !! n)) /\
  (forall entry, entry ∈ todo -> vm_instance_specs d !! fst entry = Some (snd entry)) /\
  (forall n, n ∈ invalid -> n ∉ todo.*1) /\
  NoDup todo.*1.


(** A persisted registry with an instance and a record that repeats its
    MAC addresses; collaborators that accept every instance. *)
Definition persisted_with_clone : QJsonDocument :=
  doc_object (instance_records_json
                {[ "primary" := primary_spec; "clone" := primary_spec ]}).

Definition accepting_startup : StartupRun :=
  mkStartupRun (fun _ => true) (fun _ => "") (fun _ => false)
    (fun name => Return (mkVM name off off None))
    (fun _ _ mount => Return (mkMountHandler mount false None)).

Definition constructed_daemon : Daemon :=
  match Daemon_constructor example_library (Some persisted_with_clone) accepting_startup with
  | Return d => d
  | Throw _ => empty_daemon
  end.

(** A create request for an instance named fresh with one extra
    interface whose address is to be generated. *)
Definition fresh_args : CheckedArguments :=
  mkCheckedArguments "fresh" [ mkNetworkInterface "eth1" "" true ] [] [].

Definition numbered_macs : MacGenerator :=
  mkMacGen (fun i => "52:54:00:00:01:0" +:+ string_of_N (N.of_nat i)) 0.

Definition smooth_run : CreateRun :=
  mkCreateRun false "" gen_abcd None None numbered_macs 1 1073741824 5368709120 None
    (Return (mkVM "fresh" off off None)) "ubuntu" Status_OK.

Definition daemon_after_create : Daemon :=
  snd (create_vm fresh_args smooth_run false constructed_daemon).

(** ** Requests that repeat a MAC address *)

(** Two of the interfaces carry the same MAC address, which is not
    empty. *)
Definition has_repeated_mac (ifaces : list NetworkInterface) : Prop :=
  exists i j mac, i < j /\
    (mac_address <$> ifaces) !! i = Some mac /\
    (mac_address <$> ifaces) !! j = Some mac /\ mac <> "".

(** The request gets as far as the MAC addresses: the arguments were
    accepted, bridging is settled, the name is free and not being
    prepared, the health check (if run) passes, and the image is resolved,
    fetched and sized without an exception. *)
Definition reaches_mac_validation (checked_args : CheckedArguments) (run : CreateRun)
    (d : Daemon) : Prop :=
  option_errors checked_args = [] /\
  (nets_need_bridging checked_args = [] \/ permission_to_bridge run = true) /\
  (exists name,
     fst (name_from (instance_name checked_args) (blueprint_name run) (name_generator run)
            (operative_instances d)) = Return name /\
     operative_instances d !! name = None /\ deleted_instances d !! name = None /\
     name ∉ preparing_instances d) /\
  (instances_running (operative_instances d) = true \/ health_check_throws run = None) /\
  prepare_throws run = None.

(** The scenario: two extra interfaces with the address
    52:54:00:aa:bb:cc. *)
Definition repeated_mac_args : CheckedArguments :=
  mkCheckedArguments "twin"
    [ mkNetworkInterface "eth1" "52:54:00:aa:bb:cc" true;
      mkNetworkInterface "eth2" "52:54:00:aa:bb:cc" true ] [] [].

(** A daemon whose operative instances are a, b and c. *)
Definition daemon_abc : Daemon :=
  with_operative
    {[ "a" := mkVM "a" running running None;
       "b" := mkVM "b" running running None;
       "c" := mkVM "c" running running None ]} empty_daemon.

Definition unnamed_args : CheckedArguments := mkCheckedArguments "" [] [] [].

Definition stuck_run : CreateRun :=
  mkCreateRun false "" gen_abcd None None stuck_generator 1 1073741824 5368709120 None
    (Return (mkVM "d" off off None)) "ubuntu" Status_OK.

(** ** Reactions to a whole selection *)

Definition require_operative_instances_reaction : SelectionReaction :=
  mkSelectionReaction
    (mkReaction OK None)
    (mkReaction INVALID_ARGUMENT
       (Some (fun name => "instance " +:+ dquote +:+ name +:+ dquote +:+ " is deleted")))
    (mkReaction NOT_FOUND
       (Some (fun name => "instance " +:+ dquote +:+ name +:+ dquote +:+ " does not exist"))).

Definition require_existing_instances_reaction : SelectionReaction :=
  mkSelectionReaction
    (mkReaction OK None)
    (mkReaction OK None)
    (mkReaction NOT_FOUND
       (Some (fun name => "instance " +:+ dquote +:+ name +:+ dquote +:+ " does not exist"))).

(** [SelectionComponent]: a list of iterators into an instance table, or
    a list of names. *)
Inductive SelectionComponent :=
| component_selection (component : LinearInstanceSelection)
| component_missing (component : MissingInstanceList).

(** [get_instance_name], over a whole component. *)
Definition get_instance_names (selection_component : SelectionComponent) : list string :=
  match selection_component with
  | component_selection component => component.*1
  | component_missing component => component
  end.

(** [react_to_component]: the status code and the error buffer
    afterwards.  A message under an OK reaction goes to the debug log
    only. *)
Definition react_to_component (selection_component : SelectionComponent)
    (reaction_component : ReactionComponent) (errors : string) : StatusCode * string :=
  let component := get_instance_names selection_component in
  if bool_decide (component = []) then (OK, errors)
  else
    let code := status_code reaction_component in
    match message_template reaction_component with
    | Some msg =>
        (code,
         foldl (fun errors instance_name =>
                  if bool_decide (code = OK) then errors
                  else add_fmt_to errors (msg instance_name))
               errors component)
    | None => (code, errors)
    end.

(** [grpc_status_for(errors, status_code)], with an explicit status
    code. *)
Definition grpc_status_for_code (errors : string) (code : StatusCode) : Status :=
  let code := if negb (bool_decide (errors = "")) && bool_decide (code = OK)
              then INVALID_ARGUMENT else code in
  if bool_decide (code = OK) then Status_OK
  else mkStatus code ("The following errors occurred:" +:+ newline +:+ errors) "".

Definition grpc_status_for_selection (selection : InstanceSelectionReport)
    (reaction : SelectionReaction) : Status :=
  let errors := "" in
  let status_code := OK in
  let '(code, errors) :=
    react_to_component (component_selection (operative_selection selection))
      (operative_reaction reaction) errors in
  let status_code := if bool_decide (code = OK) then status_code else code in
  let '(code, errors) :=
    react_to_component (component_selection (deleted_selection selection))
      (deleted_reaction reaction) errors in
  let status_code := if bool_decide (code = OK) then status_code else code in
  let '(code, errors) :=
    react_to_component (component_missing (missing_instances selection))
      (missing_reaction reaction) errors in
  let status_code := if bool_decide (code = OK) then status_code else code in
  grpc_status_for_code errors status_code.

Definition select_instances_and_react (operative_instances deleted_instances : InstanceTable)
    (names : list string) (no_name_means : InstanceGroup) (reaction : SelectionReaction)
  : InstanceSelectionReport * Status :=
  let instance_selection :=
    select_instances operative_instances deleted_instances names no_name_means in
  (instance_selection, grpc_status_for_selection instance_selection reaction).

(** ** What a reaction answers *)

(** The code a component contributes: the reaction's, unless the
    component is empty. *)
Definition component_code {A} (component : list A) (reaction_component : ReactionComponent)
  : StatusCode :=
  match component with
  | [] => OK
  | _ => status_code reaction_component
  end.

(** ** The text of a rejection *)

(** The lines a component adds to the error buffer: one per instance,
    when the reaction is not OK and has a message. *)
Definition component_lines (names : list string) (reaction_component : ReactionComponent)
  : list string :=
  match message_template reaction_component with
  | Some msg =>
      if bool_decide (status_code reaction_component = OK) then [] else msg <$> names
  | None => []
  end.

(** A report with one deleted and one missing instance. *)
Definition rejected_selection : InstanceSelectionReport :=
  mkReport [] [("gone", mkVM "gone" stopped stopped None)] ["nope"].

(** ** Snapshots requested per instance *)

(** One pass of the loop of [map_snapshots_to_instances] over a pair
    (instance name, snapshot name) of the request. *)
Definition map_snapshot (it : string * string)
    (instance_snapshots_map : gmap string (gset string)) : gmap string (gset string) :=
  let instance := fst it in
  let snapshot := snd it in
  if bool_decide (snapshot = "") then <[instance := ∅]> instance_snapshots_map
  else
    match instance_snapshots_map !! instance with
    | None => <[instance := {[ snapshot ]}]> instance_snapshots_map
    | Some entry =>
        if negb (bool_decide (entry = ∅))
        then <[instance := {[ snapshot ]} ∪ entry]> instance_snapshots_map
        else instance_snapshots_map
    end.

Definition map_snapshots_to_instances (instances_snapshots : list (string * string))
  : gmap string (gset string) :=
  foldl (fun instance_snapshots_map it => map_snapshot it instance_snapshots_map)
        ∅ instances_snapshots.

(** The snapshot names the request pairs with an instance. *)
Definition snapshots_named (instance : string) (instances_snapshots : list (string * string))
  : gset string :=
  list_to_set (snd <$> filter (fun it => fst it = instance) instances_snapshots).

(** ** The size of the instance's disk *)

(** [compute_final_image_size]: sizes are byte counts;
    [available_bytes] is what [filesystem_bytes_available] answers for
    the data directory.  The result comes with the warning logged when
    more is reserved than is available. *)
Definition compute_final_image_size (lib : Library) (image_size : Z)
    (command_line_value : option Z) (data_directory : string) (available_bytes : Z)
  : Exc (Z * list Event) :=
  disk_space ←
    match command_line_value with
    | None =>
        default_disk_size_as_struct ← MemorySize lib (default_disk_size lib);
        Return (if (image_size <? default_disk_size_as_struct)%Z
                then default_disk_size_as_struct else image_size)
    | Some requested =>
        if (requested <? image_size)%Z then
          Throw (runtime_error
                   ("Requested disk (" +:+ string_of_Z requested
                      +:+ " bytes) below minimum for this image ("
                      +:+ string_of_Z image_size +:+ " bytes)"))
        else Return requested
    end;
  if (available_bytes =? -1)%Z then
    Throw (runtime_error
             ("Failed to determine information about the volume containing "
                +:+ data_directory))
  else
    available_disk_space ← MemorySize lib (string_of_Z available_bytes +:+ "B");
    if (available_disk_space <? image_size)%Z then
      Throw (runtime_error
               ("Available disk (" +:+ string_of_Z available_disk_space
                  +:+ " bytes) below minimum for this image ("
                  +:+ string_of_Z image_size +:+ " bytes)"))
    else
      Return (disk_space,
              if (available_disk_space <? disk_space)%Z then
                [ev_warning ("Reserving more disk space (" +:+ string_of_Z disk_space
                               +:+ " bytes) than available ("
                               +:+ string_of_Z available_disk_space +:+ " bytes)")]
              else []).

(** A library that reads a byte count with or without the unit [B]. *)
Fixpoint without_unit (s : string) : string :=
  match s with
  | EmptyString => EmptyString
  | String c EmptyString => if Ascii.eqb c "B" then EmptyString else s
  | String c rest => String c (without_unit rest)
  end.

Definition bytes_library : Library :=
  mkLibrary (hex_groups 6)
            (fun s => Z.of_N <$> N_of_string (without_unit s))
            (unique_pairs [])
            "1073741824" "5368709120".

(** ** What a loaded registry is made of *)

(** A specification as the daemon relies on it: valid MAC addresses and
    a user name. *)
Definition usable_spec (lib : Library) (spec : VMSpecs) : Prop :=
  valid_mac_address lib (default_mac_address spec) = true /\
  Forall (fun iface => valid_mac_address lib (mac_address iface) = true)
         (extra_interfaces spec) /\
  ssh_username spec <> "".

(** ** The callbacks of the instances: state and metadata *)

Definition with_spec_metadata (v : QJsonObject) (spec : VMSpecs) : VMSpecs :=
  mkVMSpecs (num_cores spec) (mem_size spec) (disk_space spec) (default_mac_address spec)
    (extra_interfaces spec) (ssh_username spec) (state spec) (mounts spec) (deleted spec) v.

(** [Daemon::persist_state_for]: [vm_instance_specs[name]] creates the
    entry if the registry has none. *)
Definition persist_state_for (name : string) (state : State) (d : Daemon) : Daemon :=
  let '(spec, d1) := specs_subscript name d in
  persist_instances
    (with_specs (<[name := with_spec_state (state_code state) spec]> (vm_instance_specs d1))
       d1).

Definition update_metadata_for (name : string) (metadata : QJsonObject) (d : Daemon)
  : Daemon :=
  let '(spec, d1) := specs_subscript name d in
  persist_instances
    (with_specs (<[name := with_spec_metadata metadata spec]> (vm_instance_specs d1)) d1).

Definition retrieve_metadata_for (name : string) (d : Daemon) : QJsonObject * Daemon :=
  let '(spec, d1) := specs_subscript name d in
  (metadata spec, d1).

(** ** A state persisted for a name the registry does not know *)

(** A specification with nothing but defaults where the ghost test
    looks. *)
Definition defaulted (spec : VMSpecs) : Prop :=
  num_cores spec = 0%Z /\ mem_size spec = 0%Z /\ disk_space spec = 0%Z /\
  ssh_username spec = "" /\ deleted spec = false /\ metadata spec = [].

(** ** Handlers for the mounts of a specification *)

(** What [init_mounts] makes of a target: the handler it has, or builds,
    and whether the mount stays in the specification. *)
Definition handler_after (run : StartupRun) (name target : string)
    (handler : option MountHandler) (vm_mount : option VMMount) : option MountHandler :=
  match handler, vm_mount with
  | Some h, _ => Some h
  | None, Some m =>
      match make_mount run name target m with
      | Return h => Some h
      | Throw _ => None
      end
  | None, None => None
  end.

Definition mount_after (run : StartupRun) (name target : string)
    (handler : option MountHandler) (vm_mount : option VMMount) : option VMMount :=
  match vm_mount, handler with
  | Some m, None =>
      match make_mount run name target m with
      | Return _ => Some m
      | Throw _ => None
      end
  | _, _ => vm_mount
  end.

(** Collaborators that cannot build a handler for the target /busy. *)
Definition picky_startup : StartupRun :=
  mkStartupRun (fun _ => true) (fun _ => "") (fun _ => false)
    (fun name => Return (mkVM name off off None))
    (fun _ target vm_mount =>
       if String.eqb target "/busy" then Throw (other_exception "no such directory")
       else Return (mkMountHandler vm_mount false None)).

(** ** Delete and recover *)

Definition with_spec_deleted (v : bool) (spec : VMSpecs) : VMSpecs :=
  mkVMSpecs (num_cores spec) (mem_size spec) (disk_space spec) (default_mac_address spec)
    (extra_interfaces spec) (ssh_username spec) (state spec) (mounts spec) v
    (metadata spec).

(** One pass of the first loop of [Daemon::delet], over an operative
    instance of the selection.  [shutdown] is what the call of
    [instance->shutdown()] does: it returns the handle as the hypervisor
    leaves it, or throws.  The assertions are not evaluated. *)
Definition delete_operative (shutdown : VirtualMachine -> Exc VirtualMachine) (purge : bool)
    (vm_it : string * VirtualMachine) (purged_instances : list string) (d : Daemon)
  : Exc (list string) * Daemon :=
  let name := fst vm_it in
  let instance := snd vm_it in
  let d1 := if decide (current_state instance = delayed_shutdown)
            then with_delayed (delayed_shutdown_instances d ∖ {[ name ]}) d
            else d in
  let d2 := with_mounts (<[name := ∅]> (daemon_mounts d1)) d1 in
  match shutdown instance with
  | Throw e => (Throw e, d2)
  | Return instance =>
      if purge then
        let d3 := release_resources name d2 in
        (Return (purged_instances ++ [name]),
         with_operative (delete name (operative_instances d3)) d3)
      else
        let d3 := with_deleted (<[name := instance]> (deleted_instances d2)) d2 in
        let '(spec, d4) := specs_subscript name d3 in
        let d5 := with_specs (<[name := with_spec_deleted true spec]> (vm_instance_specs d4))
                    d4 in
        (Return purged_instances, with_operative (delete name (operative_instances d5)) d5)
  end.

Fixpoint delete_operatives (shutdown : VirtualMachine -> Exc VirtualMachine) (purge : bool)
    (operative_selection : LinearInstanceSelection) (purged_instances : list string)
    (d : Daemon) : Exc (list string) * Daemon :=
  match operative_selection with
  | [] => (Return purged_instances, d)
  | vm_it :: rest =>
      match delete_operative shutdown purge vm_it purged_instances d with
      | (Return purged_instances', d') =>
          delete_operatives shutdown purge rest purged_instances' d'
      | (Throw e, d') => (Throw e, d')
      end
  end.

(** One pass of the second loop, taken under [purge], over a deleted
    instance of the selection. *)
Definition purge_deleted (vm_it : string * VirtualMachine)
    (acc : list string * Daemon) : list string * Daemon :=
  let name := fst vm_it in
  let d1 := release_resources name (snd acc) in
  (fst acc ++ [name], with_deleted (delete name (deleted_instances d1)) d1).

(** [Daemon::delet]: the status, the names of the reply and the daemon
    afterwards.  The request pairs instance names with snapshot names;
    the map of the snapshots is computed and not used. *)
Definition delet (shutdown : VirtualMachine -> Exc VirtualMachine)
    (instances_snapshots : list (string * string)) (purge : bool) (d : Daemon)
  : Status * list string * Daemon :=
  let '(instance_selection, status) :=
    select_instances_and_react (operative_instances d) (deleted_instances d)
      (fst <$> instances_snapshots) GroupAll require_existing_instances_reaction in
  if ok status then
    match delete_operatives shutdown purge (operative_selection instance_selection) [] d with
    | (Throw e, d') => (status_of_exception e, [], d')
    | (Return purged_instances, d1) =>
        let '(purged_instances, d2) :=
          if purge
          then foldl (fun acc vm_it => purge_deleted vm_it acc) (purged_instances, d1)
                     (deleted_selection instance_selection)
          else (purged_instances, d1) in
        (status, purged_instances, persist_instances d2)
    end
  else (status, [], d).

(** The reaction of [Daemon::recover]: the one that requires existing
    instances, with a message for the operative ones. *)
Definition recover_reaction : SelectionReaction :=
  mkSelectionReaction
    (mkReaction OK
       (Some (fun name => "instance " +:+ dquote +:+ name +:+ dquote
                            +:+ " does not need to be recovered")))
    (deleted_reaction require_existing_instances_reaction)
    (missing_reaction require_existing_instances_reaction).

(** One pass of the loop of [Daemon::recover]. *)
Definition recover_deleted (run : StartupRun) (vm_it : string * VirtualMachine) (d : Daemon)
  : Daemon :=
  let name := fst vm_it in
  let '(spec, d1) := specs_subscript name d in
  let d2 := with_specs (<[name := with_spec_deleted false spec]> (vm_instance_specs d1)) d1 in
  let d3 := with_operative (<[name := snd vm_it]> (operative_instances d2)) d2 in
  let d4 := with_deleted (delete name (deleted_instances d3)) d3 in
  init_mounts run name d4.

Definition recover (run : StartupRun) (instance_names : list string) (d : Daemon)
  : Status * Daemon :=
  let '(instance_selection, status) :=
    select_instances_and_react (operative_instances d) (deleted_instances d)
      instance_names GroupDeleted recover_reaction in
  if ok status then
    (status,
     persist_instances
       (foldl (fun d vm_it => recover_deleted run vm_it d) d
              (deleted_selection instance_selection)))
  else (status, d).

(** The name is a target of the request: the request names it, or names
    nothing. *)
Definition requested (names : list string) (n : string) : bool :=
  bool_decide (names = []) || bool_decide (n ∈ names).

(** ** The tables and the registry *)

(** Every instance of a table has a specification, and the
    specification is flagged deleted exactly when the instance is in the
    deleted table: what the assertions of [delet] and [recover] state. *)
Definition tables_agree (d : Daemon) : Prop :=
  (forall n, is_Some (operative_instances d !! n) ->
     exists spec, vm_instance_specs d !! n = Some spec /\ deleted spec = false) /\
  (forall n, is_Some (deleted_instances d !! n) ->
     exists spec, vm_instance_specs d !! n = Some spec /\ deleted spec = true).

Definition well_formed (d : Daemon) : Prop := consistent d /\ tables_agree d.

(** ** What delete and recover do to the tables *)

(** The handle as the hypervisor leaves it at shutdown. *)
Definition shut_down (shutdown : VirtualMachine -> Exc VirtualMachine) (vm : VirtualMachine)
  : VirtualMachine :=
  match shutdown vm with
  | Return instance => instance
  | Throw _ => vm
  end.

(** The instances of a table that a request targets. *)
Definition targeted (names : list string) (tbl : InstanceTable) (n : string) : bool :=
  requested names n && bool_decide (is_Some (tbl !! n)).

(** A hypervisor that powers the instance off. *)
Definition powering_off (vm : VirtualMachine) : Exc VirtualMachine :=
  Return (mkVM (vm_name vm) off off (start_throws vm)).

(** The invariant of the constructor's loop on the tables: an instance
    of a table belongs to a specification that has been admitted, with
    the matching flag. *)
Definition placing (d : Daemon) (invalid : list string) (todo : list (string * VMSpecs))
  : Prop :=
  (forall n, is_Some (operative_instances d !! n) ->
     (n ∉ invalid) /\ (n ∉ todo.*1) /\
     exists spec, vm_instance_specs d !! n = Some spec /\ deleted spec = false) /\
  (forall n, is_Some (deleted_instances d !! n) ->
     (n ∉ invalid) /\ (n ∉ todo.*1) /\
     exists spec, vm_instance_specs d !! n = Some spec /\ deleted spec = true).

(** The tables agree with the registry except, perhaps, at [name], which
    is in no table or in the operative one. *)
Definition agree_but (name : string) (d : Daemon) : Prop :=
  (forall n, n <> name -> is_Some (operative_instances d !! n) ->
     exists spec, vm_instance_specs d !! n = Some spec /\ deleted spec = false) /\
  (forall n, is_Some (deleted_instances d !! n) ->
     n <> name /\ exists spec, vm_instance_specs d !! n = Some spec /\ deleted spec = true).


(** ** Mount *)

(** What a call of [activate] on a handler does: it returns, throws
    [SSHFSMissingError], or throws another exception. *)
Inductive ActivateOutcome :=
| activated
| sshfs_missing
| activate_fails (e : exception).

(** What the settings and the collaborators answer during one run of
    [Daemon::mount]: the setting of the privileged mounts,
    [QDir::cleanPath], [mp::utils::invalid_target_path], the handler
    [make_mount] builds for a target of an instance, or the exception it
    throws, and what activating that handler does. *)
Record MountRun := mkMountRun {
  mounts_enabled : bool;
  clean_path : string -> string;
  invalid_target_path : string -> bool;
  mount_handler : string -> string -> VMMount -> Exc MountHandler;
  activation : string -> string -> ActivateOutcome
}.

(** A mount request: the source path, the id mappings, the mount type
    the request's type stands for, and the entries (instance name,
    target path). *)
Record MountRequest := mkMountRequest {
  request_source_path : string;
  request_uid_mappings : id_mappings;
  request_gid_mappings : id_mappings;
  request_mount_type : Z;
  request_target_paths : list (string * string)
}.

Definition sshfs_error (instance_name : string) : string :=
  "Error enabling mount support in '" +:+ instance_name +:+ "'" +:+ newline +:+ newline
    +:+ "Please install the 'multipass-sshfs' snap manually inside the instance.".

Definition grpc_status_for_mount_error (instance_name : string) : Status :=
  mkStatus FAILED_PRECONDITION (sshfs_error instance_name) "".

(** How one pass of the loop over the entries ends: the loop goes on,
    the request returns at once, or an exception leaves the loop. *)
Inductive MountStep :=
| step_continue (errors : string)
| step_return (status : Status)
| step_throw (e : exception).

Definition set_handlers (name : string) (vm_mounts : gmap string MountHandler) (d : Daemon)
  : Daemon :=
  with_mounts (<[name := vm_mounts]> (daemon_mounts d)) d.

(** The body of the loop of [Daemon::mount]. *)
Definition mount_entry (run : MountRun) (request : MountRequest)
    (path_entry : string * string) (errors : string) (d : Daemon) : MountStep * Daemon :=
  let name := fst path_entry in
  let target_path := clean_path run (snd path_entry) in
  match operative_instances d !! name with
  | None =>
      (step_continue (add_fmt_to errors ("instance '" +:+ name +:+ "' does not exist")), d)
  | Some vm =>
      if invalid_target_path run target_path then
        (step_continue (add_fmt_to errors ("unable to mount to " +:+ dquote +:+ target_path
                                             +:+ dquote)), d)
      else
        let '(vm_mounts, d1) := mounts_subscript name d in
        match vm_mounts !! target_path with
        | Some _ =>
            (step_continue (add_fmt_to errors
                              (dquote +:+ target_path +:+ dquote +:+ " is already mounted in '"
                                 +:+ name +:+ "'")), d1)
        | None =>
            let vm_mount := mkVMMount (request_source_path request)
                              (request_gid_mappings request) (request_uid_mappings request)
                              (request_mount_type request) in
            match mount_handler run name target_path vm_mount with
            | Throw e => (step_throw e, d1)
            | Return handler =>
                let d2 := set_handlers name (<[target_path := handler]> vm_mounts) d1 in
                let record (d : Daemon) :=
                  let '(spec, d3) := specs_subscript name d in
                  with_specs
                    (<[name := with_spec_mounts (<[target_path := vm_mount]> (mounts spec))
                                 spec]>
                       (vm_instance_specs d3)) d3 in
                if bool_decide (current_state vm = running)
                   || is_mount_managed_by_backend handler then
                  match activation run name target_path with
                  | activated => (step_continue errors, record d2)
                  | sshfs_missing => (step_return (grpc_status_for_mount_error name), d2)
                  | activate_fails e =>
                      (step_continue
                         (add_fmt_to errors
                            ("error mounting " +:+ dquote +:+ target_path +:+ dquote
                               +:+ ": " +:+ what e)),
                       set_handlers name (delete target_path (<[target_path := handler]> vm_mounts))
                         d2)
                  end
                else (step_continue errors, record d2)
            end
        end
  end.

Fixpoint mount_entries (run : MountRun) (request : MountRequest)
    (target_paths : list (string * string)) (errors : string) (d : Daemon)
  : MountStep * Daemon :=
  match target_paths with
  | [] => (step_continue errors, d)
  | path_entry :: rest =>
      match mount_entry run request path_entry errors d with
      | (step_continue errors', d') => mount_entries run request rest errors' d'
      | ended => ended
      end
  end.

Definition mounts_disabled : string :=
  "Mounts are disabled on this installation of Multipass." +:+ newline +:+ newline
    +:+ "See https://multipass.run/docs/set-command#local.privileged-mounts for information"
    +:+ newline +:+ "on how to enable them.".

(** [Daemon::mount]: the status and the daemon afterwards. *)
Definition mount (run : MountRun) (request : MountRequest) (d : Daemon) : Status * Daemon :=
  if negb (mounts_enabled run) then (mkStatus FAILED_PRECONDITION mounts_disabled "", d)
  else
    match mount_entries run request (request_target_paths request) "" d with
    | (step_continue errors, d') => (grpc_status_for errors, persist_instances d')
    | (step_return status, d') => (status, d')
    | (step_throw e, d') => (status_of_exception e, d')
    end.

(** Collaborators for which sshfs is missing in every instance. *)
Definition sshfs_less_run : MountRun :=
  mkMountRun true (fun p => p) (fun _ => false)
    (fun _ _ vm_mount => Return (mkMountHandler vm_mount false None))
    (fun _ _ => sshfs_missing).

Definition mount_request_new : MountRequest :=
  mkMountRequest "/home/user/new" [] [] 0 [("x", "/new")].

(** ** Every mount of a specification has a handler *)

(** The mounts in the specification of [name] all have a handler. *)
Definition mounts_handled (name : string) (d : Daemon) : Prop :=
  forall target, is_Some (spec_mounts_of name d !! target) ->
                 is_Some (handlers_of name d !! target).

(** ** Umount keeps the handlers of the mounts it leaves *)

(** A step that, at each target of each instance, either leaves handler
    and mount alone or leaves no mount. *)
Definition shrinks (d d' : Daemon) : Prop :=
  forall n t,
    (handlers_of n d' !! t = handlers_of n d !! t /\
     spec_mounts_of n d' !! t = spec_mounts_of n d !! t)
    \/ spec_mounts_of n d' !! t = None.

(** Collaborators with which every mount and its activation succeed. *)
Definition mounting_run : MountRun :=
  mkMountRun true (fun p => p) (fun _ => false)
    (fun _ _ vm_mount => Return (mkMountHandler vm_mount false None))
    (fun _ _ => activated).

(** ** Start: the request as a whole *)

(** The codes of [mp::StartError]. *)
Inductive StartErrorCode := INSTANCE_DELETED | DOES_NOT_EXIST.

(** [errors->insert({name, code})] on the map of the message: an entry
    already there is kept. *)
Definition insert_error (name : string) (code : StartErrorCode)
    (errors : gmap string StartErrorCode) : gmap string StartErrorCode :=
  match errors !! name with
  | Some _ => errors
  | None => <[name := code]> errors
  end.

(** [make_start_error_details], before [SerializeAsString]: the map
    [instance_errors] of the message. *)
Definition make_start_error_details (instance_selection : InstanceSelectionReport)
  : gmap string StartErrorCode :=
  let errors := foldl (fun errors vm_it => insert_error (fst vm_it) INSTANCE_DELETED errors)
                      ∅ (deleted_selection instance_selection) in
  foldl (fun errors name => insert_error name DOES_NOT_EXIST errors)
        errors (missing_instances instance_selection).

(** How [Daemon::start] ends: with a status handed to the client, or
    with the wait for the instances of [starting_vms] handed to the
    future watcher, together with the start errors. *)
Inductive StartOutcome :=
| start_replied (status : Status)
| start_waiting (starting_vms : list string) (start_errors : string).

(** [Daemon::start].  [health_check] is what
    [hypervisor_health_check()] does ([None]: it returns), [mounts_enabled]
    the setting of the mounts, [serialize] stands for
    [SerializeAsString]. *)
Definition start (health_check : option exception) (mounts_enabled : bool)
    (serialize : gmap string StartErrorCode -> string) (instance_names : list string)
    (d : Daemon) : StartOutcome * Daemon :=
  match (if negb (instances_running (operative_instances d)) then health_check else None) with
  | Some e => (start_replied (status_of_exception e), d)
  | None =>
      let custom_reaction :=
        mkSelectionReaction (mkReaction OK None) (mkReaction ABORTED None)
          (mkReaction ABORTED None) in
      let '(instance_selection, status) :=
        select_instances_and_react (operative_instances d) (deleted_instances d)
          instance_names GroupOperative custom_reaction in
      if negb (ok status) then
        (start_replied (mkStatus (error_code status) "instance(s) missing"
                          (serialize (make_start_error_details instance_selection))), d)
      else
        match start_targets (operative_selection instance_selection)
                (mkStartLocals "" [] (negb mounts_enabled)) d with
        | (Return l, d') => (start_waiting (starting_vms l) (start_errors l), d')
        | (Throw e, d') => (start_replied (status_of_exception e), d')
        end
  end.

(** ** A registry that passes every check of the constructor *)

(** The specification as the constructor may leave it: only the state
    and the mounts can differ from what was loaded. *)
Definition kept_as (loaded spec : VMSpecs) : Prop :=
  with_spec_mounts (mounts loaded) (with_spec_state (state loaded) spec) = loaded.

(** The invariant of the constructor's loop while no specification is
    turned down: the waiting ones ([todo]) are as loaded and in no table;
    each of the others is in the table its flag names, with the handle of
    the factory. *)
Definition admitting (run : StartupRun) (registry : gmap string VMSpecs)
    (todo : list (string * VMSpecs)) (d : Daemon) : Prop :=
  allocated_mac_addrs d = macs_of_specs (delete_all todo.*1 registry) /\
  forall n,
    match registry !! n with
    | None =>
        vm_instance_specs d !! n = None /\ operative_instances d !! n = None /\
        deleted_instances d !! n = None
    | Some loaded =>
        if decide (n ∈ todo.*1) then
          vm_instance_specs d !! n = Some loaded /\ operative_instances d !! n = None /\
          deleted_instances d !! n = None
        else
          exists spec vm,
            factory_create run n = Return vm /\
            vm_instance_specs d !! n = Some spec /\ kept_as loaded spec /\
            operative_instances d !! n = (if deleted loaded then None else Some vm) /\
            deleted_instances d !! n = (if deleted loaded then Some vm else None)
    end.

(** ** The specifications the constructor turns down *)

(** A specification that fails a check of the constructor whatever the
    other specifications are: the vault has no record for it, its MAC
    addresses are not pairwise distinct, or its image is lost. *)
Definition turned_down (run : StartupRun) (name : string) (spec : VMSpecs) : bool :=
  negb (has_record_for run name)
  || (size (mac_set_from spec) <=? length (extra_interfaces spec))
  || image_file_lost run name.

(** Collaborators whose vault has lost every record. *)
Definition vaultless_startup : StartupRun :=
  mkStartupRun (fun _ => false) (fun _ => "") (fun _ => false)
    (fun name => Return (mkVM name off off None))
    (fun _ _ mount => Return (mkMountHandler mount false None)).

Definition daemon_without_vault : Daemon :=
  match Daemon_constructor example_library
          (Some (doc_object [("primary", JObject (vm_spec_to_json primary_spec))]))
          vaultless_startup with
  | Return d => d
  | Throw _ => empty_daemon
  end.

(** ** The MAC addresses of a created instance *)

(** The interface as the description holds it: the one asked for, with
    its MAC address filled in if it had none. *)
Definition filled_in (asked got : NetworkInterface) : Prop :=
  id got = id asked /\ auto_mode got = auto_mode asked /\
  (mac_address asked <> "" -> mac_address got = mac_address asked).

(** ** The networks of a launch request *)

(** Images which cannot be bridged with [--network]. *)
Definition no_bridging_release : list string :=
  [ "10.04"; "lucid"; "11.10"; "oneiric"; "12.04"; "precise"; "12.10"; "quantal"; "13.04";
    "raring"; "13.10"; "saucy"; "14.04"; "trusty"; "14.10"; "utopic"; "15.04"; "vivid";
    "15.10"; "wily"; "16.04"; "xenial"; "16.10"; "yakkety"; "17.04"; "zesty" ].

Definition no_bridging_remote : list string := [].

Definition no_bridging_remoteless : list string := [ "core"; "core16" ].

(** The mode of a network option; the request may also carry a value
    that is neither of the two. *)
Inductive NetworkMode := Mode_AUTO | Mode_MANUAL | Mode_unrecognized.

#[global] Instance NetworkMode_eq_dec : EqDecision NetworkMode.
Proof. solve_decision. Defined.

Record NetworkOptions := mkNetworkOptions {
  net_id : string;
  net_mode : NetworkMode;
  net_mac_address : string
}.

(** The part of a launch request that [validate_extra_interfaces]
    reads. *)
Record LaunchNetworks := mkLaunchNetworks {
  remote_name : string;
  image : string;
  network_options : list NetworkOptions
}.

(** The fields of [mp::NetworkInterfaceInfo] that are read. *)
Record NetworkInterfaceInfo := mkNetworkInterfaceInfo {
  info_id : string;
  needs_authorization : bool
}.

(** What [factory.networks()] does: it lists the networks of the host,
    throws [NotImplementedOnThisBackendException], or throws something
    else. *)
Inductive NetworksOutcome :=
| networks_listed (networks : list NetworkInterfaceInfo)
| networks_not_implemented
| networks_throw (e : exception).

(** The constants and the collaborators of the validation: the name that
    stands for the bridged network and the key of its setting, the value
    of that setting, the answer of the factory, the exception
    [NotImplementedOnThisBackendException("bridging")], and
    [QString::toLower]. *)
Record NetworkRun := mkNetworkRun {
  bridged_network_name : string;
  bridged_interface_key : string;
  bridged_interface : string;
  factory_networks : NetworksOutcome;
  bridging_not_implemented : exception;
  to_lower : string -> string
}.

Inductive LaunchErrorCode :=
| INVALID_MEM_SIZE | INVALID_DISK_SIZE | INVALID_HOSTNAME | INVALID_NETWORK.

(** The locals of [validate_extra_interfaces] and the two arguments it
    appends to. *)
Record Validation := mkValidation {
  interfaces : list NetworkInterface;
  cached_networks : option (list NetworkInterfaceInfo);
  bridging_needed : list string;
  launch_errors : list LaunchErrorCode;
  warnings : list Event
}.

(** [dont_allow_auto] and [specified_image], computed before the
    loop. *)
Definition specified_image (request : LaunchNetworks) : string :=
  if bool_decide (remote_name request = "") then image request
  else remote_name request +:+ ":" +:+ image request.

Definition dont_allow_auto (request : LaunchNetworks) : bool :=
  let remote := remote_name request in
  let image := image request in
  if bool_decide (remote = "") then
    bool_decide (image ∈ no_bridging_remoteless) || bool_decide (image ∈ no_bridging_release)
  else
    let dont_allow_auto := bool_decide (specified_image request ∈ no_bridging_remote) in
    if negb dont_allow_auto
       && (bool_decide (remote = "release") || bool_decide (remote = "daily"))
    then bool_decide (image ∈ no_bridging_release)
    else dont_allow_auto.

(** The body of the loop over the network options. *)
Definition validate_interface (lib : Library) (run : NetworkRun) (request : LaunchNetworks)
    (net : NetworkOptions) (st : Validation) : Exc Validation :=
  let bridged := bool_decide (net_id net = bridged_network_name run) in
  if bridged && bool_decide (bridged_interface run = "") then
    Throw (runtime_error ("You have to `multipass set " +:+ bridged_interface_key run
                            +:+ "=<name>` to use the `--bridged` shortcut."))
  else
    let net_id := if bridged then bridged_interface run else net_id net in
    let fetched :=
      match cached_networks st with
      | Some networks => Return networks
      | None =>
          match factory_networks run with
          | networks_listed networks => Return networks
          | networks_not_implemented => Throw (bridging_not_implemented run)
          | networks_throw e => Throw e
          end
      end in
    match fetched with
    | Throw e => Throw e
    | Return networks =>
        if dont_allow_auto request && bool_decide (net_mode net = Mode_AUTO) then
          Throw (runtime_error ("Automatic network configuration not available for "
                                  +:+ specified_image request
                                  +:+ ". Consider using manual mode."))
        else
          let checked :=
            match find (fun info => bool_decide (info_id info = net_id)) networks with
            | None =>
                if bridged then
                  Throw (runtime_error
                           ("Invalid network '" +:+ net_id
                              +:+ "' set as bridged interface, use `multipass set "
                              +:+ bridged_interface_key run
                              +:+ "=<name>` to correct. See `multipass networks` for valid names."))
                else
                  Return (bridging_needed st, launch_errors st ++ [INVALID_NETWORK],
                          warnings st ++ [ev_warning ("Invalid network name " +:+ dquote
                                                        +:+ net_id +:+ dquote)])
            | Some host_net =>
                Return (if needs_authorization host_net
                        then bridging_needed st ++ [info_id host_net]
                        else bridging_needed st,
                        launch_errors st, warnings st)
            end in
          match checked with
          | Throw e => Throw e
          | Return (bridging, errors, log) =>
              let mac := to_lower run (net_mac_address net) in
              if bool_decide (mac = "") || valid_mac_address lib mac then
                Return (mkValidation
                          (interfaces st
                             ++ [mkNetworkInterface net_id mac
                                   (negb (bool_decide (net_mode net = Mode_MANUAL)))])
                          (Some networks) bridging errors log)
              else
                Return (mkValidation (interfaces st) (Some networks) bridging
                          (errors ++ [INVALID_NETWORK])
                          (log ++ [ev_warning ("Invalid MAC address " +:+ dquote +:+ mac
                                                 +:+ dquote)]))
          end
    end.

Fixpoint validate_interfaces (lib : Library) (run : NetworkRun) (request : LaunchNetworks)
    (nets : list NetworkOptions) (st : Validation) : Exc Validation :=
  match nets with
  | [] => Return st
  | net :: rest =>
      match validate_interface lib run request net st with
      | Return st' => validate_interfaces lib run request rest st'
      | Throw e => Throw e
      end
  end.

(** [validate_extra_interfaces]: the interfaces it returns and what its
    two reference arguments and the log hold afterwards. *)
Definition validate_extra_interfaces (lib : Library) (run : NetworkRun)
    (request : LaunchNetworks) (nets_need_bridging : list string)
    (option_errors : list LaunchErrorCode)
  : Exc (list NetworkInterface * list string * list LaunchErrorCode * list Event) :=
  match validate_interfaces lib run request (network_options request)
          (mkValidation [] None nets_need_bridging option_errors []) with
  | Return st => Return (interfaces st, bridging_needed st, launch_errors st, warnings st)
  | Throw e => Throw e
  end.

(** The id an option stands for, its MAC address as the validation reads
    it, and the network of the host it names. *)
Definition resolved (run : NetworkRun) (net : NetworkOptions) : string :=
  if bool_decide (net_id net = bridged_network_name run) then bridged_interface run
  else net_id net.

Definition requested_mac (run : NetworkRun) (net : NetworkOptions) : string :=
  to_lower run (net_mac_address net).

Definition mac_accepted (lib : Library) (run : NetworkRun) (net : NetworkOptions) : bool :=
  bool_decide (requested_mac run net = "") || valid_mac_address lib (requested_mac run net).

Definition host_network (run : NetworkRun) (networks : list NetworkInterfaceInfo)
    (net : NetworkOptions) : option NetworkInterfaceInfo :=
  find (fun info => bool_decide (info_id info = resolved run net)) networks.

(** An option that no check of the loop throws on. *)
Definition passes (run : NetworkRun) (request : LaunchNetworks)
    (networks : list NetworkInterfaceInfo) (net : NetworkOptions) : bool :=
  let bridged := bool_decide (net_id net = bridged_network_name run) in
  negb (bridged && bool_decide (bridged_interface run = ""))
  && negb (dont_allow_auto request && bool_decide (net_mode net = Mode_AUTO))
  && negb (bridged && bool_decide (host_network run networks net = None)).

Definition interface_of (run : NetworkRun) (net : NetworkOptions) : NetworkInterface :=
  mkNetworkInterface (resolved run net) (requested_mac run net)
    (negb (bool_decide (net_mode net = Mode_MANUAL))).

Definition bridging_of (run : NetworkRun) (networks : list NetworkInterfaceInfo)
    (nets : list NetworkOptions) : list string :=
  omap (fun net => match host_network run networks net with
                   | Some host_net =>
                       if needs_authorization host_net then Some (info_id host_net) else None
                   | None => None
                   end) nets.

(** The number of error codes the loop adds: one for an option whose
    network the host does not have, one for an option whose MAC address
    is neither empty nor valid. *)
Definition network_errors (lib : Library) (run : NetworkRun)
    (networks : list NetworkInterfaceInfo) (nets : list NetworkOptions) : nat :=
  length (filter (fun net => host_network run networks net = None) nets)
  + length (filter (fun net => mac_accepted lib run net = false) nets).

(** A host with one network that needs authorization, reached through
    the bridged shortcut. *)
Definition bridged_run : NetworkRun :=
  mkNetworkRun "bridged" "local.bridged-network" "en0"
    (networks_listed [ mkNetworkInterfaceInfo "en0" true ])
    (other_exception "bridging") (fun s => s).

(** ** The cloud-init network configuration *)

(** An entry of the node [ethernets]: the keys the function assigns,
    each absent until it is assigned. *)
Record Ethernet := mkEthernet {
  match_macaddress : option string;
  dhcp4 : option bool;
  route_metric : option Z;
  optional : option bool
}.

Definition null_ethernet : Ethernet := mkEthernet None None None None.

(** [network_data["ethernets"][name]...= v]: the entry of [name] is
    updated where it stands, or added at the end. *)
Fixpoint assign_ethernet (name : string) (f : Ethernet -> Ethernet)
    (ethernets : list (string * Ethernet)) : list (string * Ethernet) :=
  match ethernets with
  | [] => [(name, f null_ethernet)]
  | (k, entry) :: rest =>
      if decide (k = name) then (k, f entry) :: rest
      else (k, entry) :: assign_ethernet name f rest
  end.

Definition set_macaddress (v : string) (e : Ethernet) : Ethernet :=
  mkEthernet (Some v) (dhcp4 e) (route_metric e) (optional e).

Definition set_dhcp4 (v : bool) (e : Ethernet) : Ethernet :=
  mkEthernet (match_macaddress e) (Some v) (route_metric e) (optional e).

Definition set_route_metric (v : Z) (e : Ethernet) : Ethernet :=
  mkEthernet (match_macaddress e) (dhcp4 e) (Some v) (optional e).

Definition set_optional (v : bool) (e : Ethernet) : Ethernet :=
  mkEthernet (match_macaddress e) (dhcp4 e) (route_metric e) (Some v).

Definition extra_name (i : nat) : string := "extra" +:+ string_of_N (N.of_nat i).

(** The loop over the extra interfaces, from index [i] on. *)
Fixpoint configure_extras (i : nat) (extra_interfaces : list NetworkInterface)
    (ethernets : list (string * Ethernet)) : list (string * Ethernet) :=
  match extra_interfaces with
  | [] => ethernets
  | iface :: rest =>
      configure_extras (S i) rest
        (if auto_mode iface then
           let name := extra_name i in
           assign_ethernet name (set_optional true)
             (assign_ethernet name (set_route_metric 200)
                (assign_ethernet name (set_dhcp4 true)
                   (assign_ethernet name (set_macaddress (mac_address iface)) ethernets)))
         else ethernets)
  end.

(** [make_cloud_init_network_config]: [None] is the node left null;
    otherwise the version and the entries of [ethernets], in the order
    they were added. *)
Definition make_cloud_init_network_config (default_mac_addr : string)
    (extra_interfaces : list NetworkInterface) : option (string * list (string * Ethernet)) :=
  if existsb auto_mode extra_interfaces then
    let name := "default" in
    let ethernets :=
      assign_ethernet name (set_dhcp4 true)
        (assign_ethernet name (set_macaddress default_mac_addr) []) in
    Some ("2", configure_extras 0 extra_interfaces ethernets)
  else None.

Definition default_ethernet (default_mac_addr : string) : Ethernet :=
  mkEthernet (Some default_mac_addr) (Some true) None None.

Definition extra_ethernet (iface : NetworkInterface) : Ethernet :=
  mkEthernet (Some (mac_address iface)) (Some true) (Some 200%Z) (Some true).

(** The entries the loop adds, from index [i] on. *)
Fixpoint extra_ethernets (i : nat) (extra_interfaces : list NetworkInterface)
  : list (string * Ethernet) :=
  match extra_interfaces with
  | [] => []
  | iface :: rest =>
      (if auto_mode iface then [(extra_name i, extra_ethernet iface)] else [])
        ++ extra_ethernets (S i) rest
  end.

(** * Properties *)

Lemma name_retry_used {V} n name (used : gmap string V) :
  is_Some (used !! name) ->
  name_retry n name used = Throw (runtime_error "unable to generate a unique name").
Proof.
  intros [v Hv]. induction n as [|n IH]; simpl; [reflexivity|].
  rewrite Hv. exact IH.
Qed.

Lemma name_retry_free {V} n name (used : gmap string V) :
  used !! name = None -> name_retry (S n) name used = Return name.
Proof. intros H. simpl. now rewrite H. Qed.

(** C1, on the code: with operative table {a, b, c} and a generator that
    emits a, b, c, d, an empty requested name and no blueprint name,
    [name_from] draws one candidate (a), tests that same candidate on each
    of the 100 iterations and throws; it does not return d, and the
    generator has advanced by one name only. *)
Theorem name_from_scenario_throws :
  name_from "" "" gen_abcd operative_abc
  = (Throw (runtime_error "unable to generate a unique name"),
     mkNameGen (names gen_abcd) 1).
Proof.
  unfold name_from, make_name, gen_abcd.
  change (negb ("" =? "")%string) with false. cbn iota. cbn [names emitted nth].
  rewrite name_retry_used; [reflexivity|].
  exists tt. reflexivity.
Qed.

(** [name_from] in the three cases of its [if] chain: the generator is
    consulted once at most, whatever the table holds. *)
Lemma name_from_requested {V} requested blueprint g (used : gmap string V) :
  requested <> "" -> name_from requested blueprint g used = (Return requested, g).
Proof.
  intros H. unfold name_from.
  destruct (String.eqb_spec requested ""); [contradiction|reflexivity].
Qed.

Lemma name_from_generated {V} g (used : gmap string V) :
  name_from "" "" g used
  = (match used !! names g (emitted g) with
     | None => Return (names g (emitted g))
     | Some _ => Throw (runtime_error "unable to generate a unique name")
     end, mkNameGen (names g) (S (emitted g))).
Proof.
  unfold name_from, make_name.
  change (negb ("" =? "")%string) with false. cbn iota.
  destruct (used !! names g (emitted g)) as [v|] eqn:E.
  - rewrite name_retry_used; [reflexivity|]. rewrite E. eauto.
  - unfold num_retries. rewrite name_retry_free; [reflexivity|exact E].
Qed.

Lemma N_to_uint_nonnil n : N.to_uint n <> Decimal.Nil.
Proof.
  destruct n as [|p]; [discriminate|].
  apply DecimalPos.Unsigned.to_uint_nonnil.
Qed.

Lemma N_of_string_of_N n : N_of_string (string_of_N n) = Some n.
Proof.
  unfold N_of_string, string_of_N.
  rewrite NilZero.usu by apply N_to_uint_nonnil.
  simpl. now rewrite DecimalN.Unsigned.of_to.
Qed.

Lemma generate_unused_tries_spec n s g :
  match generate_unused_tries n s g with
  | (Return mac, s', g') =>
      exists i, i < n /\ mac = candidates g (drawn g + i) /\ (mac ∉ s) /\
        (forall j, j < i -> candidates g (drawn g + j) ∈ s) /\
        s' = {[ mac ]} ∪ s /\ candidates g' = candidates g /\
        drawn g' = drawn g + S i
  | (Throw e, s', g') =>
      (forall j, j < n -> candidates g (drawn g + j) ∈ s) /\
      s' = s /\ candidates g' = candidates g /\ drawn g' = drawn g + n /\
      is_runtime_error e = true
  end.
Proof.
  revert g. induction n as [|n IH]; intros g; simpl.
  - repeat split; intros; lia.
  - destruct (decide (candidates g (drawn g) ∈ s)) as [Hin|Hout].
    + specialize (IH (mkMacGen (candidates g) (S (drawn g)))).
      destruct (generate_unused_tries n s _) as [[[mac|e] s'] g']; simpl in IH.
      * destruct IH as (i & Hi & Hmac & Hnot & Hall & Hs & Hc & Hd).
        exists (S i). repeat split; try lia; try assumption.
        -- rewrite Hmac. f_equal. lia.
        -- intros j Hj. destruct j as [|j].
           ++ now rewrite Nat.add_0_r.
           ++ replace (drawn g + S j) with (S (drawn g) + j) by lia.
              apply Hall. lia.
      * destruct IH as (Hall & Hs & Hc & Hd & He).
        repeat split; try lia; try assumption.
        intros j Hj. destruct j as [|j].
        -- now rewrite Nat.add_0_r.
        -- replace (drawn g + S j) with (S (drawn g) + j) by lia.
           apply Hall. lia.
    + exists 0. rewrite Nat.add_0_r. repeat split; try lia; try assumption.
      all: simpl; intros; lia.
Qed.

(** C8, as the code has it: [generate_unused_mac_address] accepts the
    first of its (at most five) candidates that is absent from the given
    set, inserts it and returns it; when all five candidates are in the
    set it throws a [std::runtime_error] and leaves the set as it was,
    and the RPC entry point reports that exception as
    failed-precondition. *)
Theorem generate_unused_mac_address_spec (s : gset string) (g : MacGenerator) :
  match generate_unused_mac_address s g with
  | (Return mac, s', g') =>
      exists i, i < 5 /\ mac = candidates g (drawn g + i) /\ (mac ∉ s) /\
        (forall j, j < i -> candidates g (drawn g + j) ∈ s) /\
        s' = {[ mac ]} ∪ s /\ drawn g' = drawn g + S i
  | (Throw e, s', g') =>
      (forall j, j < 5 -> candidates g (drawn g + j) ∈ s) /\
      s' = s /\ drawn g' = drawn g + 5 /\
      is_runtime_error e = true /\
      error_code (status_of_exception e) = FAILED_PRECONDITION
  end.
Proof.
  unfold generate_unused_mac_address.
  pose proof (generate_unused_tries_spec max_tries s g) as H.
  destruct (generate_unused_tries max_tries s g) as [[[mac|e] s'] g'].
  - destruct H as (i & Hi & Hmac & Hnot & Hall & Hs & _ & Hd).
    exists i. unfold max_tries in Hi. auto 10.
  - destruct H as (Hall & Hs & _ & Hd & He). unfold max_tries in *.
    auto 10.
Qed.

(** C8, as stated, fails: after five rejected candidates the allocator
    throws a [std::runtime_error], which surfaces as failed-precondition;
    no path of the allocator produces resource-exhausted. *)
Lemma generate_unused_mac_address_not_resource_exhausted :
  exists e,
    generate_unused_mac_address {[ "52:54:00:00:00:01" ]} stuck_generator
    = (Throw e, {[ "52:54:00:00:00:01" ]}, mkMacGen (candidates stuck_generator) 5) /\
    e = runtime_error
          "Failed to generate an unique mac address after 5 attempts. Number of mac addresses in use: 1" /\
    error_code (status_of_exception e) <> RESOURCE_EXHAUSTED.
Proof.
  eexists. split; [|split].
  - vm_compute. reflexivity.
  - reflexivity.
  - discriminate.
Qed.

(** *** The selection engine *)

Lemma first_occurrences_filter (P : string -> Prop) `{!forall x, Decision (P x)} l :
  filter P (first_occurrences l) = first_occurrences (filter P l).
Proof.
  induction l as [|x l IH]; [reflexivity|].
  cbn [first_occurrences]. rewrite !filter_cons.
  destruct (decide (P x)) as [Hx|Hx].
  - cbn [first_occurrences]. f_equal. rewrite <- IH.
    rewrite !list_filter_filter. apply list_filter_iff. intros y. tauto.
  - rewrite <- IH. rewrite list_filter_filter. apply list_filter_iff.
    intros y. split; [tauto|]. intros Hy. split; [exact Hy|]. congruence.
Qed.

Lemma partition_of_cons op del n l :
  partition_of op del (n :: l)
  = report_app (rank_instance (find_instance op del n) (mkReport [] [] []))
               (partition_of op del l).
Proof.
  unfold partition_of, report_app, find_instance. cbn [omap list_omap].
  rewrite filter_cons.
  destruct (op !! n) as [vm|] eqn:Eo; cbn.
  - destruct (decide _) as [[H _]|_]; [discriminate|]. reflexivity.
  - destruct (del !! n) as [vm|] eqn:Ed; cbn.
    + destruct (decide _) as [[_ H]|_]; [discriminate|]. reflexivity.
    + destruct (decide _) as [_|H]; [reflexivity|]. exfalso. apply H. auto.
Qed.

Lemma rank_instance_app t r :
  rank_instance t r = report_app r (rank_instance t (mkReport [] [] [])).
Proof.
  destruct r as [o d m]. destruct t; unfold report_app; cbn;
    rewrite ?app_nil_r; reflexivity.
Qed.

Lemma report_app_assoc r1 r2 r3 :
  report_app (report_app r1 r2) r3 = report_app r1 (report_app r2 r3).
Proof. unfold report_app; cbn. now rewrite !app_assoc. Qed.

Lemma report_app_nil_r r : report_app r (mkReport [] [] []) = r.
Proof. destruct r. unfold report_app; cbn. now rewrite !app_nil_r. Qed.

Lemma select_named_spec op del names seen ret :
  select_named op del names seen ret
  = report_app ret
      (partition_of op del (first_occurrences (filter (fun n => n ∉ seen) names))).
Proof.
  revert seen ret. induction names as [|n names IH]; intros seen ret.
  - cbn. now rewrite report_app_nil_r.
  - cbn [select_named]. rewrite filter_cons.
    destruct (decide (n ∈ seen)) as [Hin|Hout].
    + destruct (decide (n ∉ seen)) as [Hc|_]; [contradiction|]. apply IH.
    + destruct (decide (n ∉ seen)) as [_|Hc]; [|contradiction].
      rewrite IH. cbn [first_occurrences]. rewrite partition_of_cons.
      rewrite (rank_instance_app _ ret), report_app_assoc.
      do 3 f_equal.
      rewrite first_occurrences_filter. f_equal.
      rewrite list_filter_filter. apply list_filter_iff. intros y.
      rewrite not_elem_of_union, not_elem_of_singleton. tauto.
Qed.

Lemma first_occurrences_elem n l : n ∈ first_occurrences l <-> n ∈ l.
Proof.
  induction l as [|x l IH]; [reflexivity|].
  cbn [first_occurrences]. rewrite !elem_of_cons, list_elem_of_filter, IH.
  destruct (decide (n = x)); tauto.
Qed.

Lemma first_occurrences_NoDup l : NoDup (first_occurrences l).
Proof.
  induction l as [|x l IH]; [constructor|].
  cbn [first_occurrences]. constructor.
  - rewrite list_elem_of_filter. tauto.
  - now apply NoDup_filter.
Qed.

Lemma partition_of_operative_names op del l :
  (operative_selection (partition_of op del l)).*1
  = filter (fun n => is_Some (op !! n)) l.
Proof.
  cbn. induction l as [|n l IH]; [reflexivity|].
  cbn [omap list_omap]. rewrite filter_cons.
  destruct (op !! n) as [vm|]; cbn.
  - destruct (decide _) as [_|H]; [now rewrite <- IH|]. exfalso; apply H; eauto.
  - destruct (decide _) as [[v H]|_]; [discriminate|exact IH].
Qed.

Lemma partition_of_deleted_names op del l :
  (deleted_selection (partition_of op del l)).*1
  = filter (fun n => op !! n = None /\ is_Some (del !! n)) l.
Proof.
  cbn. induction l as [|n l IH]; [reflexivity|].
  cbn [omap list_omap]. rewrite filter_cons.
  destruct (op !! n) as [vm|]; cbn.
  - destruct (decide _) as [[H _]|_]; [discriminate|exact IH].
  - destruct (del !! n) as [vm|]; cbn.
    + destruct (decide _) as [_|H]; [now rewrite <- IH|].
      exfalso; apply H; eauto.
    + destruct (decide _) as [[_ [v H]]|_]; [discriminate|exact IH].
Qed.

Lemma filter_unseen_empty (l : list string) (seen : gset string) :
  seen = ∅ -> filter (fun n => n ∉ seen) l = l.
Proof.
  intros ->. induction l as [|x l IH]; [reflexivity|].
  rewrite filter_cons. destruct (decide _) as [_|H]; [now rewrite IH|].
  exfalso. apply H. apply not_elem_of_empty.
Qed.

(** Names that were ranked end up in one partition each, once. *)
Lemma partition_of_exactly_one op del l :
  NoDup l ->
  let r := partition_of op del l in
  NoDup ((operative_selection r).*1 ++ (deleted_selection r).*1 ++ missing_instances r)
  /\ forall n, n ∈ l <->
       n ∈ (operative_selection r).*1 ++ (deleted_selection r).*1 ++ missing_instances r.
Proof.
  intros Hl r. subst r.
  rewrite partition_of_operative_names, partition_of_deleted_names.
  cbn [missing_instances partition_of]. split.
  - rewrite !NoDup_app. repeat split; try now apply NoDup_filter.
    + intros n. rewrite elem_of_app, !list_elem_of_filter.
      intros [[v Hv] _] [[[H _] _]|[[H _] _]]; congruence.
    + intros n. rewrite !list_elem_of_filter.
      intros [[_ [v Hv]] _] [[_ H] _]. congruence.
  - intros n. rewrite !elem_of_app, !list_elem_of_filter.
    destruct (op !! n) as [vo|] eqn:Eo; destruct (del !! n) as [vd|] eqn:Ed;
      split; try tauto; eauto 10.
    all: intros [[_ H]|[[[H _] _]|[[H _] _]]]; try assumption; try discriminate.
    all: try (destruct H as [? H]; discriminate).
Qed.

(** C7: [select_instances] ranks each distinct requested name once, at its
    first occurrence, into the operative, the deleted or the missing
    partition; with an empty input the group picks the default: all
    operative instances, all deleted ones, both, or, for None, nothing
    (the three partitions are empty, as for any request whose names are
    all ranked). *)
Theorem select_instances_partition
    (operative_instances deleted_instances : InstanceTable)
    (names : list string) (no_name_means : InstanceGroup) :
  let r := select_instances operative_instances deleted_instances names no_name_means in
  let placed := (operative_selection r).*1 ++ (deleted_selection r).*1
                  ++ missing_instances r in
  match names, no_name_means with
  | [], GroupOperative => r = mkReport (map_to_list operative_instances) [] []
  | [], GroupDeleted => r = mkReport [] (map_to_list deleted_instances) []
  | [], GroupAll =>
      r = mkReport (map_to_list operative_instances) (map_to_list deleted_instances) []
  | [], GroupNone => r = mkReport [] [] []
  | _ :: _, _ =>
      r = partition_of operative_instances deleted_instances (first_occurrences names)
      /\ NoDup placed
      /\ (forall n, n ∈ names <-> n ∈ placed)
      /\ (forall n vm, (n, vm) ∈ operative_selection r
                       <-> n ∈ names /\ operative_instances !! n = Some vm)
      /\ (forall n vm, (n, vm) ∈ deleted_selection r
                       <-> n ∈ names /\ operative_instances !! n = None
                           /\ deleted_instances !! n = Some vm)
      /\ (forall n, n ∈ missing_instances r
                    <-> n ∈ names /\ operative_instances !! n = None
                        /\ deleted_instances !! n = None)
  end.
Proof.
  intros r placed.
  destruct names as [|n0 names].
  - destruct no_name_means; reflexivity.
  - assert (Hr : r = partition_of operative_instances deleted_instances
                       (first_occurrences (n0 :: names))).
    { subst r. unfold select_instances.
      change (bool_decide (n0 :: names = [])) with false. cbn [andb].
      rewrite select_named_spec, (filter_unseen_empty _ ∅ eq_refl).
      destruct (partition_of _ _ _); reflexivity. }
    pose proof (partition_of_exactly_one operative_instances deleted_instances
                  _ (first_occurrences_NoDup (n0 :: names))) as [Hnd Hin].
    subst placed. rewrite Hr. split; [reflexivity|].
    split; [exact Hnd|]. split.
    { intros n. rewrite <- Hin. symmetry. apply first_occurrences_elem. }
    cbn [operative_selection deleted_selection missing_instances partition_of].
    split; [|split].
    + intros n vm. rewrite list_elem_of_omap. split.
      * intros (x & Hx & Hf). rewrite first_occurrences_elem in Hx.
        destruct (operative_instances !! x) eqn:E; cbn in Hf; [|discriminate].
        injection Hf as -> ->. auto.
      * intros [Hn Hv]. exists n. rewrite first_occurrences_elem.
        split; [exact Hn|]. now rewrite Hv.
    + intros n vm. rewrite list_elem_of_omap. split.
      * intros (x & Hx & Hf). rewrite first_occurrences_elem in Hx.
        destruct (operative_instances !! x) eqn:E; [discriminate|].
        destruct (deleted_instances !! x) eqn:E'; cbn in Hf; [|discriminate].
        injection Hf as -> ->. auto.
      * intros (Hn & Ho & Hv). exists n. rewrite first_occurrences_elem.
        split; [exact Hn|]. now rewrite Ho, Hv.
    + intros n. rewrite list_elem_of_filter, first_occurrences_elem. tauto.
Qed.

(** *** Reboot of an instance that is not running *)

(** C9, as the code has it: rebooting an instance whose current state
    does not satisfy [is_running] is rejected with the invalid-argument
    kind and the message that the instance is not running; nothing is
    sent to the guest. *)
Theorem reboot_vm_not_running (vm : VirtualMachine) (guest : RebootOutcome) (d : Daemon) :
  is_running (current_state vm) = false ->
  exists st, fst (reboot_vm vm guest d) = Return st /\
    error_code st = INVALID_ARGUMENT /\
    error_message st = "instance " +:+ dquote +:+ vm_name vm +:+ dquote +:+ " is not running" /\
    ok st = false.
Proof.
  intros H. unfold reboot_vm. rewrite H. cbn.
  eexists. split; [reflexivity|]. auto.
Qed.

Lemma reboot_vm_not_running_witness :
  exists st, fst (reboot_vm (mkVM "x" stopped stopped None) reboot_exitless empty_daemon)
             = Return st /\
    error_code st = INVALID_ARGUMENT /\
    error_message st = "instance " +:+ dquote +:+ "x" +:+ dquote +:+ " is not running" /\
    ok st = false.
Proof. apply (reboot_vm_not_running (mkVM "x" stopped stopped None)). reflexivity. Defined.

(** C9, as stated, fails: the rejection of a stopped instance carries
    invalid-argument, not failed-precondition. *)
Lemma reboot_vm_stopped_is_invalid_argument :
  is_running (current_state (mkVM "x" stopped stopped None)) = false /\
  exists st, fst (reboot_vm (mkVM "x" stopped stopped None) reboot_exitless empty_daemon)
             = Return st /\
    error_code st = INVALID_ARGUMENT /\ error_code st <> FAILED_PRECONDITION.
Proof.
  split; [reflexivity|]. eexists. split; [reflexivity|].
  split; [reflexivity|discriminate].
Qed.

(** *** The start state machine *)

Lemma append_assoc (a b c : string) : (a +:+ b) +:+ c = a +:+ (b +:+ c).
Proof.
  induction a as [|x a IH]; [reflexivity|].
  change (String x ((a +:+ b) +:+ c) = String x (a +:+ (b +:+ c))).
  now f_equal.
Qed.








(** *** Umount of every mount of an instance *)

Lemma add_fmt_to_nonempty buffer line : line <> "" -> add_fmt_to buffer line <> "".
Proof.
  intros H. destruct buffer as [|a b]; [exact H|]. discriminate.
Qed.











(** *** Ghost records and empty records at load *)

Lemma load_record_ghost lib record :
  ghost_record lib record -> load_record lib (JObject record) = Return ghost_instance.
Proof.
  intros (Hne & Hc & Hd & Hu & Hm & Hmem & Hdisk).
  unfold load_record. cbn [toObject].
  destruct record as [|kv record]; [contradiction|]. cbn [obj_isEmpty].
  unfold is_ghost, MemorySize. rewrite Hc, Hd, Hu, Hm, Hmem, Hdisk. reflexivity.
Qed.

Lemma load_record_empty lib value :
  toObject value = [] -> load_record lib value = Return abandon_load.
Proof. intros H. unfold load_record. now rewrite H. Qed.

(** The registry [load_records] answers does not depend on the log it
    starts from. *)
Lemma load_records_log lib records acc log1 log2 :
  fst <$> load_records lib records acc log1 = fst <$> load_records lib records acc log2.
Proof.
  revert acc log1 log2. induction records as [|[key value] rest IH]; intros acc log1 log2.
  - reflexivity.
  - cbn [load_records]. destruct (load_record lib value) as [[| |spec]|e]; cbn.
    + reflexivity.
    + apply IH.
    + apply IH.
    + reflexivity.
Qed.

Lemma load_records_app lib pre rest1 rest2 acc log1 log2 :
  (forall acc log1 log2,
     fst <$> load_records lib rest1 acc log1 = fst <$> load_records lib rest2 acc log2) ->
  fst <$> load_records lib (pre ++ rest1) acc log1
  = fst <$> load_records lib (pre ++ rest2) acc log2.
Proof.
  intros H. revert acc log1 log2.
  induction pre as [|[key value] pre IH]; intros acc log1 log2; [apply H|].
  cbn [app load_records]. destruct (load_record lib value) as [[| |spec]|e]; cbn.
  - reflexivity.
  - apply IH.
  - apply IH.
  - reflexivity.
Qed.

(** C3, as the code has it: a ghost record (zero cores, empty user name,
    empty metadata, zero memory, zero disk, not deleted) is skipped with
    a warning and the loop goes on with the records after it, so the
    registry is the one the document without that record loads to; an
    empty record makes [load_db] return an empty registry, whatever the
    records before and after it hold. *)
Theorem load_db_ghost_and_empty_record (lib : Library)
    (pre post : QJsonObject) (key : string) (record : QJsonObject) :
  ghost_record lib record ->
  (forall acc log,
     load_records lib ((key, JObject record) :: post) acc log
     = load_records lib post acc
         (log ++ [ev_warning ("Ignoring ghost instance in database: " +:+ key)])) /\
  fst <$> load_db lib (Some (doc_object (pre ++ (key, JObject record) :: post)))
  = fst <$> load_db lib (Some (doc_object (pre ++ post))) /\
  (forall key' value rest acc log,
     toObject value = [] ->
     load_records lib ((key', value) :: rest) acc log = Return (∅, log)).
Proof.
  intros Hg.
  assert (Hstep : forall acc log,
     load_records lib ((key, JObject record) :: post) acc log
     = load_records lib post acc
         (log ++ [ev_warning ("Ignoring ghost instance in database: " +:+ key)])).
  { intros acc log. cbn [load_records]. now rewrite load_record_ghost. }
  split; [exact Hstep|]. split.
  - unfold load_db.
    replace (obj_isEmpty (pre ++ (key, JObject record) :: post)) with false
      by (now destruct pre).
    transitivity (fst <$> load_records lib (pre ++ post) ∅ []).
    + apply load_records_app. intros acc log1 log2.
      rewrite Hstep. apply load_records_log.
    + destruct (pre ++ post); reflexivity.
  - intros key' value rest acc log Hv. cbn [load_records].
    now rewrite load_record_empty.
Qed.

Lemma load_db_ghost_and_empty_record_witness :
  (forall acc log,
     load_records example_library
       [("ghost", JObject ghost_json); ("primary", JObject (vm_spec_to_json primary_spec))]
       acc log
     = load_records example_library
         [("primary", JObject (vm_spec_to_json primary_spec))] acc
         (log ++ [ev_warning "Ignoring ghost instance in database: ghost"])) /\
  fst <$> load_db example_library
            (Some (doc_object
                     [("ghost", JObject ghost_json);
                      ("primary", JObject (vm_spec_to_json primary_spec))]))
  = fst <$> load_db example_library
              (Some (doc_object [("primary", JObject (vm_spec_to_json primary_spec))])) /\
  (forall key' value rest acc log,
     toObject value = [] ->
     load_records example_library ((key', value) :: rest) acc log = Return (∅, log)).
Proof.
  apply (load_db_ghost_and_empty_record example_library []
           [("primary", JObject (vm_spec_to_json primary_spec))] "ghost" ghost_json).
  unfold ghost_record. repeat split; try reflexivity. discriminate.
Defined.

(** C3, as stated, fails for the empty record: with an empty record in
    the document, [load_db] answers an empty registry, although the
    document without it loads the instance named primary. *)
Lemma load_db_empty_record_abandons_load :
  load_db example_library
    (Some (doc_object [("empty", JObject []);
                       ("primary", JObject (vm_spec_to_json primary_spec))]))
  = Return (∅, []) /\
  load_db example_library
    (Some (doc_object [("primary", JObject (vm_spec_to_json primary_spec))]))
  = Return ({[ "primary" := primary_spec ]}, []).
Proof. split; vm_compute; reflexivity. Qed.

(** *** Objects as sorted association lists *)

Lemma obj_find_insert {V} (o : list (string * V)) key v j :
  obj_find (obj_insert key v o) j = if decide (key = j) then Some v else obj_find o j.
Proof.
  induction o as [|[k' v'] o IH]; cbn [obj_insert obj_find].
  - destruct (String.eqb_spec key j); case_decide; congruence.
  - destruct (String.compare key k') eqn:Ec; cbn [obj_find].
    + apply String_as_OT.cmp_eq in Ec. subst k'.
      destruct (String.eqb_spec key j); case_decide; congruence.
    + destruct (String.eqb_spec key j); case_decide; congruence.
    + rewrite IH. destruct (String.eqb_spec k' j) as [->|Hne]; [|reflexivity].
      case_decide; [|reflexivity]. subst key.
      pose proof (proj2 (String_as_OT.cmp_eq j j) eq_refl) as H.
      unfold String_as_OT.cmp in H. congruence.
Qed.

Lemma obj_insert_sorted {V} (o : list (string * V)) key v :
  obj_sorted o -> obj_sorted (obj_insert key v o).
Proof.
  induction o as [|[k' v'] o IH]; intros Hs; cbn [obj_insert].
  - cbn. auto.
  - destruct Hs as [Habove Hs]. destruct (String.compare key k') eqn:Ec.
    + apply String_as_OT.cmp_eq in Ec. subst k'. cbn. auto.
    + apply String_as_OT.cmp_lt in Ec. cbn. split; [|auto].
      constructor; [exact Ec|].
      eapply Forall_impl; [exact Habove|]. intros kv Hkv. cbn in *.
      eapply String_as_OT.lt_trans; eassumption.
    + assert (Hlt : String_as_OT.lt k' key).
      { apply String_as_OT.cmp_lt. rewrite String_as_OT.cmp_antisym.
        unfold String_as_OT.cmp. now rewrite Ec. }
      cbn [obj_sorted]. split; [|auto].
      clear IH Hs Ec. induction o as [|[k2 v2] o IHo]; cbn [obj_insert].
      * repeat constructor. exact Hlt.
      * inversion Habove as [|? ? H2 Hrest]; subst.
        destruct (String.compare key k2); constructor; auto.
Qed.

Lemma obj_sorted_NoDup {V} (o : list (string * V)) : obj_sorted o -> NoDup o.*1.
Proof.
  induction o as [|[k v] o IH]; [constructor|].
  intros [Habove Hs]. cbn. constructor; [|auto].
  intros Hin. apply list_elem_of_fmap in Hin as ([k' v'] & Hk & Hin). cbn in Hk. subst k'.
  rewrite Forall_forall in Habove. specialize (Habove _ Hin). cbn in Habove.
  apply String_as_OT.lt_not_eq in Habove. apply Habove. reflexivity.
Qed.

Lemma obj_find_list_to_map {V} (o : list (string * V)) j :
  obj_find o j = (list_to_map o : gmap string V) !! j.
Proof.
  induction o as [|[k v] o IH]; [cbn; now rewrite lookup_empty|].
  cbn [obj_find].
  change (list_to_map ((k, v) :: o) : gmap string V)
    with (<[k := v]> (list_to_map o : gmap string V)).
  rewrite lookup_insert.
  destruct (String.eqb_spec k j); case_decide; congruence.
Qed.

Lemma obj_insert_fmap {V W} (f : V -> W) (o : list (string * V)) key v :
  obj_insert key (f v) (prod_map (fun k => k) f <$> o)
  = prod_map (fun k => k) f <$> obj_insert key v o.
Proof.
  induction o as [|[k' v'] o IH]; [reflexivity|].
  cbn [obj_insert fmap list_fmap prod_map fst snd].
  destruct (String.compare key k'); cbn [fmap list_fmap prod_map fst snd];
    try reflexivity.
  f_equal. exact IH.
Qed.

Lemma inserted_sorted {V} (l o : list (string * V)) :
  obj_sorted o -> obj_sorted (inserted l o).
Proof.
  revert o. induction l as [|[k v] l IH]; intros o Hs; [exact Hs|].
  cbn. apply IH. now apply obj_insert_sorted.
Qed.

Lemma inserted_find {V} (l o : list (string * V)) j :
  NoDup l.*1 ->
  obj_find (inserted l o) j
  = match (list_to_map l : gmap string V) !! j with
    | Some v => Some v
    | None => obj_find o j
    end.
Proof.
  revert o. induction l as [|[k v] l IH]; intros o Hnd.
  - cbn. now rewrite lookup_empty.
  - inversion Hnd as [|? ? Hk Hnd']; subst.
    cbn [inserted foldl fst snd]. fold (inserted l (obj_insert k v o)).
    rewrite IH by assumption.
    change (list_to_map ((k, v) :: l) : gmap string V)
      with (<[k := v]> (list_to_map l : gmap string V)).
    rewrite lookup_insert, obj_find_insert.
    case_decide; [|reflexivity]. subst j.
    now rewrite (not_elem_of_list_to_map_1 _ _ Hk).
Qed.

Lemma foldl_insert_lookup {V} (l : list (string * V)) (acc : gmap string V) j :
  NoDup l.*1 ->
  foldl (fun acc kv => <[fst kv := snd kv]> acc) acc l !! j
  = match obj_find l j with
    | Some v => Some v
    | None => acc !! j
    end.
Proof.
  revert acc. induction l as [|[k v] l IH]; intros acc Hnd; [reflexivity|].
  inversion Hnd as [|? ? Hk Hnd']; subst.
  cbn [foldl fst snd obj_find]. rewrite IH by assumption.
  destruct (String.eqb_spec k j) as [->|Hne].
  - rewrite obj_find_list_to_map, (not_elem_of_list_to_map_1 _ _ Hk).
    apply lookup_insert_eq.
  - destruct (obj_find l j); [reflexivity|]. now apply lookup_insert_ne.
Qed.

(** The bindings of a map, inserted into an empty object and read back
    into a map, are the map. *)
Lemma inserted_map_to_list {V} (m : gmap string V) :
  foldl (fun acc kv => <[fst kv := snd kv]> acc) ∅ (inserted (map_to_list m) []) = m.
Proof.
  apply map_eq. intros j.
  rewrite foldl_insert_lookup.
  - rewrite inserted_find by apply NoDup_fst_map_to_list.
    rewrite list_to_map_to_list. cbn. rewrite lookup_empty.
    now destruct (m !! j).
  - apply obj_sorted_NoDup, inserted_sorted. exact I.
Qed.

Lemma inserted_elem {V} (m : gmap string V) k v :
  (k, v) ∈ inserted (map_to_list m) [] -> m !! k = Some v.
Proof.
  intros Hin.
  assert (Hnd : NoDup (inserted (map_to_list m) []).*1)
    by (apply obj_sorted_NoDup, inserted_sorted; exact I).
  assert (Hf : obj_find (inserted (map_to_list m) []) k = Some v).
  { rewrite obj_find_list_to_map. now apply elem_of_list_to_map_1. }
  rewrite inserted_find in Hf by apply NoDup_fst_map_to_list.
  rewrite list_to_map_to_list in Hf. cbn in Hf.
  now destruct (m !! k).
Qed.

(** *** Loading what was persisted *)

Lemma toInt_in_int z : in_int z -> toInt (JNumber z) = z.
Proof.
  intros [H1 H2]. unfold toInt.
  now rewrite (proj2 (Z.leb_le _ _) H1), (proj2 (Z.leb_le _ _) H2).
Qed.

Lemma string_of_N_nonempty n : string_of_N n <> "".
Proof.
  intros H. pose proof (N_of_string_of_N n) as Hn. rewrite H in Hn. discriminate.
Qed.

Lemma string_of_Z_nonneg z : (0 <= z)%Z -> string_of_Z z = string_of_N (Z.to_N z).
Proof. destruct z; [reflexivity|reflexivity|lia]. Qed.

Lemma vm_spec_to_json_members spec :
  vm_spec_to_json spec
  = [ ("deleted", JBool (deleted spec));
      ("disk_space", JString (string_of_Z (disk_space spec)));
      ("extra_interfaces", JArray (to_json_array (extra_interfaces spec)));
      ("mac_addr", JString (default_mac_address spec));
      ("mem_size", JString (string_of_Z (mem_size spec)));
      ("metadata", JObject (metadata spec));
      ("mounts", JArray (mount_to_json <$> map_to_list (mounts spec)));
      ("num_cores", JNumber (num_cores spec));
      ("ssh_username", JString (ssh_username spec));
      ("state", JNumber (state spec)) ].
Proof. reflexivity. Qed.

Lemma read_id_mappings_json host_key instance_key (l : id_mappings) :
  host_key <> instance_key ->
  Forall (fun p => in_int (fst p) /\ in_int (snd p)) l ->
  read_id_mappings host_key instance_key (id_map_to_json host_key instance_key <$> l) = l.
Proof.
  intros Hne Hall. unfold read_id_mappings. rewrite <- list_fmap_compose.
  induction Hall as [|[h i] l [Hh Hi] Hall IH]; [reflexivity|].
  cbn [fmap list_fmap compose]. f_equal; [|exact IH].
  unfold id_map_to_json. cbn [toObject fst snd].
  unfold obj_value. rewrite !obj_find_insert. cbn [obj_find].
  rewrite decide_False by congruence. rewrite decide_True by reflexivity.
  rewrite decide_True by reflexivity.
  cbn in Hh, Hi. now rewrite !toInt_in_int.
Qed.

Lemma read_mount_json lib target mount :
  canonical_mount lib mount ->
  read_mount lib (mount_to_json (target, mount)) = (target, mount).
Proof.
  intros ([Hg Hgu] & [Hu Huu] & Ht). destruct mount as [src gid uid ty].
  cbn [gid_mappings uid_mappings mount_type] in *.
  unfold read_mount, mount_to_json. cbn [toObject fst snd source_path gid_mappings
    uid_mappings mount_type].
  unfold obj_value. rewrite !obj_find_insert. cbn [obj_find].
  repeat (first [ rewrite decide_True by reflexivity
                | rewrite decide_False by discriminate ]).
  cbn [toString toArray].
  rewrite !read_id_mappings_json by (assumption || discriminate).
  rewrite Hgu, Huu, toInt_in_int by assumption. reflexivity.
Qed.

Lemma read_mounts_json lib (mnts : gmap string VMMount) :
  map_Forall (fun _ mount => canonical_mount lib mount) mnts ->
  read_mounts lib (mount_to_json <$> map_to_list mnts) = mnts.
Proof.
  intros Hall. unfold read_mounts.
  assert (H : forall l (acc : gmap string VMMount),
    Forall (fun kv => canonical_mount lib (snd kv)) l ->
    foldl (fun mounts entry =>
             <[fst (read_mount lib entry) := snd (read_mount lib entry)]> mounts)
          acc (mount_to_json <$> l)
    = foldl (fun acc kv => <[fst kv := snd kv]> acc) acc l).
  { induction l as [|[t m] l IH]; intros acc Hl; [reflexivity|].
    inversion Hl as [|? ? Hm Hl']; subst. cbn [fmap list_fmap foldl].
    rewrite (read_mount_json lib t m Hm). cbn [fst snd]. now apply IH. }
  rewrite H.
  - apply map_eq. intros j.
    rewrite foldl_insert_lookup by apply NoDup_fst_map_to_list.
    rewrite obj_find_list_to_map, list_to_map_to_list, lookup_empty.
    now destruct (mnts !! j).
  - apply Forall_forall. intros [t m] Hin. apply elem_of_map_to_list in Hin.
    exact (Hall t m Hin).
Qed.

Lemma read_interface_entries_json lib (l : list NetworkInterface) :
  Forall (fun iface => valid_mac_address lib (mac_address iface) = true) l ->
  read_interface_entries lib (to_json_array l) = Return l.
Proof.
  induction 1 as [|[i m a] l Hv Hall IH]; [reflexivity|].
  cbn [to_json_array fmap list_fmap read_interface_entries].
  unfold read_extra_interface. cbn [toObject id mac_address auto_mode].
  unfold obj_value. rewrite !obj_find_insert. cbn [obj_find].
  repeat (first [ rewrite decide_True by reflexivity
                | rewrite decide_False by discriminate ]).
  cbn [toString toBool]. cbn in Hv. rewrite Hv. cbn [negb].
  cbn [mbind Exc_bind]. unfold to_json_array in IH. rewrite IH. reflexivity.
Qed.

(** What [vm_spec_to_json] writes for a canonical specification,
    [load_db] reads back as that specification. *)
Lemma load_record_json lib spec :
  reads_decimal lib -> canonical_spec lib spec ->
  load_record lib (JObject (vm_spec_to_json spec)) = Return (reconstructed spec).
Proof.
  intros Hdec (Hc & Hst & Hmem & Hdisk & Hu & Hmac & Hex & Hmnt).
  unfold load_record. cbn [toObject]. rewrite vm_spec_to_json_members.
  cbn [obj_isEmpty]. unfold obj_value, obj_contains, read_extra_interfaces.
  unfold obj_value, obj_contains.
  cbn [obj_find String.eqb Ascii.eqb Bool.eqb toInt toString toBool toObject toArray].
  unfold is_ghost.
  rewrite (bool_decide_eq_false_2 _ Hu), !andb_false_r, andb_false_l.
  cbn [mbind Exc_bind mret Exc_ret]. rewrite Hmac. cbn [negb].
  rewrite !string_of_Z_nonneg by assumption.
  rewrite !(bool_decide_eq_false_2 _ (string_of_N_nonempty _)).
  unfold MemorySize. rewrite !Hdec. cbn [mbind Exc_bind].
  rewrite read_interface_entries_json by assumption.
  rewrite read_mounts_json by assumption.
  rewrite !Z2N.id by assumption.
  destruct Hc as [Hc1 Hc2], Hst as [Hs1 Hs2].
  rewrite (proj2 (Z.leb_le _ _) Hc1), (proj2 (Z.leb_le _ _) Hc2).
  rewrite (proj2 (Z.leb_le _ _) Hs1), (proj2 (Z.leb_le _ _) Hs2).
  destruct spec; reflexivity.
Qed.

Lemma instance_records_json_inserted (m : gmap string VMSpecs) :
  instance_records_json m
  = prod_map (fun k => k) (fun spec => JObject (vm_spec_to_json spec))
      <$> inserted (map_to_list m) [].
Proof.
  unfold instance_records_json, inserted.
  change (@nil (string * QJsonValue))
    with (prod_map (fun k : string => k) (fun spec => JObject (vm_spec_to_json spec))
            <$> @nil (string * VMSpecs)).
  generalize (@nil (string * VMSpecs)) as o.
  induction (map_to_list m) as [|[k spec] l IH]; intros o; [reflexivity|].
  cbn [foldl fst snd].
  pose proof (obj_insert_fmap (fun s => JObject (vm_spec_to_json s)) o k spec) as H.
  cbn beta in H. rewrite H. apply IH.
Qed.

Lemma load_records_canonical lib (ls : list (string * VMSpecs)) acc log :
  reads_decimal lib ->
  Forall (fun kv => canonical_spec lib (snd kv)) ls ->
  load_records lib
    (prod_map (fun k => k) (fun spec => JObject (vm_spec_to_json spec)) <$> ls) acc log
  = Return (foldl (fun acc kv => <[fst kv := snd kv]> acc) acc ls, log).
Proof.
  intros Hdec Hall. revert acc.
  induction Hall as [|[k spec] ls Hspec Hall IH]; intros acc; [reflexivity|].
  cbn [fmap list_fmap prod_map fst snd load_records].
  rewrite (load_record_json lib spec Hdec Hspec). cbn [mbind Exc_bind].
  apply IH.
Qed.

(** C6, as the code has it: a document that [persist_instances] wrote
    from a registry of canonical specifications loads to that registry
    with no warning, and persisting what was loaded writes the same
    document again. *)
Theorem persist_load_round_trip (lib : Library) (registry : gmap string VMSpecs) :
  reads_decimal lib ->
  map_Forall (fun _ spec => canonical_spec lib spec) registry ->
  load_db lib (Some (doc_object (instance_records_json registry))) = Return (registry, []) /\
  (fun loaded => instance_records_json (fst loaded))
    <$> load_db lib (Some (doc_object (instance_records_json registry)))
  = Return (instance_records_json registry).
Proof.
  intros Hdec Hall.
  assert (Hload : load_db lib (Some (doc_object (instance_records_json registry)))
                  = Return (registry, [])).
  { unfold load_db. destruct (obj_isEmpty (instance_records_json registry)) eqn:Ee.
    - f_equal. f_equal. symmetry.
      rewrite instance_records_json_inserted in Ee.
      rewrite <- (inserted_map_to_list registry).
      destruct (inserted (map_to_list registry) []); [reflexivity|discriminate].
    - rewrite instance_records_json_inserted.
      rewrite load_records_canonical; [|exact Hdec|].
      + now rewrite inserted_map_to_list.
      + apply Forall_forall. intros [k spec] Hin. cbn.
        apply inserted_elem in Hin. exact (Hall k spec Hin). }
  split; [exact Hload|]. now rewrite Hload.
Qed.

Lemma example_library_reads_decimal : reads_decimal example_library.
Proof.
  intros n. cbn [MemorySize_in_bytes example_library].
  now rewrite N_of_string_of_N.
Qed.

Lemma primary_spec_canonical : canonical_spec example_library primary_spec.
Proof.
  unfold canonical_spec, in_int, INT_MIN, INT_MAX.
  cbn [num_cores state mem_size disk_space ssh_username default_mac_address
       extra_interfaces mounts primary_spec].
  repeat apply conj; try lia; try discriminate; try reflexivity.
  - repeat constructor.
  - apply map_Forall_singleton.
    unfold canonical_mount, canonical_mappings, in_int, INT_MIN, INT_MAX. cbn.
    repeat apply conj; try lia; try reflexivity; repeat constructor; cbn; lia.
Qed.

Lemma persist_load_round_trip_witness :
  load_db example_library
    (Some (doc_object (instance_records_json {[ "primary" := primary_spec ]})))
  = Return ({[ "primary" := primary_spec ]}, []) /\
  (fun loaded => instance_records_json (fst loaded))
    <$> load_db example_library
          (Some (doc_object (instance_records_json {[ "primary" := primary_spec ]})))
  = Return (instance_records_json {[ "primary" := primary_spec ]}).
Proof.
  apply (persist_load_round_trip example_library {[ "primary" := primary_spec ]}).
  - exact example_library_reads_decimal.
  - apply map_Forall_singleton. exact primary_spec_canonical.
Defined.

(** C6, as stated, fails: the document has a single record, no ghost,
    a valid MAC address and its members in key order; loading it
    replaces the empty user name by ubuntu, so persisting the loaded
    registry writes a different document. *)
Lemma persist_load_changes_empty_username :
  valid_mac_address example_library (default_mac_address nameless_user_spec) = true /\
  exists loaded,
    load_db example_library (Some (doc_object nameless_user_doc)) = Return (loaded, []) /\
    obj_value (toObject (obj_value nameless_user_doc "primary")) "ssh_username"
      = JString "" /\
    obj_value (toObject (obj_value (instance_records_json loaded) "primary")) "ssh_username"
      = JString "ubuntu" /\
    instance_records_json loaded <> nameless_user_doc.
Proof.
  split; [reflexivity|]. eexists. split; [vm_compute; reflexivity|].
  split; [reflexivity|]. split; [vm_compute; reflexivity|].
  vm_compute. discriminate.
Qed.

(** *** The allocated MAC addresses are those of the registered specifications *)

Lemma elem_of_macs_of_specs specs mac :
  mac ∈ macs_of_specs specs
  <-> exists n s, specs !! n = Some s /\ mac ∈ mac_set_from s.
Proof.
  unfold macs_of_specs. rewrite elem_of_union_list. split.
  - intros (X & HX & Hmac). apply list_elem_of_fmap in HX as (s & -> & Hs).
    apply list_elem_of_fmap in Hs as ([n s'] & -> & Hin).
    apply elem_of_map_to_list in Hin. eauto.
  - intros (n & s & Hs & Hmac). exists (mac_set_from s). split; [|exact Hmac].
    apply list_elem_of_fmap. exists s. split; [reflexivity|].
    apply list_elem_of_fmap. exists (n, s). split; [reflexivity|].
    now apply elem_of_map_to_list.
Qed.

Lemma macs_of_specs_empty : macs_of_specs ∅ = ∅.
Proof. unfold macs_of_specs. now rewrite map_to_list_empty. Qed.

Lemma macs_of_specs_insert specs n s :
  specs !! n = None ->
  macs_of_specs (<[n := s]> specs) = mac_set_from s ∪ macs_of_specs specs.
Proof.
  intros Hn. apply set_eq. intros mac.
  rewrite elem_of_union, !elem_of_macs_of_specs. split.
  - intros (n' & s' & Hl & Hmac). apply lookup_insert_Some in Hl as [[-> ->]|[Hne Hl]];
      [now left|right; eauto].
  - intros [Hmac|(n' & s' & Hl & Hmac)].
    + exists n, s. now rewrite lookup_insert_eq.
    + exists n', s'. split; [|exact Hmac].
      rewrite lookup_insert_ne; [exact Hl|]. congruence.
Qed.

Lemma macs_of_specs_delete specs n s :
  specs !! n = Some s -> macs_disjoint specs ->
  macs_of_specs (delete n specs) = macs_of_specs specs ∖ mac_set_from s.
Proof.
  intros Hn Hdis. apply set_eq. intros mac.
  rewrite elem_of_difference, !elem_of_macs_of_specs. split.
  - intros (n' & s' & Hl & Hmac). apply lookup_delete_Some in Hl as [Hne Hl].
    split; [eauto|]. intros Hin.
    apply (proj1 (elem_of_disjoint _ _) (Hdis n n' s s' Hne Hn Hl) mac Hin Hmac).
  - intros [(n' & s' & Hl & Hmac) Hnot].
    exists n', s'. split; [|exact Hmac].
    apply lookup_delete_Some. split; [|exact Hl]. intros <-.
    rewrite Hn in Hl. injection Hl as <-. contradiction.
Qed.

Lemma macs_disjoint_delete specs n : macs_disjoint specs -> macs_disjoint (delete n specs).
Proof.
  intros Hdis n1 n2 s1 s2 Hne H1 H2.
  apply lookup_delete_Some in H1 as [_ H1]. apply lookup_delete_Some in H2 as [_ H2].
  exact (Hdis n1 n2 s1 s2 Hne H1 H2).
Qed.

Lemma macs_disjoint_insert specs n s :
  macs_disjoint specs -> specs !! n = None -> mac_set_from s ## macs_of_specs specs ->
  macs_disjoint (<[n := s]> specs).
Proof.
  intros Hdis Hn Hs n1 n2 s1 s2 Hne H1 H2.
  apply lookup_insert_Some in H1 as [[-> ->]|[Hne1 H1]];
    apply lookup_insert_Some in H2 as [[-> ->]|[Hne2 H2]].
  - congruence.
  - apply elem_of_disjoint. intros mac Hm1 Hm2.
    apply (proj1 (elem_of_disjoint _ _) Hs mac Hm1). apply elem_of_macs_of_specs. eauto.
  - apply elem_of_disjoint. intros mac Hm1 Hm2.
    apply (proj1 (elem_of_disjoint _ _) Hs mac Hm2). apply elem_of_macs_of_specs. eauto.
  - exact (Hdis n1 n2 s1 s2 Hne H1 H2).
Qed.

(** [release_resources] takes out of the allocated set the MAC addresses
    of the released specification, and only those. *)
Lemma release_resources_consistent name d :
  consistent d -> consistent (release_resources name d).
Proof.
  intros (Hmac & Hdis & Hreg). unfold release_resources.
  destruct (vm_instance_specs d !! name) as [spec|] eqn:Hs; [|now repeat split].
  repeat split; cbn.
  - rewrite Hmac. symmetry. now apply macs_of_specs_delete.
  - now apply macs_disjoint_delete.
  - intros n [s Hn]. cbn in Hn. apply lookup_delete_Some in Hn as [_ Hn].
    apply Hreg. eauto.
Qed.

Lemma release_resources_tables name d :
  operative_instances (release_resources name d) = operative_instances d /\
  deleted_instances (release_resources name d) = deleted_instances d.
Proof. unfold release_resources. destruct (_ !! _); auto. Qed.

Lemma release_resources_specs name d n :
  vm_instance_specs (release_resources name d) !! n
  = if decide (name = n) then None else vm_instance_specs d !! n.
Proof.
  unfold release_resources. destruct (vm_instance_specs d !! name) eqn:E; cbn.
  - apply lookup_delete.
  - case_decide; [now subst|reflexivity].
Qed.


Lemma requested_macs_cons iface rest :
  requested_macs (iface :: rest)
  = if decide (mac_address iface = "") then requested_macs rest
    else {[ mac_address iface ]} ∪ requested_macs rest.
Proof.
  unfold requested_macs. cbn [fmap list_fmap]. rewrite filter_cons.
  destruct (decide (mac_address iface <> "")) as [H|H];
    destruct (decide (mac_address iface = "")) as [H'|H']; try tauto; reflexivity.
Qed.

Lemma check_requested_macs_spec ifaces s s' :
  check_requested_macs ifaces s = Return s' ->
  s' = requested_macs ifaces ∪ s /\ requested_macs ifaces ## s.
Proof.
  revert s. induction ifaces as [|iface rest IH]; intros s H; cbn in H.
  - injection H as <-. unfold requested_macs. cbn. split; set_solver.
  - rewrite requested_macs_cons.
    destruct (decide (mac_address iface = "")) as [He|Hne].
    + rewrite bool_decide_eq_true_2 in H by assumption. cbn in H. now apply IH.
    + rewrite bool_decide_eq_false_2 in H by assumption. cbn in H.
      destruct (decide (mac_address iface ∈ s)) as [Hin|Hout]; [discriminate|].
      apply IH in H as [-> Hdis]. split; set_solver.
Qed.

Lemma generate_unused_fresh s g mac s' g' :
  generate_unused_mac_address s g = (Return mac, s', g') ->
  (mac ∉ s) /\ s' = {[ mac ]} ∪ s.
Proof.
  unfold generate_unused_mac_address. intros H.
  pose proof (generate_unused_tries_spec max_tries s g) as Hspec. rewrite H in Hspec.
  destruct Hspec as (i & _ & _ & Hnot & _ & Hs & _). auto.
Qed.

Lemma generate_missing_macs_spec ifaces s g ifaces' s' g' :
  generate_missing_macs ifaces s g = (Return ifaces', s', g') ->
  requested_macs ifaces ⊆ s ->
  s' = list_to_set (mac_address <$> ifaces') ∪ s /\
  requested_macs ifaces ⊆ list_to_set (mac_address <$> ifaces') /\
  forall m, m ∈ mac_address <$> ifaces' -> m ∈ requested_macs ifaces \/ m ∉ s.
Proof.
  revert s g ifaces' s' g'. induction ifaces as [|iface rest IH];
    intros s g ifaces' s' g' H Hsub; cbn [generate_missing_macs] in H.
  - injection H as <- <- <-. cbn. split; [set_solver|]. split; [set_solver|].
    intros m Hm. inversion Hm.
  - rewrite requested_macs_cons in *.
    destruct (decide (mac_address iface = "")) as [He|Hne].
    + rewrite bool_decide_eq_true_2 in H by assumption.
      destruct (generate_unused_mac_address s g) as [[[mac|e] s1] g1] eqn:Eg;
        [|discriminate].
      apply generate_unused_fresh in Eg as [Hfresh ->].
      destruct (generate_missing_macs rest ({[mac]} ∪ s) g1) as [[[rest'|e] s2] g2] eqn:Er;
        [|discriminate].
      injection H as <- <- <-.
      apply IH in Er as (-> & Hreq & Hm); [|set_solver].
      cbn [fmap list_fmap mac_address]. split; [set_solver|]. split; [set_solver|].
      intros m Hin. apply elem_of_cons in Hin as [->|Hin]; [now right|].
      destruct (Hm m Hin) as [?|?]; [now left|right; set_solver].
    + rewrite bool_decide_eq_false_2 in H by assumption.
      destruct (generate_missing_macs rest s g) as [[[rest'|e] s2] g2] eqn:Er;
        [|discriminate].
      injection H as <- <- <-.
      apply IH in Er as (-> & Hreq & Hm); [|set_solver].
      cbn [fmap list_fmap]. split; [set_solver|]. split; [set_solver|].
      intros m Hin. apply elem_of_cons in Hin as [->|Hin]; [left; set_solver|].
      destruct (Hm m Hin) as [?|?]; [left; set_solver|now right].
Qed.

(** The preparation either throws and leaves the daemon as it was, or
    adds to the allocated set the addresses of the description, none of
    which was allocated before. *)
Lemma make_vm_description_spec checked_args run d :
  match make_vm_description checked_args run d with
  | (Throw e, d') => d' = d /\ exists w, e = CreateImageException w
  | (Return vm_desc, d') =>
      d' = with_allocated (macs_of_description vm_desc ∪ allocated_mac_addrs d) d /\
      macs_of_description vm_desc ## allocated_mac_addrs d
  end.
Proof.
  unfold make_vm_description.
  destruct (prepare_throws run); [eauto|].
  destruct (check_requested_macs _ _) as [s1|e] eqn:Ec; [|eauto].
  apply check_requested_macs_spec in Ec as [-> Hdis].
  destruct (generate_missing_macs _ _ _) as [[[ifaces'|e] s2] g2] eqn:Em; [|eauto].
  apply generate_missing_macs_spec in Em as (-> & Hreq & Hm); [|set_solver].
  destruct (generate_unused_mac_address _ _) as [[[mac|e] s3] g3] eqn:Eg; [|eauto].
  apply generate_unused_fresh in Eg as [Hfresh ->].
  destruct (configure_throws run); [eauto|].
  unfold macs_of_description. cbn [desc_default_mac_address desc_extra_interfaces].
  split.
  - f_equal. apply set_eq. intros m.
    rewrite !elem_of_union, !elem_of_singleton, !elem_of_list_to_set.
    split; [|tauto]. intros [?|[?|[Hr|?]]]; auto.
    apply Hreq in Hr. apply elem_of_list_to_set in Hr. auto.
  - apply elem_of_disjoint. intros m Hm1 Hm2.
    apply elem_of_union in Hm1 as [Hm1|Hm1].
    + apply elem_of_singleton in Hm1 as ->. apply Hfresh. set_solver.
    + apply elem_of_list_to_set in Hm1. destruct (Hm m Hm1) as [Hr|Hn].
      * apply (proj1 (elem_of_disjoint _ _) Hdis m Hr Hm2).
      * apply Hn. set_solver.
Qed.


Lemma consistent_fields d d' :
  vm_instance_specs d' = vm_instance_specs d ->
  allocated_mac_addrs d' = allocated_mac_addrs d ->
  operative_instances d' = operative_instances d ->
  deleted_instances d' = deleted_instances d ->
  consistent d -> consistent d'.
Proof.
  intros Hs Ha Ho Hd (H1 & H2 & H3). unfold consistent, registered.
  rewrite Hs, Ha, Ho, Hd. auto.
Qed.

Lemma consistent_but_fields name d d' :
  vm_instance_specs d' = vm_instance_specs d ->
  allocated_mac_addrs d' = allocated_mac_addrs d ->
  operative_instances d' = operative_instances d ->
  deleted_instances d' = deleted_instances d ->
  consistent_but name d -> consistent_but name d'.
Proof.
  intros Hs Ha Ho Hd (H1 & H2 & H3). unfold consistent_but.
  rewrite Hs, Ha, Ho, Hd. auto.
Qed.





Lemma lookup_delete_all names specs n :
  delete_all names specs !! n = if decide (n ∈ names) then None else specs !! n.
Proof.
  induction names as [|x names IH].
  - rewrite decide_False; [reflexivity|apply not_elem_of_nil].
  - change (delete_all (x :: names) specs) with (delete x (delete_all names specs)).
    rewrite lookup_delete, IH.
    destruct (decide (x = n)) as [->|Hne].
    + rewrite decide_True; [reflexivity|left].
    + destruct (decide (n ∈ names)) as [Hin|Hout].
      * rewrite decide_True; [reflexivity|now right].
      * rewrite decide_False; [reflexivity|].
        rewrite elem_of_cons. intros [?|?]; [congruence|contradiction].
Qed.

Lemma alter_lookup_insert {V} (f : V -> V) (m : gmap string V) i x :
  m !! i = Some x -> alter f i m = <[i := f x]> m.
Proof.
  intros H. apply map_eq. intros j. rewrite lookup_alter, lookup_insert.
  case_decide; [subst; now rewrite H|reflexivity].
Qed.

Lemma foldl_emit_fields log d :
  vm_instance_specs (foldl (fun d e => emit e d) d log) = vm_instance_specs d /\
  allocated_mac_addrs (foldl (fun d e => emit e d) d log) = allocated_mac_addrs d /\
  operative_instances (foldl (fun d e => emit e d) d log) = operative_instances d /\
  deleted_instances (foldl (fun d e => emit e d) d log) = deleted_instances d.
Proof.
  revert d. induction log as [|e log IH]; intros d; [auto|].
  cbn [foldl]. destruct (IH (emit e d)) as (-> & -> & -> & ->). auto.
Qed.

(** [init_mounts] edits the mounts of the instance's specification and
    nothing else of the registry. *)
Lemma init_mounts_fields run name d spec :
  vm_instance_specs d !! name = Some spec ->
  exists spec',
    vm_instance_specs (init_mounts run name d) = <[name := spec']> (vm_instance_specs d) /\
    mac_set_from spec' = mac_set_from spec /\
    allocated_mac_addrs (init_mounts run name d) = allocated_mac_addrs d /\
    operative_instances (init_mounts run name d) = operative_instances d /\
    deleted_instances (init_mounts run name d) = deleted_instances d.
Proof.
  intros Hs. unfold init_mounts.
  assert (Hm : vm_instance_specs (snd (mounts_subscript name d)) = vm_instance_specs d /\
               allocated_mac_addrs (snd (mounts_subscript name d)) = allocated_mac_addrs d /\
               operative_instances (snd (mounts_subscript name d)) = operative_instances d /\
               deleted_instances (snd (mounts_subscript name d)) = deleted_instances d).
  { unfold mounts_subscript. destruct (daemon_mounts d !! name); auto. }
  destruct (mounts_subscript name d) as [vm_mounts d1]. cbn [snd] in Hm.
  destruct Hm as (Hs1 & Ha1 & Ho1 & Hd1).
  unfold specs_subscript. rewrite Hs1, Hs.
  destruct (foldl _ _ _) as [[vm_mounts' mounts_to_remove] log].
  set (d3 := with_mounts _ d1).
  destruct (foldl_emit_fields log d3) as (Hs4 & Ha4 & Ho4 & Hd4).
  set (d4 := foldl _ d3 log) in *.
  exists (with_spec_mounts
            (foldl (fun m target => delete target m) (mounts spec) mounts_to_remove) spec).
  assert (Hs4' : vm_instance_specs d4 = vm_instance_specs d) by (now rewrite Hs4).
  destruct (bool_decide (mounts_to_remove = []));
    cbn [vm_instance_specs allocated_mac_addrs operative_instances deleted_instances
         persist_instances with_db with_specs];
    rewrite Hs4', Ha4, Ho4, Hd4, (alter_lookup_insert _ _ _ _ Hs); auto.
Qed.

(** One pass of the constructor's loop either declares the
    specification invalid and leaves registry, tables and allocated set
    alone, or admits it: then its addresses, none of which was allocated,
    join the allocated set and its instance joins a table. *)
Lemma reconcile_spec_spec run name spec d invalid d' invalid' :
  vm_instance_specs d !! name = Some spec ->
  reconcile_spec run (name, spec) (d, invalid) = Return (d', invalid') ->
  (invalid' = invalid ++ [name] /\
   vm_instance_specs d' = vm_instance_specs d /\
   allocated_mac_addrs d' = allocated_mac_addrs d /\
   operative_instances d' = operative_instances d /\
   deleted_instances d' = deleted_instances d)
  \/
  (invalid' = invalid /\
   exists spec',
     vm_instance_specs d' = <[name := spec']> (vm_instance_specs d) /\
     mac_set_from spec' = mac_set_from spec /\
     allocated_mac_addrs d' = mac_set_from spec ∪ allocated_mac_addrs d /\
     mac_set_from spec ## allocated_mac_addrs d /\
     (is_Some (operative_instances d' !! name) \/ is_Some (deleted_instances d' !! name)) /\
     forall n, n <> name ->
       operative_instances d' !! n = operative_instances d !! n /\
       deleted_instances d' !! n = deleted_instances d !! n).
Proof.
  intros Hs. unfold reconcile_spec.
  destruct (negb (has_record_for run name)).
  { intros [= <- <-]. left. auto. }
  unfold merge_if_disjoint.
  destruct (decide (mac_set_from spec ## allocated_mac_addrs d)) as [Hdisj|Hndisj];
    cbn [fst snd negb]; [|rewrite orb_true_r; intros [= <- <-]; left; auto].
  destruct (size (mac_set_from spec) <=? length (extra_interfaces spec));
    cbn [orb]; [intros [= <- <-]; left; auto|].
  destruct (image_file_lost run name); [intros [= <- <-]; left; auto|].
  destruct (factory_create run name) as [instance|e]; [|discriminate].
  cbn [mbind Exc_bind].
  set (incompatible := deleted spec && negb (state spec =? state_code stopped)%Z).
  set (d1 := if deleted spec then _ else _).
  set (d2 := with_allocated _ d1).
  set (spec1 := if incompatible then with_spec_state (state_code stopped) spec else spec).
  set (d3 := if incompatible then _ else d2).
  assert (H3 : vm_instance_specs d3 = <[name := spec1]> (vm_instance_specs d) /\
               allocated_mac_addrs d3 = mac_set_from spec ∪ allocated_mac_addrs d /\
               operative_instances d3 = operative_instances d1 /\
               deleted_instances d3 = deleted_instances d1).
  { subst d3 spec1 d2. destruct incompatible; cbn.
    - destruct (deleted spec); auto.
    - rewrite (insert_id _ _ _ Hs). destruct (deleted spec); auto. }
  destruct H3 as (Hs3 & Ha3 & Ho3 & Hd3).
  assert (Hm1 : mac_set_from spec1 = mac_set_from spec)
    by (subst spec1; destruct incompatible; reflexivity).
  assert (Ht1 : (is_Some (operative_instances d1 !! name)
                 \/ is_Some (deleted_instances d1 !! name)) /\
                forall n, n <> name ->
                  operative_instances d1 !! n = operative_instances d !! n /\
                  deleted_instances d1 !! n = deleted_instances d !! n).
  { subst d1. destruct (deleted spec); cbn; split.
    - right. rewrite lookup_insert_eq. eauto.
    - intros n Hne. rewrite lookup_insert_ne by congruence. auto.
    - left. rewrite lookup_insert_eq. eauto.
    - intros n Hne. rewrite lookup_insert_ne by congruence. auto. }
  set (d4 := if negb (deleted spec1) then init_mounts run name d3 else d3).
  assert (H4 : exists spec',
             vm_instance_specs d4 = <[name := spec']> (vm_instance_specs d) /\
             mac_set_from spec' = mac_set_from spec /\
             allocated_mac_addrs d4 = mac_set_from spec ∪ allocated_mac_addrs d /\
             operative_instances d4 = operative_instances d1 /\
             deleted_instances d4 = deleted_instances d1).
  { subst d4. destruct (negb (deleted spec1)).
    - destruct (init_mounts_fields run name d3 spec1) as (spec' & Hs' & Hm' & Ha' & Ho' & Hd').
      { rewrite Hs3. apply lookup_insert_eq. }
      exists spec'. rewrite Hs', Ha', Ho', Hd', Hs3, insert_insert_eq.
      repeat split; try assumption. congruence.
    - exists spec1. auto. }
  destruct H4 as (spec' & Hs4 & Hm4 & Ha4 & Ho4 & Hd4).
  intros [= <- <-]. right. split; [reflexivity|]. exists spec'.
  destruct Ht1 as [Hin Hout].
  match goal with |- context [if ?b then emit _ d4 else d4] => destruct b end;
    cbn [vm_instance_specs allocated_mac_addrs operative_instances deleted_instances emit];
    rewrite Hs4, Ha4, Ho4, Hd4; auto 10.
Qed.

Lemma reconcile_spec_reconciling run entry rest d invalid d' invalid' :
  reconciling d invalid (entry :: rest) ->
  reconcile_spec run entry (d, invalid) = Return (d', invalid') ->
  reconciling d' invalid' rest.
Proof.
  destruct entry as [name spec].
  intros (Hmac & Hdis & Hreg & Htodo & Hinv & Hnd) Hstep.
  cbn [fmap list_fmap fst] in *.
  inversion Hnd as [|? ? Hname Hnd']; subst.
  assert (Hs : vm_instance_specs d !! name = Some spec).
  { apply (Htodo (name, spec)). left. }
  assert (Hni : name ∉ invalid).
  { intros Hin. apply (Hinv name Hin). left. }
  destruct (reconcile_spec_spec run name spec d invalid d' invalid' Hs Hstep)
    as [(-> & Hs' & Ha' & Ho' & Hd')
       |(-> & spec' & Hs' & Hm' & Ha' & Hdisj & Hin' & Hout')].
  - (* declared invalid *)
    assert (Hadm : delete_all ((invalid ++ [name]) ++ rest.*1) (vm_instance_specs d')
                   = delete_all (invalid ++ name :: rest.*1) (vm_instance_specs d)).
    { rewrite Hs'. now rewrite <- app_assoc. }
    unfold reconciling. rewrite Hadm, Ha', Ho', Hd'.
    split; [exact Hmac|]. split; [exact Hdis|]. split; [exact Hreg|].
    split; [|split; [|exact Hnd']].
    + intros e He. rewrite Hs'. apply Htodo. now right.
    + intros n Hn. apply elem_of_app in Hn as [Hn|Hn].
      * intros Hr. apply (Hinv n Hn). now right.
      * apply elem_of_cons in Hn as [->|Hn]; [exact Hname|inversion Hn].
  - (* admitted *)
    set (admitted := delete_all (invalid ++ name :: rest.*1) (vm_instance_specs d)) in *.
    assert (Hadm : delete_all (invalid ++ rest.*1) (vm_instance_specs d')
                   = <[name := spec']> admitted).
    { apply map_eq. intros n. subst admitted.
      rewrite lookup_insert, !lookup_delete_all, Hs'.
      destruct (decide (name = n)) as [<-|Hne].
      - rewrite decide_False; [apply lookup_insert_eq|].
        rewrite elem_of_app. tauto.
      - rewrite lookup_insert_ne by assumption.
        destruct (decide (n ∈ invalid ++ rest.*1)) as [Hin|Hout].
        + rewrite decide_True; [reflexivity|].
          rewrite elem_of_app, elem_of_cons in *. tauto.
        + rewrite decide_False; [reflexivity|].
          rewrite elem_of_app, elem_of_cons in *. intros [?|[?|?]]; [tauto|congruence|tauto]. }
    assert (Hfresh : admitted !! name = None).
    { subst admitted. rewrite lookup_delete_all. rewrite decide_True; [reflexivity|].
      apply elem_of_app. right. left. }
    unfold reconciling. rewrite Hadm.
    split; [|split; [|split; [|split; [|split; [|exact Hnd']]]]].
    + rewrite Ha', macs_of_specs_insert by assumption. now rewrite Hm', Hmac.
    + apply macs_disjoint_insert; try assumption.
      rewrite Hm', <- Hmac. exact Hdisj.
    + intros n Hn. destruct (decide (n = name)) as [->|Hne]; [exact Hin'|].
      rewrite lookup_insert_ne in Hn by congruence.
      destruct (Hout' n Hne) as [-> ->]. now apply Hreg.
    + intros e He. rewrite Hs'. rewrite lookup_insert_ne.
      * apply Htodo. now right.
      * intros Heq. apply Hname. apply list_elem_of_fmap. exists e. auto.
    + intros n Hn Hr. apply (Hinv n Hn). now right.
Qed.

Lemma reconcile_specs_reconciling run todo d invalid d' invalid' :
  reconciling d invalid todo ->
  reconcile_specs run todo (d, invalid) = Return (d', invalid') ->
  reconciling d' invalid' [].
Proof.
  revert d invalid. induction todo as [|entry rest IH]; intros d invalid Hr Hloop.
  - cbn in Hloop. injection Hloop as <- <-. exact Hr.
  - cbn [reconcile_specs] in Hloop.
    destruct (reconcile_spec run entry (d, invalid)) as [[d1 invalid1]|e] eqn:E;
      [|discriminate].
    cbn [mbind Exc_bind] in Hloop.
    eapply IH; [|exact Hloop].
    eapply reconcile_spec_reconciling; eassumption.
Qed.

Lemma remove_invalid_fields invalid d :
  let d1 := foldl (fun d bad_spec => remove_invalid bad_spec d) d invalid in
  vm_instance_specs d1 = delete_all invalid (vm_instance_specs d) /\
  allocated_mac_addrs d1 = allocated_mac_addrs d /\
  operative_instances d1 = operative_instances d /\
  deleted_instances d1 = deleted_instances d.
Proof.
  revert d. induction invalid as [|x invalid IH]; intros d; [cbn; auto|].
  cbn [foldl]. destruct (IH (remove_invalid x d)) as (Hs & Ha & Ho & Hd).
  cbn zeta. rewrite Hs, Ha, Ho, Hd.
  cbn [remove_invalid vm_instance_specs allocated_mac_addrs operative_instances
       deleted_instances with_specs emit].
  repeat split.
  apply map_eq. intros n. rewrite !lookup_delete_all, lookup_delete.
  destruct (decide (x = n)) as [->|Hne].
  - rewrite (decide_True (P := n ∈ n :: invalid)); [|left].
    now destruct (decide (n ∈ invalid)).
  - destruct (decide (n ∈ invalid)) as [Hin|Hout].
    + rewrite decide_True; [reflexivity|now right].
    + rewrite decide_False; [reflexivity|].
      rewrite elem_of_cons. intros [?|?]; [congruence|contradiction].
Qed.

(** The constructor admits the addresses of a specification if and only
    if it admits the specification: the daemon it builds is consistent. *)
Lemma Daemon_constructor_consistent lib db_file run d :
  Daemon_constructor lib db_file run = Return d -> consistent d.
Proof.
  unfold Daemon_constructor.
  destruct (load_db lib db_file) as [[loaded log]|e]; [|discriminate].
  cbn [mbind Exc_bind fst snd].
  set (d0 := mkDaemon loaded ∅ ∅ ∅ ∅ ∅ ∅ [] log).
  destruct (reconcile_specs run (map_to_list loaded) (d0, [])) as [[d1 invalid]|e] eqn:E;
    [|discriminate].
  cbn [mbind Exc_bind fst snd mret Exc_ret]. intros [= <-].
  assert (H0 : reconciling d0 [] (map_to_list loaded)).
  { assert (Hadm : delete_all ([] ++ (map_to_list loaded).*1) (vm_instance_specs d0) = ∅).
    { apply map_eq. intros n. rewrite lookup_delete_all, lookup_empty. cbn.
      case_decide as Hin; [reflexivity|].
      destruct (loaded !! n) as [s|] eqn:Es; [|reflexivity].
      exfalso. apply Hin. apply list_elem_of_fmap. exists (n, s).
      split; [reflexivity|]. now apply elem_of_map_to_list. }
    unfold reconciling. rewrite Hadm. cbn.
    split; [now rewrite macs_of_specs_empty|]. split.
    { intros n1 n2 s1 s2 _ H1. rewrite lookup_empty in H1. discriminate. }
    split.
    { intros n [s Hn]. rewrite lookup_empty in Hn. discriminate. }
    split.
    { intros [n s] Hin. now apply elem_of_map_to_list in Hin. }
    split; [intros n Hn; inversion Hn|apply NoDup_fst_map_to_list]. }
  pose proof (reconcile_specs_reconciling run _ d0 [] d1 invalid H0 E)
    as (Hmac & Hdis & Hreg & _).
  cbn [fmap list_fmap] in *. rewrite app_nil_r in *.
  destruct (remove_invalid_fields invalid d1) as (Hs & Ha & Ho & Hd).
  apply (consistent_fields
           (foldl (fun d bad_spec => remove_invalid bad_spec d) d1 invalid)).
  - now destruct (bool_decide (invalid = [])).
  - now destruct (bool_decide (invalid = [])).
  - now destruct (bool_decide (invalid = [])).
  - now destruct (bool_decide (invalid = [])).
  - unfold consistent, registered. rewrite Hs, Ha, Ho, Hd. auto.
Qed.




(** What the example shows: of the two records with the same addresses
    one instance is admitted; the created instance brings two generated
    addresses. *)
Example daemon_after_create_registry :
  dom (vm_instance_specs constructed_daemon) = {[ "clone" ]} /\
  allocated_mac_addrs constructed_daemon = {[ "52:54:00:00:00:01"; "52:54:00:00:00:02" ]} /\
  dom (vm_instance_specs daemon_after_create) = {[ "clone"; "fresh" ]} /\
  allocated_mac_addrs daemon_after_create
  = {[ "52:54:00:00:00:01"; "52:54:00:00:00:02"; "52:54:00:00:01:00"; "52:54:00:00:01:01" ]}.
Proof. vm_compute. auto. Qed.

(** *** A create request that repeats a MAC address *)

Lemma check_requested_macs_throw ifaces s :
  match check_requested_macs ifaces s with
  | Return _ => True
  | Throw e =>
      exists mac, e = runtime_error ("Repeated MAC address " +:+ mac) /\ mac <> "" /\
                  mac ∈ mac_address <$> ifaces
  end.
Proof.
  revert s. induction ifaces as [|iface rest IH]; intros s; cbn; [exact I|].
  destruct (decide (mac_address iface = "")) as [He|Hne].
  - rewrite bool_decide_eq_true_2 by assumption. cbn.
    specialize (IH s). destruct (check_requested_macs rest s); [exact I|].
    destruct IH as (mac & -> & Hm & Hin). exists mac. repeat split; auto. now right.
  - rewrite bool_decide_eq_false_2 by assumption. cbn.
    destruct (decide (mac_address iface ∈ s)).
    + exists (mac_address iface). repeat split; auto. left.
    + specialize (IH ({[mac_address iface]} ∪ s)).
      destruct (check_requested_macs rest _); [exact I|].
      destruct IH as (mac & -> & Hm & Hin). exists mac. repeat split; auto. now right.
Qed.

Lemma check_requested_macs_repeated ifaces s s' :
  has_repeated_mac ifaces -> check_requested_macs ifaces s <> Return s'.
Proof.
  intros (i & j & mac & Hij & Hi & Hj & Hne). revert i j s Hij Hi Hj.
  induction ifaces as [|iface rest IH]; intros i j s Hij Hi Hj Hret; [discriminate|].
  cbn [fmap list_fmap] in Hi, Hj. cbn [check_requested_macs] in Hret.
  destruct j as [|j]; [lia|]. cbn in Hj.
  destruct i as [|i].
  - cbn in Hi. injection Hi as Hi. rewrite Hi in Hret.
    rewrite bool_decide_eq_false_2 in Hret by assumption. cbn in Hret.
    destruct (decide (mac ∈ s)); [discriminate|].
    apply check_requested_macs_spec in Hret as [_ Hdis].
    apply (proj1 (elem_of_disjoint _ _) Hdis mac); [|set_solver].
    unfold requested_macs. apply elem_of_list_to_set, list_elem_of_filter.
    split; [exact Hne|]. apply list_elem_of_lookup. eauto.
  - cbn in Hi.
    destruct (negb (bool_decide (mac_address iface = ""))).
    + destruct (decide (mac_address iface ∈ s)); [discriminate|].
      apply (IH i j _ ltac:(lia) Hi Hj Hret).
    + apply (IH i j _ ltac:(lia) Hi Hj Hret).
Qed.

Lemma create_failed_fresh name e d :
  vm_instance_specs d !! name = None ->
  allocated_mac_addrs (snd (create_failed name e d)) = allocated_mac_addrs d /\
  fst (create_failed name e d) = mkStatus FAILED_PRECONDITION (what e) "".
Proof.
  intros Hs. unfold create_failed, release_resources. cbn.
  rewrite Hs. auto.
Qed.

(** C4: a create or launch request with two extra interfaces that carry
    the same non-empty MAC address never succeeds and never changes the
    allocated set; when it gets as far as the MAC addresses, it fails
    with failed-precondition and the message names the repeated address.
    The set is untouched because the validation works on the copy
    [new_macs], which replaces [allocated_mac_addrs] only at the end of a
    preparation that succeeded. *)
Theorem create_vm_repeated_mac (checked_args : CheckedArguments) (run : CreateRun)
    (start : bool) (d : Daemon) :
  registered d ->
  has_repeated_mac (args_extra_interfaces checked_args) ->
  let result := create_vm checked_args run start d in
  allocated_mac_addrs (snd result) = allocated_mac_addrs d /\
  ok (fst result) = false /\
  (reaches_mac_validation checked_args run d ->
   error_code (fst result) = FAILED_PRECONDITION /\
   exists mac, error_message (fst result) = "Repeated MAC address " +:+ mac /\
               mac <> "" /\ mac ∈ mac_address <$> args_extra_interfaces checked_args).
Proof.
  intros Hreg Hrep. cbn zeta. unfold create_vm, reaches_mac_validation.
  destruct (bool_decide (option_errors checked_args = [])) eqn:Eo; cbn [negb].
  2: { split; [reflexivity|]. split; [reflexivity|]. intros (Hopt & _).
       apply bool_decide_eq_false in Eo. contradiction. }
  destruct (negb (bool_decide (nets_need_bridging checked_args = []))
            && negb (permission_to_bridge run)) eqn:Eb.
  { split; [reflexivity|]. split; [reflexivity|]. intros (_ & Hb & _).
    apply andb_true_iff in Eb as [En Ep].
    apply negb_true_iff in En, Ep. apply bool_decide_eq_false in En.
    destruct Hb as [Hb|Hb]; [contradiction|congruence]. }
  destruct (name_from _ _ _ _) as [[name|e] g] eqn:Ename; cbn [fst snd].
  2: { split; [reflexivity|]. split; [reflexivity|]. intros (_ & _ & (n & Hn & _) & _). discriminate. }
  unfold find_instance_and_react, find_instance.
  destruct (operative_instances d !! name) as [vm|] eqn:Eop.
  { split; [reflexivity|]. split; [reflexivity|]. intros (_ & _ & (n & Hn & Hop & _) & _).
    injection Hn as <-. congruence. }
  destruct (deleted_instances d !! name) as [vm|] eqn:Edel.
  { split; [reflexivity|]. split; [reflexivity|]. intros (_ & _ & (n & Hn & _ & Hdel & _) & _).
    injection Hn as <-. congruence. }
  cbn [grpc_status_for_instance_trail require_missing_instances_reaction
       missing_reaction message_template status_code ok error_code negb].
  change (ok (mkStatus OK "" "")) with true. cbn [negb].
  destruct (decide (name ∈ preparing_instances d)) as [Hprep|Hprep].
  { split; [reflexivity|]. split; [reflexivity|]. intros (_ & _ & (n & Hn & _ & _ & Hp) & _).
    injection Hn as <-. contradiction. }
  assert (Hspec : vm_instance_specs d !! name = None).
  { destruct (vm_instance_specs d !! name) as [spec|] eqn:E; [|reflexivity].
    destruct (Hreg name) as [[vm Hv]|[vm Hv]]; [eauto|congruence|congruence]. }
  destruct (if instances_running (operative_instances d) then None
            else health_check_throws run) as [e|] eqn:Eh.
  { split; [reflexivity|]. split; [reflexivity|]. intros (_ & _ & _ & Hh & _).
    destruct (instances_running (operative_instances d)); [discriminate|].
    destruct Hh as [Hh|Hh]; [discriminate|congruence]. }
  unfold make_vm_description.
  destruct (prepare_throws run) as [e|] eqn:Eprep.
  { unfold on_prepared.
    destruct (create_failed_fresh name (CreateImageException (what e))
                (with_preparing ({[name]} ∪ preparing_instances d) d) Hspec) as [Ha Hst].
    split; [exact Ha|]. rewrite Hst.
    split; [reflexivity|]. intros (_ & _ & _ & _ & Hp). discriminate. }
  cbn [allocated_mac_addrs with_preparing].
  pose proof (check_requested_macs_throw (args_extra_interfaces checked_args)
                (allocated_mac_addrs d)) as Hthrow.
  destruct (check_requested_macs _ _) as [s1|e] eqn:Ec.
  { exfalso. exact (check_requested_macs_repeated _ _ _ Hrep Ec). }
  destruct Hthrow as (mac & -> & Hmac & Hin).
  unfold on_prepared.
  destruct (create_failed_fresh name
              (CreateImageException (what (runtime_error ("Repeated MAC address " +:+ mac))))
              (with_preparing ({[name]} ∪ preparing_instances d) d) Hspec) as [Ha Hst].
  split; [exact Ha|]. rewrite Hst.
  split; [reflexivity|]. intros _. split; [reflexivity|].
  exists mac. auto.
Qed.

Lemma create_vm_repeated_mac_witness :
  let result := create_vm repeated_mac_args smooth_run true constructed_daemon in
  allocated_mac_addrs (snd result) = allocated_mac_addrs constructed_daemon /\
  ok (fst result) = false /\
  (reaches_mac_validation repeated_mac_args smooth_run constructed_daemon ->
   error_code (fst result) = FAILED_PRECONDITION /\
   exists mac, error_message (fst result) = "Repeated MAC address " +:+ mac /\
               mac <> "" /\ mac ∈ mac_address <$> args_extra_interfaces repeated_mac_args).
Proof.
  apply (create_vm_repeated_mac repeated_mac_args smooth_run true constructed_daemon).
  - apply (Daemon_constructor_consistent example_library (Some persisted_with_clone)
             accepting_startup).
    vm_compute. reflexivity.
  - exists 0, 1, "52:54:00:aa:bb:cc". repeat split; [lia|discriminate].
Defined.

(** The scenario, run: the status and the allocated set. *)
Example create_vm_repeated_mac_scenario :
  reaches_mac_validation repeated_mac_args smooth_run constructed_daemon /\
  fst (create_vm repeated_mac_args smooth_run true constructed_daemon)
  = mkStatus FAILED_PRECONDITION "Repeated MAC address 52:54:00:aa:bb:cc" "" /\
  allocated_mac_addrs (snd (create_vm repeated_mac_args smooth_run true constructed_daemon))
  = {[ "52:54:00:00:00:01"; "52:54:00:00:00:02" ]}.
Proof.
  split; [|split; vm_compute; reflexivity].
  unfold reaches_mac_validation. repeat apply conj; try reflexivity.
  - now left.
  - exists "twin". repeat apply conj; try reflexivity. vm_compute. set_solver.
  - now right.
Qed.

(** *** The two generators, seen from a create request *)

(** With a, b and c operative and a generator that emits a, b, c, d, a
    create request without a name fails; no instance d appears. *)
Example create_vm_unnamed_with_abc :
  create_vm unnamed_args smooth_run false daemon_abc
  = (mkStatus FAILED_PRECONDITION "unable to generate a unique name" "", daemon_abc).
Proof. vm_compute. reflexivity. Qed.

(** When the MAC generator keeps proposing an address that is allocated,
    the create request fails with failed-precondition and the allocated
    set stays as it was. *)
Example create_vm_without_unused_mac :
  let result := create_vm (mkCheckedArguments "fresh" [] [] []) stuck_run false
                  daemon_two_mounts in
  fst result
  = mkStatus FAILED_PRECONDITION
      "Failed to generate an unique mac address after 5 attempts. Number of mac addresses in use: 1"
      "" /\
  allocated_mac_addrs (snd result) = allocated_mac_addrs daemon_two_mounts.
Proof. vm_compute. auto. Qed.

Lemma grpc_status_for_code_default errors :
  grpc_status_for_code errors OK = grpc_status_for errors.
Proof. destruct errors; reflexivity. Qed.

Lemma react_to_component_code c rc errors :
  fst (react_to_component c rc errors) = component_code (get_instance_names c) rc.
Proof.
  unfold react_to_component, component_code.
  destruct (get_instance_names c) as [|n l]; [reflexivity|].
  rewrite bool_decide_eq_false_2 by discriminate.
  destruct (message_template rc); reflexivity.
Qed.

Lemma react_to_component_ok c rc errors :
  component_code (get_instance_names c) rc = OK ->
  snd (react_to_component c rc errors) = errors.
Proof.
  unfold react_to_component, component_code.
  destruct (get_instance_names c) as [|n l]; [reflexivity|].
  rewrite bool_decide_eq_false_2 by discriminate.
  intros ->. destruct (message_template rc) as [msg|]; [|reflexivity].
  cbn [snd]. generalize (n :: l). intros l'. revert errors.
  induction l' as [|x l' IH]; intros errors; [reflexivity|].
  cbn [foldl]. rewrite bool_decide_eq_true_2 by reflexivity. apply IH.
Qed.

Lemma error_code_grpc_status_for_code errors code :
  (code = OK -> errors = "") ->
  error_code (grpc_status_for_code errors code) = code.
Proof.
  intros H. unfold grpc_status_for_code.
  destruct (decide (code = OK)) as [->|Hc].
  - rewrite (H eq_refl). reflexivity.
  - rewrite (bool_decide_eq_false_2 (code = OK)) by exact Hc.
    rewrite andb_false_r. rewrite bool_decide_eq_false_2 by exact Hc. reflexivity.
Qed.

Lemma grpc_status_for_selection_code (selection : InstanceSelectionReport)
    (reaction : SelectionReaction) :
  let c1 := component_code (operative_selection selection) (operative_reaction reaction) in
  let c2 := component_code (deleted_selection selection) (deleted_reaction reaction) in
  let c3 := component_code (missing_instances selection) (missing_reaction reaction) in
  error_code (grpc_status_for_selection selection reaction)
  = (if bool_decide (c3 = OK) then if bool_decide (c2 = OK) then c1 else c2 else c3).
Proof.
  intros c1 c2 c3. unfold grpc_status_for_selection.
  pose proof (react_to_component_code (component_selection (operative_selection selection))
                (operative_reaction reaction) "") as H1.
  pose proof (react_to_component_ok (component_selection (operative_selection selection))
                (operative_reaction reaction) "") as E1.
  destruct (react_to_component (component_selection (operative_selection selection)) _ "")
    as [k1 e1]. cbn [fst snd] in H1, E1.
  pose proof (react_to_component_code (component_selection (deleted_selection selection))
                (deleted_reaction reaction) e1) as H2.
  pose proof (react_to_component_ok (component_selection (deleted_selection selection))
                (deleted_reaction reaction) e1) as E2.
  destruct (react_to_component (component_selection (deleted_selection selection)) _ e1)
    as [k2 e2]. cbn [fst snd] in H2, E2.
  pose proof (react_to_component_code (component_missing (missing_instances selection))
                (missing_reaction reaction) e2) as H3.
  pose proof (react_to_component_ok (component_missing (missing_instances selection))
                (missing_reaction reaction) e2) as E3.
  destruct (react_to_component (component_missing (missing_instances selection)) _ e2)
    as [k3 e3]. cbn [fst snd] in H3, E3.
  assert (K1 : k1 = c1).
  { rewrite H1. unfold c1, component_code. cbn [get_instance_names].
    destruct (operative_selection selection); reflexivity. }
  assert (K2 : k2 = c2).
  { rewrite H2. unfold c2, component_code. cbn [get_instance_names].
    destruct (deleted_selection selection); reflexivity. }
  assert (K3 : k3 = c3) by (rewrite H3; reflexivity).
  rewrite error_code_grpc_status_for_code.
  - rewrite K1, K2, K3.
    destruct (decide (c3 = OK)) as [->|N3].
    + rewrite (bool_decide_eq_true_2 (OK = OK)) by reflexivity.
      destruct (decide (c2 = OK)) as [->|N2].
      * rewrite (bool_decide_eq_true_2 (OK = OK)) by reflexivity.
        destruct (bool_decide (c1 = OK)) eqn:B1; [|reflexivity].
        symmetry. exact (bool_decide_eq_true_1 _ B1).
      * rewrite !(bool_decide_eq_false_2 (c2 = OK)) by exact N2. reflexivity.
    + rewrite !(bool_decide_eq_false_2 (c3 = OK)) by exact N3. reflexivity.
  - intros Hall.
    destruct (decide (k3 = OK)) as [Z3|N3];
      [|rewrite (bool_decide_eq_false_2 _ N3) in Hall; contradiction].
    rewrite (bool_decide_eq_true_2 _ Z3) in Hall.
    destruct (decide (k2 = OK)) as [Z2|N2];
      [|rewrite (bool_decide_eq_false_2 _ N2) in Hall; contradiction].
    rewrite (bool_decide_eq_true_2 _ Z2) in Hall.
    destruct (decide (k1 = OK)) as [Z1|N1];
      [|rewrite (bool_decide_eq_false_2 _ N1) in Hall; contradiction].
    rewrite E3 by (rewrite <- H3; exact Z3).
    rewrite E2 by (rewrite <- H2; exact Z2).
    apply E1. rewrite <- H1. exact Z1.
Qed.

Lemma grpc_status_for_selection_ok (selection : InstanceSelectionReport)
    (reaction : SelectionReaction) :
  ok (grpc_status_for_selection selection reaction) = true
  <-> component_code (operative_selection selection) (operative_reaction reaction) = OK /\
      component_code (deleted_selection selection) (deleted_reaction reaction) = OK /\
      component_code (missing_instances selection) (missing_reaction reaction) = OK.
Proof.
  unfold ok. rewrite grpc_status_for_selection_code. rewrite bool_decide_eq_true.
  set (c1 := component_code (operative_selection selection) _).
  set (c2 := component_code (deleted_selection selection) _).
  set (c3 := component_code (missing_instances selection) _).
  destruct (decide (c3 = OK)) as [Z3|N3].
  - rewrite (bool_decide_eq_true_2 _ Z3).
    destruct (decide (c2 = OK)) as [Z2|N2].
    + rewrite (bool_decide_eq_true_2 _ Z2). tauto.
    + rewrite (bool_decide_eq_false_2 _ N2). tauto.
  - rewrite (bool_decide_eq_false_2 _ N3). tauto.
Qed.

(** X1.  [grpc_status_for_selection] answers with the code of the last
    component, in the order operative, deleted, missing, that is not
    empty and whose reaction is not OK; it answers OK exactly when there
    is no such component. *)
Theorem grpc_status_for_selection_last_bad_code
    (selection : InstanceSelectionReport) (reaction : SelectionReaction) :
  let c1 := component_code (operative_selection selection) (operative_reaction reaction) in
  let c2 := component_code (deleted_selection selection) (deleted_reaction reaction) in
  let c3 := component_code (missing_instances selection) (missing_reaction reaction) in
  error_code (grpc_status_for_selection selection reaction)
  = (if bool_decide (c3 = OK) then if bool_decide (c2 = OK) then c1 else c2 else c3) /\
  (ok (grpc_status_for_selection selection reaction) = true
   <-> c1 = OK /\ c2 = OK /\ c3 = OK).
Proof.
  intros c1 c2 c3. split.
  - apply grpc_status_for_selection_code.
  - apply grpc_status_for_selection_ok.
Qed.

Lemma select_instances_named op del names group :
  names <> [] ->
  select_instances op del names group = partition_of op del (first_occurrences names).
Proof.
  intros Hn. unfold select_instances.
  rewrite (bool_decide_eq_false_2 (names = [])) by exact Hn. cbn [andb].
  rewrite select_named_spec.
  rewrite (filter_unseen_empty _ ∅ eq_refl).
  destruct (partition_of op del (first_occurrences names)); reflexivity.
Qed.

Lemma partition_of_deleted_nil op del l :
  deleted_selection (partition_of op del l) = []
  <-> forall n, n ∈ l -> op !! n = None -> del !! n = None.
Proof.
  split.
  - intros H n Hn Hop. destruct (del !! n) as [vm|] eqn:Hd; [|reflexivity].
    exfalso.
    assert (Hin : n ∈ (deleted_selection (partition_of op del l)).*1).
    { rewrite partition_of_deleted_names. apply list_elem_of_filter.
      split; [|exact Hn]. split; [exact Hop|]. rewrite Hd. eauto. }
    rewrite H in Hin. now apply not_elem_of_nil in Hin.
  - intros H.
    assert (Hnil : (deleted_selection (partition_of op del l)).*1 = []).
    { rewrite partition_of_deleted_names.
      destruct (filter _ l) as [|x r] eqn:Hf; [reflexivity|].
      assert (Hx : x ∈ filter (fun n => op !! n = None /\ is_Some (del !! n)) l)
        by (rewrite Hf; left).
      apply list_elem_of_filter in Hx. destruct Hx as [[Hop [vm Hd]] Hx].
      rewrite (H x Hx Hop) in Hd. discriminate. }
    now apply fmap_nil_inv in Hnil.
Qed.

Lemma partition_of_missing_nil op del l :
  missing_instances (partition_of op del l) = []
  <-> forall n, n ∈ l -> is_Some (op !! n) \/ is_Some (del !! n).
Proof.
  cbn [partition_of missing_instances]. split.
  - intros H n Hn.
    destruct (op !! n) as [vm|] eqn:Hop; [left; eauto|].
    destruct (del !! n) as [vm|] eqn:Hd; [right; eauto|].
    exfalso. eapply filter_nil_not_elem_of; [exact H| |exact Hn].
    cbn beta. auto.
  - intros H.
    destruct (filter _ l) as [|x r] eqn:Hf; [reflexivity|].
    assert (Hx : x ∈ filter (fun n => op !! n = None /\ del !! n = None) l)
      by (rewrite Hf; left).
    apply list_elem_of_filter in Hx. destruct Hx as [[Hop Hd] Hx].
    destruct (H x Hx) as [[vm E]|[vm E]]; congruence.
Qed.

Lemma filter_all {A} (P : A -> Prop) `{!forall x, Decision (P x)} (l : list A) :
  (forall x, x ∈ l -> P x) -> filter P l = l.
Proof.
  induction l as [|x l IH]; intros Hl; [reflexivity|].
  rewrite filter_cons. rewrite decide_True by (apply Hl; left).
  f_equal. apply IH. intros y Hy. apply Hl. now right.
Qed.

Lemma component_code_ok {A} (component : list A) rc :
  status_code rc <> OK -> component_code component rc = OK <-> component = [].
Proof.
  intros H. destruct component; cbn; split; try congruence; try discriminate.
Qed.

(** X2.  With the reaction that requires operative instances, which is
    the one stop, suspend, restart and ssh_info use, the selection is
    accepted exactly when every requested name is an operative instance
    (and, for an empty request that stands for the deleted or for all
    instances, when there is no deleted instance).  The accepted targets
    of a request with names are the requested names, in the order of
    their first occurrence. *)
Theorem select_instances_and_react_require_operative
    (operative_instances deleted_instances : InstanceTable)
    (names : list string) (no_name_means : InstanceGroup) :
  let result := select_instances_and_react operative_instances deleted_instances names
                  no_name_means require_operative_instances_reaction in
  (ok (snd result) = true
   <-> (forall n, n ∈ names -> is_Some (operative_instances !! n)) /\
       (names = [] -> no_name_means = GroupDeleted \/ no_name_means = GroupAll ->
        deleted_instances = ∅)) /\
  (ok (snd result) = true -> names <> [] ->
   (operative_selection (fst result)).*1 = first_occurrences names /\
   deleted_selection (fst result) = [] /\ missing_instances (fst result) = []).
Proof.
  intros result. unfold result, select_instances_and_react. cbn [fst snd].
  rewrite grpc_status_for_selection_ok.
  cbn [require_operative_instances_reaction operative_reaction deleted_reaction
       missing_reaction].
  rewrite (component_code_ok (deleted_selection _) (mkReaction INVALID_ARGUMENT _))
    by discriminate.
  rewrite (component_code_ok (missing_instances _) (mkReaction NOT_FOUND _))
    by discriminate.
  assert (Hop : forall c : LinearInstanceSelection, component_code c (mkReaction OK None) = OK)
    by (intros []; reflexivity).
  destruct names as [|n0 names'].
  - split; [|intros _ H; now contradiction H].
    split.
    + intros (_ & Hd & _). split; [intros n Hn; now apply not_elem_of_nil in Hn|].
      intros _ Hg.
      destruct Hg as [-> | ->]; cbn -[select_all] in Hd;
        now apply map_to_list_empty_iff in Hd.
    + intros [_ Hd]. split; [apply Hop|].
      destruct no_name_means; cbn -[select_all]; split; try reflexivity.
      * rewrite (Hd eq_refl) by auto. apply map_to_list_empty.
      * rewrite (Hd eq_refl) by auto. apply map_to_list_empty.
  - rewrite select_instances_named by discriminate.
    rewrite partition_of_deleted_nil, partition_of_missing_nil.
    assert (Hall : (forall n, n ∈ first_occurrences (n0 :: names') ->
                       operative_instances !! n = None -> deleted_instances !! n = None) /\
                   (forall n, n ∈ first_occurrences (n0 :: names') ->
                       is_Some (operative_instances !! n) \/ is_Some (deleted_instances !! n))
                   <-> forall n, n ∈ n0 :: names' -> is_Some (operative_instances !! n)).
    { split.
      - intros [Hd Hm] n Hn. apply (proj2 (first_occurrences_elem n _)) in Hn.
        destruct (Hm n Hn) as [H|[vm H]]; [exact H|].
        destruct (operative_instances !! n) as [vm'|] eqn:E; [eauto|].
        rewrite (Hd n Hn E) in H. discriminate.
      - intros H. split; intros n Hn; rewrite first_occurrences_elem in Hn.
        + intros E. destruct (H n Hn) as [vm Hvm]. congruence.
        + left. auto. }
    split.
    + split.
      * intros (_ & Hd & Hm). split; [apply Hall; auto|discriminate].
      * intros [H _]. split; [apply Hop|]. apply Hall. exact H.
    + intros (_ & Hd & Hm) _.
      pose proof (proj1 Hall (conj Hd Hm)) as H.
      split; [|split].
      * rewrite partition_of_operative_names.
        apply filter_all. intros n Hn.
        apply H. now rewrite first_occurrences_elem in Hn.
      * exact Hd.
      * exact Hm.
Qed.

Lemma select_instances_single op del name group :
  select_instances op del [name] group
  = rank_instance (find_instance op del name) (mkReport [] [] []).
Proof.
  rewrite select_instances_named by discriminate.
  change (first_occurrences [name]) with [name].
  rewrite partition_of_cons. apply report_app_nil_r.
Qed.

(** X3.  For a single name the two engines agree: the report of
    [select_instances_and_react] is the trail of [find_instance_and_react]
    filed under its partition, and both statuses carry the same code,
    whatever the reaction. *)
Theorem find_instance_and_react_agrees_with_selection
    (operative_instances deleted_instances : InstanceTable) (name : string)
    (no_name_means : InstanceGroup) (reaction : SelectionReaction) :
  let single := find_instance_and_react operative_instances deleted_instances name reaction in
  let listed := select_instances_and_react operative_instances deleted_instances [name]
                  no_name_means reaction in
  fst listed = rank_instance (fst single) (mkReport [] [] []) /\
  error_code (snd listed) = error_code (snd single).
Proof.
  intros single listed. unfold single, listed, find_instance_and_react,
    select_instances_and_react. cbn [fst snd].
  split; [apply select_instances_single|].
  rewrite grpc_status_for_selection_code, select_instances_single.
  unfold grpc_status_for_instance_trail.
  destruct (find_instance operative_instances deleted_instances name) as [it|it|n];
    cbn [rank_instance operative_selection deleted_selection missing_instances app
         component_code].
  - rewrite !bool_decide_eq_true_2 by reflexivity.
    destruct (message_template (operative_reaction reaction)); [|reflexivity].
    destruct (bool_decide _); reflexivity.
  - rewrite (bool_decide_eq_true_2 (OK = OK)) by reflexivity.
    destruct (message_template (deleted_reaction reaction));
      destruct (bool_decide (status_code (deleted_reaction reaction) = OK)) eqn:E;
      try reflexivity; apply bool_decide_eq_true_1 in E; rewrite E; reflexivity.
  - destruct (message_template (missing_reaction reaction));
      destruct (bool_decide (status_code (missing_reaction reaction) = OK)) eqn:E;
      try reflexivity; apply bool_decide_eq_true_1 in E; rewrite E; reflexivity.
Qed.

Lemma concat_cons_cons sep (a b : string) l :
  String.concat sep (a :: b :: l) = a +:+ sep +:+ String.concat sep (b :: l).
Proof. reflexivity. Qed.

Lemma concat_merge_head (a b : string) l :
  String.concat newline ((a +:+ newline +:+ b) :: l) = String.concat newline (a :: b :: l).
Proof.
  rewrite concat_cons_cons. destruct l as [|c l].
  - reflexivity.
  - rewrite !concat_cons_cons. now rewrite !append_assoc.
Qed.

Lemma foldl_add_fmt_to (lines : list string) (errors : string) :
  Forall (fun line => line <> "") lines ->
  foldl add_fmt_to errors lines
  = String.concat newline ((if bool_decide (errors = "") then [] else [errors]) ++ lines).
Proof.
  revert errors. induction lines as [|line lines IH]; intros errors Hl.
  - cbn [foldl]. rewrite app_nil_r. destruct errors; reflexivity.
  - inversion Hl as [|? ? Hne Hl']; subst. cbn [foldl]. rewrite (IH _ Hl').
    rewrite (bool_decide_eq_false_2 (add_fmt_to errors line = ""))
      by (now apply add_fmt_to_nonempty).
    destruct errors as [|c errors].
    + reflexivity.
    + rewrite (bool_decide_eq_false_2 (String c errors = "")) by discriminate.
      cbn [app add_fmt_to]. apply concat_merge_head.
Qed.

Lemma concat_newline_nonempty (lines : list string) :
  Forall (fun line => line <> "") lines -> lines <> [] -> String.concat newline lines <> "".
Proof.
  intros Hl Hne. destruct lines as [|a l]; [congruence|].
  inversion Hl as [|? ? Ha _]; subst.
  destruct l as [|b l]; [exact Ha|].
  rewrite concat_cons_cons. destruct a; [congruence|discriminate].
Qed.

Lemma react_to_component_lines c rc errors :
  (forall msg name, message_template rc = Some msg -> msg name <> "") ->
  snd (react_to_component c rc errors)
  = foldl add_fmt_to errors (component_lines (get_instance_names c) rc) /\
  Forall (fun line => line <> "") (component_lines (get_instance_names c) rc).
Proof.
  intros Hmsg. unfold react_to_component, component_lines.
  destruct (message_template rc) as [msg|] eqn:Et.
  - destruct (decide (status_code rc = OK)) as [Hc|Hc].
    + rewrite !(bool_decide_eq_true_2 _ Hc). split; [|constructor].
      destruct (bool_decide (get_instance_names c = [])); [reflexivity|].
      cbn [snd foldl]. generalize (get_instance_names c). intros l. revert errors.
      induction l as [|x l IH]; intros errors; [reflexivity|]. cbn [foldl]. apply IH.
    + rewrite !(bool_decide_eq_false_2 _ Hc). split.
      * destruct (get_instance_names c) as [|n l]; [reflexivity|].
        rewrite bool_decide_eq_false_2 by discriminate. cbn [snd].
        generalize (n :: l). intros l'. revert errors.
        induction l' as [|x l' IH]; intros errors; [reflexivity|].
        cbn [foldl fmap list_fmap]. apply IH.
      * apply Forall_forall. intros line Hin. apply list_elem_of_fmap in Hin.
        destruct Hin as (name & -> & _). now apply Hmsg.
  - split; [|constructor]. destruct (bool_decide _); reflexivity.
Qed.

Lemma foldl_add_fmt_to_app errors l1 l2 :
  foldl add_fmt_to (foldl add_fmt_to errors l1) l2 = foldl add_fmt_to errors (l1 ++ l2).
Proof. now rewrite foldl_app. Qed.

Lemma grpc_status_for_code_message errors code :
  error_message (grpc_status_for_code errors code)
  = if ok (grpc_status_for_code errors code) then ""
    else "The following errors occurred:" +:+ newline +:+ errors.
Proof.
  unfold grpc_status_for_code.
  destruct (bool_decide (_ = OK)) eqn:E; [reflexivity|].
  unfold ok. cbn [error_code error_message]. now rewrite E.
Qed.

(** X4.  When the templates of a reaction never produce an empty line,
    the message of a rejected selection is the heading followed by one
    line per offending instance: the operative ones first, then the
    deleted, then the missing, each group in the order of the report.  An
    accepted selection has the empty message. *)
Theorem grpc_status_for_selection_message
    (selection : InstanceSelectionReport) (reaction : SelectionReaction) :
  (forall rc msg name,
     rc ∈ [operative_reaction reaction; deleted_reaction reaction; missing_reaction reaction] ->
     message_template rc = Some msg -> msg name <> "") ->
  let status := grpc_status_for_selection selection reaction in
  error_message status
  = if ok status then ""
    else "The following errors occurred:" +:+ newline +:+
         String.concat newline
           (component_lines (operative_selection selection).*1 (operative_reaction reaction)
            ++ component_lines (deleted_selection selection).*1 (deleted_reaction reaction)
            ++ component_lines (missing_instances selection) (missing_reaction reaction)).
Proof.
  intros Hmsg status.
  assert (Ha : forall msg name,
             message_template (operative_reaction reaction) = Some msg -> msg name <> "")
    by (intros msg name; apply Hmsg; left).
  assert (Hb : forall msg name,
             message_template (deleted_reaction reaction) = Some msg -> msg name <> "")
    by (intros msg name; apply Hmsg; right; left).
  assert (Hc : forall msg name,
             message_template (missing_reaction reaction) = Some msg -> msg name <> "")
    by (intros msg name; apply Hmsg; right; right; left).
  assert (H1 := react_to_component_lines (component_selection (operative_selection selection))
                  (operative_reaction reaction) "" Ha).
  unfold status, grpc_status_for_selection.
  destruct (react_to_component (component_selection (operative_selection selection)) _ "")
    as [k1 e1]. cbn [fst snd] in H1. destruct H1 as [H1 F1].
  assert (H2 := react_to_component_lines (component_selection (deleted_selection selection))
                  (deleted_reaction reaction) e1 Hb).
  destruct (react_to_component (component_selection (deleted_selection selection)) _ e1)
    as [k2 e2]. cbn [fst snd] in H2. destruct H2 as [H2 F2].
  assert (H3 := react_to_component_lines (component_missing (missing_instances selection))
                  (missing_reaction reaction) e2 Hc).
  destruct (react_to_component (component_missing (missing_instances selection)) _ e2)
    as [k3 e3]. cbn [fst snd] in H3. destruct H3 as [H3 F3].
  cbn [get_instance_names] in *.
  assert (He3 : e3 = String.concat newline
            (component_lines (operative_selection selection).*1 (operative_reaction reaction)
             ++ component_lines (deleted_selection selection).*1 (deleted_reaction reaction)
             ++ component_lines (missing_instances selection) (missing_reaction reaction))).
  { rewrite H3, H2, H1, !foldl_add_fmt_to_app.
    rewrite foldl_add_fmt_to.
    - rewrite bool_decide_eq_true_2 by reflexivity. reflexivity.
    - rewrite !Forall_app. auto. }
  rewrite <- He3. apply grpc_status_for_code_message.
Qed.

Lemma grpc_status_for_selection_message_witness :
  let status := grpc_status_for_selection rejected_selection
                  require_operative_instances_reaction in
  error_message status
  = if ok status then ""
    else "The following errors occurred:" +:+ newline +:+
         String.concat newline
           (component_lines (operative_selection rejected_selection).*1
              (operative_reaction require_operative_instances_reaction)
            ++ component_lines (deleted_selection rejected_selection).*1
                 (deleted_reaction require_operative_instances_reaction)
            ++ component_lines (missing_instances rejected_selection)
                 (missing_reaction require_operative_instances_reaction)).
Proof.
  apply (grpc_status_for_selection_message rejected_selection
           require_operative_instances_reaction).
  intros rc msg name Hin Hm E.
  rewrite !elem_of_cons in Hin.
  destruct Hin as [->|[->|[->|Hin]]]; [| | |now apply not_elem_of_nil in Hin];
    cbn in Hm; try discriminate; inversion Hm; subst msg; vm_compute in E; discriminate.
Defined.

Example rejected_selection_status :
  grpc_status_for_selection rejected_selection require_operative_instances_reaction
  = mkStatus NOT_FOUND
      ("The following errors occurred:" +:+ newline
         +:+ "instance " +:+ dquote +:+ "gone" +:+ dquote +:+ " is deleted" +:+ newline
         +:+ "instance " +:+ dquote +:+ "nope" +:+ dquote +:+ " does not exist") "".
Proof. vm_compute. reflexivity. Qed.

Lemma snapshots_named_snoc instance l it :
  snapshots_named instance (l ++ [it])
  = if decide (fst it = instance) then {[ snd it ]} ∪ snapshots_named instance l
    else snapshots_named instance l.
Proof.
  unfold snapshots_named. rewrite filter_app, fmap_app, list_to_set_app_L.
  rewrite filter_cons, filter_nil.
  destruct (decide (fst it = instance)); cbn; set_solver.
Qed.

Lemma elem_of_snapshots_named instance l s :
  s ∈ snapshots_named instance l <-> (instance, s) ∈ l.
Proof.
  unfold snapshots_named. rewrite elem_of_list_to_set, list_elem_of_fmap. split.
  - intros ([i s'] & -> & Hin). apply list_elem_of_filter in Hin.
    cbn in Hin. destruct Hin as [-> Hin]. exact Hin.
  - intros Hin. exists (instance, s). split; [reflexivity|].
    apply list_elem_of_filter. auto.
Qed.

(** X5.  [map_snapshots_to_instances] has an entry exactly for the
    instances the request names.  The entry is the empty set, which
    stands for the whole instance, as soon as one pair of the instance
    has no snapshot name, wherever that pair stands in the request;
    otherwise it is the set of the snapshot names paired with the
    instance. *)
Theorem map_snapshots_to_instances_spec (instances_snapshots : list (string * string))
    (instance : string) :
  map_snapshots_to_instances instances_snapshots !! instance
  = if decide (instance ∈ instances_snapshots.*1) then
      Some (if decide ((instance, "") ∈ instances_snapshots) then ∅
            else snapshots_named instance instances_snapshots)
    else None.
Proof.
  unfold map_snapshots_to_instances.
  induction instances_snapshots as [|[i s] l IH] using rev_ind.
  - cbn. rewrite lookup_empty. rewrite decide_False; [reflexivity|].
    intros H. now apply not_elem_of_nil in H.
  - rewrite foldl_app. cbn [foldl]. set (m := foldl _ ∅ l) in *.
    rewrite fmap_app, snapshots_named_snoc. cbn [fmap list_fmap fst snd].
    unfold map_snapshot. cbn [fst snd].
    assert (Hin : forall x : string, x ∈ l.*1 ++ [i] <-> x ∈ l.*1 \/ x = i).
    { intros x. rewrite elem_of_app, list_elem_of_singleton. tauto. }
    assert (Hpair : forall x : string,
               (x, "") ∈ l ++ [(i, s)] <-> (x, "") ∈ l \/ (x = i /\ s = "")).
    { intros x. rewrite elem_of_app, list_elem_of_singleton. split.
      - intros [H|H]; [auto|]. inversion H; subst. auto.
      - intros [H|[-> ->]]; auto. }
    destruct (decide (i = instance)) as [->|Hne].
    + rewrite (decide_True (P := instance ∈ l.*1 ++ [instance])) by (apply Hin; auto).
      destruct (decide (s = "")) as [->|Hs].
      * rewrite bool_decide_eq_true_2 by reflexivity. rewrite lookup_insert_eq.
        rewrite (decide_True (P := (instance, "") ∈ l ++ [(instance, "")]))
          by (apply Hpair; auto).
        reflexivity.
      * rewrite (bool_decide_eq_false_2 (s = "")) by exact Hs.
        rewrite IH.
        destruct (decide (instance ∈ l.*1)) as [Hl|Hl].
        -- destruct (decide ((instance, "") ∈ l)) as [He|He].
           ++ rewrite bool_decide_eq_true_2 by reflexivity. cbn [negb].
              rewrite IH.
              rewrite (decide_True (P := (instance, "") ∈ l ++ [(instance, s)]))
                by (apply Hpair; auto).
              reflexivity.
           ++ assert (Hnon : snapshots_named instance l <> ∅).
              { apply list_elem_of_fmap in Hl. destruct Hl as ([i' s'] & Hi & Hl).
                cbn in Hi. subst i'. intros E.
                assert (Hs' : s' ∈ snapshots_named instance l)
                  by (now apply elem_of_snapshots_named).
                rewrite E in Hs'. set_solver. }
              rewrite (bool_decide_eq_false_2 _ Hnon). cbn [negb].
              rewrite lookup_insert_eq.
              rewrite (decide_False (P := (instance, "") ∈ l ++ [(instance, s)]))
                by (rewrite Hpair; tauto).
              reflexivity.
        -- rewrite lookup_insert_eq.
           assert (He : (instance, "") ∉ l).
           { intros He. apply Hl. apply list_elem_of_fmap. now exists (instance, ""). }
           rewrite (decide_False (P := (instance, "") ∈ l ++ [(instance, s)]))
             by (rewrite Hpair; tauto).
           f_equal. unfold snapshots_named.
           assert (Hf : filter (fun it : string * string => fst it = instance) l = []).
           { destruct (filter _ l) as [|[i' s'] r] eqn:Hf; [reflexivity|].
             assert (Hx : (i', s') ∈ filter (fun it : string * string => fst it = instance) l)
               by (rewrite Hf; left).
             apply list_elem_of_filter in Hx. cbn in Hx. destruct Hx as [-> Hx].
             exfalso. apply Hl. apply list_elem_of_fmap. now exists (instance, s'). }
           rewrite Hf. cbn. set_solver.
    + assert (Hm : (if bool_decide (s = "") then <[i := ∅]> m
                    else match m !! i with
                         | Some entry =>
                             if negb (bool_decide (entry = ∅))
                             then <[i := {[ s ]} ∪ entry]> m else m
                         | None => <[i := {[ s ]}]> m
                         end) !! instance = m !! instance).
      { destruct (bool_decide (s = "")); [now rewrite lookup_insert_ne|].
        destruct (m !! i) as [entry|]; [|now rewrite lookup_insert_ne].
        destruct (negb _); [now rewrite lookup_insert_ne|reflexivity]. }
      rewrite Hm, IH.
      destruct (decide (instance ∈ l.*1)) as [Hl|Hl].
      * rewrite (decide_True (P := instance ∈ l.*1 ++ [i])) by (apply Hin; auto).
        f_equal.
        destruct (decide ((instance, "") ∈ l)) as [He|He].
        -- rewrite (decide_True (P := (instance, "") ∈ l ++ [(i, s)]))
             by (apply Hpair; auto).
           reflexivity.
        -- rewrite (decide_False (P := (instance, "") ∈ l ++ [(i, s)]))
             by (rewrite Hpair; intros [?|[? ?]]; [tauto|congruence]).
           reflexivity.
      * rewrite (decide_False (P := instance ∈ l.*1 ++ [i]))
          by (rewrite Hin; intros [?|?]; [tauto|congruence]).
        reflexivity.
Qed.

Example map_snapshots_whole_instance_wins :
  let requested := [("a", "s1"); ("b", "s1"); ("a", ""); ("a", "s2"); ("b", "s2")] in
  map_snapshots_to_instances requested !! "a" = Some ∅ /\
  map_snapshots_to_instances requested !! "b" = Some {[ "s1"; "s2" ]} /\
  map_snapshots_to_instances requested !! "c" = None.
Proof. vm_compute. auto. Qed.

(** X6.  [compute_final_image_size] returns exactly when the request,
    if there is one, is not below the image's size, the volume's free
    space is known and it is not below the image's size either.  The
    size returned is never below the image's: it is the size the user
    asked for, if there is one, and the larger of the image's size and
    the default disk size otherwise; it comes with a warning exactly when
    it exceeds what the volume has. *)
Theorem compute_final_image_size_spec (lib : Library) (image_size : Z)
    (command_line_value : option Z) (data_directory : string) (available_bytes : Z) :
  let result := compute_final_image_size lib image_size command_line_value data_directory
                  available_bytes in
  ((exists r, result = Return r)
   <-> match command_line_value with
       | Some requested => (image_size <= requested)%Z
       | None => is_Some (MemorySize_in_bytes lib (default_disk_size lib))
       end /\
       available_bytes <> (-1)%Z /\
       exists available,
         MemorySize_in_bytes lib (string_of_Z available_bytes +:+ "B") = Some available /\
         (image_size <= available)%Z) /\
  match result with
  | Return (disk_space, log) =>
      (image_size <= disk_space)%Z /\
      match command_line_value with
      | Some requested => disk_space = requested
      | None => exists default, MemorySize_in_bytes lib (default_disk_size lib) = Some default /\
                                disk_space = Z.max image_size default
      end /\
      exists available,
        MemorySize_in_bytes lib (string_of_Z available_bytes +:+ "B") = Some available /\
        (log = [] <-> (disk_space <= available)%Z)
  | Throw e =>
      match command_line_value with
      | Some requested =>
          (requested < image_size)%Z ->
          e = runtime_error
                ("Requested disk (" +:+ string_of_Z requested
                   +:+ " bytes) below minimum for this image ("
                   +:+ string_of_Z image_size +:+ " bytes)")
      | None => True
      end
  end.
Proof.
  intros result. unfold result, compute_final_image_size, MemorySize.
  destruct command_line_value as [requested|].
  - destruct (Z.ltb_spec requested image_size) as [Hlt|Hge]; cbn.
    { split; [|intros _; reflexivity].
      split; [intros [r Hr]; discriminate|intros [H _]; lia]. }
    destruct (Z.eqb_spec available_bytes (-1)) as [He|Hne]; cbn.
    { split; [|lia]. split; [intros [r Hr]; discriminate|intros (_ & H & _); lia]. }
    destruct (MemorySize_in_bytes lib (string_of_Z available_bytes +:+ "B"))
      as [available|] eqn:Ea; cbn.
    2:{ split; [|lia].
        split; [intros [r Hr]; discriminate|intros (_ & _ & a & H & _); discriminate]. }
    destruct (Z.ltb_spec available image_size) as [Hlt|Hge']; cbn.
    { split; [|lia]. split; [intros [r Hr]; discriminate|].
      intros (_ & _ & a & H & Ha). inversion H; subst. lia. }
    split.
    + split; [|eauto]. intros _. split; [lia|]. split; [exact Hne|].
      exists available. split; [reflexivity|lia].
    + split; [lia|]. split; [reflexivity|].
      exists available. split; [reflexivity|].
      destruct (Z.ltb_spec available requested); split; intros; try lia; try reflexivity;
        try discriminate.
  - destruct (MemorySize_in_bytes lib (default_disk_size lib)) as [default|] eqn:Ed; cbn.
    2:{ split; [|exact I].
        split; [intros [r Hr]; discriminate|intros ([x H] & _); discriminate]. }
    destruct (Z.eqb_spec available_bytes (-1)) as [He|Hne]; cbn.
    { split; [|exact I].
      split; [intros [r Hr]; discriminate|intros (_ & H & _); lia]. }
    destruct (MemorySize_in_bytes lib (string_of_Z available_bytes +:+ "B"))
      as [available|] eqn:Ea; cbn.
    2:{ split; [|exact I].
        split; [intros [r Hr]; discriminate|intros (_ & _ & a & H & _); discriminate]. }
    destruct (Z.ltb_spec available image_size) as [Hlt|Hge']; cbn.
    { split; [|exact I]. split; [intros [r Hr]; discriminate|].
      intros (_ & _ & a & H & Ha). inversion H; subst. lia. }
    set (disk := if (image_size <? default)%Z then default else image_size).
    assert (Hd : disk = Z.max image_size default).
    { unfold disk. destruct (Z.ltb_spec image_size default); lia. }
    split.
    + split; [|eauto]. intros _. split; [eauto|]. split; [exact Hne|].
      exists available. split; [reflexivity|lia].
    + split; [lia|]. split; [exists default; auto|].
      exists available. split; [reflexivity|].
      destruct (Z.ltb_spec available disk); split; intros; try lia; try reflexivity;
        try discriminate.
Qed.

Example compute_final_image_size_default :
  compute_final_image_size bytes_library 2361393152 None "/var/lib/multipass" 4000000000
  = Return (5368709120%Z,
            [ev_warning
               "Reserving more disk space (5368709120 bytes) than available (4000000000 bytes)"])
  /\
  compute_final_image_size bytes_library 2361393152 (Some 1000%Z) "/var/lib/multipass"
    4000000000
  = Throw (runtime_error
             "Requested disk (1000 bytes) below minimum for this image (2361393152 bytes)").
Proof. split; vm_compute; reflexivity. Qed.

(** *** The repeated-address test of the constructor *)

Lemma size_list_to_set_le (l : list string) : size (list_to_set l : gset string) <= length l.
Proof.
  induction l as [|x l IH]; [rewrite list_to_set_nil, size_empty; cbn; lia|].
  rewrite list_to_set_cons. cbn [length].
  pose proof (size_union_alt ({[ x ]} : gset string) (list_to_set l)) as H.
  rewrite H, size_singleton.
  assert (size ((list_to_set l : gset string) ∖ {[ x ]}) <= size (list_to_set l : gset string))
    by (apply subseteq_size; set_solver).
  lia.
Qed.

Lemma size_list_to_set_NoDup (l : list string) :
  size (list_to_set l : gset string) = length l <-> NoDup l.
Proof.
  split; [|apply size_list_to_set].
  induction l as [|x l IH]; intros H; [constructor|].
  rewrite list_to_set_cons in H. cbn [length] in H.
  pose proof (size_list_to_set_le l) as Hle.
  destruct (decide (x ∈ l)) as [Hx|Hx].
  - assert (E : ({[ x ]} ∪ list_to_set l : gset string) = list_to_set l) by set_solver.
    rewrite E in H. lia.
  - constructor; [exact Hx|]. apply IH.
    rewrite size_union in H by set_solver. rewrite size_singleton in H. lia.
Qed.

Lemma size_test_NoDup (spec : VMSpecs) :
  (size (mac_set_from spec) <=? length (extra_interfaces spec)) = false
  <-> NoDup (default_mac_address spec :: (mac_address <$> extra_interfaces spec)).
Proof.
  unfold mac_set_from.
  change ({[ default_mac_address spec ]} ∪ list_to_set (mac_address <$> extra_interfaces spec))
    with (list_to_set (default_mac_address spec :: (mac_address <$> extra_interfaces spec))
            : gset string).
  rewrite <- size_list_to_set_NoDup.
  pose proof (size_list_to_set_le
                (default_mac_address spec :: (mac_address <$> extra_interfaces spec))) as Hle.
  cbn [length] in *. rewrite length_fmap in *.
  rewrite Nat.leb_gt. lia.
Qed.

(** X7.  The constructor keeps a loaded specification only if the set
    of its MAC addresses is larger than the number of its extra
    interfaces.  That test holds exactly when the default address and the
    addresses of the extra interfaces are pairwise distinct. *)
Theorem mac_set_from_size_test (spec : VMSpecs) :
  (size (mac_set_from spec) <=? length (extra_interfaces spec)) = false
  <-> NoDup (default_mac_address spec :: (mac_address <$> extra_interfaces spec)).
Proof. apply size_test_NoDup. Qed.

Lemma read_interface_entries_valid lib entries l :
  read_interface_entries lib entries = Return l ->
  Forall (fun iface => valid_mac_address lib (mac_address iface) = true) l.
Proof.
  revert l. induction entries as [|entry rest IH]; intros l H.
  - inversion H. constructor.
  - cbn [read_interface_entries] in H. unfold read_extra_interface in H.
    destruct (valid_mac_address lib (toString (obj_value (toObject entry) "mac_address")))
      eqn:Ev; cbn in H; [|discriminate].
    destruct (read_interface_entries lib rest) as [l'|e]; cbn in H; [|discriminate].
    inversion H; subst. constructor; [exact Ev|]. now apply IH.
Qed.

Lemma load_record_usable lib value spec :
  load_record lib value = Return (reconstructed spec) -> usable_spec lib spec.
Proof.
  unfold load_record. destruct (obj_isEmpty (toObject value)); [discriminate|].
  destruct (is_ghost _ _ _ _ _ _ _) as [[|]|e]; cbn; try discriminate.
  destruct (valid_mac_address lib (toString (obj_value (toObject value) "mac_addr")))
    eqn:Ev; cbn; [|intros H; discriminate H].
  destruct (MemorySize _ _) as [mem|e]; destruct (MemorySize _ _) as [disk|e'];
    cbn; try (intros H; discriminate H).
  destruct (read_extra_interfaces lib (toObject value)) as [ifaces|e] eqn:Ei; cbn;
    [|intros H; discriminate H].
  intros H. inversion H; subst. unfold usable_spec. cbn. split; [exact Ev|]. split.
  - unfold read_extra_interfaces in Ei. destruct (obj_contains _ _).
    + now apply read_interface_entries_valid in Ei.
    + inversion Ei. constructor.
  - destruct (bool_decide _) eqn:E; [discriminate|]. now apply bool_decide_eq_false in E.
Qed.

Lemma load_records_usable lib records acc log registry log' :
  map_Forall (fun _ spec => usable_spec lib spec) acc ->
  load_records lib records acc log = Return (registry, log') ->
  map_Forall (fun _ spec => usable_spec lib spec) registry.
Proof.
  revert acc log. induction records as [|[key value] rest IH]; intros acc log Hacc H.
  - inversion H; subst. exact Hacc.
  - cbn [load_records] in H.
    destruct (load_record lib value) as [[| |spec]|e] eqn:El; cbn in H; try discriminate.
    + inversion H; subst. apply map_Forall_empty.
    + eapply IH; eauto.
    + eapply IH; [|exact H]. apply map_Forall_insert_2; [|exact Hacc].
      now apply load_record_usable in El.
Qed.

(** X8.  Whatever the instance database holds, a registry that
    [load_db] returns has only specifications whose default MAC address
    and extra interfaces' MAC addresses are valid and whose user name is
    not empty. *)
Theorem load_db_registry_usable (lib : Library) (db_file : option QJsonDocument)
    (registry : gmap string VMSpecs) (log : list Event) :
  load_db lib db_file = Return (registry, log) ->
  forall name spec, registry !! name = Some spec -> usable_spec lib spec.
Proof.
  intros H name spec Hs.
  assert (Hall : map_Forall (fun _ spec => usable_spec lib spec) registry).
  { unfold load_db in H.
    destruct db_file as [[|a|records]|];
      try (inversion H; subst; apply map_Forall_empty).
    destruct (obj_isEmpty records); [inversion H; subst; apply map_Forall_empty|].
    eapply load_records_usable; [|exact H]. apply map_Forall_empty. }
  exact (Hall name spec Hs).
Qed.

Lemma load_db_registry_usable_witness :
  usable_spec example_library primary_spec.
Proof.
  apply (load_db_registry_usable example_library
           (Some (doc_object [("primary", JObject (vm_spec_to_json primary_spec))]))
           ({[ "primary" := primary_spec ]} : gmap string VMSpecs) []) with (name := "primary").
  - vm_compute. reflexivity.
  - apply lookup_singleton_eq.
Defined.

Lemma load_record_defaulted lib spec :
  reads_decimal lib -> defaulted spec ->
  load_record lib (JObject (vm_spec_to_json spec)) = Return ghost_instance.
Proof.
  intros Hdec (Hc & Hm & Hd & Hu & Hdel & Hmeta).
  apply load_record_ghost. rewrite vm_spec_to_json_members.
  unfold ghost_record, obj_value. cbn [obj_find String.eqb Ascii.eqb Bool.eqb toInt toBool
    toString toObject default].
  rewrite Hc, Hm, Hd, Hu, Hdel, Hmeta.
  split; [discriminate|]. split; [reflexivity|]. split; [reflexivity|].
  split; [reflexivity|]. split; [reflexivity|].
  split; exact (Hdec 0%N).
Qed.

(** The records of a list of specifications in which the entries under
    [name] are defaulted and the others canonical: the former are
    skipped with a warning each. *)
Lemma load_records_skipping lib name (ls : list (string * VMSpecs)) acc log :
  reads_decimal lib ->
  Forall (fun kv => if decide (fst kv = name) then defaulted (snd kv)
                    else canonical_spec lib (snd kv)) ls ->
  load_records lib
    (prod_map (fun k => k) (fun spec => JObject (vm_spec_to_json spec)) <$> ls) acc log
  = Return (foldl (fun acc kv => <[fst kv := snd kv]> acc) acc
              (filter (fun kv => fst kv <> name) ls),
            log ++ ((fun kv => ev_warning ("Ignoring ghost instance in database: " +:+ fst kv))
                      <$> filter (fun kv => fst kv = name) ls)).
Proof.
  intros Hdec Hall. revert acc log.
  induction Hall as [|[k spec] ls Hspec Hall IH]; intros acc log.
  - cbn. now rewrite app_nil_r.
  - cbn [fmap list_fmap prod_map fst snd load_records]. cbn [fst snd] in Hspec.
    rewrite !filter_cons. cbn [fst].
    destruct (decide (k = name)) as [->|Hne].
    + rewrite (load_record_defaulted lib spec Hdec Hspec). cbn [mbind Exc_bind].
      rewrite IH. rewrite decide_False by (intros H; now apply H).
      cbn [fmap list_fmap fst]. now rewrite <- app_assoc.
    + rewrite (load_record_json lib spec Hdec Hspec). cbn [mbind Exc_bind].
      rewrite IH. rewrite decide_True by exact Hne. reflexivity.
Qed.

Lemma obj_find_filter_ne {V} (l : list (string * V)) name j :
  obj_find (filter (fun kv => fst kv <> name) l) j
  = if decide (j = name) then None else obj_find l j.
Proof.
  induction l as [|[k v] l IH]; [now destruct (decide _)|].
  rewrite filter_cons. cbn [fst].
  destruct (decide (k <> name)) as [Hk|Hk].
  - cbn [obj_find]. rewrite IH.
    destruct (String.eqb_spec k j) as [->|Hkj]; [|reflexivity].
    now rewrite decide_False.
  - assert (k = name) as -> by (destruct (decide (k = name)); [assumption|contradiction]).
    rewrite IH. cbn [obj_find].
    destruct (decide (j = name)) as [->|Hj]; [reflexivity|].
    destruct (String.eqb_spec name j); [congruence|reflexivity].
Qed.

Lemma filter_key_singleton {V} (l : list (string * V)) name v :
  NoDup l.*1 -> (name, v) ∈ l -> filter (fun kv => fst kv = name) l = [(name, v)].
Proof.
  induction l as [|[k w] l IH]; intros Hnd Hin; [now apply not_elem_of_nil in Hin|].
  inversion Hnd as [|? ? Hk Hnd']; subst.
  rewrite filter_cons. cbn [fst].
  apply elem_of_cons in Hin. destruct Hin as [Heq|Hin].
  - inversion Heq; subst. rewrite decide_True by reflexivity. f_equal.
    destruct (filter (fun kv : string * V => fst kv = k) l) as [|[k' v'] r] eqn:Hf;
      [reflexivity|].
    assert (Hx : (k', v') ∈ filter (fun kv : string * V => fst kv = k) l)
      by (rewrite Hf; left).
    apply list_elem_of_filter in Hx. cbn in Hx. destruct Hx as [-> Hx].
    exfalso. apply Hk. apply list_elem_of_fmap. now exists (k, v').
  - rewrite decide_False; [now apply IH|].
    intros ->. apply Hk. apply list_elem_of_fmap. now exists (name, v).
Qed.

(** X9.  A state persisted for a name that has no specification leaves
    a record of defaults in the instance database.  With canonical
    specifications otherwise, the next [load_db] skips that record as a
    ghost, with a warning: the registry read back is the registry from
    before the call. *)
Theorem persist_state_for_unknown_name (lib : Library) (name : string) (state : State)
    (d : Daemon) :
  reads_decimal lib ->
  map_Forall (fun _ spec => canonical_spec lib spec) (vm_instance_specs d) ->
  vm_instance_specs d !! name = None ->
  let d' := persist_state_for name state d in
  vm_instance_specs d' = <[name := with_spec_state (state_code state) default_VMSpecs]>
                           (vm_instance_specs d) /\
  load_db lib (Some (doc_object (instance_db d')))
  = Return (vm_instance_specs d,
            [ev_warning ("Ignoring ghost instance in database: " +:+ name)]).
Proof.
  intros Hdec Hall Hnone d'.
  set (ghost := with_spec_state (state_code state) default_VMSpecs).
  assert (Hspecs : vm_instance_specs d' = <[name := ghost]> (vm_instance_specs d)).
  { unfold d', persist_state_for, specs_subscript. rewrite Hnone. cbn.
    now rewrite insert_insert_eq. }
  split; [exact Hspecs|].
  assert (Hdb : instance_db d' = instance_records_json (<[name := ghost]> (vm_instance_specs d))).
  { rewrite <- Hspecs. unfold d', persist_state_for.
    destruct (specs_subscript name d) as [spec d1]. reflexivity. }
  rewrite Hdb. clear Hdb Hspecs d'.
  set (m' := <[name := ghost]> (vm_instance_specs d)).
  set (L := inserted (map_to_list m') []).
  assert (HndL : NoDup L.*1) by (apply obj_sorted_NoDup, inserted_sorted; exact I).
  assert (HfindL : forall j, obj_find L j = m' !! j).
  { intros j. unfold L. rewrite inserted_find by apply NoDup_fst_map_to_list.
    rewrite list_to_map_to_list. cbn. now destruct (m' !! j). }
  assert (Hghost : (name, ghost) ∈ L).
  { apply (elem_of_list_to_map_2 (M := gmap string)).
    rewrite <- obj_find_list_to_map, HfindL. apply lookup_insert_eq. }
  unfold load_db. rewrite instance_records_json_inserted. fold L. clearbody L.
  assert (Hfull : obj_isEmpty (prod_map (fun k : string => k)
                                 (fun spec => JObject (vm_spec_to_json spec)) <$> L) = false).
  { destruct L; [now apply not_elem_of_nil in Hghost|reflexivity]. }
  rewrite Hfull.
  rewrite (load_records_skipping lib name L ∅ [] Hdec).
  - rewrite (filter_key_singleton L name ghost HndL Hghost). cbn [app fmap list_fmap fst].
    f_equal. f_equal. apply map_eq. intros j.
    rewrite foldl_insert_lookup.
    + rewrite obj_find_filter_ne, lookup_empty.
      destruct (decide (j = name)) as [->|Hj]; [now rewrite Hnone|].
      rewrite HfindL. unfold m'. rewrite lookup_insert_ne by congruence.
      now destruct (vm_instance_specs d !! j).
    + eapply sublist_NoDup; [exact HndL|]. apply fmap_sublist, sublist_filter.
  - apply Forall_forall. intros [k spec] Hin. cbn [fst snd].
    assert (Hk : m' !! k = Some spec).
    { rewrite <- HfindL, obj_find_list_to_map. now apply elem_of_list_to_map_1. }
    unfold m' in Hk. destruct (decide (k = name)) as [->|Hne].
    + rewrite lookup_insert_eq in Hk. inversion Hk; subst.
      unfold defaulted, ghost. cbn. auto 10.
    + rewrite lookup_insert_ne in Hk by congruence. exact (Hall k spec Hk).
Qed.

Lemma persist_state_for_unknown_name_witness :
  let d := with_specs {[ "primary" := primary_spec ]} empty_daemon in
  let d' := persist_state_for "lost" running d in
  vm_instance_specs d' = <["lost" := with_spec_state (state_code running) default_VMSpecs]>
                           (vm_instance_specs d) /\
  load_db example_library (Some (doc_object (instance_db d')))
  = Return (vm_instance_specs d,
            [ev_warning ("Ignoring ghost instance in database: " +:+ "lost")]).
Proof.
  apply (persist_state_for_unknown_name example_library "lost" running
           (with_specs {[ "primary" := primary_spec ]} empty_daemon)).
  - exact example_library_reads_decimal.
  - apply map_Forall_singleton. exact primary_spec_canonical.
  - reflexivity.
Defined.

(** *** Metadata kept for an instance *)

Lemma obj_find_fmap {V W} (f : V -> W) (l : list (string * V)) j :
  obj_find (prod_map (fun k => k) f <$> l) j = f <$> obj_find l j.
Proof.
  induction l as [|[k v] l IH]; [reflexivity|].
  cbn [fmap list_fmap prod_map fst snd obj_find]. destruct (String.eqb k j); [reflexivity|].
  exact IH.
Qed.

Lemma obj_find_instance_records_json (m : gmap string VMSpecs) j :
  obj_find (instance_records_json m) j
  = (fun spec => JObject (vm_spec_to_json spec)) <$> m !! j.
Proof.
  rewrite instance_records_json_inserted, obj_find_fmap.
  rewrite inserted_find by apply NoDup_fst_map_to_list.
  rewrite list_to_map_to_list. cbn. now destruct (m !! j).
Qed.

(** X10.  Metadata stored with [update_metadata_for] is what
    [retrieve_metadata_for] answers for that name, with no further change
    to the daemon; the other specifications are untouched, and the
    instance database written by the update carries the metadata in the
    record of the name. *)
Theorem metadata_round_trip (name : string) (new_metadata : QJsonObject) (d : Daemon) :
  let d' := update_metadata_for name new_metadata d in
  retrieve_metadata_for name d' = (new_metadata, d') /\
  (forall other, other <> name ->
     vm_instance_specs d' !! other = vm_instance_specs d !! other) /\
  exists record,
    obj_find (instance_db d') name = Some (JObject record) /\
    obj_find record "metadata" = Some (JObject new_metadata).
Proof.
  intros d'.
  assert (Hspecs : exists spec,
             vm_instance_specs d'
             = <[name := with_spec_metadata new_metadata spec]> (vm_instance_specs d) /\
             instance_db d' = instance_records_json (vm_instance_specs d')).
  { unfold d', update_metadata_for, specs_subscript.
    destruct (vm_instance_specs d !! name) as [spec|] eqn:E.
    - exists spec. split; reflexivity.
    - exists default_VMSpecs. cbn. split; [now rewrite insert_insert_eq|reflexivity]. }
  destruct Hspecs as (spec & Hspecs & Hdb).
  split; [|split].
  - unfold retrieve_metadata_for, specs_subscript. rewrite Hspecs, lookup_insert_eq.
    reflexivity.
  - intros other Hne. rewrite Hspecs. now rewrite lookup_insert_ne by congruence.
  - exists (vm_spec_to_json (with_spec_metadata new_metadata spec)). split.
    + rewrite Hdb, obj_find_instance_records_json, Hspecs, lookup_insert_eq. reflexivity.
    + rewrite vm_spec_to_json_members. reflexivity.
Qed.

(** *** Purge *)

Lemma foldl_release_resources names d :
  let d1 := foldl (fun d del => release_resources del d) d names in
  operative_instances d1 = operative_instances d /\
  deleted_instances d1 = deleted_instances d /\
  daemon_mounts d1 = daemon_mounts d /\
  trace d1 = trace d /\
  allocated_mac_addrs d1 ⊆ allocated_mac_addrs d /\
  forall n, vm_instance_specs d1 !! n
            = if decide (n ∈ names) then None else vm_instance_specs d !! n.
Proof.
  revert d. induction names as [|name names IH]; intros d; cbn zeta.
  - repeat apply conj; reflexivity.
  - cbn [foldl]. destruct (IH (release_resources name d)) as (H1 & H2 & H3 & H4 & H5 & H6).
    destruct (release_resources_tables name d) as [T1 T2].
    rewrite H1, H2, H3, H4, T1, T2.
    assert (Hrel : daemon_mounts (release_resources name d) = daemon_mounts d /\
                   trace (release_resources name d) = trace d /\
                   allocated_mac_addrs (release_resources name d) ⊆ allocated_mac_addrs d).
    { unfold release_resources. destruct (vm_instance_specs d !! name); cbn; set_solver. }
    destruct Hrel as (R1 & R2 & R3).
    repeat apply conj; try reflexivity; try assumption.
    + set_solver.
    + intros n. rewrite H6, release_resources_specs.
      destruct (decide (n ∈ names)) as [Hn|Hn].
      * rewrite decide_True by (now right). reflexivity.
      * destruct (decide (name = n)) as [->|Hne].
        -- rewrite decide_True by left. reflexivity.
        -- rewrite decide_False; [reflexivity|].
           intros H. apply elem_of_cons in H. destruct H; congruence.
Qed.

Lemma purge_effects (d : Daemon) :
  let d' := fst (fst (purge d)) in
  let purged := snd (fst (purge d)) in
  snd (purge d) = Status_OK /\
  NoDup purged /\
  (forall n, n ∈ purged <-> is_Some (deleted_instances d !! n)) /\
  deleted_instances d' = ∅ /\
  operative_instances d' = operative_instances d /\
  allocated_mac_addrs d' ⊆ allocated_mac_addrs d /\
  (forall n, vm_instance_specs d' !! n
             = if decide (is_Some (deleted_instances d !! n)) then None
               else vm_instance_specs d !! n) /\
  instance_db d' = instance_records_json (vm_instance_specs d') /\
  (forall n, is_Some (deleted_instances d !! n) -> obj_find (instance_db d') n = None).
Proof.
  unfold purge. cbn [fst snd].
  set (purged := (map_to_list (deleted_instances d)).*1).
  assert (Hin : forall n, n ∈ purged <-> is_Some (deleted_instances d !! n)).
  { intros n. unfold purged. rewrite list_elem_of_fmap. split.
    - intros ([k vm] & -> & Hkv). apply elem_of_map_to_list in Hkv. cbn. eauto.
    - intros [vm Hvm]. exists (n, vm). split; [reflexivity|].
      now apply elem_of_map_to_list. }
  destruct (foldl_release_resources purged d) as (H1 & H2 & H3 & H4 & H5 & H6).
  set (d1 := foldl (fun d del => release_resources del d) d purged) in *.
  assert (Hspecs : forall n, vm_instance_specs d1 !! n
             = if decide (is_Some (deleted_instances d !! n)) then None
               else vm_instance_specs d !! n).
  { intros n. rewrite H6.
    destruct (decide (n ∈ purged)) as [Hn|Hn].
    - rewrite decide_True by (now apply Hin). reflexivity.
    - rewrite decide_False by (now rewrite <- Hin). reflexivity. }
  split; [reflexivity|]. split; [apply NoDup_fst_map_to_list|]. split; [exact Hin|].
  split; [reflexivity|]. split; [exact H1|]. split; [exact H5|]. split; [exact Hspecs|].
  split; [reflexivity|].
  intros n Hn. cbn. rewrite obj_find_instance_records_json, Hspecs.
  rewrite decide_True by exact Hn. reflexivity.
Qed.

(** X11.  [purge], when the removal calls into the factory and the
    vault return: the reply lists each deleted instance once; afterwards
    the deleted table is empty, the operative table is as before, the
    specifications of the deleted instances are gone and the others are
    untouched, no MAC address has been added, and the instance database
    on disk is the one of that registry, so it has no record of a purged
    instance. *)
Theorem purge_spec (d : Daemon) :
  let d' := fst (fst (purge d)) in
  let purged := snd (fst (purge d)) in
  snd (purge d) = Status_OK /\
  NoDup purged /\
  (forall n, n ∈ purged <-> is_Some (deleted_instances d !! n)) /\
  deleted_instances d' = ∅ /\
  operative_instances d' = operative_instances d /\
  allocated_mac_addrs d' ⊆ allocated_mac_addrs d /\
  (forall n, vm_instance_specs d' !! n
             = if decide (is_Some (deleted_instances d !! n)) then None
               else vm_instance_specs d !! n) /\
  instance_db d' = instance_records_json (vm_instance_specs d') /\
  (forall n, is_Some (deleted_instances d !! n) -> obj_find (instance_db d') n = None).
Proof. apply purge_effects. Qed.

(** *** A command over a selection *)

(** X12.  [cmd_vms] over a selection in two parts runs the command on
    the first part and goes on to the second only if every status was OK:
    the first status that is not OK, or the first exception, is the
    result, and no later target is touched. *)
Theorem cmd_vms_app (tgts1 tgts2 : LinearInstanceSelection)
    (cmd : VirtualMachine -> Daemon -> Exc Status * Daemon) (d : Daemon) :
  cmd_vms (tgts1 ++ tgts2) cmd d
  = match cmd_vms tgts1 cmd d with
    | (Return st, d') => if ok st then cmd_vms tgts2 cmd d' else (Return st, d')
    | (Throw e, d') => (Throw e, d')
    end.
Proof.
  revert d. induction tgts1 as [|tgt rest IH]; intros d.
  - reflexivity.
  - cbn [app cmd_vms]. destruct (cmd (snd tgt) d) as [[st|e] d']; [|reflexivity].
    destruct (ok st) eqn:E; [apply IH|]. now rewrite E.
Qed.

Lemma obj_find_map_to_list {V} (m : gmap string V) j : obj_find (map_to_list m) j = m !! j.
Proof. now rewrite obj_find_list_to_map, list_to_map_to_list. Qed.

Lemma obj_find_None {V} (l : list (string * V)) j : j ∉ l.*1 -> obj_find l j = None.
Proof.
  intros H. rewrite obj_find_list_to_map. now apply not_elem_of_list_to_map_1.
Qed.

Lemma init_mount_fold run name (l : list (string * VMMount)) vm0 rem0 log0 :
  NoDup l.*1 ->
  let '(vm', rem', log') :=
    foldl (fun acc entry => init_mount run name entry acc) (vm0, rem0, log0) l in
  (forall t, vm' !! t = handler_after run name t (vm0 !! t) (obj_find l t)) /\
  (forall t, t ∈ rem' <->
     t ∈ rem0 \/ (is_Some (obj_find l t) /\
                  mount_after run name t (vm0 !! t) (obj_find l t) = None)).
Proof.
  revert vm0 rem0 log0. induction l as [|[k m] l IH]; intros vm0 rem0 log0 Hnd.
  - cbn. split.
    + intros t. unfold handler_after. now destruct (vm0 !! t).
    + intros t. split; [auto|]. intros [H|[[x H] _]]; [exact H|discriminate].
  - inversion Hnd as [|? ? Hk Hnd']; subst. cbn [foldl].
    assert (Hstep : exists vm1 rem1 log1,
               init_mount run name (k, m) (vm0, rem0, log0) = (vm1, rem1, log1) /\
               (forall t, vm1 !! t = if decide (t = k)
                                     then handler_after run name k (vm0 !! k) (Some m)
                                     else vm0 !! t) /\
               (forall t, t ∈ rem1 <->
                  t ∈ rem0 \/ (t = k /\ mount_after run name k (vm0 !! k) (Some m) = None))).
    { unfold init_mount, handler_after, mount_after.
      destruct (vm0 !! k) as [h|] eqn:Eh.
      - eexists _, _, _. split; [reflexivity|]. split.
        + intros t. destruct (decide (t = k)) as [->|]; [exact Eh|reflexivity].
        + intros t. split; [auto|]. intros [H|[_ H]]; [exact H|discriminate].
      - destruct (make_mount run name k m) as [h|e].
        + eexists _, _, _. split; [reflexivity|]. split.
          * intros t. destruct (decide (t = k)) as [->|Hne];
              [apply lookup_insert_eq|now apply lookup_insert_ne].
          * intros t. split; [auto|]. intros [H|[_ H]]; [exact H|discriminate].
        + eexists _, _, _. split; [reflexivity|]. split.
          * intros t. destruct (decide (t = k)) as [->|]; [exact Eh|reflexivity].
          * intros t. rewrite elem_of_app, list_elem_of_singleton. tauto. }
    destruct Hstep as (vm1 & rem1 & log1 & -> & Hvm1 & Hrem1).
    specialize (IH vm1 rem1 log1 Hnd').
    destruct (foldl _ (vm1, rem1, log1) l) as [[vm' rem'] log'].
    destruct IH as [IHvm IHrem]. split.
    + intros t. rewrite IHvm, Hvm1. cbn [obj_find].
      destruct (decide (t = k)) as [->|Hne].
      * rewrite String.eqb_refl. rewrite (obj_find_None l k Hk).
        unfold handler_after at 1.
        now destruct (handler_after run name k (vm0 !! k) (Some m)).
      * destruct (String.eqb_spec k t); [congruence|reflexivity].
    + intros t. rewrite IHrem, Hrem1, Hvm1. cbn [obj_find].
      destruct (decide (t = k)) as [->|Hne].
      * rewrite String.eqb_refl. rewrite (obj_find_None l k Hk). split.
        -- intros [[H|[_ H]]|[[x H] _]]; [auto|right; split; [eauto|exact H]|discriminate].
        -- intros [H|[_ H]]; [auto|]. left. right. auto.
      * destruct (String.eqb_spec k t); [congruence|]. split.
        -- intros [[H|[H _]]|H]; [auto|congruence|auto].
        -- intros [H|H]; [auto|auto].
Qed.

Lemma foldl_delete_lookup {V} (rem : list string) (m : gmap string V) t :
  foldl (fun m target => delete target m) m rem !! t
  = if decide (t ∈ rem) then None else m !! t.
Proof.
  revert m. induction rem as [|r rem IH]; intros m; [reflexivity|].
  cbn [foldl]. rewrite IH.
  destruct (decide (t ∈ rem)) as [Hin|Hin].
  - rewrite decide_True by (now right). reflexivity.
  - destruct (decide (t = r)) as [->|Hne].
    + rewrite decide_True by left. apply lookup_delete_eq.
    + rewrite lookup_delete_ne by congruence.
      rewrite decide_False; [reflexivity|].
      intros H. apply elem_of_cons in H. destruct H; congruence.
Qed.

Lemma foldl_emit_mounts log d :
  daemon_mounts (foldl (fun d e => emit e d) d log) = daemon_mounts d.
Proof. revert d. induction log as [|e log IH]; intros d; [reflexivity|]. cbn. now rewrite IH. Qed.

Lemma handlers_of_persist name d : handlers_of name (persist_instances d) = handlers_of name d.
Proof. reflexivity. Qed.

Lemma spec_mounts_of_persist name d :
  spec_mounts_of name (persist_instances d) = spec_mounts_of name d.
Proof. reflexivity. Qed.

(** X13.  After [init_mounts] on an operative instance, a target of the
    instance has the handler it had before or, if it had none and the
    specification mounts it, the handler [make_mount] built; a mount
    stays in the specification unless it had no handler and [make_mount]
    threw.  So every mount left in the specification has a handler. *)
Theorem init_mounts_spec (run : StartupRun) (name : string) (d : Daemon) :
  is_Some (operative_instances d !! name) ->
  let d' := init_mounts run name d in
  (forall target,
     handlers_of name d' !! target
     = handler_after run name target (handlers_of name d !! target)
         (spec_mounts_of name d !! target)) /\
  (forall target,
     spec_mounts_of name d' !! target
     = mount_after run name target (handlers_of name d !! target)
         (spec_mounts_of name d !! target)) /\
  (forall target,
     is_Some (spec_mounts_of name d' !! target) -> is_Some (handlers_of name d' !! target)).
Proof.
  intros _.
  intros d'.
  assert (Hboth :
    (forall target,
       handlers_of name d' !! target
       = handler_after run name target (handlers_of name d !! target)
           (spec_mounts_of name d !! target)) /\
    (forall target,
       spec_mounts_of name d' !! target
       = mount_after run name target (handlers_of name d !! target)
           (spec_mounts_of name d !! target))).
  { unfold d', init_mounts.
    assert (Hm : fst (mounts_subscript name d) = handlers_of name d /\
                 vm_instance_specs (snd (mounts_subscript name d)) = vm_instance_specs d).
    { unfold mounts_subscript, handlers_of. destruct (daemon_mounts d !! name); auto. }
    destruct (mounts_subscript name d) as [vm_mounts d1]. cbn [fst snd] in Hm.
    destruct Hm as [-> Hs1].
    assert (Hs : mounts (fst (specs_subscript name d1)) = spec_mounts_of name d /\
                 daemon_mounts (snd (specs_subscript name d1)) = daemon_mounts d1 /\
                 spec_mounts_of name (snd (specs_subscript name d1)) = spec_mounts_of name d /\
                 is_Some (vm_instance_specs (snd (specs_subscript name d1)) !! name)).
    { unfold specs_subscript, spec_mounts_of. rewrite Hs1.
      destruct (vm_instance_specs d !! name) as [spec|] eqn:E; cbn.
      - rewrite Hs1, E. cbn. eauto.
      - rewrite lookup_insert_eq. cbn. eauto. }
    destruct (specs_subscript name d1) as [spec d2]. cbn [fst snd] in Hs.
    destruct Hs as (Hmounts & Hdm & Hsm & [spec2 Hspec2]).
    pose proof (init_mount_fold run name (map_to_list (mounts spec)) (handlers_of name d)
                  [] [] (NoDup_fst_map_to_list _)) as Hfold.
    destruct (foldl _ (handlers_of name d, [], []) (map_to_list (mounts spec)))
      as [[vm_mounts' mounts_to_remove] log].
    destruct Hfold as [Hvm Hrem].
    set (d3 := with_mounts (<[name := vm_mounts']> (daemon_mounts d2)) d2).
    set (d4 := foldl (fun d e => emit e d) d3 log).
    assert (Hd4s : vm_instance_specs d4 = vm_instance_specs d2)
      by (unfold d4; now rewrite (proj1 (foldl_emit_fields log d3))).
    assert (Hd4m : daemon_mounts d4 = <[name := vm_mounts']> (daemon_mounts d2))
      by (unfold d4; now rewrite foldl_emit_mounts).
    set (d5 := with_specs _ d4).
    assert (Hh : handlers_of name d5 = vm_mounts').
    { unfold handlers_of, d5. cbn. rewrite Hd4m, lookup_insert_eq. reflexivity. }
    assert (Hsp : forall t, spec_mounts_of name d5 !! t
                = if decide (t ∈ mounts_to_remove) then None else spec_mounts_of name d !! t).
    { intros t. unfold spec_mounts_of at 1, d5. cbn [vm_instance_specs with_specs].
      rewrite Hd4s, lookup_alter_eq, Hspec2. cbn.
      rewrite foldl_delete_lookup.
      assert (mounts spec2 = spec_mounts_of name d) as ->; [|reflexivity].
      rewrite <- Hsm. unfold spec_mounts_of. now rewrite Hspec2. }
    assert (Hfinal : handlers_of name (if bool_decide (mounts_to_remove = []) then d5
                                       else persist_instances d5) = vm_mounts' /\
                     spec_mounts_of name (if bool_decide (mounts_to_remove = []) then d5
                                          else persist_instances d5)
                     = spec_mounts_of name d5).
    { destruct (bool_decide _); auto. }
    destruct Hfinal as [-> ->]. rewrite Hmounts in *. split.
    - intros t. rewrite Hvm, obj_find_map_to_list. reflexivity.
    - intros t. rewrite Hsp.
      destruct (decide (t ∈ mounts_to_remove)) as [Hin|Hin].
      + apply Hrem in Hin. destruct Hin as [Hin|[_ Hin]]; [now apply not_elem_of_nil in Hin|].
        rewrite obj_find_map_to_list in Hin. now rewrite Hin.
      + rewrite Hrem, obj_find_map_to_list in Hin.
        destruct (spec_mounts_of name d !! t) as [m|] eqn:Em.
        * unfold mount_after in *. destruct (handlers_of name d !! t); [reflexivity|].
          destruct (make_mount run name t m); [reflexivity|].
          exfalso. apply Hin. right. eauto.
        * unfold mount_after. reflexivity. }
  destruct Hboth as [Hh Hs]. split; [exact Hh|]. split; [exact Hs|].
  intros target. rewrite Hh, Hs. unfold handler_after, mount_after.
  destruct (spec_mounts_of name d !! target) as [m|];
    destruct (handlers_of name d !! target) as [h|]; cbn;
    try (destruct (make_mount run name target m)); intros [x Hx]; try discriminate; eauto.
Qed.

Lemma init_mounts_spec_witness :
  let d := with_mounts ∅ daemon_two_mounts in
  let d' := init_mounts picky_startup "x" d in
  (forall target,
     handlers_of "x" d' !! target
     = handler_after picky_startup "x" target (handlers_of "x" d !! target)
         (spec_mounts_of "x" d !! target)) /\
  (forall target,
     spec_mounts_of "x" d' !! target
     = mount_after picky_startup "x" target (handlers_of "x" d !! target)
         (spec_mounts_of "x" d !! target)) /\
  (forall target,
     is_Some (spec_mounts_of "x" d' !! target) -> is_Some (handlers_of "x" d' !! target)).
Proof.
  apply (init_mounts_spec picky_startup "x" (with_mounts ∅ daemon_two_mounts)).
  vm_compute. eauto.
Defined.

Example init_mounts_drops_failed_mount :
  let d' := init_mounts picky_startup "x" (with_mounts ∅ daemon_two_mounts) in
  dom (handlers_of "x" d') = {[ "/data" ]} /\ dom (spec_mounts_of "x" d') = {[ "/data" ]} /\
  dom (spec_mounts_of "x" daemon_two_mounts) = {[ "/data"; "/busy" ]}.
Proof. vm_compute. auto. Qed.

(** *** What a selection holds *)

Lemma partition_of_operative_elem op del l n vm :
  (n, vm) ∈ operative_selection (partition_of op del l) <-> n ∈ l /\ op !! n = Some vm.
Proof.
  cbn [partition_of operative_selection]. rewrite list_elem_of_omap. split.
  - intros (x & Hx & Hf). destruct (op !! x) as [vm'|] eqn:E; cbn in Hf; [|discriminate].
    inversion Hf; subst. auto.
  - intros [Hn Hvm]. exists n. split; [exact Hn|]. now rewrite Hvm.
Qed.

Lemma partition_of_deleted_elem op del l n vm :
  (n, vm) ∈ deleted_selection (partition_of op del l)
  <-> n ∈ l /\ op !! n = None /\ del !! n = Some vm.
Proof.
  cbn [partition_of deleted_selection]. rewrite list_elem_of_omap. split.
  - intros (x & Hx & Hf). destruct (op !! x) as [vm'|] eqn:E; [discriminate|].
    destruct (del !! x) as [vm'|] eqn:E'; cbn in Hf; [|discriminate].
    inversion Hf; subst. auto.
  - intros (Hn & Hop & Hvm). exists n. split; [exact Hn|]. now rewrite Hop, Hvm.
Qed.

Lemma select_instances_nil op del group :
  select_instances op del [] group
  = match group with
    | GroupNone => mkReport [] [] []
    | GroupOperative => mkReport (map_to_list op) [] []
    | GroupDeleted => mkReport [] (map_to_list del) []
    | GroupAll => mkReport (map_to_list op) (map_to_list del) []
    end.
Proof. destruct group; reflexivity. Qed.

Lemma select_instances_operative_elem op del names group n vm :
  group = GroupAll \/ group = GroupOperative \/ names <> [] ->
  (n, vm) ∈ operative_selection (select_instances op del names group)
  <-> requested names n = true /\ op !! n = Some vm.
Proof.
  intros Hg. unfold requested. destruct names as [|n0 names'].
  - cbn [orb bool_decide]. rewrite bool_decide_eq_true_2 by reflexivity. cbn [orb].
    rewrite select_instances_nil.
    destruct Hg as [->|[->|H]]; [| |congruence]; cbn [operative_selection];
      rewrite elem_of_map_to_list; tauto.
  - rewrite select_instances_named by discriminate.
    rewrite partition_of_operative_elem, first_occurrences_elem.
    rewrite (bool_decide_eq_false_2 (n0 :: names' = [])) by discriminate. cbn [orb].
    now rewrite bool_decide_eq_true.
Qed.

Lemma select_instances_deleted_elem op del names group n vm :
  group = GroupAll \/ group = GroupDeleted \/ names <> [] ->
  (forall x, is_Some (op !! x) -> del !! x = None) ->
  (n, vm) ∈ deleted_selection (select_instances op del names group)
  <-> requested names n = true /\ del !! n = Some vm.
Proof.
  intros Hg Hdisj. unfold requested. destruct names as [|n0 names'].
  - rewrite bool_decide_eq_true_2 by reflexivity. cbn [orb].
    rewrite select_instances_nil.
    destruct Hg as [->|[->|H]]; [| |congruence]; cbn [deleted_selection];
      rewrite elem_of_map_to_list; tauto.
  - rewrite select_instances_named by discriminate.
    rewrite partition_of_deleted_elem, first_occurrences_elem.
    rewrite (bool_decide_eq_false_2 (n0 :: names' = [])) by discriminate. cbn [orb].
    rewrite bool_decide_eq_true. split; [tauto|].
    intros [Hn Hvm]. split; [exact Hn|]. split; [|exact Hvm].
    destruct (op !! n) as [vm'|] eqn:E; [|reflexivity].
    rewrite (Hdisj n) in Hvm by eauto. discriminate.
Qed.

Lemma select_instances_NoDup op del names group :
  NoDup (operative_selection (select_instances op del names group)).*1 /\
  NoDup (deleted_selection (select_instances op del names group)).*1.
Proof.
  destruct names as [|n0 names'].
  - rewrite select_instances_nil.
    destruct group; cbn [operative_selection deleted_selection];
      split; try apply NoDup_nil_2; apply NoDup_fst_map_to_list.
  - rewrite select_instances_named by discriminate.
    destruct (partition_of_exactly_one op del (first_occurrences (n0 :: names'))
                (first_occurrences_NoDup _)) as [Hnd _].
    apply NoDup_app in Hnd. destruct Hnd as (H1 & _ & H2).
    apply NoDup_app in H2. destruct H2 as (H2 & _ & _). auto.
Qed.

Lemma select_instances_existing_ok op del names group reaction :
  status_code (operative_reaction reaction) = OK ->
  status_code (deleted_reaction reaction) = OK ->
  status_code (missing_reaction reaction) <> OK ->
  ok (snd (select_instances_and_react op del names group reaction)) = true
  <-> forall n, n ∈ names -> is_Some (op !! n) \/ is_Some (del !! n).
Proof.
  intros H1 H2 H3. unfold select_instances_and_react. cbn [snd].
  rewrite grpc_status_for_selection_ok.
  assert (C1 : forall c : LinearInstanceSelection,
             component_code c (operative_reaction reaction) = OK)
    by (intros []; [reflexivity|exact H1]).
  assert (C2 : forall c : LinearInstanceSelection,
             component_code c (deleted_reaction reaction) = OK)
    by (intros []; [reflexivity|exact H2]).
  rewrite (component_code_ok (missing_instances _) _ H3).
  destruct names as [|n0 names'].
  - rewrite select_instances_nil. split.
    + intros _ n Hn. now apply not_elem_of_nil in Hn.
    + intros _. split; [apply C1|]. split; [apply C2|].
      destruct group; reflexivity.
  - rewrite select_instances_named by discriminate.
    rewrite partition_of_missing_nil. split.
    + intros (_ & _ & H) n Hn. apply H. now apply first_occurrences_elem.
    + intros H. split; [apply C1|]. split; [apply C2|].
      intros n Hn. apply H. now rewrite first_occurrences_elem in Hn.
Qed.

Lemma tables_agree_disjoint d n :
  tables_agree d -> is_Some (operative_instances d !! n) -> deleted_instances d !! n = None.
Proof.
  intros [Hop Hdel] Hn. destruct (deleted_instances d !! n) as [vm|] eqn:E; [|reflexivity].
  destruct (Hop n Hn) as (s1 & E1 & F1). destruct (Hdel n) as (s2 & E2 & F2); [eauto|].
  congruence.
Qed.

Lemma macs_of_specs_update specs n s s' :
  specs !! n = Some s -> mac_set_from s' = mac_set_from s ->
  macs_of_specs (<[n := s']> specs) = macs_of_specs specs.
Proof.
  intros Hn Hm. apply set_eq. intros mac. rewrite !elem_of_macs_of_specs. split.
  - intros (k & x & Hk & Hx). destruct (decide (k = n)) as [->|Hne].
    + rewrite lookup_insert_eq in Hk. inversion Hk; subst. exists n, s. now rewrite <- Hm.
    + rewrite lookup_insert_ne in Hk by congruence. eauto.
  - intros (k & x & Hk & Hx). destruct (decide (k = n)) as [->|Hne].
    + exists n, s'. rewrite lookup_insert_eq. split; [reflexivity|]. rewrite Hm. congruence.
    + exists k, x. now rewrite lookup_insert_ne by congruence.
Qed.

Lemma macs_disjoint_update specs n s s' :
  specs !! n = Some s -> mac_set_from s' = mac_set_from s ->
  macs_disjoint specs -> macs_disjoint (<[n := s']> specs).
Proof.
  intros Hn Hm Hdis n1 n2 s1 s2 Hne H1 H2.
  destruct (decide (n1 = n)) as [->|N1]; destruct (decide (n2 = n)) as [->|N2];
    try congruence.
  - rewrite lookup_insert_eq in H1. rewrite lookup_insert_ne in H2 by congruence.
    inversion H1; subst. rewrite Hm. exact (Hdis n n2 s s2 Hne Hn H2).
  - rewrite lookup_insert_eq in H2. rewrite lookup_insert_ne in H1 by congruence.
    inversion H2; subst. rewrite Hm. exact (Hdis n1 n s1 s Hne H1 Hn).
  - rewrite lookup_insert_ne in H1, H2 by congruence. exact (Hdis n1 n2 s1 s2 Hne H1 H2).
Qed.

(** What one pass of the first loop of [delet] does to the members of
    the daemon. *)
Lemma delete_operative_effects shutdown purge vm_it purged d :
  let name := fst vm_it in
  let r := delete_operative shutdown purge vm_it purged d in
  daemon_mounts (snd r) = <[name := ∅]> (daemon_mounts d) /\
  trace (snd r) = trace d /\ instance_db (snd r) = instance_db d /\
  delayed_shutdown_instances (snd r)
  = (if decide (current_state (snd vm_it) = delayed_shutdown)
     then delayed_shutdown_instances d ∖ {[ name ]} else delayed_shutdown_instances d) /\
  match shutdown (snd vm_it) with
  | Throw e =>
      fst r = Throw e /\
      vm_instance_specs (snd r) = vm_instance_specs d /\
      allocated_mac_addrs (snd r) = allocated_mac_addrs d /\
      operative_instances (snd r) = operative_instances d /\
      deleted_instances (snd r) = deleted_instances d
  | Return instance =>
      operative_instances (snd r) = delete name (operative_instances d) /\
      if purge then
        fst r = Return (purged ++ [name]) /\
        vm_instance_specs (snd r) = vm_instance_specs (release_resources name d) /\
        allocated_mac_addrs (snd r) = allocated_mac_addrs (release_resources name d) /\
        deleted_instances (snd r) = deleted_instances d
      else
        fst r = Return purged /\
        vm_instance_specs (snd r)
        = <[name := with_spec_deleted true (default default_VMSpecs
                                              (vm_instance_specs d !! name))]>
            (vm_instance_specs d) /\
        allocated_mac_addrs (snd r) = allocated_mac_addrs d /\
        deleted_instances (snd r) = <[name := instance]> (deleted_instances d)
  end.
Proof.
  intros name r. unfold r, delete_operative. fold name.
  destruct (shutdown (snd vm_it)) as [instance|e].
  - destruct purge.
    + unfold release_resources.
      destruct (decide (current_state (snd vm_it) = delayed_shutdown));
        cbn; destruct (vm_instance_specs d !! name); cbn; auto 10.
    + unfold specs_subscript.
      destruct (decide (current_state (snd vm_it) = delayed_shutdown));
        cbn; destruct (vm_instance_specs d !! name); cbn;
        rewrite ?insert_insert_eq; auto 10.
  - destruct (decide (current_state (snd vm_it) = delayed_shutdown)); cbn; auto 10.
Qed.

Lemma release_resources_agree name d :
  tables_agree d ->
  operative_instances d !! name = None -> deleted_instances d !! name = None ->
  tables_agree (release_resources name d).
Proof.
  intros [Hop Hdel] H1 H2. destruct (release_resources_tables name d) as [T1 T2].
  split; intros n Hn.
  - rewrite T1 in Hn. destruct (Hop n Hn) as (spec & Hs & Hf). exists spec.
    split; [|exact Hf]. rewrite release_resources_specs.
    rewrite decide_False; [exact Hs|]. intros ->. rewrite H1 in Hn. now destruct Hn.
  - rewrite T2 in Hn. destruct (Hdel n Hn) as (spec & Hs & Hf). exists spec.
    split; [|exact Hf]. rewrite release_resources_specs.
    rewrite decide_False; [exact Hs|]. intros ->. rewrite H2 in Hn. now destruct Hn.
Qed.

Lemma well_formed_fields d d' :
  vm_instance_specs d' = vm_instance_specs d ->
  allocated_mac_addrs d' = allocated_mac_addrs d ->
  operative_instances d' = operative_instances d ->
  deleted_instances d' = deleted_instances d ->
  well_formed d -> well_formed d'.
Proof.
  intros H1 H2 H3 H4 [Hc Ha]. split; [now apply (consistent_fields d d')|].
  unfold tables_agree. rewrite H1, H3, H4. exact Ha.
Qed.

(** Taking an instance out of its table and releasing its resources. *)
Lemma well_formed_released name d d' :
  well_formed d ->
  vm_instance_specs d' = vm_instance_specs (release_resources name d) ->
  allocated_mac_addrs d' = allocated_mac_addrs (release_resources name d) ->
  (operative_instances d' = delete name (operative_instances d) /\
   deleted_instances d' = deleted_instances d /\
   is_Some (operative_instances d !! name))
  \/ (operative_instances d' = operative_instances d /\
      deleted_instances d' = delete name (deleted_instances d) /\
      is_Some (deleted_instances d !! name)) ->
  well_formed d'.
Proof.
  intros [Hc Ha] Hs Hm Ht.
  pose proof (release_resources_consistent name d Hc) as (R1 & R2 & R3).
  destruct (release_resources_tables name d) as [T1 T2].
  assert (Hdisj : forall n, is_Some (operative_instances d !! n) ->
                            deleted_instances d !! n = None)
    by (intros n; now apply tables_agree_disjoint).
  assert (Htab : forall n, n <> name ->
            operative_instances d' !! n = operative_instances d !! n /\
            deleted_instances d' !! n = deleted_instances d !! n).
  { intros n Hne. destruct Ht as [(-> & -> & _)|(-> & -> & _)];
      now rewrite lookup_delete_ne by congruence. }
  assert (Hgone : operative_instances d' !! name = None /\
                  deleted_instances d' !! name = None).
  { destruct Ht as [(-> & -> & Hin)|(-> & -> & Hin)]; rewrite lookup_delete_eq.
    - split; [reflexivity|]. now apply Hdisj.
    - split; [|reflexivity].
      destruct (operative_instances d !! name) as [vm|] eqn:E; [|reflexivity].
      rewrite Hdisj in Hin by eauto. now destruct Hin. }
  split.
  - split; [|split].
    + now rewrite Hm, Hs.
    + now rewrite Hs.
    + intros n Hn. rewrite Hs in Hn.
      assert (Hne : n <> name).
      { intros ->. rewrite release_resources_specs, decide_True in Hn by reflexivity.
        now destruct Hn. }
      destruct (Htab n Hne) as [-> ->]. rewrite <- T1, <- T2. now apply R3.
  - destruct Ha as [Hop Hdel]. split; intros n Hn.
    + assert (Hne : n <> name).
      { intros ->. rewrite (proj1 Hgone) in Hn. now destruct Hn. }
      rewrite (proj1 (Htab n Hne)) in Hn. destruct (Hop n Hn) as (spec & E & F).
      exists spec. split; [|exact F].
      rewrite Hs, release_resources_specs. now rewrite decide_False by congruence.
    + assert (Hne : n <> name).
      { intros ->. rewrite (proj2 Hgone) in Hn. now destruct Hn. }
      rewrite (proj2 (Htab n Hne)) in Hn. destruct (Hdel n Hn) as (spec & E & F).
      exists spec. split; [|exact F].
      rewrite Hs, release_resources_specs. now rewrite decide_False by congruence.
Qed.

(** Moving an instance to the other table and flagging its
    specification. *)
Lemma well_formed_moved name (flag : bool) vm d d' :
  well_formed d ->
  (if flag then is_Some (operative_instances d !! name)
   else is_Some (deleted_instances d !! name)) ->
  vm_instance_specs d'
  = <[name := with_spec_deleted flag (default default_VMSpecs (vm_instance_specs d !! name))]>
      (vm_instance_specs d) ->
  allocated_mac_addrs d' = allocated_mac_addrs d ->
  operative_instances d'
  = (if flag then delete name (operative_instances d)
     else <[name := vm]> (operative_instances d)) ->
  deleted_instances d'
  = (if flag then <[name := vm]> (deleted_instances d)
     else delete name (deleted_instances d)) ->
  well_formed d'.
Proof.
  intros [(C1 & C2 & C3) [Hop Hdel]] Hin Hs Hm Ho Hd.
  assert (Hspec : exists spec, vm_instance_specs d !! name = Some spec).
  { destruct flag; [destruct (Hop name Hin) as (s & E & _)|
                    destruct (Hdel name Hin) as (s & E & _)]; eauto. }
  destruct Hspec as [spec Hspec]. rewrite Hspec in Hs.
  change (default default_VMSpecs (Some spec)) with spec in Hs.
  assert (Hmac : mac_set_from (with_spec_deleted flag spec) = mac_set_from spec)
    by reflexivity.
  split.
  - split; [|split].
    + rewrite Hm, Hs. rewrite (macs_of_specs_update _ _ _ _ Hspec Hmac). exact C1.
    + rewrite Hs. now apply (macs_disjoint_update _ _ spec).
    + intros n Hn. rewrite Ho, Hd. destruct (decide (n = name)) as [->|Hne].
      * destruct flag; [right|left]; rewrite lookup_insert_eq; eauto.
      * rewrite Hs, lookup_insert_ne in Hn by congruence.
        destruct flag; rewrite lookup_insert_ne, lookup_delete_ne by congruence;
          destruct (C3 n Hn); auto.
  - split; intros n Hn; rewrite Hs.
    + rewrite Ho in Hn. destruct (decide (n = name)) as [->|Hne].
      * destruct flag; [rewrite lookup_delete_eq in Hn; now destruct Hn|].
        rewrite lookup_insert_eq. eauto.
      * rewrite lookup_insert_ne by congruence. apply Hop.
        destruct flag; [rewrite lookup_delete_ne in Hn by congruence|
                        rewrite lookup_insert_ne in Hn by congruence]; exact Hn.
    + rewrite Hd in Hn. destruct (decide (n = name)) as [->|Hne].
      * destruct flag; [|rewrite lookup_delete_eq in Hn; now destruct Hn].
        rewrite lookup_insert_eq. eauto.
      * rewrite lookup_insert_ne by congruence. apply Hdel.
        destruct flag; [rewrite lookup_insert_ne in Hn by congruence|
                        rewrite lookup_delete_ne in Hn by congruence]; exact Hn.
Qed.

Lemma well_formed_spec_update name spec spec' d d' :
  well_formed d ->
  vm_instance_specs d !! name = Some spec ->
  mac_set_from spec' = mac_set_from spec -> deleted spec' = deleted spec ->
  vm_instance_specs d' = <[name := spec']> (vm_instance_specs d) ->
  allocated_mac_addrs d' = allocated_mac_addrs d ->
  operative_instances d' = operative_instances d ->
  deleted_instances d' = deleted_instances d ->
  well_formed d'.
Proof.
  intros [(C1 & C2 & C3) [Hop Hdel]] Hspec Hmac Hflag Hs Hm Ho Hd. split.
  - split; [|split].
    + rewrite Hm, Hs, (macs_of_specs_update _ _ _ _ Hspec Hmac). exact C1.
    + rewrite Hs. now apply (macs_disjoint_update _ _ spec).
    + intros n Hn. rewrite Ho, Hd. apply C3. rewrite Hs in Hn.
      destruct (decide (n = name)) as [->|Hne]; [eauto|].
      now rewrite lookup_insert_ne in Hn by congruence.
  - split; intros n Hn; rewrite Hs.
    + rewrite Ho in Hn. destruct (Hop n Hn) as (s & E & F).
      destruct (decide (n = name)) as [->|Hne].
      * rewrite lookup_insert_eq. exists spec'. split; [reflexivity|]. congruence.
      * rewrite lookup_insert_ne by congruence. eauto.
    + rewrite Hd in Hn. destruct (Hdel n Hn) as (s & E & F).
      destruct (decide (n = name)) as [->|Hne].
      * rewrite lookup_insert_eq. exists spec'. split; [reflexivity|]. congruence.
      * rewrite lookup_insert_ne by congruence. eauto.
Qed.

Lemma foldl_emit_delayed log d :
  delayed_shutdown_instances (foldl (fun d e => emit e d) d log)
  = delayed_shutdown_instances d.
Proof. revert d. induction log as [|e log IH]; intros d; [reflexivity|]. cbn. now rewrite IH. Qed.

Lemma init_mounts_only_mounts run name d spec :
  vm_instance_specs d !! name = Some spec ->
  exists spec_mounts,
    vm_instance_specs (init_mounts run name d)
    = <[name := with_spec_mounts spec_mounts spec]> (vm_instance_specs d) /\
    allocated_mac_addrs (init_mounts run name d) = allocated_mac_addrs d /\
    operative_instances (init_mounts run name d) = operative_instances d /\
    deleted_instances (init_mounts run name d) = deleted_instances d /\
    delayed_shutdown_instances (init_mounts run name d) = delayed_shutdown_instances d.
Proof.
  intros Hs. unfold init_mounts.
  assert (Hm : vm_instance_specs (snd (mounts_subscript name d)) = vm_instance_specs d /\
               allocated_mac_addrs (snd (mounts_subscript name d)) = allocated_mac_addrs d /\
               operative_instances (snd (mounts_subscript name d)) = operative_instances d /\
               deleted_instances (snd (mounts_subscript name d)) = deleted_instances d /\
               delayed_shutdown_instances (snd (mounts_subscript name d))
               = delayed_shutdown_instances d).
  { unfold mounts_subscript. destruct (daemon_mounts d !! name); auto 10. }
  destruct (mounts_subscript name d) as [vm_mounts d1]. cbn [snd] in Hm.
  destruct Hm as (Hs1 & Ha1 & Ho1 & Hd1 & Hl1).
  unfold specs_subscript. rewrite Hs1, Hs.
  destruct (foldl _ _ _) as [[vm_mounts' mounts_to_remove] log].
  set (d3 := with_mounts _ d1).
  destruct (foldl_emit_fields log d3) as (Hs4 & Ha4 & Ho4 & Hd4).
  pose proof (foldl_emit_delayed log d3) as Hl4.
  set (d4 := foldl _ d3 log) in *.
  exists (foldl (fun m target => delete target m) (mounts spec) mounts_to_remove).
  assert (Hs4' : vm_instance_specs d4 = vm_instance_specs d) by (now rewrite Hs4).
  destruct (bool_decide (mounts_to_remove = []));
    cbn [vm_instance_specs allocated_mac_addrs operative_instances deleted_instances
         delayed_shutdown_instances persist_instances with_db with_specs];
    rewrite Hs4', Ha4, Ho4, Hd4, Hl4, (alter_lookup_insert _ _ _ _ Hs); auto 10.
Qed.

Lemma delete_operatives_well_formed shutdown purge sel purged d :
  well_formed d -> NoDup sel.*1 ->
  (forall it, it ∈ sel -> is_Some (operative_instances d !! fst it)) ->
  let r := delete_operatives shutdown purge sel purged d in
  well_formed (snd r) /\
  (purge = true -> deleted_instances (snd r) = deleted_instances d).
Proof.
  revert purged d. induction sel as [|vm_it rest IH]; intros purged d Hwf Hnd Hin.
  - cbn. auto.
  - inversion Hnd as [|? ? Hfresh Hnd']; subst. cbn [delete_operatives].
    pose proof (delete_operative_effects shutdown purge vm_it purged d) as He.
    cbn zeta in He. destruct He as (_ & _ & _ & _ & He).
    assert (Hhere : is_Some (operative_instances d !! fst vm_it)) by (apply Hin; left).
    destruct (delete_operative shutdown purge vm_it purged d) as [r d'].
    cbn [fst snd] in He.
    destruct (shutdown (snd vm_it)) as [instance|e].
    + destruct He as [Ho He].
      assert (Hrest : forall it, it ∈ rest -> is_Some (operative_instances d' !! fst it)).
      { intros it Hit. rewrite Ho. rewrite lookup_delete_ne.
        - apply Hin. now right.
        - intros E. apply Hfresh. rewrite E. apply list_elem_of_fmap. now exists it. }
      destruct purge.
      * destruct He as (-> & Hs & Hm & Hd).
        assert (Hwf' : well_formed d').
        { apply (well_formed_released (fst vm_it) d d' Hwf Hs Hm). left. auto. }
        destruct (IH (purged ++ [fst vm_it]) d' Hwf' Hnd' Hrest) as [H1 H2].
        split; [exact H1|]. intros _. rewrite (H2 eq_refl). exact Hd.
      * destruct He as (-> & Hs & Hm & Hd).
        assert (Hwf' : well_formed d').
        { apply (well_formed_moved (fst vm_it) true instance d d' Hwf Hhere Hs Hm Ho Hd). }
        destruct (IH purged d' Hwf' Hnd' Hrest) as [H1 H2].
        split; [exact H1|]. intros H. discriminate.
    + destruct He as (-> & Hs & Hm & Ho & Hd). cbn [snd]. split.
      * now apply (well_formed_fields d d').
      * intros _. exact Hd.
Qed.

Lemma purge_deleted_well_formed sel purged d :
  well_formed d -> NoDup sel.*1 ->
  (forall it, it ∈ sel -> is_Some (deleted_instances d !! fst it)) ->
  well_formed (snd (foldl (fun acc vm_it => purge_deleted vm_it acc) (purged, d) sel)).
Proof.
  revert purged d. induction sel as [|vm_it rest IH]; intros purged d Hwf Hnd Hin.
  - exact Hwf.
  - inversion Hnd as [|? ? Hfresh Hnd']; subst. cbn [foldl].
    unfold purge_deleted at 2. cbn [fst snd].
    destruct (release_resources_tables (fst vm_it) d) as [T1 T2].
    apply IH; [|exact Hnd'|].
    + apply (well_formed_released (fst vm_it) d _ Hwf); [reflexivity|reflexivity|].
      right. cbn. rewrite T1, T2. split; [reflexivity|]. split; [reflexivity|].
      apply Hin. left.
    + intros it Hit. cbn. rewrite T2, lookup_delete_ne.
      * apply Hin. now right.
      * intros E. apply Hfresh. rewrite E. apply list_elem_of_fmap. now exists it.
Qed.

Lemma delet_keeps_well_formed (shutdown : VirtualMachine -> Exc VirtualMachine)
    (instances_snapshots : list (string * string)) (purge : bool) (d : Daemon) :
  well_formed d -> well_formed (snd (delet shutdown instances_snapshots purge d)).
Proof.
  intros Hwf. unfold delet, select_instances_and_react.
  set (sel := select_instances (operative_instances d) (deleted_instances d)
                (fst <$> instances_snapshots) GroupAll).
  destruct (ok (grpc_status_for_selection sel require_existing_instances_reaction));
    [|exact Hwf].
  destruct (select_instances_NoDup (operative_instances d) (deleted_instances d)
              (fst <$> instances_snapshots) GroupAll) as [Hnd1 Hnd2].
  fold sel in Hnd1, Hnd2.
  assert (Hin1 : forall it, it ∈ operative_selection sel ->
                            is_Some (operative_instances d !! fst it)).
  { intros [n vm] Hit. apply select_instances_operative_elem in Hit; [|auto].
    cbn. destruct Hit as [_ ->]. eauto. }
  assert (Hin2 : forall it, it ∈ deleted_selection sel ->
                            is_Some (deleted_instances d !! fst it)).
  { intros [n vm] Hit. apply select_instances_deleted_elem in Hit; [|auto|].
    - cbn. destruct Hit as [_ ->]. eauto.
    - intros x. apply tables_agree_disjoint. exact (proj2 Hwf). }
  destruct (delete_operatives_well_formed shutdown purge (operative_selection sel) [] d
              Hwf Hnd1 Hin1) as [Hwf1 Hdel1].
  destruct (delete_operatives shutdown purge (operative_selection sel) [] d)
    as [[purged|e] d1]; cbn [snd] in *; [|exact Hwf1].
  destruct purge.
  - pose proof (purge_deleted_well_formed (deleted_selection sel) purged d1 Hwf1 Hnd2) as H.
    rewrite (Hdel1 eq_refl) in H. specialize (H Hin2).
    destruct (foldl _ (purged, d1) (deleted_selection sel)) as [purged' d2].
    cbn [snd] in *. now apply (well_formed_fields d2).
  - cbn [snd]. now apply (well_formed_fields d1).
Qed.

Lemma recover_deleted_effects run vm_it d spec :
  vm_instance_specs d !! fst vm_it = Some spec ->
  exists spec_mounts,
    vm_instance_specs (recover_deleted run vm_it d)
    = <[fst vm_it := with_spec_mounts spec_mounts (with_spec_deleted false spec)]>
        (vm_instance_specs d) /\
    allocated_mac_addrs (recover_deleted run vm_it d) = allocated_mac_addrs d /\
    operative_instances (recover_deleted run vm_it d)
    = <[fst vm_it := snd vm_it]> (operative_instances d) /\
    deleted_instances (recover_deleted run vm_it d)
    = delete (fst vm_it) (deleted_instances d) /\
    delayed_shutdown_instances (recover_deleted run vm_it d) = delayed_shutdown_instances d.
Proof.
  intros Hs. unfold recover_deleted, specs_subscript. rewrite Hs.
  set (d4 := with_deleted _ _).
  assert (Hs4 : vm_instance_specs d4 !! fst vm_it = Some (with_spec_deleted false spec))
    by (unfold d4; cbn; apply lookup_insert_eq).
  destruct (init_mounts_only_mounts run (fst vm_it) d4 _ Hs4) as (M & H1 & H2 & H3 & H4 & H5).
  exists M. rewrite H1, H2, H3, H4, H5. unfold d4. cbn.
  rewrite insert_insert_eq. auto.
Qed.

Lemma recover_deleted_well_formed run vm_it d :
  well_formed d -> is_Some (deleted_instances d !! fst vm_it) ->
  well_formed (recover_deleted run vm_it d).
Proof.
  intros Hwf Hin.
  destruct (proj2 (proj2 Hwf) _ Hin) as (spec & Hs & Hflag).
  destruct (recover_deleted_effects run vm_it d spec Hs) as (M & H1 & H2 & H3 & H4 & _).
  set (d4 := with_deleted (delete (fst vm_it) (deleted_instances d))
               (with_operative (<[fst vm_it := snd vm_it]> (operative_instances d))
                  (with_specs (<[fst vm_it := with_spec_deleted false spec]>
                                 (vm_instance_specs d)) d))).
  assert (Hwf4 : well_formed d4).
  { apply (well_formed_moved (fst vm_it) false (snd vm_it) d d4 Hwf Hin); try reflexivity.
    cbn. now rewrite Hs. }
  apply (well_formed_spec_update (fst vm_it) (with_spec_deleted false spec)
           (with_spec_mounts M (with_spec_deleted false spec)) d4 _ Hwf4);
    try reflexivity; try assumption.
  - cbn. apply lookup_insert_eq.
  - rewrite H1. cbn. now rewrite insert_insert_eq.
Qed.

Lemma recover_loop_well_formed run sel d :
  well_formed d -> NoDup sel.*1 ->
  (forall it, it ∈ sel -> is_Some (deleted_instances d !! fst it)) ->
  well_formed (foldl (fun d vm_it => recover_deleted run vm_it d) d sel).
Proof.
  revert d. induction sel as [|vm_it rest IH]; intros d Hwf Hnd Hin; [exact Hwf|].
  inversion Hnd as [|? ? Hfresh Hnd']; subst. cbn [foldl].
  assert (Hhere : is_Some (deleted_instances d !! fst vm_it)) by (apply Hin; left).
  apply IH; [now apply recover_deleted_well_formed|exact Hnd'|].
  intros it Hit.
  destruct (proj2 (proj2 Hwf) _ Hhere) as (spec & Hs & _).
  destruct (recover_deleted_effects run vm_it d spec Hs) as (M & _ & _ & _ & -> & _).
  rewrite lookup_delete_ne.
  - apply Hin. now right.
  - intros E. apply Hfresh. rewrite E. apply list_elem_of_fmap. now exists it.
Qed.

Lemma recover_keeps_well_formed (run : StartupRun) (instance_names : list string)
    (d : Daemon) :
  well_formed d -> well_formed (snd (recover run instance_names d)).
Proof.
  intros Hwf. unfold recover, select_instances_and_react.
  set (sel := select_instances (operative_instances d) (deleted_instances d)
                instance_names GroupDeleted).
  destruct (ok (grpc_status_for_selection sel recover_reaction)); [|exact Hwf].
  cbn [snd].
  apply (well_formed_fields
           (foldl (fun d vm_it => recover_deleted run vm_it d) d (deleted_selection sel)));
    try reflexivity.
  apply recover_loop_well_formed; [exact Hwf| |].
  - apply select_instances_NoDup.
  - intros [n vm] Hit. apply select_instances_deleted_elem in Hit; [|auto|].
    + cbn. destruct Hit as [_ ->]. eauto.
    + intros x. apply tables_agree_disjoint. exact (proj2 Hwf).
Qed.

Lemma daemon_two_mounts_well_formed : well_formed daemon_two_mounts.
Proof.
  assert (Hx : forall n spec, vm_instance_specs daemon_two_mounts !! n = Some spec -> n = "x").
  { intros n spec H. destruct (decide (n = "x")) as [->|Hne]; [reflexivity|].
    cbn in H. rewrite lookup_singleton_ne in H by congruence. discriminate. }
  split; [split; [|split]|split].
  - vm_compute. reflexivity.
  - intros n1 n2 s1 s2 Hne H1 H2. apply Hx in H1, H2. congruence.
  - intros n [spec H]. apply Hx in H. subst n. left. cbn. rewrite lookup_singleton_eq. eauto.
  - intros n [vm H]. destruct (decide (n = "x")) as [->|Hne].
    + eexists. split; [apply lookup_singleton_eq|reflexivity].
    + cbn in H. rewrite lookup_singleton_ne in H by congruence. discriminate.
  - intros n [vm H]. cbn in H. discriminate.
Qed.

(** X14.  [delet] keeps the daemon well formed, with or without
    [purge], whatever the hypervisor does at shutdown: the allocated MAC
    addresses stay those of the registered specifications, no address is
    shared by two specifications, every instance of a table has a
    specification, and a specification is flagged deleted exactly when
    its instance is in the deleted table. *)
Theorem delet_well_formed (shutdown : VirtualMachine -> Exc VirtualMachine)
    (instances_snapshots : list (string * string)) (purge : bool) (d : Daemon) :
  well_formed d -> well_formed (snd (delet shutdown instances_snapshots purge d)).
Proof. apply delet_keeps_well_formed. Qed.

Lemma delet_well_formed_witness :
  well_formed (snd (delet (fun vm => Return vm) [("x", "")] false daemon_two_mounts)).
Proof.
  apply (delet_well_formed (fun vm => Return vm) [("x", "")] false daemon_two_mounts).
  exact daemon_two_mounts_well_formed.
Defined.

(** X15.  [recover] keeps the daemon well formed: in particular the
    specification of a recovered instance is flagged operative again and
    the instance is in the operative table only. *)
Theorem recover_well_formed (run : StartupRun) (instance_names : list string) (d : Daemon) :
  well_formed d -> well_formed (snd (recover run instance_names d)).
Proof. apply recover_keeps_well_formed. Qed.

Lemma recover_well_formed_witness :
  well_formed
    (snd (recover accepting_startup ["x"]
            (snd (delet (fun vm => Return vm) [("x", "")] false daemon_two_mounts)))).
Proof.
  apply (recover_well_formed accepting_startup ["x"]).
  apply delet_keeps_well_formed. exact daemon_two_mounts_well_formed.
Defined.

Lemma delete_operatives_lookup shutdown purge sel purged d :
  NoDup sel.*1 ->
  (forall it, it ∈ sel -> exists instance, shutdown (snd it) = Return instance) ->
  let r := delete_operatives shutdown purge sel purged d in
  fst r = Return (if purge then purged ++ sel.*1 else purged) /\
  instance_db (snd r) = instance_db d /\
  allocated_mac_addrs (snd r) ⊆ allocated_mac_addrs d /\
  (purge = false -> allocated_mac_addrs (snd r) = allocated_mac_addrs d) /\
  forall n,
    operative_instances (snd r) !! n
    = (if decide (n ∈ sel.*1) then None else operative_instances d !! n) /\
    deleted_instances (snd r) !! n
    = (if purge then deleted_instances d !! n
       else match obj_find sel n with
            | Some vm => Some (shut_down shutdown vm)
            | None => deleted_instances d !! n
            end) /\
    vm_instance_specs (snd r) !! n
    = (if decide (n ∈ sel.*1) then
         if purge then None
         else Some (with_spec_deleted true (default default_VMSpecs
                                              (vm_instance_specs d !! n)))
       else vm_instance_specs d !! n) /\
    daemon_mounts (snd r) !! n
    = (if decide (n ∈ sel.*1) then Some ∅ else daemon_mounts d !! n).
Proof.
  revert purged d. induction sel as [|[name vm] rest IH]; intros purged d Hnd Hshut.
  - cbn -[decide]. rewrite app_nil_r. split; [now destruct purge|].
    split; [reflexivity|]. split; [reflexivity|]. split; [reflexivity|].
    intros n. rewrite decide_False by apply not_elem_of_nil. now destruct purge.
  - inversion Hnd as [|? ? Hfresh Hnd']; subst. cbn [delete_operatives].
    pose proof (delete_operative_effects shutdown purge (name, vm) purged d) as He.
    cbn zeta in He. destruct He as (Hmo & _ & Hdb & _ & He).
    destruct (Hshut (name, vm)) as [instance Hinst]; [left|].
    cbn [fst snd] in *. rewrite Hinst in He.
    destruct (delete_operative shutdown purge (name, vm) purged d) as [r1 d1].
    cbn [fst snd] in *. destruct He as [Ho He].
    assert (Hshut' : forall it, it ∈ rest -> exists i, shutdown (snd it) = Return i)
      by (intros it Hit; apply Hshut; now right).
    assert (Hr1 : r1 = Return (if purge then purged ++ [name] else purged))
      by (destruct purge; tauto).
    subst r1.
    specialize (IH (if purge then purged ++ [name] else purged) d1 Hnd' Hshut').
    cbn zeta in IH. destruct IH as (I1 & I2 & I3 & I4 & I5).
    split; [|split; [|split; [|split]]].
    + rewrite I1. destruct purge; [|reflexivity].
      cbn [fmap list_fmap]. now rewrite <- app_assoc.
    + now rewrite I2.
    + etransitivity; [exact I3|]. destruct purge.
      * destruct He as (_ & _ & -> & _). unfold release_resources.
        destruct (vm_instance_specs d !! name); cbn; set_solver.
      * destruct He as (_ & _ & -> & _). reflexivity.
    + intros ->. rewrite (I4 eq_refl). tauto.
    + intros n. destruct (I5 n) as (J1 & J2 & J3 & J4).
      rewrite J1, J2, J3, J4. clear J1 J2 J3 J4.
      change (((name, vm) :: rest).*1) with (name :: rest.*1).
      cbn [obj_find]. rewrite Ho, Hmo.
      destruct (decide (n = name)) as [->|Hne].
      * rewrite String.eqb_refl. rewrite (obj_find_None rest name Hfresh).
        destruct (decide (name ∈ rest.*1)) as [Hin|_]; [contradiction|].
        destruct (decide (name ∈ name :: rest.*1)) as [_|Hout];
          [|exfalso; apply Hout; left].
        rewrite !lookup_delete_eq, lookup_insert_eq.
        destruct purge.
        -- destruct He as (_ & -> & _ & ->).
           rewrite release_resources_specs.
           rewrite (decide_True (P := name = name)) by reflexivity. auto.
        -- destruct He as (_ & -> & _ & ->). rewrite !lookup_insert_eq.
           unfold shut_down. rewrite Hinst. auto.
      * destruct (String.eqb_spec name n) as [E|_]; [congruence|].
        rewrite lookup_delete_ne, lookup_insert_ne by congruence.
        assert (Hiff : n ∈ name :: rest.*1 <-> n ∈ rest.*1).
        { rewrite elem_of_cons. tauto. }
        destruct (decide (n ∈ rest.*1)) as [Hin|Hin];
          destruct (decide (n ∈ name :: rest.*1)) as [Hall|Hall]; try tauto.
        -- destruct purge.
           ++ destruct He as (_ & _ & _ & ->). auto.
           ++ destruct He as (_ & -> & _ & ->).
              rewrite !lookup_insert_ne by congruence. auto.
        -- destruct purge.
           ++ destruct He as (_ & -> & _ & ->).
              rewrite release_resources_specs.
              rewrite (decide_False (P := name = n)) by congruence. auto.
           ++ destruct He as (_ & -> & _ & ->).
              rewrite !lookup_insert_ne by congruence. auto.
Qed.

Lemma grpc_status_for_selection_OK selection reaction :
  ok (grpc_status_for_selection selection reaction) = true ->
  grpc_status_for_selection selection reaction = Status_OK.
Proof.
  unfold grpc_status_for_selection.
  destruct (react_to_component _ _ _) as [k1 e1].
  destruct (react_to_component _ _ _) as [k2 e2].
  destruct (react_to_component _ _ _) as [k3 e3].
  unfold grpc_status_for_code. destruct (bool_decide (_ = OK)) eqn:E; [reflexivity|].
  unfold ok. cbn [error_code]. now rewrite E.
Qed.

Lemma obj_find_elem {V} (l : list (string * V)) n v :
  NoDup l.*1 -> obj_find l n = Some v <-> (n, v) ∈ l.
Proof.
  intros Hnd. rewrite obj_find_list_to_map. symmetry.
  now apply (elem_of_list_to_map (M := gmap string)).
Qed.

Lemma targeted_operative_selection op del names n :
  n ∈ (operative_selection (select_instances op del names GroupAll)).*1
  <-> targeted names op n = true.
Proof.
  unfold targeted. rewrite andb_true_iff, bool_decide_eq_true, list_elem_of_fmap. split.
  - intros ([k vm] & -> & Hin). apply select_instances_operative_elem in Hin; [|auto].
    cbn. destruct Hin as [-> ->]. eauto.
  - intros [Hr [vm Hvm]]. exists (n, vm). split; [reflexivity|].
    apply select_instances_operative_elem; auto.
Qed.

Lemma obj_find_operative_selection op del names n :
  obj_find (operative_selection (select_instances op del names GroupAll)) n
  = if targeted names op n then op !! n else None.
Proof.
  pose proof (proj1 (select_instances_NoDup op del names GroupAll)) as Hnd.
  destruct (obj_find _ n) as [vm|] eqn:E.
  - apply obj_find_elem in E; [|exact Hnd].
    apply select_instances_operative_elem in E; [|auto]. destruct E as [Hr Hvm].
    unfold targeted. rewrite Hr, Hvm. rewrite bool_decide_eq_true_2 by eauto. reflexivity.
  - destruct (targeted names op n) eqn:Et; [|reflexivity].
    unfold targeted in Et. apply andb_true_iff in Et. destruct Et as [Hr Hs].
    apply bool_decide_eq_true in Hs. destruct Hs as [vm Hvm].
    assert (Hin : obj_find (operative_selection (select_instances op del names GroupAll)) n
                  = Some vm).
    { apply obj_find_elem; [exact Hnd|]. apply select_instances_operative_elem; auto. }
    congruence.
Qed.

Lemma delet_without_purge (shutdown : VirtualMachine -> Exc VirtualMachine)
    (instances_snapshots : list (string * string)) (d : Daemon) :
  let names := fst <$> instances_snapshots in
  (forall n, n ∈ names ->
     is_Some (operative_instances d !! n) \/ is_Some (deleted_instances d !! n)) ->
  (forall n vm, requested names n = true -> operative_instances d !! n = Some vm ->
     exists instance, shutdown vm = Return instance) ->
  let result := delet shutdown instances_snapshots false d in
  let d' := snd result in
  result = (Status_OK, [], d') /\
  allocated_mac_addrs d' = allocated_mac_addrs d /\
  instance_db d' = instance_records_json (vm_instance_specs d') /\
  forall n,
    operative_instances d' !! n
    = (if targeted names (operative_instances d) n then None
       else operative_instances d !! n) /\
    deleted_instances d' !! n
    = (if targeted names (operative_instances d) n
       then shut_down shutdown <$> operative_instances d !! n
       else deleted_instances d !! n) /\
    vm_instance_specs d' !! n
    = (if targeted names (operative_instances d) n
       then Some (with_spec_deleted true
                    (default default_VMSpecs (vm_instance_specs d !! n)))
       else vm_instance_specs d !! n) /\
    daemon_mounts d' !! n
    = (if targeted names (operative_instances d) n then Some ∅ else daemon_mounts d !! n).
Proof.
  intros names Hexist Hshut result d'. unfold d', result, delet. clear d' result.
  fold names.
  assert (Hok : ok (snd (select_instances_and_react (operative_instances d)
                           (deleted_instances d) names GroupAll
                           require_existing_instances_reaction)) = true).
  { apply select_instances_existing_ok; try reflexivity; [discriminate|exact Hexist]. }
  unfold select_instances_and_react in *. cbn [snd] in Hok.
  rewrite Hok. rewrite (grpc_status_for_selection_OK _ _ Hok).
  set (sel := select_instances (operative_instances d) (deleted_instances d) names GroupAll).
  assert (Hshut' : forall it, it ∈ operative_selection sel ->
                              exists instance, shutdown (snd it) = Return instance).
  { intros [n vm] Hit. apply select_instances_operative_elem in Hit; [|auto].
    destruct Hit as [Hr Hvm]. exact (Hshut n vm Hr Hvm). }
  pose proof (delete_operatives_lookup shutdown false (operative_selection sel) [] d
                (proj1 (select_instances_NoDup _ _ _ _)) Hshut') as H.
  cbn zeta in H. destruct H as (H1 & H2 & _ & H4 & H5).
  destruct (delete_operatives shutdown false (operative_selection sel) [] d) as [r d1].
  cbn [fst snd] in *. subst r.
  split; [reflexivity|]. split; [exact (H4 eq_refl)|]. split; [reflexivity|].
  intros n. destruct (H5 n) as (J1 & J2 & J3 & J4).
  cbn [fst snd persist_instances with_db operative_instances deleted_instances
       vm_instance_specs daemon_mounts].
  rewrite J1, J2, J3, J4. unfold sel. rewrite obj_find_operative_selection.
  destruct (targeted names (operative_instances d) n) eqn:Et.
  - rewrite !decide_True by (now apply targeted_operative_selection).
    unfold targeted in Et. apply andb_true_iff in Et. destruct Et as [_ Hs].
    apply bool_decide_eq_true in Hs. destruct Hs as [vm ->]. auto.
  - rewrite !decide_False
      by (rewrite targeted_operative_selection; congruence).
    auto.
Qed.

(** X16.  A delete without [purge] whose names all exist, with a
    hypervisor that shuts the targets down: the status is OK and nothing
    is purged; every operative instance the request targets (all of
    them, if it names none) leaves the operative table for the deleted
    table, its handlers are dropped and its specification, created if
    the registry had none, is flagged deleted; the other entries of the
    tables, of the registry and of the handlers are untouched, no MAC
    address is released, and the registry is persisted. *)
Theorem delet_moves_to_deleted (shutdown : VirtualMachine -> Exc VirtualMachine)
    (instances_snapshots : list (string * string)) (d : Daemon) :
  let names := fst <$> instances_snapshots in
  (forall n, n ∈ names ->
     is_Some (operative_instances d !! n) \/ is_Some (deleted_instances d !! n)) ->
  (forall n vm, requested names n = true -> operative_instances d !! n = Some vm ->
     exists instance, shutdown vm = Return instance) ->
  let result := delet shutdown instances_snapshots false d in
  let d' := snd result in
  result = (Status_OK, [], d') /\
  allocated_mac_addrs d' = allocated_mac_addrs d /\
  instance_db d' = instance_records_json (vm_instance_specs d') /\
  forall n,
    operative_instances d' !! n
    = (if targeted names (operative_instances d) n then None
       else operative_instances d !! n) /\
    deleted_instances d' !! n
    = (if targeted names (operative_instances d) n
       then shut_down shutdown <$> operative_instances d !! n
       else deleted_instances d !! n) /\
    vm_instance_specs d' !! n
    = (if targeted names (operative_instances d) n
       then Some (with_spec_deleted true
                    (default default_VMSpecs (vm_instance_specs d !! n)))
       else vm_instance_specs d !! n) /\
    daemon_mounts d' !! n
    = (if targeted names (operative_instances d) n then Some ∅ else daemon_mounts d !! n).
Proof. apply delet_without_purge. Qed.

Lemma delet_moves_to_deleted_witness :
  let names := fst <$> [("x", "")] in
  let result := delet powering_off [("x", "")] false daemon_two_mounts in
  let d' := snd result in
  result = (Status_OK, [], d') /\
  allocated_mac_addrs d' = allocated_mac_addrs daemon_two_mounts /\
  instance_db d' = instance_records_json (vm_instance_specs d') /\
  forall n,
    operative_instances d' !! n
    = (if targeted names (operative_instances daemon_two_mounts) n then None
       else operative_instances daemon_two_mounts !! n) /\
    deleted_instances d' !! n
    = (if targeted names (operative_instances daemon_two_mounts) n
       then shut_down powering_off <$> operative_instances daemon_two_mounts !! n
       else deleted_instances daemon_two_mounts !! n) /\
    vm_instance_specs d' !! n
    = (if targeted names (operative_instances daemon_two_mounts) n
       then Some (with_spec_deleted true
                    (default default_VMSpecs (vm_instance_specs daemon_two_mounts !! n)))
       else vm_instance_specs daemon_two_mounts !! n) /\
    daemon_mounts d' !! n
    = (if targeted names (operative_instances daemon_two_mounts) n then Some ∅
       else daemon_mounts daemon_two_mounts !! n).
Proof.
  apply (delet_moves_to_deleted powering_off [("x", "")] daemon_two_mounts).
  - intros n Hn. apply list_elem_of_singleton in Hn. subst n. left. vm_compute. eauto.
  - intros n vm _ _. eexists. reflexivity.
Defined.

Lemma recover_loop_lookup run sel d :
  NoDup sel.*1 ->
  (forall it, it ∈ sel -> is_Some (vm_instance_specs d !! fst it)) ->
  let d' := foldl (fun d vm_it => recover_deleted run vm_it d) d sel in
  allocated_mac_addrs d' = allocated_mac_addrs d /\
  delayed_shutdown_instances d' = delayed_shutdown_instances d /\
  forall n,
    operative_instances d' !! n
    = match obj_find sel n with
      | Some vm => Some vm
      | None => operative_instances d !! n
      end /\
    deleted_instances d' !! n
    = (if decide (n ∈ sel.*1) then None else deleted_instances d !! n) /\
    if decide (n ∈ sel.*1) then
      exists spec_mounts spec,
        vm_instance_specs d !! n = Some spec /\
        vm_instance_specs d' !! n
        = Some (with_spec_mounts spec_mounts (with_spec_deleted false spec))
    else vm_instance_specs d' !! n = vm_instance_specs d !! n.
Proof.
  revert d. induction sel as [|[name vm] rest IH]; intros d Hnd Hspec.
  - cbn -[decide]. split; [reflexivity|]. split; [reflexivity|]. intros n.
    rewrite !decide_False by apply not_elem_of_nil. auto.
  - inversion Hnd as [|? ? Hfresh Hnd']; subst. cbn [foldl].
    destruct (Hspec (name, vm)) as [spec Hs]; [left|]. cbn [fst] in Hs.
    destruct (recover_deleted_effects run (name, vm) d spec Hs)
      as (M & E1 & E2 & E3 & E4 & E5).
    cbn [fst snd] in *.
    set (d1 := recover_deleted run (name, vm) d) in *.
    assert (Hspec' : forall it, it ∈ rest -> is_Some (vm_instance_specs d1 !! fst it)).
    { intros it Hit. rewrite E1, lookup_insert_ne.
      - apply Hspec. now right.
      - intros E. apply Hfresh. rewrite E. apply list_elem_of_fmap. now exists it. }
    destruct (IH d1 Hnd' Hspec') as (I1 & I2 & I3). cbn zeta in *.
    split; [now rewrite I1|]. split; [now rewrite I2|].
    intros n. destruct (I3 n) as (J1 & J2 & J3). rewrite J1, J2. clear J1 J2.
    change (((name, vm) :: rest).*1) with (name :: rest.*1).
    cbn [obj_find]. rewrite E3, E4.
    destruct (decide (n = name)) as [->|Hne].
    + rewrite String.eqb_refl, (obj_find_None rest name Hfresh).
      destruct (decide (name ∈ rest.*1)) as [Hin|_]; [contradiction|].
      destruct (decide (name ∈ name :: rest.*1)) as [_|Hout]; [|exfalso; apply Hout; left].
      rewrite lookup_insert_eq, lookup_delete_eq. split; [reflexivity|].
      split; [reflexivity|]. exists M, spec. split; [exact Hs|].
      rewrite J3, E1. apply lookup_insert_eq.
    + destruct (String.eqb_spec name n) as [E|_]; [congruence|].
      rewrite lookup_insert_ne, lookup_delete_ne by congruence.
      assert (Hiff : n ∈ name :: rest.*1 <-> n ∈ rest.*1).
      { rewrite elem_of_cons. tauto. }
      destruct (decide (n ∈ rest.*1)) as [Hin|Hin];
        destruct (decide (n ∈ name :: rest.*1)) as [Hall|Hall]; try tauto.
      * split; [reflexivity|]. split; [reflexivity|].
        destruct J3 as (M' & spec' & K1 & K2). exists M', spec'. split; [|exact K2].
        now rewrite E1, lookup_insert_ne in K1 by congruence.
      * split; [reflexivity|]. split; [reflexivity|].
        rewrite J3, E1. now rewrite lookup_insert_ne by congruence.
Qed.

Lemma with_spec_deleted_back spec :
  deleted spec = false -> with_spec_deleted false (with_spec_deleted true spec) = spec.
Proof. destruct spec; cbn; intros ->; reflexivity. Qed.

(** X17.  Deleting operative instances by name and recovering them by
    the same names, from a well-formed daemon and with a hypervisor that
    shuts the targets down: the recovery succeeds; the deleted table and
    the allocated MAC addresses are as before the delete; the operative
    table holds the same names, the targets with the handle the
    hypervisor left at shutdown; the specifications of the other
    instances are untouched and those of the targets differ at most in
    their mounts. *)
Theorem delete_then_recover (shutdown : VirtualMachine -> Exc VirtualMachine)
    (run : StartupRun) (instances_snapshots : list (string * string)) (d : Daemon) :
  let names := fst <$> instances_snapshots in
  well_formed d -> names <> [] ->
  (forall n, n ∈ names -> is_Some (operative_instances d !! n)) ->
  (forall n vm, n ∈ names -> operative_instances d !! n = Some vm ->
     exists instance, shutdown vm = Return instance) ->
  let d1 := snd (delet shutdown instances_snapshots false d) in
  let result := recover run names d1 in
  let d2 := snd result in
  fst result = Status_OK /\
  deleted_instances d2 = deleted_instances d /\
  allocated_mac_addrs d2 = allocated_mac_addrs d /\
  forall n,
    operative_instances d2 !! n
    = (if decide (n ∈ names) then shut_down shutdown <$> operative_instances d !! n
       else operative_instances d !! n) /\
    if decide (n ∈ names) then
      exists spec_mounts spec,
        vm_instance_specs d !! n = Some spec /\
        vm_instance_specs d2 !! n = Some (with_spec_mounts spec_mounts spec)
    else vm_instance_specs d2 !! n = vm_instance_specs d !! n.
Proof.
  intros names Hwf Hnames Hop Hshut d1 result d2.
  assert (Hreq : forall n, requested names n = bool_decide (n ∈ names)).
  { intros n. unfold requested. now rewrite (bool_decide_eq_false_2 (names = [])). }
  assert (Htgt : forall n, targeted names (operative_instances d) n = bool_decide (n ∈ names)).
  { intros n. unfold targeted. rewrite Hreq.
    destruct (decide (n ∈ names)) as [Hn|Hn].
    - rewrite !bool_decide_eq_true_2; auto.
    - now rewrite (bool_decide_eq_false_2 (n ∈ names)). }
  destruct (delet_without_purge shutdown instances_snapshots d) as (_ & Ha1 & _ & H1).
  { intros n Hn. left. now apply Hop. }
  { intros n vm Hr Hvm. apply (Hshut n vm); [|exact Hvm].
    rewrite Hreq in Hr. now apply bool_decide_eq_true in Hr. }
  fold names in H1. fold d1 in Ha1, H1.
  assert (Hd1 : forall n,
             operative_instances d1 !! n
             = (if decide (n ∈ names) then None else operative_instances d !! n) /\
             deleted_instances d1 !! n
             = (if decide (n ∈ names) then shut_down shutdown <$> operative_instances d !! n
                else deleted_instances d !! n) /\
             vm_instance_specs d1 !! n
             = (if decide (n ∈ names)
                then Some (with_spec_deleted true
                             (default default_VMSpecs (vm_instance_specs d !! n)))
                else vm_instance_specs d !! n)).
  { intros n. destruct (H1 n) as (J1 & J2 & J3 & _). rewrite J1, J2, J3, Htgt.
    destruct (decide (n ∈ names)) as [Hn|Hn].
    - rewrite (bool_decide_eq_true_2 _ Hn). auto.
    - rewrite (bool_decide_eq_false_2 _ Hn). auto. }
  clear H1.
  assert (Hdel1 : forall n, n ∈ names -> exists vm,
             operative_instances d !! n = Some vm /\
             deleted_instances d1 !! n = Some (shut_down shutdown vm) /\
             operative_instances d1 !! n = None).
  { intros n Hn. destruct (Hop n Hn) as [vm Hvm]. exists vm.
    destruct (Hd1 n) as (J1 & J2 & _). rewrite J1, J2, Hvm.
    rewrite !decide_True by exact Hn. auto. }
  unfold d2, result, recover, select_instances_and_react.
  set (sel := select_instances (operative_instances d1) (deleted_instances d1) names
                GroupDeleted).
  assert (Hok : ok (grpc_status_for_selection sel recover_reaction) = true).
  { apply (select_instances_existing_ok (operative_instances d1) (deleted_instances d1)
             names GroupDeleted recover_reaction); try reflexivity; [discriminate|].
    intros n Hn. destruct (Hdel1 n Hn) as (vm & _ & -> & _). eauto. }
  rewrite Hok, (grpc_status_for_selection_OK _ _ Hok). cbn [fst snd].
  assert (Hsel : forall n vm, (n, vm) ∈ deleted_selection sel
                              <-> n ∈ names /\ deleted_instances d1 !! n = Some vm).
  { intros n vm. unfold sel. rewrite select_instances_named by exact Hnames.
    rewrite partition_of_deleted_elem, first_occurrences_elem. split; [tauto|].
    intros [Hn Hvm]. split; [exact Hn|]. split; [|exact Hvm].
    now destruct (Hdel1 n Hn) as (_ & _ & _ & ->). }
  assert (Hnd : NoDup (deleted_selection sel).*1) by apply select_instances_NoDup.
  assert (Hkeys : forall n, n ∈ (deleted_selection sel).*1 <-> n ∈ names).
  { intros n. rewrite list_elem_of_fmap. split.
    - intros ([k vm] & -> & Hin). now apply Hsel in Hin.
    - intros Hn. destruct (Hdel1 n Hn) as (vm & _ & Hvm & _).
      exists (n, shut_down shutdown vm). split; [reflexivity|]. now apply Hsel. }
  assert (Hfind : forall n, obj_find (deleted_selection sel) n
                            = if decide (n ∈ names) then deleted_instances d1 !! n else None).
  { intros n. destruct (obj_find (deleted_selection sel) n) as [vm|] eqn:E.
    - apply obj_find_elem in E; [|exact Hnd]. apply Hsel in E. destruct E as [Hn ->].
      now rewrite decide_True.
    - destruct (decide (n ∈ names)) as [Hn|Hn]; [|reflexivity].
      destruct (Hdel1 n Hn) as (vm & _ & Hvm & _).
      assert (obj_find (deleted_selection sel) n = Some (shut_down shutdown vm))
        by (apply obj_find_elem; [exact Hnd|]; now apply Hsel).
      congruence. }
  destruct (recover_loop_lookup run (deleted_selection sel) d1 Hnd) as (R1 & _ & R3).
  { intros [n vm] Hit. apply Hsel in Hit. destruct Hit as [Hn _]. cbn.
    destruct (Hd1 n) as (_ & _ & ->). rewrite decide_True by exact Hn. eauto. }
  cbn zeta in R1, R3.
  set (d3 := foldl (fun d vm_it => recover_deleted run vm_it d) d1 (deleted_selection sel))
    in *.
  cbn [persist_instances with_db deleted_instances allocated_mac_addrs operative_instances
       vm_instance_specs].
  split; [reflexivity|]. split; [|split; [now rewrite R1|]].
  - apply map_eq. intros n. destruct (R3 n) as (_ & -> & _).
    destruct (Hd1 n) as (_ & -> & _).
    destruct (decide (n ∈ names)) as [Hn|Hn].
    + rewrite decide_True by (now apply Hkeys). symmetry.
      apply (tables_agree_disjoint d n (proj2 Hwf)). now apply Hop.
    + rewrite decide_False by (now rewrite Hkeys). reflexivity.
  - intros n. destruct (R3 n) as (J1 & _ & J3). rewrite J1, Hfind.
    destruct (Hd1 n) as (K1 & K2 & K3). rewrite K1, K2.
    destruct (decide (n ∈ names)) as [Hn|Hn].
    + destruct (Hop n Hn) as [vm Hvm]. rewrite Hvm. cbn. split; [reflexivity|].
      destruct (decide (n ∈ (deleted_selection sel).*1)) as [_|Hout];
        [|exfalso; apply Hout; now apply Hkeys].
      destruct J3 as (M & spec1 & S1 & S2).
      destruct (proj1 (proj2 Hwf) n) as (spec & Hs & Hflag); [eauto|].
      exists M, spec. split; [exact Hs|].
      rewrite K3, Hs in S1. cbn in S1. inversion S1; subst spec1.
      now rewrite S2, (with_spec_deleted_back spec Hflag).
    + split; [reflexivity|].
      destruct (decide (n ∈ (deleted_selection sel).*1)) as [Hin|_];
        [exfalso; apply Hn; now apply Hkeys|].
      now rewrite J3, K3.
Qed.

Lemma delete_then_recover_witness :
  let names := fst <$> [("x", "")] in
  let d1 := snd (delet powering_off [("x", "")] false daemon_two_mounts) in
  let result := recover accepting_startup names d1 in
  let d2 := snd result in
  fst result = Status_OK /\
  deleted_instances d2 = deleted_instances daemon_two_mounts /\
  allocated_mac_addrs d2 = allocated_mac_addrs daemon_two_mounts /\
  forall n,
    operative_instances d2 !! n
    = (if decide (n ∈ names)
       then shut_down powering_off <$> operative_instances daemon_two_mounts !! n
       else operative_instances daemon_two_mounts !! n) /\
    if decide (n ∈ names) then
      exists spec_mounts spec,
        vm_instance_specs daemon_two_mounts !! n = Some spec /\
        vm_instance_specs d2 !! n = Some (with_spec_mounts spec_mounts spec)
    else vm_instance_specs d2 !! n = vm_instance_specs daemon_two_mounts !! n.
Proof.
  apply (delete_then_recover powering_off accepting_startup [("x", "")] daemon_two_mounts).
  - exact daemon_two_mounts_well_formed.
  - discriminate.
  - intros n Hn. apply list_elem_of_singleton in Hn. subst n. vm_compute. eauto.
  - intros n vm _ _. eexists. reflexivity.
Defined.

(** *** The daemon is well formed in every state it reaches *)

(** Where one pass of the constructor's loop puts the instance it
    admits. *)
Lemma reconcile_spec_places run name spec d invalid d' invalid' :
  vm_instance_specs d !! name = Some spec ->
  reconcile_spec run (name, spec) (d, invalid) = Return (d', invalid') ->
  (invalid' = invalid ++ [name] /\
   vm_instance_specs d' = vm_instance_specs d /\
   operative_instances d' = operative_instances d /\
   deleted_instances d' = deleted_instances d)
  \/
  (invalid' = invalid /\
   exists spec' vm,
     vm_instance_specs d' = <[name := spec']> (vm_instance_specs d) /\
     deleted spec' = deleted spec /\
     operative_instances d'
     = (if deleted spec then operative_instances d
        else <[name := vm]> (operative_instances d)) /\
     deleted_instances d'
     = (if deleted spec then <[name := vm]> (deleted_instances d)
        else deleted_instances d)).
Proof.
  intros Hs. unfold reconcile_spec.
  destruct (negb (has_record_for run name)).
  { intros [= <- <-]. left. auto. }
  unfold merge_if_disjoint.
  destruct (decide (mac_set_from spec ## allocated_mac_addrs d)) as [Hdisj|Hndisj];
    cbn [fst snd negb]; [|rewrite orb_true_r; intros [= <- <-]; left; auto].
  destruct (size (mac_set_from spec) <=? length (extra_interfaces spec));
    cbn [orb]; [intros [= <- <-]; left; auto|].
  destruct (image_file_lost run name); [intros [= <- <-]; left; auto|].
  destruct (factory_create run name) as [instance|e]; [|discriminate].
  cbn [mbind Exc_bind].
  set (incompatible := deleted spec && negb (state spec =? state_code stopped)%Z).
  set (d1 := if deleted spec then _ else _).
  set (d2 := with_allocated _ d1).
  set (spec1 := if incompatible then with_spec_state (state_code stopped) spec else spec).
  set (d3 := if incompatible then _ else d2).
  assert (H3 : vm_instance_specs d3 = <[name := spec1]> (vm_instance_specs d) /\
               operative_instances d3 = operative_instances d1 /\
               deleted_instances d3 = deleted_instances d1).
  { subst d3 spec1 d2. destruct incompatible; cbn.
    - destruct (deleted spec); auto.
    - rewrite (insert_id _ _ _ Hs). destruct (deleted spec); auto. }
  destruct H3 as (Hs3 & Ho3 & Hd3).
  assert (Hf1 : deleted spec1 = deleted spec)
    by (subst spec1; destruct incompatible; reflexivity).
  assert (Ht1 : operative_instances d1
                = (if deleted spec then operative_instances d
                   else <[name := instance]> (operative_instances d)) /\
                deleted_instances d1
                = (if deleted spec then <[name := instance]> (deleted_instances d)
                   else deleted_instances d)).
  { subst d1. destruct (deleted spec); cbn; auto. }
  set (d4 := if negb (deleted spec1) then init_mounts run name d3 else d3).
  assert (H4 : exists spec',
             vm_instance_specs d4 = <[name := spec']> (vm_instance_specs d) /\
             deleted spec' = deleted spec /\
             operative_instances d4 = operative_instances d1 /\
             deleted_instances d4 = deleted_instances d1).
  { subst d4. destruct (negb (deleted spec1)).
    - destruct (init_mounts_only_mounts run name d3 spec1) as (M & Hs' & _ & Ho' & Hd' & _).
      { rewrite Hs3. apply lookup_insert_eq. }
      exists (with_spec_mounts M spec1). rewrite Hs', Ho', Hd', Hs3, insert_insert_eq.
      repeat split; try assumption.
    - exists spec1. auto. }
  destruct H4 as (spec' & Hs4 & Hf4 & Ho4 & Hd4).
  intros [= <- <-]. right. split; [reflexivity|]. exists spec', instance.
  destruct Ht1 as [Hop1 Hdel1].
  match goal with |- context [if ?b then emit _ d4 else d4] => destruct b end;
    cbn [vm_instance_specs allocated_mac_addrs operative_instances deleted_instances emit];
    rewrite Hs4, Ho4, Hd4, Hop1, Hdel1; auto 10.
Qed.

Lemma reconcile_spec_placing run entry rest d invalid d' invalid' :
  reconciling d invalid (entry :: rest) ->
  placing d invalid (entry :: rest) ->
  reconcile_spec run entry (d, invalid) = Return (d', invalid') ->
  placing d' invalid' rest.
Proof.
  destruct entry as [name spec].
  intros (_ & _ & _ & Htodo & Hinv & Hnd) [Hop Hdel] Hstep.
  assert (Hs : vm_instance_specs d !! name = Some spec) by (apply (Htodo (name, spec)); left).
  inversion Hnd as [|? ? Hfresh Hnd']; subst.
  assert (Hnop : operative_instances d !! name = None).
  { destruct (operative_instances d !! name) eqn:E; [|reflexivity].
    destruct (Hop name) as (_ & H & _); [eauto|]. exfalso. apply H. left. }
  assert (Hndel : deleted_instances d !! name = None).
  { destruct (deleted_instances d !! name) eqn:E; [|reflexivity].
    destruct (Hdel name) as (_ & H & _); [eauto|]. exfalso. apply H. left. }
  assert (Hninv : name ∉ invalid).
  { intros H. apply (Hinv name H). left. }
  destruct (reconcile_spec_places run name spec d invalid d' invalid' Hs Hstep)
    as [(-> & Es & Eo & Ed)|(-> & spec' & vm & Es & Ef & Eo & Ed)].
  - split; intros n Hn; rewrite Es.
    + rewrite Eo in Hn. destruct (Hop n Hn) as (H1 & H2 & H3).
      assert (n <> name) by (intros ->; rewrite Hnop in Hn; now destruct Hn).
      split; [|split; [|exact H3]].
      * rewrite elem_of_app, list_elem_of_singleton. tauto.
      * intros H'. apply H2. now right.
    + rewrite Ed in Hn. destruct (Hdel n Hn) as (H1 & H2 & H3).
      assert (n <> name) by (intros ->; rewrite Hndel in Hn; now destruct Hn).
      split; [|split; [|exact H3]].
      * rewrite elem_of_app, list_elem_of_singleton. tauto.
      * intros H'. apply H2. now right.
  - split; intros n Hn; rewrite Es.
    + rewrite Eo in Hn. destruct (decide (n = name)) as [->|Hne].
      * destruct (deleted spec) eqn:Ed'; [rewrite Hnop in Hn; now destruct Hn|].
        split; [exact Hninv|]. split; [exact Hfresh|].
        rewrite lookup_insert_eq. exists spec'. split; [reflexivity|congruence].
      * assert (Hn' : is_Some (operative_instances d !! n)).
        { destruct (deleted spec); [exact Hn|].
          now rewrite lookup_insert_ne in Hn by congruence. }
        destruct (Hop n Hn') as (H1 & H2 & H3).
        split; [exact H1|]. split; [intros H'; apply H2; now right|].
        now rewrite lookup_insert_ne by congruence.
    + rewrite Ed in Hn. destruct (decide (n = name)) as [->|Hne].
      * destruct (deleted spec) eqn:Ed'; [|rewrite Hndel in Hn; now destruct Hn].
        split; [exact Hninv|]. split; [exact Hfresh|].
        rewrite lookup_insert_eq. exists spec'. split; [reflexivity|congruence].
      * assert (Hn' : is_Some (deleted_instances d !! n)).
        { destruct (deleted spec); [|exact Hn].
          now rewrite lookup_insert_ne in Hn by congruence. }
        destruct (Hdel n Hn') as (H1 & H2 & H3).
        split; [exact H1|]. split; [intros H'; apply H2; now right|].
        now rewrite lookup_insert_ne by congruence.
Qed.

Lemma reconcile_specs_placing run todo d invalid d' invalid' :
  reconciling d invalid todo -> placing d invalid todo ->
  reconcile_specs run todo (d, invalid) = Return (d', invalid') ->
  placing d' invalid' [].
Proof.
  revert d invalid. induction todo as [|entry rest IH]; intros d invalid Hr Hp Hloop.
  - cbn in Hloop. injection Hloop as <- <-. exact Hp.
  - cbn [reconcile_specs] in Hloop.
    destruct (reconcile_spec run entry (d, invalid)) as [[d1 invalid1]|e] eqn:E;
      [|discriminate].
    cbn [mbind Exc_bind] in Hloop.
    eapply IH; [| |exact Hloop].
    + eapply reconcile_spec_reconciling; eassumption.
    + eapply reconcile_spec_placing; eassumption.
Qed.

Lemma Daemon_constructor_agree lib db_file run d :
  Daemon_constructor lib db_file run = Return d -> tables_agree d.
Proof.
  unfold Daemon_constructor.
  destruct (load_db lib db_file) as [[loaded log]|e]; [|discriminate].
  cbn [mbind Exc_bind fst snd].
  set (d0 := mkDaemon loaded ∅ ∅ ∅ ∅ ∅ ∅ [] log).
  destruct (reconcile_specs run (map_to_list loaded) (d0, [])) as [[d1 invalid]|e] eqn:E;
    [|discriminate].
  cbn [mbind Exc_bind fst snd mret Exc_ret]. intros [= <-].
  assert (H0 : reconciling d0 [] (map_to_list loaded)).
  { assert (Hadm : delete_all ([] ++ (map_to_list loaded).*1) (vm_instance_specs d0) = ∅).
    { apply map_eq. intros n. rewrite lookup_delete_all, lookup_empty. cbn.
      case_decide as Hin; [reflexivity|].
      destruct (loaded !! n) as [s|] eqn:Es; [|reflexivity].
      exfalso. apply Hin. apply list_elem_of_fmap. exists (n, s).
      split; [reflexivity|]. now apply elem_of_map_to_list. }
    unfold reconciling. rewrite Hadm. cbn.
    split; [now rewrite macs_of_specs_empty|]. split.
    { intros n1 n2 s1 s2 _ H1. rewrite lookup_empty in H1. discriminate. }
    split.
    { intros n [s Hn]. rewrite lookup_empty in Hn. discriminate. }
    split.
    { intros [n s] Hin. now apply elem_of_map_to_list in Hin. }
    split; [intros n Hn; inversion Hn|apply NoDup_fst_map_to_list]. }
  assert (P0 : placing d0 [] (map_to_list loaded)).
  { split; intros n [vm Hn]; cbn in Hn; rewrite lookup_empty in Hn; discriminate. }
  destruct (reconcile_specs_placing run _ d0 [] d1 invalid H0 P0 E) as [Hop Hdel].
  destruct (remove_invalid_fields invalid d1) as (Hs & _ & Ho & Hd).
  cbn zeta in Hs, Ho, Hd.
  assert (Hfin : tables_agree (foldl (fun d bad_spec => remove_invalid bad_spec d) d1 invalid)).
  { split; intros n Hn; rewrite Hs, lookup_delete_all.
    - rewrite Ho in Hn. destruct (Hop n Hn) as (H1 & _ & H3).
      now rewrite decide_False by exact H1.
    - rewrite Hd in Hn. destruct (Hdel n Hn) as (H1 & _ & H3).
      now rewrite decide_False by exact H1. }
  now destruct (bool_decide (invalid = [])).
Qed.

Lemma agree_but_fields name d d' :
  vm_instance_specs d' = vm_instance_specs d ->
  operative_instances d' = operative_instances d ->
  deleted_instances d' = deleted_instances d ->
  agree_but name d -> agree_but name d'.
Proof. intros H1 H2 H3. unfold agree_but. now rewrite H1, H2, H3. Qed.







(** *** A mount whose activation misses sshfs *)

Lemma handlers_of_set_handlers name vm_mounts d n :
  handlers_of n (set_handlers name vm_mounts d)
  = if decide (n = name) then vm_mounts else handlers_of n d.
Proof.
  unfold handlers_of, set_handlers. cbn. destruct (decide (n = name)) as [->|Hne].
  - now rewrite lookup_insert_eq.
  - now rewrite lookup_insert_ne by congruence.
Qed.

Lemma mounts_subscript_spec name d :
  fst (mounts_subscript name d) = handlers_of name d /\
  (forall n, handlers_of n (snd (mounts_subscript name d)) = handlers_of n d) /\
  vm_instance_specs (snd (mounts_subscript name d)) = vm_instance_specs d /\
  operative_instances (snd (mounts_subscript name d)) = operative_instances d /\
  instance_db (snd (mounts_subscript name d)) = instance_db d.
Proof.
  unfold mounts_subscript, handlers_of.
  destruct (daemon_mounts d !! name) as [t|] eqn:E; cbn [fst snd].
  - repeat apply conj; reflexivity.
  - split; [reflexivity|]. split; [|auto]. intros n. cbn.
    destruct (decide (n = name)) as [->|Hne].
    + now rewrite lookup_insert_eq, E.
    + now rewrite lookup_insert_ne by congruence.
Qed.

(** X19.  A mount on an operative instance whose handler is built and
    must be activated at once, and whose activation reports that sshfs is
    missing: the request ends with the failed-precondition status that
    asks for the snap, and nothing is persisted; the specification does
    not record the mount, but the handler stays in the handler table, so
    the same request, sent again, is refused with the message that the
    target is already mounted. *)
Theorem mount_sshfs_missing_leaves_handler (run : MountRun) (request : MountRequest)
    (name raw_target : string) (d : Daemon) (vm : VirtualMachine) (handler : MountHandler) :
  let target := clean_path run raw_target in
  mounts_enabled run = true ->
  request_target_paths request = [(name, raw_target)] ->
  operative_instances d !! name = Some vm ->
  invalid_target_path run target = false ->
  handlers_of name d !! target = None ->
  mount_handler run name target
    (mkVMMount (request_source_path request) (request_gid_mappings request)
       (request_uid_mappings request) (request_mount_type request)) = Return handler ->
  current_state vm = running \/ is_mount_managed_by_backend handler = true ->
  activation run name target = sshfs_missing ->
  let d' := snd (mount run request d) in
  fst (mount run request d) = grpc_status_for_mount_error name /\
  handlers_of name d' !! target = Some handler /\
  vm_instance_specs d' = vm_instance_specs d /\
  instance_db d' = instance_db d /\
  fst (mount run request d')
  = mkStatus INVALID_ARGUMENT
      ("The following errors occurred:" +:+ newline +:+ dquote +:+ target +:+ dquote
         +:+ " is already mounted in '" +:+ name +:+ "'") "".
Proof.
  intros target Hen Hreq Hop Hvalid Hnone Hmake Hnow Hact d'.
  assert (Hcond : bool_decide (current_state vm = running)
                  || is_mount_managed_by_backend handler = true).
  { destruct Hnow as [H|H]; [rewrite (bool_decide_eq_true_2 _ H)|rewrite H, orb_true_r];
      reflexivity. }
  assert (Hfirst : mount run request d
                   = (grpc_status_for_mount_error name,
                      set_handlers name (<[target := handler]> (handlers_of name d))
                        (snd (mounts_subscript name d)))).
  { unfold mount. rewrite Hen, Hreq. cbn [negb mount_entries]. unfold mount_entry.
    cbn [fst snd]. fold target. rewrite Hop, Hvalid.
    destruct (mounts_subscript_spec name d) as (H1 & _).
    destruct (mounts_subscript name d) as [vm_mounts d1]. cbn [fst snd] in *. subst vm_mounts.
    rewrite Hnone, Hmake, Hcond, Hact. reflexivity. }
  destruct (mounts_subscript_spec name d) as (_ & H2 & H3 & H4 & H5).
  unfold d'. rewrite Hfirst. cbn [fst snd].
  set (d1 := snd (mounts_subscript name d)) in *.
  set (d2 := set_handlers name (<[target := handler]> (handlers_of name d)) d1).
  assert (Hh2 : handlers_of name d2 !! target = Some handler).
  { unfold d2. rewrite handlers_of_set_handlers, decide_True by reflexivity.
    apply lookup_insert_eq. }
  split; [reflexivity|]. split; [exact Hh2|]. split; [exact H3|]. split; [exact H5|].
  unfold mount. rewrite Hen, Hreq. cbn [negb mount_entries]. unfold mount_entry.
  cbn [fst snd]. fold target.
  assert (Hop2 : operative_instances d2 !! name = Some vm) by (unfold d2; cbn; now rewrite H4).
  rewrite Hop2, Hvalid.
  destruct (mounts_subscript_spec name d2) as (K1 & _).
  destruct (mounts_subscript name d2) as [vm_mounts d3]. cbn [fst snd] in *. subst vm_mounts.
  rewrite Hh2. reflexivity.
Qed.

Lemma mount_sshfs_missing_leaves_handler_witness :
  let d' := snd (mount sshfs_less_run mount_request_new daemon_two_mounts) in
  fst (mount sshfs_less_run mount_request_new daemon_two_mounts)
  = grpc_status_for_mount_error "x" /\
  handlers_of "x" d' !! "/new" = Some (mkMountHandler (mkVMMount "/home/user/new" [] [] 0)
                                         false None) /\
  vm_instance_specs d' = vm_instance_specs daemon_two_mounts /\
  instance_db d' = instance_db daemon_two_mounts /\
  fst (mount sshfs_less_run mount_request_new d')
  = mkStatus INVALID_ARGUMENT
      ("The following errors occurred:" +:+ newline +:+ dquote +:+ "/new" +:+ dquote
         +:+ " is already mounted in '" +:+ "x" +:+ "'") "".
Proof.
  apply (mount_sshfs_missing_leaves_handler sshfs_less_run mount_request_new "x" "/new"
           daemon_two_mounts (mkVM "x" running running None)
           (mkMountHandler (mkVMMount "/home/user/new" [] [] 0) false None));
    try reflexivity.
  left. reflexivity.
Defined.

Lemma spec_mounts_of_record name target vm_mount d n t :
  let d' := let '(spec, d3) := specs_subscript name d in
            with_specs
              (<[name := with_spec_mounts (<[target := vm_mount]> (mounts spec)) spec]>
                 (vm_instance_specs d3)) d3 in
  (forall m, handlers_of m d' = handlers_of m d) /\
  spec_mounts_of n d' !! t
  = if decide (n = name /\ t = target) then Some vm_mount else spec_mounts_of n d !! t.
Proof.
  unfold specs_subscript, spec_mounts_of.
  destruct (vm_instance_specs d !! name) as [spec|] eqn:E; cbn zeta; cbn.
  - split; [reflexivity|]. destruct (decide (n = name)) as [->|Hne].
    + rewrite lookup_insert_eq, E. cbn.
      destruct (decide (t = target)) as [->|Hne'].
      * rewrite decide_True by auto. apply lookup_insert_eq.
      * rewrite decide_False by tauto. now apply lookup_insert_ne.
    + rewrite lookup_insert_ne by congruence. now rewrite decide_False by tauto.
  - split; [reflexivity|]. rewrite insert_insert_eq. destruct (decide (n = name)) as [->|Hne].
    + rewrite lookup_insert_eq, E. cbn.
      destruct (decide (t = target)) as [->|Hne'].
      * rewrite decide_True by auto. apply lookup_insert_eq.
      * rewrite decide_False by tauto. now apply lookup_insert_ne.
    + rewrite lookup_insert_ne by congruence. now rewrite decide_False by tauto.
Qed.

(** One pass of the loop of [mount] only adds handlers, and adds a mount
    to a specification only together with its handler. *)
Lemma mount_entry_effects run request path_entry errors d n t :
  let d' := snd (mount_entry run request path_entry errors d) in
  (is_Some (handlers_of n d !! t) -> is_Some (handlers_of n d' !! t)) /\
  (spec_mounts_of n d' !! t = spec_mounts_of n d !! t \/ is_Some (handlers_of n d' !! t)).
Proof.
  unfold mount_entry. set (name := fst path_entry).
  set (target := clean_path run (snd path_entry)).
  destruct (operative_instances d !! name) as [vm|]; [|cbn; auto].
  destruct (invalid_target_path run target); [cbn; auto|].
  destruct (mounts_subscript_spec name d) as (H1 & H2 & H3 & _).
  destruct (mounts_subscript name d) as [vm_mounts d1]. cbn [fst snd] in *. subst vm_mounts.
  assert (Hs1 : spec_mounts_of n d1 = spec_mounts_of n d)
    by (unfold spec_mounts_of; now rewrite H3).
  destruct (handlers_of name d !! target) as [h0|] eqn:Eh.
  { cbn [snd]. rewrite H2, Hs1. auto. }
  destruct (mount_handler run name target _) as [handler|e].
  2:{ cbn [snd]. rewrite H2, Hs1. auto. }
  set (vm_mount := mkVMMount _ _ _ _).
  set (d2 := set_handlers name (<[target := handler]> (handlers_of name d)) d1).
  assert (Hh2 : forall m u, is_Some (handlers_of m d !! u) -> is_Some (handlers_of m d2 !! u)).
  { intros m u Hu. unfold d2. rewrite handlers_of_set_handlers.
    destruct (decide (m = name)) as [->|Hne]; [|now rewrite H2].
    destruct (decide (u = target)) as [->|Hne']; [rewrite lookup_insert_eq; eauto|].
    now rewrite lookup_insert_ne by congruence. }
  assert (Hs2 : spec_mounts_of n d2 = spec_mounts_of n d) by (now rewrite <- Hs1).
  assert (Hrecord : let d' := let '(spec, d3) := specs_subscript name d2 in
                      with_specs
                        (<[name := with_spec_mounts (<[target := vm_mount]> (mounts spec))
                                     spec]> (vm_instance_specs d3)) d3 in
            (is_Some (handlers_of n d !! t) -> is_Some (handlers_of n d' !! t)) /\
            (spec_mounts_of n d' !! t = spec_mounts_of n d !! t
             \/ is_Some (handlers_of n d' !! t))).
  { destruct (spec_mounts_of_record name target vm_mount d2 n t) as [K1 K2].
    cbn zeta in *. rewrite K1, K2, Hs2. split; [apply Hh2|].
    destruct (decide (n = name /\ t = target)) as [[-> ->]|Hne]; [|auto].
    right. unfold d2. rewrite handlers_of_set_handlers, decide_True by reflexivity.
    rewrite lookup_insert_eq. eauto. }
  destruct (bool_decide (current_state vm = running) || is_mount_managed_by_backend handler);
    [|exact Hrecord].
  destruct (activation run name target) as [| |e].
  - exact Hrecord.
  - cbn [snd]. rewrite Hs2. split; [apply Hh2|auto].
  - cbn [snd]. split.
    + intros Hu. rewrite handlers_of_set_handlers.
      destruct (decide (n = name)) as [->|Hne].
      * rewrite delete_insert_eq, lookup_delete_ne; [exact Hu|].
        intros <-. rewrite Eh in Hu. now destruct Hu.
      * unfold d2. rewrite handlers_of_set_handlers, decide_False, H2 by exact Hne.
        exact Hu.
    + left. unfold spec_mounts_of. cbn. fold (spec_mounts_of n d1). now rewrite Hs1.
Qed.

Lemma mount_entry_handled run request path_entry errors d n :
  mounts_handled n d -> mounts_handled n (snd (mount_entry run request path_entry errors d)).
Proof.
  intros H t Ht.
  destruct (mount_entry_effects run request path_entry errors d n t) as [E1 [E2|E2]].
  - apply E1, H. now rewrite <- E2.
  - exact E2.
Qed.

Lemma mount_entries_handled run request target_paths errors d n :
  mounts_handled n d ->
  mounts_handled n (snd (mount_entries run request target_paths errors d)).
Proof.
  revert errors d. induction target_paths as [|path_entry rest IH]; intros errors d H.
  - exact H.
  - cbn [mount_entries].
    pose proof (mount_entry_handled run request path_entry errors d n H) as H'.
    destruct (mount_entry run request path_entry errors d) as [[errors'|status|e] d'];
      cbn [snd] in *; [now apply IH|exact H'|exact H'].
Qed.

(** X20.  [mount] keeps every mount of a specification with a handler:
    if all the mounts of the specification of an instance had a handler
    before the request, they all have one after it, however the request
    ends. *)
Theorem mount_keeps_mounts_handled (run : MountRun) (request : MountRequest) (d : Daemon)
    (name : string) :
  mounts_handled name d -> mounts_handled name (snd (mount run request d)).
Proof.
  intros H. unfold mount. destruct (negb (mounts_enabled run)); [exact H|].
  pose proof (mount_entries_handled run request (request_target_paths request) "" d name H)
    as H'.
  destruct (mount_entries run request (request_target_paths request) "" d)
    as [[errors|status|e] d']; exact H'.
Qed.

Lemma daemon_two_mounts_handled : mounts_handled "x" daemon_two_mounts.
Proof.
  assert (Hdom : dom (spec_mounts_of "x" daemon_two_mounts)
                 = dom (handlers_of "x" daemon_two_mounts)) by (vm_compute; reflexivity).
  intros target Ht. apply elem_of_dom. rewrite <- Hdom. now apply elem_of_dom.
Qed.

Lemma mount_keeps_mounts_handled_witness :
  mounts_handled "x" (snd (mount sshfs_less_run mount_request_new daemon_two_mounts)).
Proof.
  apply (mount_keeps_mounts_handled sshfs_less_run mount_request_new daemon_two_mounts "x").
  exact daemon_two_mounts_handled.
Defined.

Lemma shrinks_refl d : shrinks d d.
Proof. intros n t. auto. Qed.

Lemma shrinks_trans d1 d2 d3 : shrinks d1 d2 -> shrinks d2 d3 -> shrinks d1 d3.
Proof.
  intros H12 H23 n t. destruct (H23 n t) as [[E1 E2]|E]; [|auto].
  destruct (H12 n t) as [[F1 F2]|F].
  - left. split; congruence.
  - right. congruence.
Qed.

Lemma shrinks_fields d d' :
  daemon_mounts d' = daemon_mounts d -> vm_instance_specs d' = vm_instance_specs d ->
  shrinks d d'.
Proof.
  intros H1 H2 n t. left. unfold handlers_of, spec_mounts_of. now rewrite H1, H2.
Qed.

Lemma shrinks_handled d d' n : shrinks d d' -> mounts_handled n d -> mounts_handled n d'.
Proof.
  intros Hs H t Ht. destruct (Hs n t) as [[E1 E2]|E].
  - rewrite E1. apply H. now rewrite <- E2.
  - rewrite E in Ht. now destruct Ht.
Qed.

Lemma do_unmount_shrinks name expiring_it errors d :
  shrinks d (snd (do_unmount name expiring_it errors d)).
Proof.
  unfold do_unmount. destruct (deactivate_throws (snd expiring_it)) as [e|].
  - destruct (is_runtime_error e); now apply shrinks_fields.
  - cbn [snd]. intros n t. unfold handlers_of, spec_mounts_of. cbn.
    destruct (decide (n = name)) as [->|Hne].
    + rewrite !lookup_alter_eq.
      destruct (decide (t = fst expiring_it)) as [->|Hne'].
      * right. destruct (vm_instance_specs d !! name); cbn; [|apply lookup_empty].
        apply lookup_delete_eq.
      * left. destruct (daemon_mounts d !! name), (vm_instance_specs d !! name); cbn;
          rewrite ?lookup_delete_ne by congruence; auto.
    + left. now rewrite !lookup_alter_ne by congruence.
Qed.

Lemma unmount_all_shrinks name entries errors d :
  shrinks d (snd (unmount_all name entries errors d)).
Proof.
  revert errors d. induction entries as [|it rest IH]; intros errors d.
  - apply shrinks_refl.
  - cbn [unmount_all]. pose proof (do_unmount_shrinks name it errors d) as H.
    destruct (do_unmount name it errors d) as [[errors'|e] d']; cbn [snd] in *; [|exact H].
    eapply shrinks_trans; [exact H|apply IH].
Qed.

Lemma umount_entry_shrinks cleanPath path_entry errors d :
  shrinks d (snd (umount_entry cleanPath path_entry errors d)).
Proof.
  unfold umount_entry. destruct (operative_instances d !! fst path_entry);
    [|apply shrinks_refl].
  set (d1 := snd (specs_subscript (fst path_entry) d)).
  assert (H1 : shrinks d d1).
  { intros n t. left. unfold d1, specs_subscript, handlers_of, spec_mounts_of.
    destruct (vm_instance_specs d !! fst path_entry) as [spec|] eqn:E; cbn; [auto|].
    split; [reflexivity|]. destruct (decide (n = fst path_entry)) as [->|Hne].
    - now rewrite lookup_insert_eq, E.
    - now rewrite lookup_insert_ne by congruence. }
  assert (H2 : shrinks d1 (snd (mounts_subscript (fst path_entry) d1))).
  { intros n t. left. destruct (mounts_subscript_spec (fst path_entry) d1) as (_ & K & K' & _).
    rewrite K. unfold spec_mounts_of. now rewrite K'. }
  destruct (mounts_subscript (fst path_entry) d1) as [vm_mounts d2]. cbn [snd] in H2.
  pose proof (shrinks_trans _ _ _ H1 H2) as H12.
  destruct (bool_decide (cleanPath (snd path_entry) = "")).
  - eapply shrinks_trans; [exact H12|apply unmount_all_shrinks].
  - destruct (vm_mounts !! cleanPath (snd path_entry)).
    + eapply shrinks_trans; [exact H12|apply do_unmount_shrinks].
    + exact H12.
Qed.

Lemma umount_entries_shrinks cleanPath target_paths errors d :
  shrinks d (snd (umount_entries cleanPath target_paths errors d)).
Proof.
  revert errors d. induction target_paths as [|path_entry rest IH]; intros errors d.
  - apply shrinks_refl.
  - cbn [umount_entries]. pose proof (umount_entry_shrinks cleanPath path_entry errors d) as H.
    destruct (umount_entry cleanPath path_entry errors d) as [[errors'|e] d'];
      cbn [snd] in *; [|exact H].
    eapply shrinks_trans; [exact H|apply IH].
Qed.

(** X21.  [umount], however it ends, takes a mount out of a
    specification or leaves both the mount and its handler as they were:
    it never leaves a mount in a specification without the handler the
    mount had.  So the mounts of a specification that all had a handler
    before the request all have one after it. *)
Theorem umount_keeps_mounts_handled (cleanPath : string -> string)
    (target_paths : list (string * string)) (d : Daemon) :
  let d' := snd (umount cleanPath target_paths d) in
  (forall n t,
     (handlers_of n d' !! t = handlers_of n d !! t /\
      spec_mounts_of n d' !! t = spec_mounts_of n d !! t)
     \/ spec_mounts_of n d' !! t = None) /\
  forall name, mounts_handled name d -> mounts_handled name d'.
Proof.
  intros d'.
  assert (H : shrinks d d').
  { unfold d', umount.
    pose proof (umount_entries_shrinks cleanPath target_paths "" d) as H.
    destruct (umount_entries cleanPath target_paths "" d) as [[errors|e] d1];
      cbn [snd] in *; [|exact H].
    eapply shrinks_trans; [exact H|]. now apply shrinks_fields. }
  split; [exact H|]. intros name. now apply shrinks_handled.
Qed.

(** *** A mount and the umount that undoes it *)

Lemma with_spec_mounts_same spec : with_spec_mounts (mounts spec) spec = spec.
Proof. now destruct spec. Qed.

(** The daemon after a mount that succeeds on one fresh target of an
    instance that has a specification. *)
Lemma mount_fresh_target run request name raw_target d vm handler spec :
  let target := clean_path run raw_target in
  let vm_mount := mkVMMount (request_source_path request) (request_gid_mappings request)
                    (request_uid_mappings request) (request_mount_type request) in
  mounts_enabled run = true ->
  request_target_paths request = [(name, raw_target)] ->
  operative_instances d !! name = Some vm ->
  vm_instance_specs d !! name = Some spec ->
  invalid_target_path run target = false ->
  handlers_of name d !! target = None ->
  mount_handler run name target vm_mount = Return handler ->
  (current_state vm = running \/ is_mount_managed_by_backend handler = true ->
   activation run name target = activated) ->
  mount run request d
  = (Status_OK,
     persist_instances
       (with_specs
          (<[name := with_spec_mounts (<[target := vm_mount]> (mounts spec)) spec]>
             (vm_instance_specs d))
          (set_handlers name (<[target := handler]> (handlers_of name d))
             (snd (mounts_subscript name d))))).
Proof.
  intros target vm_mount Hen Hreq Hop Hspec Hvalid Hnone Hmake Hact.
  unfold mount. rewrite Hen, Hreq. cbn [negb mount_entries]. unfold mount_entry.
  cbn [fst snd]. fold target. rewrite Hop, Hvalid.
  destruct (mounts_subscript_spec name d) as (H1 & _ & H3 & _).
  destruct (mounts_subscript name d) as [vm_mounts d1]. cbn [fst snd] in *. subst vm_mounts.
  rewrite Hnone. fold vm_mount. rewrite Hmake.
  assert (Hrecord : specs_subscript name
                      (set_handlers name (<[target := handler]> (handlers_of name d)) d1)
                    = (spec, set_handlers name (<[target := handler]> (handlers_of name d)) d1)).
  { unfold specs_subscript. cbn. now rewrite H3, Hspec. }
  rewrite Hrecord.
  assert (Hspecs : vm_instance_specs
                     (set_handlers name (<[target := handler]> (handlers_of name d)) d1)
                   = vm_instance_specs d) by (cbn; exact H3).
  rewrite Hspecs.
  destruct (bool_decide (current_state vm = running) || is_mount_managed_by_backend handler)
    eqn:Hcond; [|reflexivity].
  rewrite Hact; [reflexivity|].
  apply orb_true_iff in Hcond as [H|H]; [left; now apply bool_decide_eq_true in H|now right].
Qed.

(** X22.  A mount that succeeds on a fresh target of an operative
    instance records the mount in the specification and its handler in
    the handler table, and persists the registry; the umount of the same
    target, when the handler deactivates, then gives back the registry,
    the handler tables and the persisted database of before the mount. *)
Theorem mount_then_umount (run : MountRun) (request : MountRequest)
    (name raw_target : string) (d : Daemon) (vm : VirtualMachine) (handler : MountHandler)
    (spec : VMSpecs) :
  let target := clean_path run raw_target in
  let vm_mount := mkVMMount (request_source_path request) (request_gid_mappings request)
                    (request_uid_mappings request) (request_mount_type request) in
  mounts_enabled run = true ->
  request_target_paths request = [(name, raw_target)] ->
  operative_instances d !! name = Some vm ->
  vm_instance_specs d !! name = Some spec ->
  mounts spec !! target = None ->
  invalid_target_path run target = false ->
  target <> "" ->
  handlers_of name d !! target = None ->
  mount_handler run name target vm_mount = Return handler ->
  (current_state vm = running \/ is_mount_managed_by_backend handler = true ->
   activation run name target = activated) ->
  deactivate_throws handler = None ->
  let mounted := mount run request d in
  let unmounted := umount (clean_path run) [(name, raw_target)] (snd mounted) in
  fst mounted = Status_OK /\
  handlers_of name (snd mounted) !! target = Some handler /\
  spec_mounts_of name (snd mounted) !! target = Some vm_mount /\
  instance_db (snd mounted) = instance_records_json (vm_instance_specs (snd mounted)) /\
  fst unmounted = Status_OK /\
  vm_instance_specs (snd unmounted) = vm_instance_specs d /\
  (forall n, handlers_of n (snd unmounted) = handlers_of n d) /\
  instance_db (snd unmounted) = instance_records_json (vm_instance_specs d) /\
  operative_instances (snd unmounted) = operative_instances d /\
  deleted_instances (snd unmounted) = deleted_instances d /\
  allocated_mac_addrs (snd unmounted) = allocated_mac_addrs d.
Proof.
  intros target vm_mount Hen Hreq Hop Hspec Hfree Hvalid Hne Hnone Hmake Hact Hdeact
    mounted unmounted.
  pose proof (mount_fresh_target run request name raw_target d vm handler spec
                Hen Hreq Hop Hspec Hvalid Hnone Hmake Hact) as Hm.
  fold target vm_mount in Hm.
  destruct (mounts_subscript_spec name d) as (_ & H2 & H3 & H4 & _).
  set (d1 := snd (mounts_subscript name d)) in *.
  assert (Hd1 : deleted_instances d1 = deleted_instances d /\
                allocated_mac_addrs d1 = allocated_mac_addrs d).
  { unfold d1, mounts_subscript. destruct (daemon_mounts d !! name); split; reflexivity. }
  destruct Hd1 as [H5 H6].
  set (tbl := <[target := handler]> (handlers_of name d)) in *.
  set (specs1 := <[name := with_spec_mounts (<[target := vm_mount]> (mounts spec)) spec]>
                   (vm_instance_specs d)) in *.
  set (dm := persist_instances (with_specs specs1 (set_handlers name tbl d1))) in *.
  assert (Hum : umount (clean_path run) [(name, raw_target)] dm
                = (Status_OK,
                   persist_instances
                     (with_mounts (alter (delete target) name (daemon_mounts dm))
                        (with_specs
                           (alter (fun spec => with_spec_mounts (delete target (mounts spec)) spec)
                              name (vm_instance_specs dm))
                           (emit (ev_deactivate name target) dm))))).
  { unfold umount. cbn [umount_entries]. unfold umount_entry. cbn [fst snd]. fold target.
    assert (Hop' : operative_instances dm !! name = Some vm) by (cbn; now rewrite H4).
    rewrite Hop'.
    assert (Hs : specs_subscript name dm = (with_spec_mounts (<[target := vm_mount]> (mounts spec)) spec, dm)).
    { unfold specs_subscript. cbn. unfold specs1. now rewrite lookup_insert_eq. }
    rewrite Hs. cbn [snd].
    assert (Hmn : mounts_subscript name dm = (tbl, dm)).
    { unfold mounts_subscript. cbn. now rewrite lookup_insert_eq. }
    rewrite Hmn. rewrite (bool_decide_eq_false_2 _ Hne).
    unfold tbl at 1. rewrite lookup_insert_eq. unfold do_unmount. cbn [fst snd].
    rewrite Hdeact. reflexivity. }
  unfold unmounted, mounted. rewrite Hm. cbn [fst snd]. rewrite Hum. cbn [fst snd].
  assert (Hspecs2 : alter (fun spec => with_spec_mounts (delete target (mounts spec)) spec)
                      name specs1 = vm_instance_specs d).
  { apply map_eq. intros n. destruct (decide (n = name)) as [->|Hn].
    - rewrite lookup_alter_eq. unfold specs1. rewrite lookup_insert_eq, Hspec. cbn.
      f_equal. rewrite delete_insert_eq, delete_id by exact Hfree.
      destruct spec; reflexivity.
    - rewrite lookup_alter_ne by congruence. unfold specs1.
      now rewrite lookup_insert_ne by congruence. }
  repeat apply conj.
  - reflexivity.
  - unfold handlers_of. cbn. rewrite lookup_insert_eq. cbn. unfold tbl.
    apply lookup_insert_eq.
  - unfold spec_mounts_of. cbn. unfold specs1. rewrite lookup_insert_eq. cbn.
    apply lookup_insert_eq.
  - reflexivity.
  - reflexivity.
  - cbn. exact Hspecs2.
  - intros n. unfold handlers_of at 1. cbn. destruct (decide (n = name)) as [->|Hn].
    + rewrite lookup_alter_eq, lookup_insert_eq. cbn. unfold tbl.
      rewrite delete_insert_eq. apply delete_id. exact Hnone.
    + rewrite lookup_alter_ne, lookup_insert_ne by congruence. apply (H2 n).
  - cbn. now rewrite Hspecs2.
  - cbn. exact H4.
  - cbn. exact H5.
  - cbn. exact H6.
Qed.

Lemma mount_then_umount_witness :
  let mounted := mount mounting_run mount_request_new daemon_two_mounts in
  let unmounted := umount (fun p => p) [("x", "/new")] (snd mounted) in
  fst mounted = Status_OK /\
  handlers_of "x" (snd mounted) !! "/new"
  = Some (mkMountHandler (mkVMMount "/home/user/new" [] [] 0) false None) /\
  spec_mounts_of "x" (snd mounted) !! "/new" = Some (mkVMMount "/home/user/new" [] [] 0) /\
  instance_db (snd mounted) = instance_records_json (vm_instance_specs (snd mounted)) /\
  fst unmounted = Status_OK /\
  vm_instance_specs (snd unmounted) = vm_instance_specs daemon_two_mounts /\
  (forall n, handlers_of n (snd unmounted) = handlers_of n daemon_two_mounts) /\
  instance_db (snd unmounted) = instance_records_json (vm_instance_specs daemon_two_mounts) /\
  operative_instances (snd unmounted) = operative_instances daemon_two_mounts /\
  deleted_instances (snd unmounted) = deleted_instances daemon_two_mounts /\
  allocated_mac_addrs (snd unmounted) = allocated_mac_addrs daemon_two_mounts.
Proof.
  refine (mount_then_umount mounting_run mount_request_new "x" "/new" daemon_two_mounts
            (mkVM "x" running running None)
            (mkMountHandler (mkVMMount "/home/user/new" [] [] 0) false None)
            _ _ _ _ _ _ _ _ _ _ _ _); try reflexivity.
  - discriminate.
Defined.

(** *** Delete with purge *)

Lemma release_resources_lookup name d :
  let d' := release_resources name d in
  operative_instances d' = operative_instances d /\
  deleted_instances d' = deleted_instances d /\
  daemon_mounts d' = daemon_mounts d /\
  instance_db d' = instance_db d /\
  vm_instance_specs d' = delete name (vm_instance_specs d).
Proof.
  unfold release_resources. destruct (vm_instance_specs d !! name) as [spec|] eqn:E; cbn.
  - repeat apply conj; reflexivity.
  - repeat apply conj; try reflexivity. symmetry. now apply delete_id.
Qed.

(** The second loop of [delet], over the deleted instances of the
    selection. *)
Lemma purge_deleted_lookup (sel : LinearInstanceSelection) purged d :
  let r := foldl (fun acc vm_it => purge_deleted vm_it acc) (purged, d) sel in
  fst r = purged ++ sel.*1 /\
  instance_db (snd r) = instance_db d /\
  operative_instances (snd r) = operative_instances d /\
  daemon_mounts (snd r) = daemon_mounts d /\
  forall n,
    deleted_instances (snd r) !! n
    = (if decide (n ∈ sel.*1) then None else deleted_instances d !! n) /\
    vm_instance_specs (snd r) !! n
    = (if decide (n ∈ sel.*1) then None else vm_instance_specs d !! n).
Proof.
  revert purged d. induction sel as [|[name vm] rest IH]; intros purged d.
  - cbn -[decide]. rewrite app_nil_r. repeat apply conj; try reflexivity.
    all: intros; now rewrite decide_False by apply not_elem_of_nil.
  - cbn [foldl].
    destruct (release_resources_lookup name d) as (R1 & R2 & R3 & R4 & R5). cbn zeta in *.
    set (d1 := with_deleted (delete name (deleted_instances (release_resources name d)))
                 (release_resources name d)).
    change (purge_deleted (name, vm) (purged, d)) with (purged ++ [name], d1).
    specialize (IH (purged ++ [name]) d1). cbn zeta in IH.
    destruct IH as (I1 & I2 & I3 & I4 & I5).
    change (((name, vm) :: rest).*1) with (name :: rest.*1).
    split; [rewrite I1, <- app_assoc; reflexivity|].
    split; [rewrite I2; exact R4|]. split; [rewrite I3; exact R1|].
    split; [rewrite I4; exact R3|].
    intros n. destruct (I5 n) as [J1 J2]. rewrite J1, J2. unfold d1. cbn.
    rewrite R2, R5.
    destruct (decide (n ∈ rest.*1)) as [Hin|Hin].
    + rewrite !decide_True by (now right). auto.
    + destruct (decide (n = name)) as [->|Hne].
      * rewrite !decide_True by left. now rewrite !lookup_delete_eq.
      * rewrite !decide_False by (rewrite elem_of_cons; tauto).
        now rewrite !lookup_delete_ne by congruence.
Qed.

Lemma targeted_deleted_selection op del names n :
  (forall x, is_Some (op !! x) -> del !! x = None) ->
  n ∈ (deleted_selection (select_instances op del names GroupAll)).*1
  <-> targeted names del n = true.
Proof.
  intros Hdisj.
  unfold targeted. rewrite andb_true_iff, bool_decide_eq_true, list_elem_of_fmap. split.
  - intros ([k vm] & -> & Hin). apply select_instances_deleted_elem in Hin; [|auto|exact Hdisj].
    cbn. destruct Hin as [-> ->]. eauto.
  - intros [Hr [vm Hvm]]. exists (n, vm). split; [reflexivity|].
    apply select_instances_deleted_elem; auto.
Qed.

(** X23.  A delete with [purge] on a well-formed daemon, whose names all
    exist and whose targets the hypervisor shuts down: the status is OK
    and the reply lists, once each, the operative targets followed by the
    deleted ones; every target is gone from both tables and from the
    registry, whose other entries are untouched; the allocated MAC
    addresses are those of the specifications that remain; the registry
    is persisted; and the handler table of a purged operative instance
    stays behind, empty. *)
Theorem delet_purge (shutdown : VirtualMachine -> Exc VirtualMachine)
    (instances_snapshots : list (string * string)) (d : Daemon) :
  let names := fst <$> instances_snapshots in
  let selection := select_instances (operative_instances d) (deleted_instances d) names
                     GroupAll in
  let reply := (operative_selection selection).*1 ++ (deleted_selection selection).*1 in
  well_formed d ->
  (forall n, n ∈ names ->
     is_Some (operative_instances d !! n) \/ is_Some (deleted_instances d !! n)) ->
  (forall n vm, requested names n = true -> operative_instances d !! n = Some vm ->
     exists instance, shutdown vm = Return instance) ->
  let result := delet shutdown instances_snapshots true d in
  let d' := snd result in
  result = (Status_OK, reply, d') /\
  NoDup reply /\
  allocated_mac_addrs d' = macs_of_specs (vm_instance_specs d') /\
  instance_db d' = instance_records_json (vm_instance_specs d') /\
  forall n,
    let gone := targeted names (operative_instances d) n
                || targeted names (deleted_instances d) n in
    (n ∈ reply <-> gone = true) /\
    operative_instances d' !! n = (if gone then None else operative_instances d !! n) /\
    deleted_instances d' !! n = (if gone then None else deleted_instances d !! n) /\
    vm_instance_specs d' !! n = (if gone then None else vm_instance_specs d !! n) /\
    daemon_mounts d' !! n
    = (if targeted names (operative_instances d) n then Some ∅ else daemon_mounts d !! n).
Proof.
  intros names selection reply Hwf Hexist Hshut result d'.
  pose proof (delet_keeps_well_formed shutdown instances_snapshots true d Hwf) as Hwf'.
  fold result d' in Hwf'.
  assert (Hdisj : forall x, is_Some (operative_instances d !! x) ->
                            deleted_instances d !! x = None)
    by (intros x; apply tables_agree_disjoint, Hwf).
  assert (Hres : result = (Status_OK, reply,
                           persist_instances
                             (snd (foldl (fun acc vm_it => purge_deleted vm_it acc)
                                     ((operative_selection selection).*1,
                                      snd (delete_operatives shutdown true
                                             (operative_selection selection) [] d))
                                     (deleted_selection selection))))).
  { unfold result, delet. fold names.
    assert (Hok : ok (snd (select_instances_and_react (operative_instances d)
                             (deleted_instances d) names GroupAll
                             require_existing_instances_reaction)) = true).
    { apply select_instances_existing_ok; try reflexivity; [discriminate|exact Hexist]. }
    unfold select_instances_and_react in *. cbn [snd] in Hok. fold selection in Hok |- *.
    rewrite Hok. rewrite (grpc_status_for_selection_OK _ _ Hok).
    assert (Hshut' : forall it, it ∈ operative_selection selection ->
                                exists instance, shutdown (snd it) = Return instance).
    { intros [n vm] Hit. apply select_instances_operative_elem in Hit; [|auto].
      destruct Hit as [Hr Hvm]. exact (Hshut n vm Hr Hvm). }
    pose proof (delete_operatives_lookup shutdown true (operative_selection selection) [] d
                  (proj1 (select_instances_NoDup _ _ _ _)) Hshut') as H.
    cbn zeta in H. destruct H as (H1 & _).
    destruct (delete_operatives shutdown true (operative_selection selection) [] d)
      as [r d1]. cbn [fst snd] in *. subst r. cbn [app].
    pose proof (purge_deleted_lookup (deleted_selection selection)
                  ((operative_selection selection).*1) d1) as K.
    cbn zeta in K. destruct K as (K1 & _).
    destruct (foldl _ _ _) as [purged d2]. cbn [fst snd] in *. subst purged. reflexivity. }
  assert (Hd' : d' = snd (snd result, snd result)) by reflexivity.
  assert (Hgone : forall n, n ∈ reply
                            <-> targeted names (operative_instances d) n
                                || targeted names (deleted_instances d) n = true).
  { intros n. unfold reply. rewrite elem_of_app, orb_true_iff.
    unfold selection. rewrite targeted_operative_selection.
    now rewrite (targeted_deleted_selection _ _ _ _ Hdisj). }
  split; [unfold d'; rewrite Hres; reflexivity|].
  split.
  { unfold reply. apply NoDup_app. destruct (select_instances_NoDup (operative_instances d)
      (deleted_instances d) names GroupAll) as [N1 N2]. fold selection in N1, N2.
    split; [exact N1|]. split; [|exact N2].
    intros n Hn1 Hn2. unfold selection in Hn1, Hn2.
    apply targeted_operative_selection in Hn1.
    apply (targeted_deleted_selection _ _ _ _ Hdisj) in Hn2.
    unfold targeted in *. apply andb_true_iff in Hn1 as [_ Hn1], Hn2 as [_ Hn2].
    apply bool_decide_eq_true in Hn1, Hn2. rewrite (Hdisj n Hn1) in Hn2.
    destruct Hn2; discriminate. }
  split; [apply Hwf'|].
  split; [unfold d'; rewrite Hres; reflexivity|].
  intros n gone. split; [apply Hgone|].
  unfold d'. rewrite Hres. cbn [snd].
  assert (Hshut' : forall it, it ∈ operative_selection selection ->
                              exists instance, shutdown (snd it) = Return instance).
  { intros [k vm] Hit. apply select_instances_operative_elem in Hit; [|auto].
    destruct Hit as [Hr Hvm]. exact (Hshut k vm Hr Hvm). }
  pose proof (delete_operatives_lookup shutdown true (operative_selection selection) [] d
                (proj1 (select_instances_NoDup _ _ _ _)) Hshut') as H.
  cbn zeta in H. destruct H as (_ & _ & _ & _ & H5).
  set (d1 := snd (delete_operatives shutdown true (operative_selection selection) [] d)) in *.
  pose proof (purge_deleted_lookup (deleted_selection selection)
                ((operative_selection selection).*1) d1) as K.
  cbn zeta in K. destruct K as (_ & _ & K3 & K4 & K5).
  destruct (H5 n) as (J1 & J2 & J3 & J4). destruct (K5 n) as [L1 L2].
  cbn [persist_instances with_db operative_instances deleted_instances vm_instance_specs
       daemon_mounts].
  rewrite K3, K4, L1, L2, J1, J2, J3, J4.
  unfold gone.
  destruct (targeted names (operative_instances d) n) eqn:Eo;
    destruct (targeted names (deleted_instances d) n) eqn:Ed; cbn [orb].
  - rewrite !decide_True by (first [now apply targeted_operative_selection
                                   |now apply (targeted_deleted_selection _ _ _ _ Hdisj)]).
    auto.
  - rewrite !(decide_True (P := n ∈ (operative_selection selection).*1))
      by (now apply targeted_operative_selection).
    rewrite !(decide_False (P := n ∈ (deleted_selection selection).*1))
      by (unfold selection; rewrite (targeted_deleted_selection _ _ _ _ Hdisj); congruence).
    repeat apply conj; try reflexivity.
    apply Hdisj. unfold targeted in Eo. apply andb_true_iff in Eo as [_ Eo].
    now apply bool_decide_eq_true in Eo.
  - rewrite !(decide_False (P := n ∈ (operative_selection selection).*1))
      by (unfold selection; rewrite targeted_operative_selection; congruence).
    rewrite !(decide_True (P := n ∈ (deleted_selection selection).*1))
      by (now apply (targeted_deleted_selection _ _ _ _ Hdisj)).
    repeat apply conj; try reflexivity.
    unfold targeted in Ed. apply andb_true_iff in Ed as [_ Ed].
    apply bool_decide_eq_true in Ed.
    destruct (operative_instances d !! n) as [vm|] eqn:E; [|reflexivity].
    rewrite (Hdisj n) in Ed by eauto. destruct Ed; discriminate.
  - rewrite !(decide_False (P := n ∈ (operative_selection selection).*1))
      by (unfold selection; rewrite targeted_operative_selection; congruence).
    rewrite !(decide_False (P := n ∈ (deleted_selection selection).*1))
      by (unfold selection; rewrite (targeted_deleted_selection _ _ _ _ Hdisj); congruence).
    auto.
Qed.

Lemma delet_purge_witness :
  let d := daemon_two_mounts in
  let names := fst <$> [("x", "")] in
  let selection := select_instances (operative_instances d) (deleted_instances d) names
                     GroupAll in
  let reply := (operative_selection selection).*1 ++ (deleted_selection selection).*1 in
  let result := delet powering_off [("x", "")] true d in
  let d' := snd result in
  result = (Status_OK, reply, d') /\
  NoDup reply /\
  allocated_mac_addrs d' = macs_of_specs (vm_instance_specs d') /\
  instance_db d' = instance_records_json (vm_instance_specs d') /\
  forall n,
    let gone := targeted names (operative_instances d) n
                || targeted names (deleted_instances d) n in
    (n ∈ reply <-> gone = true) /\
    operative_instances d' !! n = (if gone then None else operative_instances d !! n) /\
    deleted_instances d' !! n = (if gone then None else deleted_instances d !! n) /\
    vm_instance_specs d' !! n = (if gone then None else vm_instance_specs d !! n) /\
    daemon_mounts d' !! n
    = (if targeted names (operative_instances d) n then Some ∅ else daemon_mounts d !! n).
Proof.
  apply (delet_purge powering_off [("x", "")] daemon_two_mounts).
  - exact daemon_two_mounts_well_formed.
  - intros n Hn. apply list_elem_of_singleton in Hn. subst n. left. vm_compute. eauto.
  - intros n vm _ _. eexists. reflexivity.
Defined.

(** The purge of the only instance leaves nothing of it but an empty
    handler table. *)
Example delet_purge_only_instance :
  let result := delet powering_off [("x", "")] true daemon_two_mounts in
  fst result = (Status_OK, ["x"]) /\
  vm_instance_specs (snd result) = ∅ /\
  operative_instances (snd result) = ∅ /\
  allocated_mac_addrs (snd result) = ∅ /\
  daemon_mounts (snd result) = {[ "x" := ∅ ]} /\
  instance_db (snd result) = [].
Proof. vm_compute. repeat apply conj; reflexivity. Qed.

Lemma foldl_insert_error_lookup {A} (f : A -> string) code (l : list A) errors n :
  foldl (fun errors x => insert_error (f x) code errors) errors l !! n
  = match errors !! n with
    | Some c => Some c
    | None => if decide (n ∈ f <$> l) then Some code else None
    end.
Proof.
  revert errors. induction l as [|x l IH]; intros errors.
  - cbn -[decide]. rewrite decide_False by apply not_elem_of_nil. now destruct (errors !! n).
  - cbn [foldl]. rewrite IH. change (f <$> x :: l) with (f x :: (f <$> l)).
    unfold insert_error. destruct (errors !! f x) as [c|] eqn:E.
    + destruct (errors !! n) as [c'|] eqn:E'; [reflexivity|].
      assert (n <> f x) by congruence.
      destruct (decide (n ∈ f <$> l)).
      * now rewrite decide_True by (now right).
      * now rewrite decide_False by (rewrite elem_of_cons; tauto).
    + destruct (decide (n = f x)) as [->|Hne].
      * rewrite lookup_insert_eq, E. now rewrite decide_True by left.
      * rewrite lookup_insert_ne by congruence. destruct (errors !! n); [reflexivity|].
        destruct (decide (n ∈ f <$> l)).
        -- now rewrite decide_True by (now right).
        -- now rewrite decide_False by (rewrite elem_of_cons; tauto).
Qed.

(** The details of a rejected start: the names the request gives that
    are not operative, each with what is wrong with it. *)
Lemma make_start_error_details_lookup op del names n :
  names <> [] ->
  make_start_error_details (select_instances op del names GroupOperative) !! n
  = if decide (n ∈ names /\ op !! n = None)
    then Some (match del !! n with Some _ => INSTANCE_DELETED | None => DOES_NOT_EXIST end)
    else None.
Proof.
  intros Hne. rewrite select_instances_named by exact Hne.
  unfold make_start_error_details.
  rewrite (foldl_insert_error_lookup (fun name : string => name) DOES_NOT_EXIST).
  rewrite (foldl_insert_error_lookup fst INSTANCE_DELETED). rewrite lookup_empty.
  rewrite list_fmap_id.
  change (fst <$> deleted_selection (partition_of op del (first_occurrences names)))
    with ((deleted_selection (partition_of op del (first_occurrences names))).*1).
  rewrite partition_of_deleted_names.
  cbn [missing_instances partition_of].
  destruct (decide (n ∈ filter _ (first_occurrences names))) as [Hd|Hd].
  - apply list_elem_of_filter in Hd as [[Hop [vm Hdel]] Hn].
    rewrite first_occurrences_elem in Hn. rewrite decide_True by auto. now rewrite Hdel.
  - destruct (decide (n ∈ filter _ (first_occurrences names))) as [Hm|Hm].
    + apply list_elem_of_filter in Hm as [[Hop Hdel] Hn].
      rewrite first_occurrences_elem in Hn. rewrite decide_True by auto. now rewrite Hdel.
    + destruct (decide (n ∈ names /\ op !! n = None)) as [[Hn Hop]|Hno]; [|reflexivity].
      exfalso. apply (proj2 (first_occurrences_elem n names)) in Hn.
      destruct (del !! n) as [vm|] eqn:Hdel.
      * apply Hd. apply list_elem_of_filter. split; [|exact Hn]. split; [exact Hop|].
        rewrite Hdel. eauto.
      * apply Hm. apply list_elem_of_filter. auto.
Qed.

Lemma start_rejection health_check mounts_enabled serialize instance_names d :
  (instances_running (operative_instances d) = false -> health_check = None) ->
  (exists n, n ∈ instance_names /\ operative_instances d !! n = None) ->
  exists details,
    start health_check mounts_enabled serialize instance_names d
    = (start_replied (mkStatus ABORTED "instance(s) missing" (serialize details)), d) /\
    forall n,
      details !! n
      = if decide (n ∈ instance_names /\ operative_instances d !! n = None)
        then Some (match deleted_instances d !! n with
                   | Some _ => INSTANCE_DELETED
                   | None => DOES_NOT_EXIST
                   end)
        else None.
Proof.
  intros Hhealth (n0 & Hn0 & Hop0).
  assert (Hne : instance_names <> []) by (intros ->; now apply not_elem_of_nil in Hn0).
  exists (make_start_error_details
            (select_instances (operative_instances d) (deleted_instances d) instance_names
               GroupOperative)).
  split; [|intros n; now apply make_start_error_details_lookup].
  unfold start.
  assert (Hh : (if negb (instances_running (operative_instances d)) then health_check
                else None) = None).
  { destruct (instances_running (operative_instances d)); [reflexivity|]. now apply Hhealth. }
  rewrite Hh. unfold select_instances_and_react.
  set (sel := select_instances _ _ _ _).
  set (reaction := mkSelectionReaction _ _ _).
  pose proof (grpc_status_for_selection_code sel reaction) as Hcode. cbn zeta in Hcode.
  assert (Hbad : deleted_selection sel <> [] \/ missing_instances sel <> []).
  { unfold sel. rewrite select_instances_named by exact Hne.
    destruct (deleted_instances d !! n0) as [vm|] eqn:Hdel.
    - left. intros Hnil. rewrite partition_of_deleted_nil in Hnil.
      specialize (Hnil n0 (proj2 (first_occurrences_elem n0 _) Hn0) Hop0). congruence.
    - right. intros Hnil. rewrite partition_of_missing_nil in Hnil.
      destruct (Hnil n0 (proj2 (first_occurrences_elem n0 _) Hn0)) as [[v H]|[v H]];
        congruence. }
  assert (Hab : error_code (grpc_status_for_selection sel reaction) = ABORTED).
  { rewrite Hcode. unfold reaction. cbn [operative_reaction deleted_reaction missing_reaction].
    destruct (missing_instances sel) as [|m ms]; destruct (deleted_selection sel) as [|x xs];
      cbn; try reflexivity.
    destruct Hbad; congruence. }
  unfold ok. rewrite Hab. reflexivity.
Qed.

Lemma start_selection_accepted op del names :
  (forall n, n ∈ names -> is_Some (op !! n)) ->
  ok (grpc_status_for_selection (select_instances op del names GroupOperative)
        (mkSelectionReaction (mkReaction OK None) (mkReaction ABORTED None)
           (mkReaction ABORTED None))) = true.
Proof.
  intros Hall. apply grpc_status_for_selection_ok.
  cbn [operative_reaction deleted_reaction missing_reaction].
  split; [now destruct (operative_selection _)|].
  destruct names as [|n0 names'].
  - rewrite select_instances_nil. cbn. auto.
  - rewrite select_instances_named by discriminate.
    rewrite !component_code_ok by discriminate. split.
    + apply partition_of_deleted_nil. intros n Hn Hop.
      rewrite first_occurrences_elem in Hn. destruct (Hall n Hn) as [vm Hvm]. congruence.
    + apply partition_of_missing_nil. intros n Hn.
      rewrite first_occurrences_elem in Hn. left. now apply Hall.
Qed.

(** X24.  When the health check of the hypervisor is not run or
    returns, [start] answers ABORTED exactly when the request names an
    instance that is not operative.  It then starts nothing, not even
    the operative instances of the request: the daemon is as before, the
    message is the fixed text, and the details list each name of the
    request that is not operative, as deleted if it is in the deleted
    table and as not existing otherwise. *)
Theorem start_all_or_nothing (health_check : option exception) (mounts_enabled : bool)
    (serialize : gmap string StartErrorCode -> string) (instance_names : list string)
    (d : Daemon) :
  (instances_running (operative_instances d) = false -> health_check = None) ->
  let result := start health_check mounts_enabled serialize instance_names d in
  ((exists status, fst result = start_replied status /\ error_code status = ABORTED)
   <-> exists n, n ∈ instance_names /\ operative_instances d !! n = None) /\
  ((exists n, n ∈ instance_names /\ operative_instances d !! n = None) ->
   exists details,
     result = (start_replied (mkStatus ABORTED "instance(s) missing" (serialize details)), d) /\
     forall n,
       details !! n
       = if decide (n ∈ instance_names /\ operative_instances d !! n = None)
         then Some (match deleted_instances d !! n with
                    | Some _ => INSTANCE_DELETED
                    | None => DOES_NOT_EXIST
                    end)
         else None).
Proof.
  intros Hhealth result. split; [|apply start_rejection; exact Hhealth].
  split.
  - intros (status & Hst & Hcode).
    destruct (decide (Forall (fun n => is_Some (operative_instances d !! n)) instance_names))
      as [Hall|Hnot].
    + exfalso. rewrite Forall_forall in Hall.
      pose proof (start_selection_accepted (operative_instances d) (deleted_instances d)
                    instance_names Hall) as Hok.
      unfold result, start in Hst.
      assert (Hh : (if negb (instances_running (operative_instances d)) then health_check
                    else None) = None).
      { destruct (instances_running (operative_instances d)); [reflexivity|].
        now apply Hhealth. }
      rewrite Hh in Hst. unfold select_instances_and_react in Hst. rewrite Hok in Hst.
      cbn [negb] in Hst.
      destruct (start_targets _ _ d) as [[l|e] d']; cbn [fst] in Hst; [discriminate|].
      inversion Hst; subst. discriminate.
    + apply not_Forall_Exists in Hnot; [|intros x; apply _].
      apply Exists_exists in Hnot as (n & Hn & Hno). exists n. split; [exact Hn|].
      destruct (operative_instances d !! n) as [vm|] eqn:E; [|reflexivity].
      exfalso. apply Hno. rewrite E. eauto.
  - intros Hbad. destruct (start_rejection health_check mounts_enabled serialize
                             instance_names d Hhealth Hbad) as (details & Hr & _).
    unfold result. rewrite Hr. eexists. split; reflexivity.
Qed.

Lemma start_all_or_nothing_witness :
  let d := daemon_two_mounts in
  let result := start None true (fun _ => "") ["x"; "gone"] d in
  ((exists status, fst result = start_replied status /\ error_code status = ABORTED)
   <-> exists n, n ∈ ["x"; "gone"] /\ operative_instances d !! n = None) /\
  ((exists n, n ∈ ["x"; "gone"] /\ operative_instances d !! n = None) ->
   exists details : gmap string StartErrorCode,
     result = (start_replied (mkStatus ABORTED "instance(s) missing" ""), d) /\
     forall n,
       details !! n
       = if decide (n ∈ ["x"; "gone"] /\ operative_instances d !! n = None)
         then Some (match deleted_instances d !! n with
                    | Some _ => INSTANCE_DELETED
                    | None => DOES_NOT_EXIST
                    end)
         else None).
Proof.
  apply (start_all_or_nothing None true (fun _ => "") ["x"; "gone"] daemon_two_mounts).
  reflexivity.
Defined.

Lemma kept_as_fields loaded spec :
  kept_as loaded spec ->
  deleted spec = deleted loaded /\ mac_set_from spec = mac_set_from loaded.
Proof.
  unfold kept_as. intros <-. destruct spec. split; reflexivity.
Qed.

(** One pass of the constructor's loop over a specification that passes
    the checks. *)
Lemma reconcile_spec_admits run name spec d invalid vm :
  vm_instance_specs d !! name = Some spec ->
  has_record_for run name = true ->
  NoDup (default_mac_address spec :: (mac_address <$> extra_interfaces spec)) ->
  mac_set_from spec ## allocated_mac_addrs d ->
  image_file_lost run name = false ->
  factory_create run name = Return vm ->
  exists d' spec',
    reconcile_spec run (name, spec) (d, invalid) = Return (d', invalid) /\
    vm_instance_specs d' = <[name := spec']> (vm_instance_specs d) /\
    kept_as spec spec' /\
    allocated_mac_addrs d' = mac_set_from spec ∪ allocated_mac_addrs d /\
    operative_instances d'
    = (if deleted spec then operative_instances d
       else <[name := vm]> (operative_instances d)) /\
    deleted_instances d'
    = (if deleted spec then <[name := vm]> (deleted_instances d)
       else deleted_instances d).
Proof.
  intros Hs Hrec Hnd Hdisj Himg Hvm. unfold reconcile_spec.
  rewrite Hrec. cbn [negb]. unfold merge_if_disjoint.
  rewrite (decide_True (P := mac_set_from spec ## allocated_mac_addrs d)) by exact Hdisj.
  cbn [fst snd negb]. rewrite (proj2 (size_test_NoDup spec) Hnd). cbn [orb].
  rewrite Himg, Hvm. cbn [mbind Exc_bind].
  set (incompatible := deleted spec && negb (state spec =? state_code stopped)%Z).
  set (d1 := if deleted spec then _ else _).
  set (d2 := with_allocated _ d1).
  set (spec1 := if incompatible then with_spec_state (state_code stopped) spec else spec).
  set (d3 := if incompatible then _ else d2).
  assert (H3 : vm_instance_specs d3 = <[name := spec1]> (vm_instance_specs d) /\
               allocated_mac_addrs d3 = mac_set_from spec ∪ allocated_mac_addrs d /\
               operative_instances d3 = operative_instances d1 /\
               deleted_instances d3 = deleted_instances d1).
  { subst d3 spec1 d2. destruct incompatible; cbn.
    - destruct (deleted spec); auto.
    - rewrite (insert_id _ _ _ Hs). destruct (deleted spec); auto. }
  destruct H3 as (Hs3 & Ha3 & Ho3 & Hd3).
  assert (Hk1 : kept_as spec spec1).
  { subst spec1. unfold kept_as. destruct incompatible; destruct spec; reflexivity. }
  assert (Ht1 : operative_instances d1
                = (if deleted spec then operative_instances d
                   else <[name := vm]> (operative_instances d)) /\
                deleted_instances d1
                = (if deleted spec then <[name := vm]> (deleted_instances d)
                   else deleted_instances d)).
  { subst d1. destruct (deleted spec); cbn; auto. }
  set (d4 := if negb (deleted spec1) then init_mounts run name d3 else d3).
  assert (H4 : exists spec',
             vm_instance_specs d4 = <[name := spec']> (vm_instance_specs d) /\
             kept_as spec spec' /\
             allocated_mac_addrs d4 = mac_set_from spec ∪ allocated_mac_addrs d /\
             operative_instances d4 = operative_instances d1 /\
             deleted_instances d4 = deleted_instances d1).
  { subst d4. destruct (negb (deleted spec1)).
    - destruct (init_mounts_only_mounts run name d3 spec1) as (M & Hs' & Ha' & Ho' & Hd' & _).
      { rewrite Hs3. apply lookup_insert_eq. }
      exists (with_spec_mounts M spec1). rewrite Hs', Ha', Ho', Hd', Hs3, insert_insert_eq.
      repeat apply conj; try assumption; try reflexivity.
    - exists spec1. auto. }
  destruct H4 as (spec' & Hs4 & Hk4 & Ha4 & Ho4 & Hd4).
  destruct Ht1 as [Hop1 Hdel1].
  eexists. exists spec'. split; [reflexivity|].
  match goal with |- context [if ?b then emit _ d4 else d4] => destruct b end;
    cbn [vm_instance_specs allocated_mac_addrs operative_instances deleted_instances emit];
    rewrite Hs4, Ha4, Ho4, Hd4, Hop1, Hdel1; auto 10.
Qed.

Lemma reconcile_specs_admits run registry todo d :
  macs_disjoint registry ->
  (forall name spec, registry !! name = Some spec ->
     has_record_for run name = true /\
     NoDup (default_mac_address spec :: (mac_address <$> extra_interfaces spec)) /\
     image_file_lost run name = false /\
     exists vm, factory_create run name = Return vm) ->
  NoDup todo.*1 ->
  (forall entry, entry ∈ todo -> registry !! fst entry = Some (snd entry)) ->
  admitting run registry todo d ->
  exists d', reconcile_specs run todo (d, []) = Return (d', []) /\
             admitting run registry [] d'.
Proof.
  intros Hdis Hgood. revert d.
  induction todo as [|[name spec] rest IH]; intros d Hnd Htodo Hinv.
  - exists d. split; [reflexivity|exact Hinv].
  - change (((name, spec) :: rest).*1) with (name :: rest.*1) in *.
    inversion Hnd as [|? ? Hfresh Hnd']; subst.
    assert (Hreg : registry !! name = Some spec) by (apply (Htodo (name, spec)); left).
    destruct Hinv as [Hmac Hinv].
    change (((name, spec) :: rest).*1) with (name :: rest.*1) in *.
    assert (Hs : vm_instance_specs d !! name = Some spec /\
                 operative_instances d !! name = None /\
                 deleted_instances d !! name = None).
    { specialize (Hinv name). rewrite Hreg in Hinv.
      rewrite decide_True in Hinv by left. exact Hinv. }
    destruct Hs as (Hs & Hop & Hdel).
    destruct (Hgood name spec Hreg) as (Hrec & Hmacs & Himg & vm & Hvm).
    assert (Hdisj : mac_set_from spec ## allocated_mac_addrs d).
    { intros mac H1 H2. rewrite Hmac in H2. apply elem_of_macs_of_specs in H2.
      destruct H2 as (n & s & Hn & Hin). rewrite lookup_delete_all in Hn. revert Hn.
      destruct (decide (n ∈ name :: rest.*1)) as [|Hout]; [discriminate|]. intros Hn.
      assert (Hne : name <> n) by (intros ->; apply Hout; left).
      exact (Hdis name n spec s Hne Hreg Hn mac H1 Hin). }
    destruct (reconcile_spec_admits run name spec d [] vm Hs Hrec Hmacs Hdisj Himg Hvm)
      as (d1 & spec' & E & Es & Hk & Ea & Eo & Ed).
    destruct (IH d1 Hnd') as (d' & E' & Hinv').
    { intros entry Hin. apply Htodo. now right. }
    { split.
      - rewrite Ea, Hmac.
        assert (Hd : delete_all rest.*1 registry
                     = <[name := spec]> (delete_all (name :: rest.*1) registry)).
        { apply map_eq. intros n. destruct (decide (n = name)) as [->|Hne].
          - rewrite lookup_insert_eq, lookup_delete_all.
            now rewrite decide_False by exact Hfresh.
          - rewrite lookup_insert_ne by congruence. rewrite !lookup_delete_all.
            destruct (decide (n ∈ rest.*1)) as [Hin|Hout].
            + now rewrite decide_True by (now right).
            + now rewrite decide_False by (rewrite elem_of_cons; tauto). }
        rewrite Hd. rewrite macs_of_specs_insert; [reflexivity|].
        rewrite lookup_delete_all. now rewrite decide_True by left.
      - intros n. specialize (Hinv n). rewrite Es, Eo, Ed.
        destruct (decide (n = name)) as [->|Hne].
        + rewrite Hreg. rewrite decide_False by exact Hfresh.
          exists spec', vm. rewrite lookup_insert_eq.
          split; [exact Hvm|]. split; [reflexivity|]. split; [exact Hk|].
          destruct (deleted spec); rewrite ?lookup_insert_eq, ?Hop, ?Hdel; auto.
        + assert (Ho' : (if deleted spec then operative_instances d
                         else <[name := vm]> (operative_instances d)) !! n
                        = operative_instances d !! n)
            by (destruct (deleted spec); [reflexivity|now rewrite lookup_insert_ne]).
          assert (Hd' : (if deleted spec then <[name := vm]> (deleted_instances d)
                         else deleted_instances d) !! n
                        = deleted_instances d !! n)
            by (destruct (deleted spec); [now rewrite lookup_insert_ne|reflexivity]).
          rewrite Ho', Hd', lookup_insert_ne by congruence.
          destruct (registry !! n) as [loaded|]; [|exact Hinv].
          destruct (decide (n ∈ rest.*1)) as [Hin|Hout].
          * rewrite decide_True in Hinv by (now right). exact Hinv.
          * rewrite decide_False in Hinv by (rewrite elem_of_cons; tauto). exact Hinv. }
    exists d'. split; [|exact Hinv'].
    cbn [reconcile_specs]. rewrite E. cbn [mbind Exc_bind]. exact E'.
Qed.

Lemma constructor_admits lib db_file run registry log :
  load_db lib db_file = Return (registry, log) ->
  macs_disjoint registry ->
  (forall name spec, registry !! name = Some spec ->
     has_record_for run name = true /\
     NoDup (default_mac_address spec :: (mac_address <$> extra_interfaces spec)) /\
     image_file_lost run name = false /\
     exists vm, factory_create run name = Return vm) ->
  exists d,
    Daemon_constructor lib db_file run = Return d /\
    allocated_mac_addrs d = macs_of_specs registry /\
    forall name,
      match registry !! name with
      | None =>
          vm_instance_specs d !! name = None /\ operative_instances d !! name = None /\
          deleted_instances d !! name = None
      | Some loaded =>
          exists spec vm,
            factory_create run name = Return vm /\
            vm_instance_specs d !! name = Some spec /\ kept_as loaded spec /\
            operative_instances d !! name = (if deleted loaded then None else Some vm) /\
            deleted_instances d !! name = (if deleted loaded then Some vm else None)
      end.
Proof.
  intros Hload Hdis Hgood.
  set (d0 := mkDaemon registry ∅ ∅ ∅ ∅ ∅ ∅ [] log).
  destruct (reconcile_specs_admits run registry (map_to_list registry) d0 Hdis Hgood)
    as (d & E & Hmac & Hinv).
  - apply NoDup_fst_map_to_list.
  - intros [n s] Hin. now apply elem_of_map_to_list in Hin.
  - assert (Hall : forall n loaded, registry !! n = Some loaded ->
                                    n ∈ (map_to_list registry).*1).
    { intros n loaded Hn. apply list_elem_of_fmap. exists (n, loaded).
      split; [reflexivity|]. now apply elem_of_map_to_list. }
    split.
    + cbn. symmetry. apply set_eq. intros mac. rewrite elem_of_macs_of_specs. split.
      * intros (n & s & Hn & _). rewrite lookup_delete_all in Hn. revert Hn.
        destruct (decide (n ∈ (map_to_list registry).*1)) as [|Hout]; [discriminate|].
        intros Hn. exfalso. apply Hout. eapply Hall. exact Hn.
      * intros H. now apply elem_of_empty in H.
    + intros n. destruct (registry !! n) as [loaded|] eqn:En.
      * rewrite decide_True by (eapply Hall; exact En). cbn. rewrite En. auto.
      * cbn. rewrite En. auto.
  - exists d. split.
    + unfold Daemon_constructor. rewrite Hload. cbn [mbind Exc_bind fst snd]. fold d0.
      rewrite E. reflexivity.
    + split; [exact Hmac|]. intros n. specialize (Hinv n).
      destruct (registry !! n) as [loaded|]; [|exact Hinv].
      rewrite decide_False in Hinv by apply not_elem_of_nil. exact Hinv.
Qed.

(** X25.  When every loaded specification has a record in the vault,
    pairwise distinct MAC addresses that no other specification uses, an
    image that is not lost and a handle from the factory, the constructor
    returns and drops nothing: each loaded instance has its
    specification, changed at most in its state and its mounts, and its
    handle in the deleted table if the specification is flagged deleted
    and in the operative table otherwise; nothing else is in the registry
    or the tables; and the allocated MAC addresses are those of the
    loaded specifications. *)
Theorem constructor_admits_clean_registry (lib : Library) (db_file : option QJsonDocument)
    (run : StartupRun) (registry : gmap string VMSpecs) (log : list Event) :
  load_db lib db_file = Return (registry, log) ->
  macs_disjoint registry ->
  (forall name spec, registry !! name = Some spec ->
     has_record_for run name = true /\
     NoDup (default_mac_address spec :: (mac_address <$> extra_interfaces spec)) /\
     image_file_lost run name = false /\
     exists vm, factory_create run name = Return vm) ->
  exists d,
    Daemon_constructor lib db_file run = Return d /\
    allocated_mac_addrs d = macs_of_specs registry /\
    forall name,
      match registry !! name with
      | None =>
          vm_instance_specs d !! name = None /\ operative_instances d !! name = None /\
          deleted_instances d !! name = None
      | Some loaded =>
          exists spec vm,
            factory_create run name = Return vm /\
            vm_instance_specs d !! name = Some spec /\ kept_as loaded spec /\
            operative_instances d !! name = (if deleted loaded then None else Some vm) /\
            deleted_instances d !! name = (if deleted loaded then Some vm else None)
      end.
Proof. apply constructor_admits. Qed.

Lemma constructor_admits_clean_registry_witness :
  let registry : gmap string VMSpecs := {[ "primary" := primary_spec ]} in
  exists d,
    Daemon_constructor example_library
      (Some (doc_object [("primary", JObject (vm_spec_to_json primary_spec))]))
      accepting_startup = Return d /\
    allocated_mac_addrs d = macs_of_specs registry /\
    forall name,
      match registry !! name with
      | None =>
          vm_instance_specs d !! name = None /\ operative_instances d !! name = None /\
          deleted_instances d !! name = None
      | Some loaded =>
          exists spec vm,
            factory_create accepting_startup name = Return vm /\
            vm_instance_specs d !! name = Some spec /\ kept_as loaded spec /\
            operative_instances d !! name = (if deleted loaded then None else Some vm) /\
            deleted_instances d !! name = (if deleted loaded then Some vm else None)
      end.
Proof.
  apply (constructor_admits_clean_registry example_library
           (Some (doc_object [("primary", JObject (vm_spec_to_json primary_spec))]))
           accepting_startup {[ "primary" := primary_spec ]} []).
  - vm_compute. reflexivity.
  - intros n1 n2 s1 s2 Hne H1 H2.
    apply lookup_singleton_Some in H1 as [<- _]. apply lookup_singleton_Some in H2 as [<- _].
    congruence.
  - intros name spec H. apply lookup_singleton_Some in H as [<- <-].
    split; [reflexivity|]. split; [|split; [reflexivity|eexists; reflexivity]].
    apply (proj1 (size_test_NoDup primary_spec)). vm_compute. reflexivity.
Defined.

Lemma reconcile_spec_invalid run name spec d invalid d' invalid' :
  reconcile_spec run (name, spec) (d, invalid) = Return (d', invalid') ->
  (invalid' = invalid \/ invalid' = invalid ++ [name]) /\
  (turned_down run name spec = true -> invalid' = invalid ++ [name]).
Proof.
  unfold reconcile_spec, turned_down.
  destruct (negb (has_record_for run name)); [intros [= <- <-]; auto|].
  cbn [orb].
  destruct (size (mac_set_from spec) <=? length (extra_interfaces spec));
    cbn [orb]; [intros [= <- <-]; auto|].
  destruct (negb (snd (merge_if_disjoint _ _))); [intros [= <- <-]; auto|].
  destruct (image_file_lost run name); [intros [= <- <-]; auto|].
  destruct (factory_create run name) as [instance|e]; [|discriminate].
  cbn [mbind Exc_bind]. intros [= <- <-]. split; [auto|discriminate].
Qed.

Lemma reconcile_specs_invalid run todo d invalid d' invalid' :
  reconcile_specs run todo (d, invalid) = Return (d', invalid') ->
  (forall n, n ∈ invalid -> n ∈ invalid') /\
  (forall n, n ∈ invalid' -> n ∈ invalid \/ n ∈ todo.*1) /\
  forall n s, (n, s) ∈ todo -> turned_down run n s = true -> n ∈ invalid'.
Proof.
  revert d invalid. induction todo as [|[name spec] rest IH]; intros d invalid Hloop.
  - cbn in Hloop. injection Hloop as <- <-. split; [auto|]. split; [auto|].
    intros n s Hin. now apply not_elem_of_nil in Hin.
  - cbn [reconcile_specs] in Hloop.
    destruct (reconcile_spec run (name, spec) (d, invalid)) as [[d1 invalid1]|e] eqn:E;
      [|discriminate].
    cbn [mbind Exc_bind] in Hloop.
    destruct (reconcile_spec_invalid _ _ _ _ _ _ _ E) as [Hgrow Hbad].
    destruct (IH d1 invalid1 Hloop) as (I1 & I2 & I3).
    change (((name, spec) :: rest).*1) with (name :: rest.*1).
    assert (Hsub : forall n, n ∈ invalid -> n ∈ invalid1).
    { intros n Hn. destruct Hgrow as [->| ->]; [exact Hn|].
      apply elem_of_app. now left. }
    split; [intros n Hn; apply I1, Hsub, Hn|]. split.
    + intros n Hn. destruct (I2 n Hn) as [H1|H1]; [|right; now right].
      destruct Hgrow as [->| ->]; [now left|].
      apply elem_of_app in H1 as [H1|H1]; [now left|].
      apply list_elem_of_singleton in H1. subst. right. left.
    + intros n s Hin Hturned. apply elem_of_cons in Hin as [[= -> ->]|Hin].
      * apply I1. rewrite (Hbad Hturned). apply elem_of_app. right. left.
      * exact (I3 n s Hin Hturned).
Qed.

Lemma remove_invalid_trace invalid d :
  trace (foldl (fun d bad_spec => remove_invalid bad_spec d) d invalid)
  = trace d ++ ((fun bad_spec => ev_warning ("Removing invalid instance: " +:+ bad_spec))
                  <$> invalid).
Proof.
  revert d. induction invalid as [|x invalid IH]; intros d.
  - cbn. now rewrite app_nil_r.
  - cbn [foldl]. rewrite IH. cbn. now rewrite <- app_assoc.
Qed.

(** X26.  A loaded specification for which the vault has no record,
    whose MAC addresses are not pairwise distinct, or whose image is
    lost, is in no daemon the constructor returns: it is neither in the
    registry nor in a table, its removal is logged, and the registry is
    persisted without it. *)
Theorem constructor_drops_turned_down (lib : Library) (db_file : option QJsonDocument)
    (run : StartupRun) (registry : gmap string VMSpecs) (log : list Event) (d : Daemon)
    (name : string) (spec : VMSpecs) :
  load_db lib db_file = Return (registry, log) ->
  Daemon_constructor lib db_file run = Return d ->
  registry !! name = Some spec ->
  turned_down run name spec = true ->
  vm_instance_specs d !! name = None /\
  operative_instances d !! name = None /\
  deleted_instances d !! name = None /\
  instance_db d = instance_records_json (vm_instance_specs d) /\
  ev_warning ("Removing invalid instance: " +:+ name) ∈ trace d.
Proof.
  intros Hload Hd Hreg Hturned.
  pose proof (Daemon_constructor_agree lib db_file run d Hd) as [Hop Hdel].
  unfold Daemon_constructor in Hd. rewrite Hload in Hd. cbn [mbind Exc_bind fst snd] in Hd.
  set (d0 := mkDaemon registry ∅ ∅ ∅ ∅ ∅ ∅ [] log) in *.
  destruct (reconcile_specs run (map_to_list registry) (d0, [])) as [[d1 invalid]|e] eqn:E;
    [|discriminate].
  cbn [mbind Exc_bind fst snd mret Exc_ret] in Hd.
  destruct (reconcile_specs_invalid _ _ _ _ _ _ E) as (_ & _ & Hbad).
  assert (Hin : name ∈ invalid).
  { apply (Hbad name spec); [|exact Hturned]. now apply elem_of_map_to_list. }
  assert (Hne : invalid <> []) by (intros ->; now apply not_elem_of_nil in Hin).
  rewrite (bool_decide_eq_false_2 _ Hne) in Hd. injection Hd as <-.
  destruct (remove_invalid_fields invalid d1) as (Hs & _). cbn zeta in Hs.
  assert (Hgone : vm_instance_specs
                    (persist_instances
                       (foldl (fun d bad_spec => remove_invalid bad_spec d) d1 invalid))
                  !! name = None).
  { cbn. rewrite Hs, lookup_delete_all. now rewrite decide_True by exact Hin. }
  split; [exact Hgone|]. split.
  { destruct (operative_instances _ !! name) eqn:Eo; [|reflexivity].
    destruct (Hop name) as (s & Hs' & _); [eauto|]. congruence. }
  split.
  { destruct (deleted_instances _ !! name) eqn:Ed; [|reflexivity].
    destruct (Hdel name) as (s & Hs' & _); [eauto|]. congruence. }
  split; [reflexivity|].
  cbn. rewrite remove_invalid_trace. apply elem_of_app. right.
  apply list_elem_of_fmap. exists name. auto.
Qed.

Lemma constructor_drops_turned_down_witness :
  vm_instance_specs daemon_without_vault !! "primary" = None /\
  operative_instances daemon_without_vault !! "primary" = None /\
  deleted_instances daemon_without_vault !! "primary" = None /\
  instance_db daemon_without_vault
  = instance_records_json (vm_instance_specs daemon_without_vault) /\
  ev_warning ("Removing invalid instance: " +:+ "primary") ∈ trace daemon_without_vault.
Proof.
  apply (constructor_drops_turned_down example_library
           (Some (doc_object [("primary", JObject (vm_spec_to_json primary_spec))]))
           vaultless_startup {[ "primary" := primary_spec ]} [] daemon_without_vault
           "primary" primary_spec).
  - vm_compute. reflexivity.
  - vm_compute. reflexivity.
  - apply lookup_singleton_eq.
  - reflexivity.
Defined.

Lemma check_requested_macs_NoDup ifaces s s' :
  check_requested_macs ifaces s = Return s' ->
  NoDup (filter (fun m => m <> "") (mac_address <$> ifaces)).
Proof.
  revert s. induction ifaces as [|iface rest IH]; intros s H; cbn in H.
  - constructor.
  - cbn [fmap list_fmap]. rewrite filter_cons.
    destruct (decide (mac_address iface = "")) as [He|Hne].
    + rewrite bool_decide_eq_true_2 in H by assumption. cbn in H.
      rewrite decide_False by tauto. now apply IH in H.
    + rewrite bool_decide_eq_false_2 in H by assumption. cbn in H.
      destruct (decide (mac_address iface ∈ s)) as [Hin|Hout]; [discriminate|].
      rewrite decide_True by exact Hne. constructor; [|now apply IH in H].
      apply check_requested_macs_spec in H as [_ Hdis]. intros Hin.
      apply (proj1 (elem_of_disjoint _ _) Hdis (mac_address iface)).
      * unfold requested_macs. now apply elem_of_list_to_set.
      * set_solver.
Qed.

Lemma generate_missing_macs_NoDup ifaces s g ifaces' s' g' :
  generate_missing_macs ifaces s g = (Return ifaces', s', g') ->
  NoDup (filter (fun m => m <> "") (mac_address <$> ifaces)) ->
  requested_macs ifaces ⊆ s ->
  NoDup (mac_address <$> ifaces') /\ Forall2 filled_in ifaces ifaces'.
Proof.
  revert s g ifaces' s' g'. induction ifaces as [|iface rest IH];
    intros s g ifaces' s' g' H Hnd Hsub; cbn [generate_missing_macs] in H.
  - injection H as <- <- <-. split; constructor.
  - cbn [fmap list_fmap] in Hnd. rewrite filter_cons in Hnd.
    rewrite requested_macs_cons in Hsub.
    destruct (decide (mac_address iface = "")) as [He|Hne].
    + rewrite bool_decide_eq_true_2 in H by assumption.
      rewrite decide_False in Hnd by tauto.
      destruct (generate_unused_mac_address s g) as [[[mac|e] s1] g1] eqn:Eg;
        [|discriminate].
      apply generate_unused_fresh in Eg as [Hfresh ->].
      destruct (generate_missing_macs rest ({[mac]} ∪ s) g1) as [[[rest'|e] s2] g2] eqn:Er;
        [|discriminate].
      injection H as <- <- <-.
      pose proof (generate_missing_macs_spec _ _ _ _ _ _ Er ltac:(set_solver))
        as (_ & _ & Hm).
      apply IH in Er as [Hnd' Hf]; [|exact Hnd|set_solver].
      cbn [fmap list_fmap mac_address]. split.
      * constructor; [|exact Hnd']. intros Hin.
        destruct (Hm mac Hin) as [Hr|Hn]; [apply Hfresh; set_solver|apply Hn; set_solver].
      * constructor; [|exact Hf]. unfold filled_in. cbn. repeat split. congruence.
    + rewrite bool_decide_eq_false_2 in H by assumption.
      rewrite decide_True in Hnd by exact Hne.
      destruct (generate_missing_macs rest s g) as [[[rest'|e] s2] g2] eqn:Er;
        [|discriminate].
      injection H as <- <- <-.
      pose proof (generate_missing_macs_spec _ _ _ _ _ _ Er ltac:(set_solver))
        as (_ & _ & Hm).
      inversion Hnd as [|? ? Hout Hnd0]; subst.
      apply IH in Er as [Hnd' Hf]; [|exact Hnd0|set_solver].
      cbn [fmap list_fmap]. split.
      * constructor; [|exact Hnd']. intros Hin.
        destruct (Hm _ Hin) as [Hr|Hn].
        -- apply Hout. unfold requested_macs in Hr. now apply elem_of_list_to_set in Hr.
        -- apply Hn. set_solver.
      * constructor; [|exact Hf]. unfold filled_in. auto.
Qed.

Lemma make_vm_description_macs checked_args run d vm_desc d' :
  make_vm_description checked_args run d = (Return vm_desc, d') ->
  NoDup (desc_default_mac_address vm_desc
           :: (mac_address <$> desc_extra_interfaces vm_desc)) /\
  Forall2 filled_in (args_extra_interfaces checked_args) (desc_extra_interfaces vm_desc) /\
  macs_of_description vm_desc ## allocated_mac_addrs d /\
  vm_instance_specs d' = vm_instance_specs d.
Proof.
  intros H. pose proof (make_vm_description_spec checked_args run d) as Hspec.
  rewrite H in Hspec. destruct Hspec as [Hd' Hdis].
  assert (Hs : vm_instance_specs d' = vm_instance_specs d) by (now rewrite Hd').
  unfold make_vm_description in H.
  destruct (prepare_throws run); [discriminate|].
  destruct (check_requested_macs _ _) as [s1|e] eqn:Ec; [|discriminate].
  pose proof (check_requested_macs_NoDup _ _ _ Ec) as Hnd.
  apply check_requested_macs_spec in Ec as [-> _].
  destruct (generate_missing_macs _ _ _) as [[[ifaces'|e] s2] g2] eqn:Em; [|discriminate].
  pose proof (generate_missing_macs_spec _ _ _ _ _ _ Em ltac:(set_solver)) as (Hs2 & _).
  apply generate_missing_macs_NoDup in Em as [Hnd' Hf]; [|exact Hnd|set_solver].
  destruct (generate_unused_mac_address _ _) as [[[mac|e] s3] g3] eqn:Eg; [|discriminate].
  apply generate_unused_fresh in Eg as [Hfresh _].
  destruct (configure_throws run); [discriminate|]. injection H as <- _.
  cbn [desc_default_mac_address desc_extra_interfaces].
  split; [|auto]. constructor; [|exact Hnd'].
  intros Hin. apply Hfresh. rewrite Hs2. set_solver.
Qed.

Lemma create_failed_specs name e d :
  vm_instance_specs (snd (create_failed name e d)) = delete name (vm_instance_specs d).
Proof.
  unfold create_failed. cbn [snd persist_instances with_db with_operative vm_instance_specs].
  destruct (release_resources_lookup name (with_preparing (preparing_instances d ∖ {[ name ]}) d))
    as (_ & _ & _ & _ & H).
  cbn zeta in H. exact H.
Qed.

Lemma on_prepared_specs name start run result d n spec :
  vm_instance_specs (snd (on_prepared name start run result d)) !! n = Some spec ->
  (n <> name /\ vm_instance_specs d !! n = Some spec)
  \/ exists vm_desc,
       result = Return vm_desc /\ n = name /\
       spec = mkVMSpecs (desc_num_cores vm_desc) (desc_mem_size vm_desc)
                (desc_disk_space vm_desc) (desc_default_mac_address vm_desc)
                (desc_extra_interfaces vm_desc) (config_ssh_username run)
                (state_code off) ∅ false [].
Proof.
  assert (Hfail : forall e d0,
            vm_instance_specs d0 = vm_instance_specs d
            \/ (exists s, vm_instance_specs d0 = <[name := s]> (vm_instance_specs d)) ->
            vm_instance_specs (snd (create_failed name e d0)) !! n = Some spec ->
            n <> name /\ vm_instance_specs d !! n = Some spec).
  { intros e d0 Hd0. rewrite create_failed_specs. intros H.
    apply lookup_delete_Some in H as [Hne H]. split; [congruence|].
    destruct Hd0 as [->|[s ->]] in H; [exact H|].
    now rewrite lookup_insert_ne in H by congruence. }
  unfold on_prepared. destruct result as [vm_desc|e]; [|intros H; left; eapply Hfail; eauto].
  set (new_spec := mkVMSpecs _ _ _ _ _ _ _ _ _ _).
  set (d1 := with_specs _ d).
  assert (Hlook : <[name := new_spec]> (vm_instance_specs d) !! n = Some spec ->
                  (n <> name /\ vm_instance_specs d !! n = Some spec)
                  \/ exists vm_desc0, Return vm_desc = Return vm_desc0 /\ n = name /\
                                      spec = mkVMSpecs (desc_num_cores vm_desc0)
                                               (desc_mem_size vm_desc0)
                                               (desc_disk_space vm_desc0)
                                               (desc_default_mac_address vm_desc0)
                                               (desc_extra_interfaces vm_desc0)
                                               (config_ssh_username run)
                                               (state_code off) ∅ false []).
  { intros H. apply lookup_insert_Some in H as [[<- <-]|[Hne H]].
    - right. exists vm_desc. auto.
    - left. split; [congruence|exact H]. }
  destruct (create_virtual_machine run) as [vm|e].
  2:{ intros H. left. eapply Hfail; [|exact H]. right. eexists. reflexivity. }
  destruct start; [|exact Hlook].
  destruct (start_throws vm) as [e|]; [|exact Hlook].
  intros H. left. eapply Hfail; [|exact H]. right. eexists. reflexivity.
Qed.

Lemma create_vm_specs checked_args run start d n spec :
  vm_instance_specs (snd (create_vm checked_args run start d)) !! n = Some spec ->
  vm_instance_specs d !! n = Some spec \/
  (NoDup (default_mac_address spec :: (mac_address <$> extra_interfaces spec)) /\
   mac_set_from spec ## allocated_mac_addrs d /\
   Forall2 filled_in (args_extra_interfaces checked_args) (extra_interfaces spec)).
Proof.
  unfold create_vm.
  destruct (negb (bool_decide (option_errors checked_args = []))); [auto|].
  destruct (negb (bool_decide (nets_need_bridging checked_args = []))
            && negb (permission_to_bridge run)); [auto|].
  destruct (name_from _ _ _ _) as [[name|e] g]; [|auto].
  destruct (find_instance_and_react _ _ _ _) as [trail status].
  destruct (negb (ok status)); [auto|].
  destruct (decide (name ∈ preparing_instances d)); [auto|].
  destruct (if instances_running (operative_instances d) then None
            else health_check_throws run); [auto|].
  set (d1 := with_preparing _ d).
  destruct (make_vm_description checked_args run d1) as [result d2] eqn:Em.
  intros H. apply on_prepared_specs in H as [[_ H]|(vm_desc & -> & -> & ->)].
  - left. pose proof (make_vm_description_spec checked_args run d1) as Hspec.
    rewrite Em in Hspec. destruct result; destruct Hspec as [-> _]; exact H.
  - right. apply make_vm_description_macs in Em as (Hnd & Hf & Hdis & _).
    cbn [default_mac_address extra_interfaces]. auto.
Qed.

(** X27.  Whatever specification a create or launch request registers
    or changes, however the request ends, has pairwise distinct MAC
    addresses, none of which was allocated before the request, and its
    extra interfaces are the ones asked for, in their order, with the
    missing MAC addresses filled in.  So the specification passes the
    size test of the constructor when the daemon starts again. *)
Theorem create_vm_registers_distinct_macs (checked_args : CheckedArguments)
    (run : CreateRun) (start : bool) (d : Daemon) (n : string) (spec : VMSpecs) :
  vm_instance_specs (snd (create_vm checked_args run start d)) !! n = Some spec ->
  vm_instance_specs d !! n <> Some spec ->
  NoDup (default_mac_address spec :: (mac_address <$> extra_interfaces spec)) /\
  (size (mac_set_from spec) <=? length (extra_interfaces spec)) = false /\
  mac_set_from spec ## allocated_mac_addrs d /\
  Forall2 filled_in (args_extra_interfaces checked_args) (extra_interfaces spec).
Proof.
  intros H Hnew. apply create_vm_specs in H as [H|(Hnd & Hdis & Hf)]; [contradiction|].
  split; [exact Hnd|]. split; [now apply size_test_NoDup|]. auto.
Qed.

Lemma create_vm_registers_distinct_macs_witness :
  let spec := mkVMSpecs 1 1073741824 5368709120 "52:54:00:00:01:01"
                [ mkNetworkInterface "eth1" "52:54:00:00:01:00" true ]
                "ubuntu" (state_code off) ∅ false [] in
  NoDup (default_mac_address spec :: (mac_address <$> extra_interfaces spec)) /\
  (size (mac_set_from spec) <=? length (extra_interfaces spec)) = false /\
  mac_set_from spec ## allocated_mac_addrs constructed_daemon /\
  Forall2 filled_in (args_extra_interfaces fresh_args) (extra_interfaces spec).
Proof.
  apply (create_vm_registers_distinct_macs fresh_args smooth_run false constructed_daemon
           "fresh").
  - vm_compute. reflexivity.
  - vm_compute. discriminate.
Defined.

(** *** What the validation returns, and when *)

Lemma network_errors_cons lib run networks net rest :
  network_errors lib run networks (net :: rest)
  = (if bool_decide (host_network run networks net = None) then 1 else 0)
    + (if mac_accepted lib run net then 0 else 1)
    + network_errors lib run networks rest.
Proof.
  unfold network_errors. rewrite !filter_cons.
  destruct (decide (host_network run networks net = None)) as [H1|H1];
    [rewrite (bool_decide_eq_true_2 _ H1)|rewrite (bool_decide_eq_false_2 _ H1)];
    destruct (mac_accepted lib run net);
    destruct (decide (_ = false)); try congruence; cbn [length]; lia.
Qed.

Lemma mkValidation_eq i i' c b b' e e' l :
  i = i' -> b = b' -> e = e' ->
  mkValidation i c b e l = mkValidation i' c b' e' l.
Proof. now intros -> -> ->. Qed.

(** One pass of the loop, once the networks of the host are known or can
    be listed. *)
Lemma validate_interface_step lib run request networks net st :
  factory_networks run = networks_listed networks ->
  cached_networks st = None \/ cached_networks st = Some networks ->
  if passes run request networks net then
    exists log,
      validate_interface lib run request net st
      = Return (mkValidation
                  (interfaces st
                     ++ (if mac_accepted lib run net then [interface_of run net] else []))
                  (Some networks)
                  (bridging_needed st ++ bridging_of run networks [net])
                  (launch_errors st
                     ++ replicate (network_errors lib run networks [net]) INVALID_NETWORK)
                  log)
  else exists e, validate_interface lib run request net st = Throw e.
Proof.
  intros Hnets Hcache.
  assert (Hfetched : match cached_networks st with
                     | Some networks => Return networks
                     | None =>
                         match factory_networks run with
                         | networks_listed networks => Return networks
                         | networks_not_implemented => Throw (bridging_not_implemented run)
                         | networks_throw e => Throw e
                         end
                     end = Return networks).
  { destruct Hcache as [-> | ->]; [now rewrite Hnets|reflexivity]. }
  unfold validate_interface, passes. rewrite Hfetched.
  rewrite network_errors_cons.
  unfold bridging_of, host_network, mac_accepted, interface_of, requested_mac, resolved.
  cbn [omap list_omap].
  destruct (bool_decide (net_id net = bridged_network_name run)) eqn:Eb;
    destruct (bool_decide (bridged_interface run = "")) eqn:Ee; cbn [andb negb];
    try (eexists; reflexivity);
    destruct (dont_allow_auto request && bool_decide (net_mode net = Mode_AUTO));
    cbn [andb negb]; try (eexists; reflexivity);
    destruct (find _ networks) as [host_net|] eqn:Ef; cbn [andb negb bool_decide];
    try (eexists; reflexivity);
    try (rewrite (bool_decide_eq_true_2 (None = None) eq_refl));
    try (rewrite (bool_decide_eq_false_2 (Some host_net = None)) by discriminate);
    cbn [andb negb]; try (eexists; reflexivity);
    destruct (bool_decide (to_lower run (net_mac_address net) = "")
              || valid_mac_address lib (to_lower run (net_mac_address net)));
    destruct (needs_authorization host_net) || idtac;
    change (network_errors lib run networks []) with 0;
    eexists; apply (f_equal Return), mkValidation_eq;
    cbn [replicate Nat.add app]; rewrite <- ?app_assoc, ?app_nil_r; reflexivity.
Qed.

Lemma validate_interfaces_spec lib run request networks nets st :
  factory_networks run = networks_listed networks ->
  cached_networks st = None \/ cached_networks st = Some networks ->
  if forallb (passes run request networks) nets then
    exists cache log,
      validate_interfaces lib run request nets st
      = Return (mkValidation
                  (interfaces st
                     ++ (interface_of run
                           <$> filter (fun net => mac_accepted lib run net = true) nets))
                  cache
                  (bridging_needed st ++ bridging_of run networks nets)
                  (launch_errors st
                     ++ replicate (network_errors lib run networks nets) INVALID_NETWORK)
                  log)
  else exists e, validate_interfaces lib run request nets st = Throw e.
Proof.
  intros Hnets. revert st. induction nets as [|net rest IH]; intros st Hcache.
  - exists (cached_networks st), (warnings st).
    change (network_errors lib run networks []) with 0. cbn. rewrite !app_nil_r.
    destruct st; reflexivity.
  - cbn [forallb validate_interfaces].
    pose proof (validate_interface_step lib run request networks net st Hnets Hcache) as Hstep.
    destruct (passes run request networks net); cbn [andb].
    2:{ destruct Hstep as [e ->]. eauto. }
    destruct Hstep as [log ->].
    set (st1 := mkValidation _ _ _ _ _).
    specialize (IH st1 (or_intror eq_refl)).
    destruct (forallb (passes run request networks) rest); [|exact IH].
    destruct IH as (cache & log' & ->). exists cache, log'.
    apply (f_equal Return), mkValidation_eq; unfold st1; cbn [interfaces bridging_needed
      launch_errors]; rewrite <- app_assoc; f_equal.
    + rewrite filter_cons. destruct (mac_accepted lib run net).
      * now rewrite decide_True by reflexivity.
      * now rewrite decide_False by discriminate.
    + unfold bridging_of. cbn [omap list_omap].
      now destruct (host_network run networks net) as [h|]; [destruct (needs_authorization h)|].
    + rewrite (network_errors_cons lib run networks net rest).
      rewrite (network_errors_cons lib run networks net []).
      change (network_errors lib run networks []) with 0.
      rewrite Nat.add_0_r. symmetry. apply replicate_add.
Qed.

Lemma validate_interfaces_unlisted lib run request nets st :
  (forall networks, factory_networks run <> networks_listed networks) ->
  cached_networks st = None -> nets <> [] ->
  exists e, validate_interfaces lib run request nets st = Throw e.
Proof.
  intros Hun Hcache Hne. destruct nets as [|net rest]; [congruence|].
  cbn [validate_interfaces].
  assert (Hstep : exists e, validate_interface lib run request net st = Throw e).
  { unfold validate_interface. rewrite Hcache.
    destruct (_ && _); [eauto|].
    destruct (factory_networks run) as [networks| |e]; [|eauto..].
    now destruct (Hun networks). }
  destruct Hstep as [e ->]. eauto.
Qed.

(** X28.  [validate_extra_interfaces] on a request without network
    options returns at once and asks the factory nothing.  When the
    factory lists the networks of the host, it returns exactly when no
    option stands for the bridged network while that setting is empty or
    names no network of the host, and no option asks for the automatic
    mode of an image that does not allow it; it then returns one
    interface, in order, for each option whose lower-cased MAC address is
    empty or valid, appends the networks that need authorization and adds
    one error code for each unknown network and one for each MAC address
    it rejects.  When the factory cannot list the networks, any request
    with a network option throws. *)
Theorem validate_extra_interfaces_spec (lib : Library) (run : NetworkRun)
    (request : LaunchNetworks) (nets_need_bridging : list string)
    (option_errors : list LaunchErrorCode) :
  let nets := network_options request in
  let result := validate_extra_interfaces lib run request nets_need_bridging option_errors in
  (nets = [] -> result = Return ([], nets_need_bridging, option_errors, [])) /\
  (forall networks,
     factory_networks run = networks_listed networks ->
     if forallb (passes run request networks) nets then
       exists log,
         result
         = Return (interface_of run <$> filter (fun net => mac_accepted lib run net = true) nets,
                   nets_need_bridging ++ bridging_of run networks nets,
                   option_errors
                     ++ replicate (network_errors lib run networks nets) INVALID_NETWORK,
                   log)
     else exists e, result = Throw e) /\
  (nets <> [] -> (forall networks, factory_networks run <> networks_listed networks) ->
   exists e, result = Throw e).
Proof.
  intros nets result. unfold result, validate_extra_interfaces. fold nets.
  split; [intros ->; reflexivity|]. split.
  - intros networks Hnets.
    pose proof (validate_interfaces_spec lib run request networks nets
                  (mkValidation [] None nets_need_bridging option_errors []) Hnets
                  (or_introl eq_refl)) as H.
    destruct (forallb (passes run request networks) nets).
    + destruct H as (cache & log & ->). exists log. reflexivity.
    + destruct H as [e ->]. eauto.
  - intros Hne Hun.
    destruct (validate_interfaces_unlisted lib run request nets
                (mkValidation [] None nets_need_bridging option_errors []) Hun eq_refl Hne)
      as [e ->].
    eauto.
Qed.

(** Three options: the bridged shortcut, a network the host does not
    have, and a MAC address that is not valid.  Only the first yields an
    interface. *)
Example validate_extra_interfaces_bridged :
  validate_extra_interfaces example_library bridged_run
    (mkLaunchNetworks "" "jammy"
       [ mkNetworkOptions "bridged" Mode_AUTO "";
         mkNetworkOptions "en7" Mode_MANUAL "zz";
         mkNetworkOptions "en0" Mode_MANUAL "zz" ]) [] []
  = Return ([ mkNetworkInterface "en0" "" true ], [ "en0"; "en0" ],
            [ INVALID_NETWORK; INVALID_NETWORK; INVALID_NETWORK ],
            [ ev_warning ("Invalid network name " +:+ dquote +:+ "en7" +:+ dquote);
              ev_warning ("Invalid MAC address " +:+ dquote +:+ "zz" +:+ dquote);
              ev_warning ("Invalid MAC address " +:+ dquote +:+ "zz" +:+ dquote) ]).
Proof. vm_compute. reflexivity. Qed.

(** An image that cannot be bridged refuses the automatic mode. *)
Example validate_extra_interfaces_core :
  validate_extra_interfaces example_library bridged_run
    (mkLaunchNetworks "" "core" [ mkNetworkOptions "en0" Mode_AUTO "" ]) [] []
  = Throw (runtime_error ("Automatic network configuration not available for " +:+ "core"
                            +:+ ". Consider using manual mode.")).
Proof. vm_compute. reflexivity. Qed.

(** *** The daemon started again on what it persisted *)

Lemma load_db_persisted lib registry :
  reads_decimal lib ->
  map_Forall (fun _ spec => canonical_spec lib spec) registry ->
  load_db lib (Some (doc_object (instance_records_json registry))) = Return (registry, []).
Proof.
  intros Hdec Hall.
  unfold load_db. destruct (obj_isEmpty (instance_records_json registry)) eqn:Ee.
  - f_equal. f_equal. symmetry.
    rewrite instance_records_json_inserted in Ee.
    rewrite <- (inserted_map_to_list registry).
    destruct (inserted (map_to_list registry) []); [reflexivity|discriminate].
  - rewrite instance_records_json_inserted.
    rewrite load_records_canonical; [|exact Hdec|].
    + now rewrite inserted_map_to_list.
    + apply Forall_forall. intros [k spec] Hin. cbn.
      apply inserted_elem in Hin. exact (Hall k spec Hin).
Qed.

(** X29.  A well-formed daemon persists its registry; when the
    specifications are canonical (what [load_db] reads back as written),
    each has pairwise distinct MAC addresses, and vault, images and
    factory answer for every instance, the constructor run on the
    persisted database returns a daemon with the same instances: the same
    names in the operative and in the deleted table, the same allocated
    MAC addresses, and for each instance its specification, changed at
    most in its state and its mounts. *)
Theorem restart_keeps_instances (lib : Library) (run : StartupRun) (d : Daemon) :
  reads_decimal lib ->
  well_formed d ->
  (forall name spec, vm_instance_specs d !! name = Some spec ->
     canonical_spec lib spec /\
     NoDup (default_mac_address spec :: (mac_address <$> extra_interfaces spec)) /\
     has_record_for run name = true /\
     image_file_lost run name = false /\
     exists vm, factory_create run name = Return vm) ->
  exists d',
    Daemon_constructor lib (Some (doc_object (instance_db (persist_instances d)))) run
    = Return d' /\
    allocated_mac_addrs d' = allocated_mac_addrs d /\
    forall name,
      (is_Some (operative_instances d' !! name) <-> is_Some (operative_instances d !! name)) /\
      (is_Some (deleted_instances d' !! name) <-> is_Some (deleted_instances d !! name)) /\
      match vm_instance_specs d !! name with
      | None => vm_instance_specs d' !! name = None
      | Some spec => exists spec', vm_instance_specs d' !! name = Some spec' /\ kept_as spec spec'
      end.
Proof.
  intros Hdec [(Hmac & Hdis & Hreg) [Hop Hdel]] Hgood.
  destruct (constructor_admits lib
              (Some (doc_object (instance_db (persist_instances d)))) run
              (vm_instance_specs d) []) as (d' & E & Ha & Hall).
  - apply load_db_persisted; [exact Hdec|].
    intros name spec Hs. apply (Hgood name spec Hs).
  - exact Hdis.
  - intros name spec Hs. destruct (Hgood name spec Hs) as (_ & H1 & H2 & H3). auto.
  - exists d'. split; [exact E|]. split; [now rewrite Ha, Hmac|].
    intros name. specialize (Hall name).
    destruct (vm_instance_specs d !! name) as [spec|] eqn:Es.
    + destruct Hall as (spec' & vm & _ & Hs' & Hk & Ho' & Hd').
      rewrite Ho', Hd'.
      assert (Hflag : if deleted spec then is_Some (deleted_instances d !! name)
                                           /\ operative_instances d !! name = None
                      else is_Some (operative_instances d !! name)
                           /\ deleted_instances d !! name = None).
      { destruct (Hreg name) as [Hin|Hin]; [eauto| |].
        - destruct (Hop name Hin) as (s & Hs & Hf). rewrite Es in Hs. inversion Hs; subst.
          rewrite Hf. split; [exact Hin|].
          destruct (deleted_instances d !! name) eqn:Ed; [|reflexivity].
          destruct (Hdel name) as (s' & Hs'' & Hf'); [eauto|]. congruence.
        - destruct (Hdel name Hin) as (s & Hs & Hf). rewrite Es in Hs. inversion Hs; subst.
          rewrite Hf. split; [exact Hin|].
          destruct (operative_instances d !! name) eqn:Eo; [|reflexivity].
          destruct (Hop name) as (s' & Hs'' & Hf'); [eauto|]. congruence. }
      destruct (deleted spec); destruct Hflag as [Hin Hout]; rewrite Hout.
      * repeat split; eauto; intros [x Hx]; discriminate.
      * repeat split; eauto; intros [x Hx]; discriminate.
    + destruct Hall as (Hs' & Ho' & Hd'). rewrite Ho', Hd'.
      assert (Hno : operative_instances d !! name = None /\ deleted_instances d !! name = None).
      { split.
        - destruct (operative_instances d !! name) eqn:Eo; [|reflexivity].
          destruct (Hop name) as (s & Hs & _); [eauto|]. congruence.
        - destruct (deleted_instances d !! name) eqn:Ed; [|reflexivity].
          destruct (Hdel name) as (s & Hs & _); [eauto|]. congruence. }
      destruct Hno as [-> ->]. auto.
Qed.

Lemma restart_keeps_instances_witness :
  let d := daemon_two_mounts in
  exists d',
    Daemon_constructor example_library
      (Some (doc_object (instance_db (persist_instances d)))) accepting_startup
    = Return d' /\
    allocated_mac_addrs d' = allocated_mac_addrs d /\
    forall name,
      (is_Some (operative_instances d' !! name) <-> is_Some (operative_instances d !! name)) /\
      (is_Some (deleted_instances d' !! name) <-> is_Some (deleted_instances d !! name)) /\
      match vm_instance_specs d !! name with
      | None => vm_instance_specs d' !! name = None
      | Some spec => exists spec', vm_instance_specs d' !! name = Some spec' /\ kept_as spec spec'
      end.
Proof.
  apply (restart_keeps_instances example_library accepting_startup daemon_two_mounts).
  - exact example_library_reads_decimal.
  - exact daemon_two_mounts_well_formed.
  - intros name spec H. cbn [vm_instance_specs daemon_two_mounts] in H.
    apply lookup_singleton_Some in H as [<- <-].
    split; [|split; [|split; [reflexivity|split; [reflexivity|eexists; reflexivity]]]].
    + unfold canonical_spec, in_int, INT_MIN, INT_MAX. cbn.
      repeat apply conj; try lia; try discriminate; try reflexivity.
      * constructor.
      * intros target mount Hm.
        assert (mount = a_mount) as ->.
        { apply lookup_insert_Some in Hm as [[_ <-]|[_ Hm]]; [reflexivity|].
          apply lookup_singleton_Some in Hm as [_ <-]. reflexivity. }
        unfold canonical_mount, canonical_mappings, in_int, INT_MIN, INT_MAX. cbn.
        repeat apply conj; try lia; try reflexivity; constructor.
    + cbn. apply NoDup_singleton.
Defined.

Lemma assign_ethernet_fresh name f ethernets :
  name ∉ ethernets.*1 -> assign_ethernet name f ethernets = ethernets ++ [(name, f null_ethernet)].
Proof.
  induction ethernets as [|[k entry] rest IH]; intros Hn; [reflexivity|].
  cbn [assign_ethernet]. change (((k, entry) :: rest).*1) with (k :: rest.*1) in Hn.
  rewrite not_elem_of_cons in Hn. destruct Hn as [Hne Hn].
  rewrite decide_False by congruence. now rewrite IH.
Qed.

Lemma assign_ethernet_last name f ethernets entry :
  name ∉ ethernets.*1 ->
  assign_ethernet name f (ethernets ++ [(name, entry)]) = ethernets ++ [(name, f entry)].
Proof.
  induction ethernets as [|[k e] rest IH]; intros Hn.
  - cbn. now rewrite decide_True.
  - change (((k, e) :: rest).*1) with (k :: rest.*1) in Hn.
    rewrite not_elem_of_cons in Hn. destruct Hn as [Hne Hn].
    cbn [app assign_ethernet]. rewrite decide_False by congruence. now rewrite IH.
Qed.

Lemma extra_name_inj i j : extra_name i = extra_name j -> i = j.
Proof.
  unfold extra_name.
  change ("extra" +:+ string_of_N (N.of_nat i))
    with (String "e" (String "x" (String "t" (String "r" (String "a"
            (string_of_N (N.of_nat i))))))).
  change ("extra" +:+ string_of_N (N.of_nat j))
    with (String "e" (String "x" (String "t" (String "r" (String "a"
            (string_of_N (N.of_nat j))))))).
  intros [= H]. apply (f_equal N_of_string) in H. rewrite !N_of_string_of_N in H.
  injection H as H. now apply Nat2N.inj.
Qed.

Lemma extra_name_default i : extra_name i <> "default".
Proof.
  unfold extra_name.
  change ("extra" +:+ string_of_N (N.of_nat i))
    with (String "e" (String "x" (String "t" (String "r" (String "a"
            (string_of_N (N.of_nat i))))))).
  discriminate.
Qed.

Lemma extra_ethernets_names i ifaces name :
  name ∈ (extra_ethernets i ifaces).*1 -> exists j, i <= j /\ name = extra_name j.
Proof.
  revert i. induction ifaces as [|iface rest IH]; intros i H; [now apply not_elem_of_nil in H|].
  cbn [extra_ethernets] in H. rewrite fmap_app, elem_of_app in H. destruct H as [H|H].
  - destruct (auto_mode iface); [|now apply not_elem_of_nil in H].
    apply list_elem_of_singleton in H. exists i. split; [lia|exact H].
  - destruct (IH (S i) H) as (j & Hj & ->). exists j. split; [lia|reflexivity].
Qed.

Lemma extra_ethernets_NoDup i ifaces : NoDup (extra_ethernets i ifaces).*1.
Proof.
  revert i. induction ifaces as [|iface rest IH]; intros i; [constructor|].
  cbn [extra_ethernets]. rewrite fmap_app. destruct (auto_mode iface); [|apply IH].
  cbn. constructor; [|apply IH]. intros H.
  apply extra_ethernets_names in H as (j & Hj & Heq). apply extra_name_inj in Heq. lia.
Qed.

Lemma configure_extras_spec i ifaces ethernets :
  (forall name, name ∈ ethernets.*1 -> name = "default" \/ exists j, j < i /\ name = extra_name j) ->
  configure_extras i ifaces ethernets = ethernets ++ extra_ethernets i ifaces.
Proof.
  revert i ethernets. induction ifaces as [|iface rest IH]; intros i ethernets Hnames.
  - cbn. now rewrite app_nil_r.
  - cbn [configure_extras extra_ethernets]. destruct (auto_mode iface).
    + assert (Hfresh : extra_name i ∉ ethernets.*1).
      { intros H. destruct (Hnames _ H) as [H'|(j & Hj & H')].
        - now apply extra_name_default in H'.
        - apply extra_name_inj in H'. lia. }
      cbn zeta. rewrite (assign_ethernet_fresh _ _ _ Hfresh).
      rewrite !(assign_ethernet_last _ _ _ _ Hfresh).
      rewrite IH.
      * rewrite <- app_assoc. reflexivity.
      * intros name H. rewrite fmap_app, elem_of_app in H. destruct H as [H|H].
        -- destruct (Hnames _ H) as [?|(j & Hj & ?)]; [now left|].
           right. exists j. split; [lia|assumption].
        -- apply list_elem_of_singleton in H. right. exists i. split; [lia|exact H].
    + rewrite IH; [reflexivity|].
      intros name H. destruct (Hnames _ H) as [?|(j & Hj & ?)]; [now left|].
      right. exists j. split; [lia|assumption].
Qed.

Lemma extra_ethernets_lookup i ifaces j iface :
  ifaces !! j = Some iface -> auto_mode iface = true ->
  (extra_name (i + j), extra_ethernet iface) ∈ extra_ethernets i ifaces.
Proof.
  revert i j. induction ifaces as [|x rest IH]; intros i j Hj Hauto; [discriminate|].
  cbn [extra_ethernets]. apply elem_of_app. destruct j as [|j].
  - cbn in Hj. injection Hj as ->. left. rewrite Hauto, Nat.add_0_r. left.
  - right. cbn in Hj. replace (i + S j) with (S i + j) by lia. now apply IH.
Qed.

Lemma extra_ethernets_length i ifaces :
  length (extra_ethernets i ifaces)
  = length (filter (fun iface => auto_mode iface = true) ifaces).
Proof.
  revert i. induction ifaces as [|x rest IH]; intros i; [reflexivity|].
  cbn [extra_ethernets]. rewrite length_app, IH, filter_cons.
  destruct (auto_mode x).
  - now rewrite decide_True by reflexivity.
  - now rewrite decide_False by discriminate.
Qed.

(** X30.  The network configuration is left null exactly when no extra
    interface is in automatic mode.  Otherwise its version is 2 and its
    ethernets are, under pairwise distinct names, the entry default with
    the default MAC address and DHCP, and one entry extra<i> for each
    extra interface in automatic mode, [i] being its position among all
    the extra interfaces, with its MAC address, DHCP, the route metric
    200 and the optional flag; no entry overwrites another. *)
Theorem make_cloud_init_network_config_spec (default_mac_addr : string)
    (extra_interfaces : list NetworkInterface) :
  match make_cloud_init_network_config default_mac_addr extra_interfaces with
  | None => Forall (fun iface => auto_mode iface = false) extra_interfaces
  | Some (version, ethernets) =>
      Exists (fun iface => auto_mode iface = true) extra_interfaces /\
      version = "2" /\
      NoDup ethernets.*1 /\
      length ethernets
      = S (length (filter (fun iface => auto_mode iface = true) extra_interfaces)) /\
      ethernets !! 0 = Some ("default", default_ethernet default_mac_addr) /\
      forall i iface,
        extra_interfaces !! i = Some iface -> auto_mode iface = true ->
        (extra_name i, extra_ethernet iface) ∈ ethernets
  end.
Proof.
  unfold make_cloud_init_network_config.
  destruct (existsb auto_mode extra_interfaces) eqn:E.
  - assert (Hstart : assign_ethernet "default" (set_dhcp4 true)
                       (assign_ethernet "default" (set_macaddress default_mac_addr) [])
                     = [("default", default_ethernet default_mac_addr)]) by reflexivity.
    cbn zeta. rewrite Hstart. rewrite configure_extras_spec.
    2:{ intros name H. apply list_elem_of_singleton in H. now left. }
    split.
    { apply existsb_exists in E as (x & Hin & Hx). apply Exists_exists. exists x.
      split; [now apply list_elem_of_In|exact Hx]. }
    split; [reflexivity|]. split.
    { cbn. constructor; [|apply extra_ethernets_NoDup]. intros H.
      apply extra_ethernets_names in H as (j & _ & H). symmetry in H.
      now apply extra_name_default in H. }
    split; [cbn; now rewrite extra_ethernets_length|]. split; [reflexivity|].
    intros i iface Hi Hauto. right.
    exact (extra_ethernets_lookup 0 extra_interfaces i iface Hi Hauto).
  - apply Forall_forall. intros x Hin.
    destruct (auto_mode x) eqn:Ex; [|reflexivity].
    assert (existsb auto_mode extra_interfaces = true).
    { apply existsb_exists. exists x. split; [now apply list_elem_of_In|exact Ex]. }
    congruence.
Qed.

(** Of three extra interfaces, the first and the last are automatic:
    their entries are numbered by position, not by rank. *)
Example make_cloud_init_network_config_positions :
  make_cloud_init_network_config "52:54:00:00:00:01"
    [ mkNetworkInterface "eth1" "52:54:00:00:00:02" true;
      mkNetworkInterface "eth2" "52:54:00:00:00:03" false;
      mkNetworkInterface "eth3" "52:54:00:00:00:04" true ]
  = Some ("2",
          [ ("default", mkEthernet (Some "52:54:00:00:00:01") (Some true) None None);
            ("extra0", mkEthernet (Some "52:54:00:00:00:02") (Some true) (Some 200%Z)
                         (Some true));
            ("extra2", mkEthernet (Some "52:54:00:00:00:04") (Some true) (Some 200%Z)
                         (Some true)) ]).
Proof. vm_compute. reflexivity. Qed.

